(** * The per-entity query engine of prisma-idb, as a shallow embedding

    The generated client [prisma-idb-client.ts] holds one engine class per
    entity of [schema.prisma]: [UserIDBClass], [ProfileIDBClass],
    [PostIDBClass], [CommentIDBClass] (and [AllFieldScalarTypesIDBClass],
    which has no relation and is left out here).  The development below
    follows the generated code method by method.

    Conventions.
    - An IndexedDB object store with key path [["id"]] is a list of records
      kept in key order; a transaction is the working copy of the four
      stores together with the copy taken when it began.
    - An [async] method is a function of the state of the world to an
      outcome: a value or a thrown error, each with the world it leaves.
    - Queries carry [where] and [orderBy]; [select] and [include] are only
      modelled in the scope analyser, so every find below returns the plain
      stored records (with no [select]/[include] both [_applyRelations] and
      [_applySelectClause] give their input back).
    - The helpers of [idb-utils.ts] are generated by code that is not part of
      the sources at hand; they are modelled from the specification and
      marked so. *)

From Stdlib Require Import List ZArith String Ascii Bool Lia Permutation Sorted.
Import ListNotations.
Local Open Scope Z_scope.
Local Open Scope list_scope.

Set Implicit Arguments.
Set Warnings "-register-all".

(** ** JavaScript values that matter to the engine *)

(** A value that may be [null]. *)
Inductive Nullable (A : Type) : Type :=
| JNull : Nullable A
| JVal : A -> Nullable A.
Arguments JNull {A}.
Arguments JVal {A} _.

Definition isNil {A : Type} (l : list A) : bool :=
  match l with [] => true | _ => false end.

Definition inb {A : Type} (eqb : A -> A -> bool) (x : A) (l : list A) : bool :=
  existsb (eqb x) l.

(** [String.prototype.startsWith], [endsWith] and [includes]. *)
Definition startsWith (s p : string) : bool := String.prefix p s.

Fixpoint endsWith (s p : string) : bool :=
  String.eqb s p ||
  match s with
  | EmptyString => false
  | String _ s' => endsWith s' p
  end.

Fixpoint includes (s p : string) : bool :=
  String.prefix p s ||
  match s with
  | EmptyString => false
  | String _ s' => includes s' p
  end.

(** ** Scalar filters of [idb-utils.ts] *)

(** The filter object of a string field; every key is optional, [equals] and
    [not] may be [null]. *)
Record StringFilter : Type := mkStringFilter {
  sf_equals : option (Nullable string);
  sf_not : option (Nullable string);
  sf_in : option (list string);
  sf_notIn : option (list string);
  sf_contains : option string;
  sf_startsWith : option string;
  sf_endsWith : option string
}.

(** What a where clause may hold for a string field: a bare string, [null],
    or a filter object. *)
Inductive StringFilterArg : Type :=
| StrIs (s : string)
| StrNull
| StrFilter (f : StringFilter).

Definition optEqb {A : Type} (eqb : A -> A -> bool) (a : option A) (b : Nullable A) : bool :=
  match a, b with
  | None, JNull => true
  | Some x, JVal y => eqb x y
  | _, _ => false
  end.

Definition optTest {A : Type} (value : option A) (p : A -> bool) : bool :=
  match value with
  | None => false
  | Some v => p v
  end.

Definition whenSet {A : Type} (o : option A) (p : A -> bool) : bool :=
  match o with
  | None => true
  | Some a => p a
  end.

(** Modelled from the spec: [whereStringFilter(record, field, filter)] of
    idb-utils.ts, which is not among the sources.  The spec lists equals,
    contains, startsWith, endsWith, in, notIn and negation; an absent filter
    accepts the record.  The record's value is passed instead of the record
    and the field name; [None] is a [null] value. *)
Definition whereStringFilter (value : option string) (arg : option StringFilterArg) : bool :=
  match arg with
  | None => true
  | Some (StrIs s) => optEqb String.eqb value (JVal s)
  | Some StrNull => optEqb String.eqb value JNull
  | Some (StrFilter f) =>
      whenSet (sf_equals f) (fun e => optEqb String.eqb value e) &&
      whenSet (sf_not f) (fun e => negb (optEqb String.eqb value e)) &&
      whenSet (sf_in f) (fun l => optTest value (fun v => inb String.eqb v l)) &&
      whenSet (sf_notIn f) (fun l => negb (optTest value (fun v => inb String.eqb v l))) &&
      whenSet (sf_contains f) (fun p => optTest value (fun v => includes v p)) &&
      whenSet (sf_startsWith f) (fun p => optTest value (fun v => startsWith v p)) &&
      whenSet (sf_endsWith f) (fun p => optTest value (fun v => endsWith v p))
  end.

Record NumberFilter : Type := mkNumberFilter {
  nf_equals : option (Nullable Z);
  nf_not : option (Nullable Z);
  nf_in : option (list Z);
  nf_notIn : option (list Z);
  nf_lt : option Z;
  nf_lte : option Z;
  nf_gt : option Z;
  nf_gte : option Z
}.

Inductive NumberFilterArg : Type :=
| NumIs (n : Z)
| NumNull
| NumFilter (f : NumberFilter).

(** Modelled from the spec: [whereNumberFilter(record, field, filter)] of
    idb-utils.ts (equals, lt, lte, gt, gte, in, notIn, negation; a range is
    the conjunction of its bounds). *)
Definition whereNumberFilter (value : option Z) (arg : option NumberFilterArg) : bool :=
  match arg with
  | None => true
  | Some (NumIs n) => optEqb Z.eqb value (JVal n)
  | Some NumNull => optEqb Z.eqb value JNull
  | Some (NumFilter f) =>
      whenSet (nf_equals f) (fun e => optEqb Z.eqb value e) &&
      whenSet (nf_not f) (fun e => negb (optEqb Z.eqb value e)) &&
      whenSet (nf_in f) (fun l => optTest value (fun v => inb Z.eqb v l)) &&
      whenSet (nf_notIn f) (fun l => negb (optTest value (fun v => inb Z.eqb v l))) &&
      whenSet (nf_lt f) (fun b => optTest value (fun v => v <? b)) &&
      whenSet (nf_lte f) (fun b => optTest value (fun v => v <=? b)) &&
      whenSet (nf_gt f) (fun b => optTest value (fun v => b <? v)) &&
      whenSet (nf_gte f) (fun b => optTest value (fun v => b <=? v))
  end.

(** The filter object of a scalar-list field. *)
Record ListFilter (A : Type) : Type := mkListFilter {
  lf_equals : option (list A);
  lf_has : option A;
  lf_hasEvery : option (list A);
  lf_hasSome : option (list A);
  lf_isEmpty : option bool
}.

Fixpoint listEqb {A : Type} (eqb : A -> A -> bool) (l1 l2 : list A) : bool :=
  match l1, l2 with
  | [], [] => true
  | x :: l1', y :: l2' => eqb x y && listEqb eqb l1' l2'
  | _, _ => false
  end.

(** Modelled from the spec: [whereStringListFilter] and
    [whereNumberListFilter] of idb-utils.ts (has, hasEvery, hasSome, isEmpty,
    equality of the whole list).  A list field that was never set is read as
    the empty list, as [_preprocessListFields] does for results. *)
Definition whereListFilter {A : Type} (eqb : A -> A -> bool)
    (value : option (list A)) (arg : option (ListFilter A)) : bool :=
  let l := match value with None => [] | Some l => l end in
  match arg with
  | None => true
  | Some f =>
      whenSet (lf_equals f) (fun e => listEqb eqb l e) &&
      whenSet (lf_has f) (fun x => inb eqb x l) &&
      whenSet (lf_hasEvery f) (fun xs => forallb (fun x => inb eqb x l) xs) &&
      whenSet (lf_hasSome f) (fun xs => existsb (fun x => inb eqb x l) xs) &&
      whenSet (lf_isEmpty f) (fun b => Bool.eqb (isNil l) b)
  end.

Definition whereStringListFilter := whereListFilter String.eqb.
Definition whereNumberListFilter := whereListFilter Z.eqb.

(** ** Records, as the schema declares them

    A foreign key that the engine may leave unset is an [option]; for the
    nullable [Post.authorId], [None] is [null]. *)

Record UserRecord : Type := mkUser {
  User_id : Z;
  User_name : string
}.

Record ProfileRecord : Type := mkProfile {
  Profile_id : Z;
  Profile_bio : option string;
  Profile_userId : option Z
}.

Record PostRecord : Type := mkPost {
  Post_id : Z;
  Post_title : string;
  Post_authorId : option Z;
  Post_tags : option (list string);
  Post_numberArr : option (list Z)
}.

Record CommentRecord : Type := mkComment {
  Comment_id : string;
  Comment_postId : option Z;
  Comment_userId : option Z;
  Comment_text : string
}.

(** ** The store adapter: object stores with key path [["id"]] *)

Section ObjectStore.
Variables (K R : Type).
Variable key : R -> K.
Variable keyEqb : K -> K -> bool.
Variable keyLtb : K -> K -> bool.

(** [store.get([k])] *)
Definition store_get (k : K) (t : list R) : option R :=
  find (fun r => keyEqb (key r) k) t.

Fixpoint store_insert (r : R) (t : list R) : list R :=
  match t with
  | [] => [r]
  | x :: t' => if keyLtb (key r) (key x) then r :: t else x :: store_insert r t'
  end.

(** [store.delete([k])] *)
Definition store_delete (k : K) (t : list R) : list R :=
  filter (fun r => negb (keyEqb (key r) k)) t.

(** [store.add(r)]: refused when the key is taken. *)
Definition store_add (r : R) (t : list R) : option (list R) :=
  match store_get (key r) t with
  | Some _ => None
  | None => Some (store_insert r t)
  end.

(** [store.put(r)]: replaces the row with this key, or adds one. *)
Definition store_put (r : R) (t : list R) : list R :=
  store_insert r (store_delete (key r) t).

(** [store.openCursor(null, "prev")]: the row with the greatest key. *)
Fixpoint store_last (t : list R) : option R :=
  match t with
  | [] => None
  | x :: t' =>
      match store_last t' with
      | None => Some x
      | Some m => if keyLtb (key m) (key x) then Some x else Some m
      end
  end.

(** Membership of a record in a list of records, "record identity
    compared by primary key path". *)
Definition inByKey (r : R) (l : list R) : bool :=
  existsb (fun x => keyEqb (key x) (key r)) l.
End ObjectStore.

Record Store : Type := mkStore {
  UserStore : list UserRecord;
  ProfileStore : list ProfileRecord;
  PostStore : list PostRecord;
  CommentStore : list CommentRecord
}.

Definition emptyStore : Store := mkStore [] [] [] [].

(** ** Where clauses *)

(** The logical part of a where clause over the field clauses [F] of one
    entity.  [AND], [OR] and [NOT] take one clause or an array of them
    ([convertToArray]); one clause is the array of length one. *)
Inductive Where (F : Type) : Type :=
  MkWhere (AND OR NOT : option (list (Where F))) (fields : F).
Arguments MkWhere {F} _ _ _ _.

Definition whereFields {F : Type} (w : Where F) : F :=
  match w with MkWhere _ _ _ f => f end.

(** A filter on a to-one relation: [{ is, isNot, ...rest }], where the
    remaining keys are a where clause of the related entity. *)
Record ToOneFilter (W : Type) : Type := mkToOne {
  rel_is : option (Nullable W);
  rel_isNot : option (Nullable W);
  rel_rest : W
}.

(** A filter on a to-many relation. *)
Record ToManyFilter (W : Type) : Type := mkToMany {
  rel_every : option W;
  rel_some : option W;
  rel_none : option W
}.

Inductive UserWhereFields : Type :=
  mkUserWhere
    (uw_id : option NumberFilterArg)
    (uw_name : option StringFilterArg)
    (uw_profile : option (Nullable (ToOneFilter (Where ProfileWhereFields))))
    (uw_posts : option (ToManyFilter (Where PostWhereFields)))
    (uw_comments : option (ToManyFilter (Where CommentWhereFields)))
with ProfileWhereFields : Type :=
  mkProfileWhere
    (pw_id : option NumberFilterArg)
    (pw_bio : option StringFilterArg)
    (pw_userId : option NumberFilterArg)
    (pw_user : option (ToOneFilter (Where UserWhereFields)))
with PostWhereFields : Type :=
  mkPostWhere
    (tw_id : option NumberFilterArg)
    (tw_title : option StringFilterArg)
    (tw_authorId : option NumberFilterArg)
    (tw_tags : option (ListFilter string))
    (tw_numberArr : option (ListFilter Z))
    (tw_author : option (Nullable (ToOneFilter (Where UserWhereFields))))
    (tw_comments : option (ToManyFilter (Where CommentWhereFields)))
with CommentWhereFields : Type :=
  mkCommentWhere
    (cw_id : option StringFilterArg)
    (cw_postId : option NumberFilterArg)
    (cw_userId : option NumberFilterArg)
    (cw_text : option StringFilterArg)
    (cw_post : option (ToOneFilter (Where PostWhereFields)))
    (cw_user : option (ToOneFilter (Where UserWhereFields))).

Definition UserWhere : Type := Where UserWhereFields.
Definition ProfileWhere : Type := Where ProfileWhereFields.
Definition PostWhere : Type := Where PostWhereFields.
Definition CommentWhere : Type := Where CommentWhereFields.

Definition isNone {A : Type} (o : option A) : bool :=
  match o with None => true | Some _ => false end.

(** [Object.keys(w).length === 0], given the test on the field clauses. *)
Definition whereIsEmpty {F : Type} (fieldsEmpty : F -> bool) (w : Where F) : bool :=
  match w with
  | MkWhere a o n f => isNone a && isNone o && isNone n && fieldsEmpty f
  end.

Definition UserWhereFields_isEmpty (f : UserWhereFields) : bool :=
  match f with
  | mkUserWhere a b c d e => isNone a && isNone b && isNone c && isNone d && isNone e
  end.

Definition ProfileWhereFields_isEmpty (f : ProfileWhereFields) : bool :=
  match f with
  | mkProfileWhere a b c d => isNone a && isNone b && isNone c && isNone d
  end.

Definition PostWhereFields_isEmpty (f : PostWhereFields) : bool :=
  match f with
  | mkPostWhere a b c d e g h =>
      isNone a && isNone b && isNone c && isNone d && isNone e && isNone g && isNone h
  end.

Definition CommentWhereFields_isEmpty (f : CommentWhereFields) : bool :=
  match f with
  | mkCommentWhere a b c d e g =>
      isNone a && isNone b && isNone c && isNone d && isNone e && isNone g
  end.

(** ** The predicate evaluator *)

Section LogicalFilters.
Variables (K R W : Type).
Variable key : R -> K.
Variable keyEqb : K -> K -> bool.

(** Modelled from the spec: [applyLogicalFilters(records, whereClause, tx,
    keyPath, applyWhereFunction)] of idb-utils.ts.  "AND = intersection of
    all sub-clause matches (record identity compared by primary key path);
    OR = union, deduplicated by primary key; NOT = complement (records that
    do not satisfy any sub-clause)", order-preserving: each step keeps, in
    scan order, the records found in the sub-clause results. *)
Definition applyLogicalFilters (records : list R) (AND OR NOT : option (list W))
    (applyWhereFunction : list R -> W -> list R) : list R :=
  let records :=
    match AND with
    | None => records
    | Some clauses =>
        filter (fun r => forallb (fun c => inByKey key keyEqb r (applyWhereFunction records c)) clauses)
               records
    end in
  let records :=
    match OR with
    | None => records
    | Some clauses =>
        filter (fun r => existsb (fun c => inByKey key keyEqb r (applyWhereFunction records c)) clauses)
               records
    end in
  match NOT with
  | None => records
  | Some clauses =>
      filter (fun r => negb (existsb (fun c => inByKey key keyEqb r (applyWhereFunction records c)) clauses))
             records
  end.
End LogicalFilters.

Section ApplyWhere.
Variables (K R F : Type).
Variable key : R -> K.
Variable keyEqb : K -> K -> bool.
(** The per-record part of [_applyWhereClause]: the body of
    [records.map(async (record) => ...)].  The flag tells the clause handed
    to the call ([true]) from the sub-clauses under its [AND], [OR] and
    [NOT] ([false]): a sub-query written [{ ...w, k: v }] replaces keys of
    [w] at the top, and only there. *)
Variable matches : bool -> F -> R -> bool.

(** [_applyWhereClause(records, whereClause, tx)] for a clause that is
    present: the logical filters, which call back into
    [_applyWhereClause] on every sub-clause, then the per-record tests. *)
Fixpoint applyWhereFrom (top : bool) (w : Where F) (records : list R) {struct w} : list R :=
  match w with
  | MkWhere AND OR NOT fields =>
      filter (matches top fields)
             (applyLogicalFilters key keyEqb records AND OR NOT
                (fun rs c => applyWhereFrom false c rs))
  end.

(** The clause [{ NOT: { ...w }, k: v }] of an [every] quantifier: a fresh
    clause whose only field test is [scoped]. *)
Definition applyWhereNot (scoped : R -> bool) (w : Where F) (records : list R) : list R :=
  filter scoped
         (applyLogicalFilters key keyEqb records None None (Some [w])
            (fun rs c => applyWhereFrom false c rs)).
End ApplyWhere.

(** A clause as it is; and a clause written [{ ...w, k: v }], whose top-level
    per-record test is [top]. *)
Definition applyWhere {K R F : Type} (key : R -> K) (keyEqb : K -> K -> bool)
    (matches : F -> R -> bool) (w : Where F) (records : list R) : list R :=
  applyWhereFrom key keyEqb (fun _ => matches) true w records.

Definition applyWhereSpread {K R F : Type} (key : R -> K) (keyEqb : K -> K -> bool)
    (matches top : F -> R -> bool) (w : Where F) (records : list R) : list R :=
  applyWhereFrom key keyEqb (fun b => if b then top else matches) true w records.

(** The value written after a spread, [{ ...w, id: v }]: [None] when nothing
    is written, [Some None] when the value written is [undefined] (which
    removes the filter), [Some (Some k)] for the number [k]. *)
Definition spread (written : option (option Z)) (own : option NumberFilterArg)
  : option NumberFilterArg :=
  match written with
  | None => own
  | Some None => None
  | Some (Some k) => Some (NumIs k)
  end.

(** [{ where: { fk: k } }] evaluated on a table: the rows whose foreign key
    is [k]. *)
Definition scopedTo {R : Type} (fk : R -> option Z) (k : Z) (table : list R) : list R :=
  filter (fun r => whereNumberFilter (fk r) (Some (NumIs k))) table.

(** The keys that the engine writes after a spread, per entity. *)
Record PostScope : Type := mkPostScope {
  scope_Post_id : option (option Z);
  scope_Post_authorId : option (option Z)
}.
Record CommentScope : Type := mkCommentScope {
  scope_Comment_postId : option (option Z);
  scope_Comment_userId : option (option Z)
}.
Definition noPostScope : PostScope := mkPostScope None None.
Definition noCommentScope : CommentScope := mkCommentScope None None.

(** The per-record tests of the four [_applyWhereClause] methods.  A
    sub-query [this.client.x.findFirst({ where: ... })] or [findMany] is the
    where clause applied to the whole table of [x] ([findMany] with a where
    clause only); [findFirst] is non-null exactly when that list is not
    empty. *)
Fixpoint User_matches (st : Store) (whereClause : UserWhereFields)
    (id_ : option (option Z)) (record : UserRecord) {struct whereClause} : bool :=
  match whereClause with
  | mkUserWhere w_id w_name w_profile w_posts w_comments =>
    let profile_findMany w :=
      applyWhereSpread Profile_id Z.eqb
        (fun f => Profile_matches st f None)
        (fun f => Profile_matches st f (Some (Some (User_id record))))
        w (ProfileStore st) in
    let post_findMany w :=
      applyWhereSpread Post_id Z.eqb
        (fun f => Post_matches st f noPostScope)
        (fun f => Post_matches st f (mkPostScope None (Some (Some (User_id record)))))
        w (PostStore st) in
    let comment_findMany w :=
      applyWhereSpread Comment_id String.eqb
        (fun f => Comment_matches st f noCommentScope)
        (fun f => Comment_matches st f (mkCommentScope None (Some (Some (User_id record)))))
        w (CommentStore st) in
    whereStringFilter (Some (User_name record)) w_name &&
    whereNumberFilter (Some (User_id record)) (spread id_ w_id) &&
    match w_profile with
    | None => true
    | Some JNull => isNil (scopedTo Profile_userId (User_id record) (ProfileStore st))
    | Some (JVal rel) =>
        match rel_is rel with
        | None => true
        | Some JNull => isNil (scopedTo Profile_userId (User_id record) (ProfileStore st))
        | Some (JVal is_) => negb (isNil (profile_findMany is_))
        end &&
        match rel_isNot rel with
        | None => true
        | Some JNull => negb (isNil (scopedTo Profile_userId (User_id record) (ProfileStore st)))
        | Some (JVal isNot) => isNil (profile_findMany isNot)
        end &&
        (whereIsEmpty ProfileWhereFields_isEmpty (rel_rest rel)
         || negb (isNil (profile_findMany (rel_rest rel))))
    end &&
    match w_posts with
    | None => true
    | Some rel =>
        whenSet (rel_every rel) (fun every =>
          isNil (applyWhereNot Post_id Z.eqb (fun _ f => Post_matches st f noPostScope)
                   (fun p => whereNumberFilter (Post_authorId p) (Some (NumIs (User_id record))))
                   every (PostStore st))) &&
        whenSet (rel_some rel) (fun some => negb (isNil (post_findMany some))) &&
        whenSet (rel_none rel) (fun none => isNil (post_findMany none))
    end &&
    match w_comments with
    | None => true
    | Some rel =>
        whenSet (rel_every rel) (fun every =>
          isNil (applyWhereNot Comment_id String.eqb (fun _ f => Comment_matches st f noCommentScope)
                   (fun c => whereNumberFilter (Comment_userId c) (Some (NumIs (User_id record))))
                   every (CommentStore st))) &&
        whenSet (rel_some rel) (fun some => negb (isNil (comment_findMany some))) &&
        whenSet (rel_none rel) (fun none => isNil (comment_findMany none))
    end
  end

with Profile_matches (st : Store) (whereClause : ProfileWhereFields)
    (userId_ : option (option Z)) (record : ProfileRecord) {struct whereClause} : bool :=
  match whereClause with
  | mkProfileWhere w_id w_bio w_userId w_user =>
    let user_findMany w :=
      applyWhereSpread User_id Z.eqb
        (fun f => User_matches st f None)
        (fun f => User_matches st f (Some (Profile_userId record)))
        w (UserStore st) in
    whereStringFilter (Profile_bio record) w_bio &&
    whereNumberFilter (Some (Profile_id record)) w_id &&
    whereNumberFilter (Profile_userId record) (spread userId_ w_userId) &&
    match w_user with
    | None => true
    | Some rel =>
        match rel_is rel with
        | Some (JVal is_) => negb (isNil (user_findMany is_))
        | _ => true
        end &&
        match rel_isNot rel with
        | Some (JVal isNot) => isNil (user_findMany isNot)
        | _ => true
        end &&
        (whereIsEmpty UserWhereFields_isEmpty (rel_rest rel)
         || negb (isNil (user_findMany (rel_rest rel))))
    end
  end

with Post_matches (st : Store) (whereClause : PostWhereFields)
    (scope : PostScope) (record : PostRecord) {struct whereClause} : bool :=
  match whereClause with
  | mkPostWhere w_id w_title w_authorId w_tags w_numberArr w_author w_comments =>
    let user_findMany w :=
      applyWhereSpread User_id Z.eqb
        (fun f => User_matches st f None)
        (fun f => User_matches st f (Some (Post_authorId record)))
        w (UserStore st) in
    let comment_findMany w :=
      applyWhereSpread Comment_id String.eqb
        (fun f => Comment_matches st f noCommentScope)
        (fun f => Comment_matches st f (mkCommentScope (Some (Some (Post_id record))) None))
        w (CommentStore st) in
    whereStringFilter (Some (Post_title record)) w_title &&
    whereStringListFilter (Post_tags record) w_tags &&
    whereNumberFilter (Some (Post_id record)) (spread (scope_Post_id scope) w_id) &&
    whereNumberFilter (Post_authorId record) (spread (scope_Post_authorId scope) w_authorId) &&
    whereNumberListFilter (Post_numberArr record) w_numberArr &&
    match w_author with
    | None => true
    | Some JNull => isNone (Post_authorId record)
    | Some (JVal rel) =>
        match rel_is rel with
        | None => true
        | Some JNull => isNone (Post_authorId record)
        | Some (JVal is_) =>
            negb (isNone (Post_authorId record)) && negb (isNil (user_findMany is_))
        end &&
        match rel_isNot rel with
        | None => true
        | Some JNull => negb (isNone (Post_authorId record))
        | Some (JVal isNot) =>
            negb (isNone (Post_authorId record)) && isNil (user_findMany isNot)
        end &&
        (whereIsEmpty UserWhereFields_isEmpty (rel_rest rel)
         || (negb (isNone (Post_authorId record))
             && negb (isNil (user_findMany (rel_rest rel)))))
    end &&
    match w_comments with
    | None => true
    | Some rel =>
        whenSet (rel_every rel) (fun every =>
          isNil (applyWhereNot Comment_id String.eqb (fun _ f => Comment_matches st f noCommentScope)
                   (fun c => whereNumberFilter (Comment_postId c) (Some (NumIs (Post_id record))))
                   every (CommentStore st))) &&
        whenSet (rel_some rel) (fun some => negb (isNil (comment_findMany some))) &&
        whenSet (rel_none rel) (fun none => isNil (comment_findMany none))
    end
  end

with Comment_matches (st : Store) (whereClause : CommentWhereFields)
    (scope : CommentScope) (record : CommentRecord) {struct whereClause} : bool :=
  match whereClause with
  | mkCommentWhere w_id w_postId w_userId w_text w_post w_user =>
    let post_findMany w :=
      applyWhereSpread Post_id Z.eqb
        (fun f => Post_matches st f noPostScope)
        (fun f => Post_matches st f (mkPostScope (Some (Comment_postId record)) None))
        w (PostStore st) in
    let user_findMany w :=
      applyWhereSpread User_id Z.eqb
        (fun f => User_matches st f None)
        (fun f => User_matches st f (Some (Comment_userId record)))
        w (UserStore st) in
    whereStringFilter (Some (Comment_id record)) w_id &&
    whereStringFilter (Some (Comment_text record)) w_text &&
    whereNumberFilter (Comment_postId record) (spread (scope_Comment_postId scope) w_postId) &&
    whereNumberFilter (Comment_userId record) (spread (scope_Comment_userId scope) w_userId) &&
    match w_post with
    | None => true
    | Some rel =>
        match rel_is rel with
        | Some (JVal is_) => negb (isNil (post_findMany is_))
        | _ => true
        end &&
        match rel_isNot rel with
        | Some (JVal isNot) => isNil (post_findMany isNot)
        | _ => true
        end &&
        (whereIsEmpty PostWhereFields_isEmpty (rel_rest rel)
         || negb (isNil (post_findMany (rel_rest rel))))
    end &&
    match w_user with
    | None => true
    | Some rel =>
        match rel_is rel with
        | Some (JVal is_) => negb (isNil (user_findMany is_))
        | _ => true
        end &&
        match rel_isNot rel with
        | Some (JVal isNot) => isNil (user_findMany isNot)
        | _ => true
        end &&
        (whereIsEmpty UserWhereFields_isEmpty (rel_rest rel)
         || negb (isNil (user_findMany (rel_rest rel))))
    end
  end.

(** [_applyWhereClause(records, whereClause, tx)] of the four classes:
    [if (!whereClause) return records], else the clause applied. *)
Definition User_applyWhereClause (st : Store) (records : list UserRecord)
    (whereClause : option UserWhere) : list UserRecord :=
  match whereClause with
  | None => records
  | Some w => applyWhere User_id Z.eqb (fun f => User_matches st f None) w records
  end.

Definition Profile_applyWhereClause (st : Store) (records : list ProfileRecord)
    (whereClause : option ProfileWhere) : list ProfileRecord :=
  match whereClause with
  | None => records
  | Some w => applyWhere Profile_id Z.eqb (fun f => Profile_matches st f None) w records
  end.

Definition Post_applyWhereClause (st : Store) (records : list PostRecord)
    (whereClause : option PostWhere) : list PostRecord :=
  match whereClause with
  | None => records
  | Some w => applyWhere Post_id Z.eqb (fun f => Post_matches st f noPostScope) w records
  end.

Definition Comment_applyWhereClause (st : Store) (records : list CommentRecord)
    (whereClause : option CommentWhere) : list CommentRecord :=
  match whereClause with
  | None => records
  | Some w => applyWhere Comment_id String.eqb (fun f => Comment_matches st f noCommentScope) w records
  end.

(** *** The clauses that the engine builds for its sub-queries *)

Definition noUserWhere : UserWhereFields := mkUserWhere None None None None None.
Definition noProfileWhere : ProfileWhereFields := mkProfileWhere None None None None.
Definition noPostWhere : PostWhereFields := mkPostWhere None None None None None None None.
Definition noCommentWhere : CommentWhereFields := mkCommentWhere None None None None None None.

(** [{ ...w, authorId: k }] *)
Definition Post_withAuthorId (w : PostWhere) (k : Z) : PostWhere :=
  match w with
  | MkWhere a o n (mkPostWhere w_id w_title _ w_tags w_numberArr w_author w_comments) =>
      MkWhere a o n
        (mkPostWhere w_id w_title (Some (NumIs k)) w_tags w_numberArr w_author w_comments)
  end.

(** [{ NOT: { ...w }, authorId: k }] *)
Definition Post_notWithAuthorId (w : PostWhere) (k : Z) : PostWhere :=
  MkWhere None None (Some [w])
    (mkPostWhere None None (Some (NumIs k)) None None None None).

(** [{ ...w, userId: k }] and [{ NOT: { ...w }, userId: k }] on comments *)
Definition Comment_withUserId (w : CommentWhere) (k : Z) : CommentWhere :=
  match w with
  | MkWhere a o n (mkCommentWhere w_id w_postId _ w_text w_post w_user) =>
      MkWhere a o n (mkCommentWhere w_id w_postId (Some (NumIs k)) w_text w_post w_user)
  end.

Definition Comment_notWithUserId (w : CommentWhere) (k : Z) : CommentWhere :=
  MkWhere None None (Some [w])
    (mkCommentWhere None None (Some (NumIs k)) None None None).

(** [{ ...w, postId: k }] and [{ NOT: { ...w }, postId: k }] on comments *)
Definition Comment_withPostId (w : CommentWhere) (k : Z) : CommentWhere :=
  match w with
  | MkWhere a o n (mkCommentWhere w_id _ w_userId w_text w_post w_user) =>
      MkWhere a o n (mkCommentWhere w_id (Some (NumIs k)) w_userId w_text w_post w_user)
  end.

Definition Comment_notWithPostId (w : CommentWhere) (k : Z) : CommentWhere :=
  MkWhere None None (Some [w])
    (mkCommentWhere None (Some (NumIs k)) None None None None).

(** [{ ...w, userId: k }] on profiles *)
Definition Profile_withUserId (w : ProfileWhere) (k : Z) : ProfileWhere :=
  match w with
  | MkWhere a o n (mkProfileWhere w_id w_bio _ w_user) =>
      MkWhere a o n (mkProfileWhere w_id w_bio (Some (NumIs k)) w_user)
  end.

(** Where clauses with one key. *)
Definition where_User_posts (rel : ToManyFilter PostWhere) : UserWhere :=
  MkWhere None None None (mkUserWhere None None None (Some rel) None).
Definition where_User_comments (rel : ToManyFilter CommentWhere) : UserWhere :=
  MkWhere None None None (mkUserWhere None None None None (Some rel)).
Definition where_Post_comments (rel : ToManyFilter CommentWhere) : PostWhere :=
  MkWhere None None None (mkPostWhere None None None None None None (Some rel)).
Definition where_Profile_userId (k : Z) : ProfileWhere :=
  MkWhere None None None (mkProfileWhere None None (Some (NumIs k)) None).
Definition where_Post_authorId (k : Z) : PostWhere :=
  MkWhere None None None (mkPostWhere None None (Some (NumIs k)) None None None None).
Definition where_Comment_userId (k : Z) : CommentWhere :=
  MkWhere None None None (mkCommentWhere None None (Some (NumIs k)) None None None).
Definition where_Comment_postId (k : Z) : CommentWhere :=
  MkWhere None None None (mkCommentWhere None (Some (NumIs k)) None None None None).

Definition every_ {W : Type} (w : W) : ToManyFilter W := mkToMany (Some w) None None.
Definition some_ {W : Type} (w : W) : ToManyFilter W := mkToMany None (Some w) None.
Definition none_ {W : Type} (w : W) : ToManyFilter W := mkToMany None None (Some w).

(** ** The world an engine call runs in *)

(** The object stores of the database, [StoreNames<PrismaIDBSchema>]. *)
Inductive StoreName : Type :=
| User | Profile | Post | Comment | AllFieldScalarTypes.

Inductive EventKind : Type :=
| create_event | update_event | delete_event.

(** A registered listener: the engine it was registered on, the event kind,
    and the callback (callbacks are told apart by a number). *)
Definition Listener : Type := (StoreName * EventKind * nat)%type.

(** The active transaction ([db_now], what it began from, whether it was
    aborted), the [EventTarget]s of the engines with the log of the callbacks
    they have run (latest first), and the generator behind [createId()]:
    its [n]-th call returns [cuid n]. *)
Record World : Type := mkWorld {
  db_now : Store;
  db_begin : Store;
  aborted : bool;
  listeners : list Listener;
  called : list Listener;
  cuid : nat -> string;
  cuid_calls : nat
}.

Inductive Error : Type :=
| RecordNotFound                  (* new Error("Record not found") *)
| ConnectOrCreateNotImplemented   (* new Error("connectOrCreate not yet implemented") *)
| NoFieldInOrderByClause          (* new Error("No field in orderBy clause") *)
| ConstraintError                 (* store.add on a key that is taken *)
| DataError                       (* a value that is not a valid key *)
| TypeError.                      (* a property read on undefined *)

Inductive Outcome (A : Type) : Type :=
| Ok (a : A) (w : World)
| Throw (e : Error) (w : World)
| OutOfFuel.
Arguments Ok {A} _ _.
Arguments Throw {A} _ _.
Arguments OutOfFuel {A}.

Definition M (A : Type) : Type := World -> Outcome A.

Definition ret {A : Type} (a : A) : M A := fun w => Ok a w.

Definition bind {A B : Type} (m : M A) (f : A -> M B) : M B :=
  fun w =>
    match m w with
    | Ok a w' => f a w'
    | Throw e w' => Throw e w'
    | OutOfFuel => OutOfFuel
    end.

Definition throw {A : Type} (e : Error) : M A := fun w => Throw e w.

Declare Scope engine_scope.
Delimit Scope engine_scope with engine.
Notation "x <- m ;; k" := (bind m (fun x => k))
  (at level 61, m at next level, right associativity) : engine_scope.
Notation "m ;;; k" := (bind m (fun _ => k))
  (at level 61, right associativity) : engine_scope.
Local Open Scope engine_scope.

(** The stores as the transaction sees them. *)
Definition readStore : M Store := fun w => Ok (db_now w) w.

Definition writeStore (f : Store -> Store) : M unit :=
  fun w =>
    Ok tt (mkWorld (f (db_now w)) (db_begin w) (aborted w)
                   (listeners w) (called w) (cuid w) (cuid_calls w)).

(** [tx.abort()]: every write of the transaction is rolled back. *)
Definition tx_abort : M unit :=
  fun w =>
    Ok tt (mkWorld (db_begin w) (db_begin w) true
                   (listeners w) (called w) (cuid w) (cuid_calls w)).

(** A computation that reads the stores and may throw. *)
Definition liftRead {A : Type} (f : Store -> Error + A) : M A :=
  fun w =>
    match f (db_now w) with
    | inl e => Throw e w
    | inr a => Ok a w
    end.

(** [createId()] of @paralleldrive/cuid2. *)
Definition createId : M string :=
  fun w =>
    Ok (cuid w (cuid_calls w))
       (mkWorld (db_now w) (db_begin w) (aborted w)
                (listeners w) (called w) (cuid w) (S (cuid_calls w))).

Fixpoint forEach {A : Type} (l : list A) (f : A -> M unit) : M unit :=
  match l with
  | [] => ret tt
  | x :: l' => f x ;;; forEach l' f
  end.

(** Updates of one store. *)
Definition setUserStore (t : list UserRecord) (st : Store) : Store :=
  mkStore t (ProfileStore st) (PostStore st) (CommentStore st).
Definition setProfileStore (t : list ProfileRecord) (st : Store) : Store :=
  mkStore (UserStore st) t (PostStore st) (CommentStore st).
Definition setPostStore (t : list PostRecord) (st : Store) : Store :=
  mkStore (UserStore st) (ProfileStore st) t (CommentStore st).
Definition setCommentStore (t : list CommentRecord) (st : Store) : Store :=
  mkStore (UserStore st) (ProfileStore st) (PostStore st) t.

(** ** The notification interface of [BaseIDBModelClass] *)

Definition StoreName_eqb (a b : StoreName) : bool :=
  match a, b with
  | User, User | Profile, Profile | Post, Post | Comment, Comment
  | AllFieldScalarTypes, AllFieldScalarTypes => true
  | _, _ => false
  end.

Definition EventKind_eqb (a b : EventKind) : bool :=
  match a, b with
  | create_event, create_event | update_event, update_event
  | delete_event, delete_event => true
  | _, _ => false
  end.

Definition Listener_eqb (a b : Listener) : bool :=
  match a, b with
  | (m1, e1, c1), (m2, e2, c2) =>
      StoreName_eqb m1 m2 && EventKind_eqb e1 e2 && Nat.eqb c1 c2
  end.

Definition setListeners (ls : list Listener) (w : World) : World :=
  mkWorld (db_now w) (db_begin w) (aborted w) ls (called w) (cuid w) (cuid_calls w).

(** [EventTarget.addEventListener]: a listener that is registered already is
    not registered twice. *)
Definition addEventListener (l : Listener) (w : World) : World :=
  if existsb (Listener_eqb l) (listeners w) then w
  else setListeners (listeners w ++ [l]) w.

Definition removeEventListener (l : Listener) (w : World) : World :=
  setListeners (filter (fun x => negb (Listener_eqb l x)) (listeners w)) w.

(** [subscribe(event, callback)], for one event kind or an array of them. *)
Definition subscribe (model : StoreName) (events : list EventKind) (callback : nat)
    (w : World) : World :=
  fold_left (fun w e => addEventListener (model, e, callback) w) events w.

Definition unsubscribe (model : StoreName) (events : list EventKind) (callback : nat)
    (w : World) : World :=
  fold_left (fun w e => removeEventListener (model, e, callback) w) events w.

(** [emit(event)]: [dispatchEvent] runs the listeners of that kind on this
    engine, in the order of their registration. *)
Definition emit (model : StoreName) (event : EventKind) : M unit :=
  fun w =>
    let run :=
      filter (fun l : Listener =>
                let '(m, e, _) := l in StoreName_eqb m model && EventKind_eqb e event)
             (listeners w) in
    Ok tt (mkWorld (db_now w) (db_begin w) (aborted w) (listeners w)
                   (rev run ++ called w) (cuid w) (cuid_calls w)).

(** ** The order resolver *)

Inductive SortOrder : Type := asc | desc.
Inductive NullsOrder : Type := first | last.

(** [Prisma.SortOrderInput], [{ sort, nulls? }] *)
Record SortOrderInput : Type := mkSortOrderInput {
  sort : SortOrder;
  nulls : option NullsOrder
}.

(** [Prisma.SortOrder | Prisma.SortOrderInput], what [_resolveSortOrder]
    returns. *)
Inductive SortArg : Type :=
| Sort (o : SortOrder)
| SortInput (i : SortOrderInput).

(** [{ _count?: SortOrder }] on a to-many relation *)
Record OrderByAggregate : Type := mkOrderByAggregate {
  agg_count : option SortOrder
}.

Inductive UserOrderBy : Type :=
  mkUserOrderBy
    (uo_id : option SortOrder)
    (uo_name : option SortOrder)
    (uo_profile : option ProfileOrderBy)
    (uo_posts : option OrderByAggregate)
    (uo_comments : option OrderByAggregate)
with ProfileOrderBy : Type :=
  mkProfileOrderBy
    (po_id : option SortOrder)
    (po_bio : option SortArg)
    (po_userId : option SortOrder)
    (po_user : option UserOrderBy)
with PostOrderBy : Type :=
  mkPostOrderBy
    (to_id : option SortOrder)
    (to_title : option SortOrder)
    (to_authorId : option SortArg)
    (to_tags : option SortOrder)
    (to_numberArr : option SortOrder)
    (to_author : option UserOrderBy)
    (to_comments : option OrderByAggregate)
with CommentOrderBy : Type :=
  mkCommentOrderBy
    (co_id : option SortOrder)
    (co_postId : option SortOrder)
    (co_userId : option SortOrder)
    (co_text : option SortOrder)
    (co_post : option PostOrderBy)
    (co_user : option UserOrderBy).

(** The value of a sort key, [unknown] in the source. *)
Inductive Key : Type :=
| KUndefined
| KNull
| KNum (n : Z)
| KStr (s : string)
| KNums (l : list Z)
| KStrs (l : list string).

Definition numKey (v : option Z) : Key :=
  match v with None => KNull | Some n => KNum n end.
Definition strKey (v : option string) : Key :=
  match v with None => KNull | Some s => KStr s end.
Definition numsKey (v : option (list Z)) : Key :=
  match v with None => KUndefined | Some l => KNums l end.
Definition strsKey (v : option (list string)) : Key :=
  match v with None => KUndefined | Some l => KStrs l end.

(** [_preprocessListFields] of [PostIDBClass]:
    [record.tags = record.tags ?? []], the same for [numberArr]. *)
Definition Post_preprocessListFields (record : PostRecord) : PostRecord :=
  mkPost (Post_id record) (Post_title record) (Post_authorId record)
         (Some (match Post_tags record with None => [] | Some l => l end))
         (Some (match Post_numberArr record with None => [] | Some l => l end)).

(** [findFirstOrThrow({ where: { id: v } })] without a transaction, as the
    key resolvers call it: the first row that passes the filter on the key
    (no filter when [v] is undefined), "Record not found" when there is
    none. *)
Definition firstOrThrow {R : Type} (rows : list R) : Error + R :=
  match rows with
  | [] => inl RecordNotFound
  | r :: _ => inr r
  end.

Definition whereNumberIs {R : Type} (field : R -> option Z) (v : option Z) (table : list R)
  : list R :=
  filter (fun r => whereNumberFilter (field r) (option_map NumIs v)) table.

(** [_resolveOrderByKey(record, orderByInput, tx)] of the four classes. *)
Fixpoint User_resolveOrderByKey (st : Store) (orderByInput : UserOrderBy)
    (record : UserRecord) {struct orderByInput} : Error + Key :=
  match orderByInput with
  | mkUserOrderBy o_id o_name o_profile o_posts o_comments =>
    match o_id, o_name, o_profile, o_posts, o_comments with
    | Some _, _, _, _, _ => inr (KNum (User_id record))
    | None, Some _, _, _, _ => inr (KStr (User_name record))
    | None, None, Some o, _, _ =>
        match firstOrThrow (scopedTo Profile_userId (User_id record) (ProfileStore st)) with
        | inl e => inl e
        | inr p => Profile_resolveOrderByKey st o p
        end
    | None, None, None, Some _, _ =>
        inr (KNum (Z.of_nat (List.length (scopedTo Post_authorId (User_id record) (PostStore st)))))
    | None, None, None, None, Some _ =>
        inr (KNum (Z.of_nat (List.length (scopedTo Comment_userId (User_id record) (CommentStore st)))))
    | None, None, None, None, None => inr KUndefined
    end
  end

with Profile_resolveOrderByKey (st : Store) (orderByInput : ProfileOrderBy)
    (record : ProfileRecord) {struct orderByInput} : Error + Key :=
  match orderByInput with
  | mkProfileOrderBy o_id o_bio o_userId o_user =>
    match o_id, o_bio, o_userId, o_user with
    | Some _, _, _, _ => inr (KNum (Profile_id record))
    | None, Some _, _, _ => inr (strKey (Profile_bio record))
    | None, None, Some _, _ => inr (numKey (Profile_userId record))
    | None, None, None, Some o =>
        match firstOrThrow (whereNumberIs (fun u => Some (User_id u)) (Profile_userId record)
                              (UserStore st)) with
        | inl e => inl e
        | inr u => User_resolveOrderByKey st o u
        end
    | None, None, None, None => inr KUndefined
    end
  end.

Definition Post_resolveOrderByKey (st : Store) (orderByInput : PostOrderBy)
    (record : PostRecord) : Error + Key :=
  match orderByInput with
  | mkPostOrderBy o_id o_title o_authorId o_tags o_numberArr o_author o_comments =>
    match o_id, o_title, o_authorId, o_tags, o_numberArr, o_author, o_comments with
    | Some _, _, _, _, _, _, _ => inr (KNum (Post_id record))
    | None, Some _, _, _, _, _, _ => inr (KStr (Post_title record))
    | None, None, Some _, _, _, _, _ => inr (numKey (Post_authorId record))
    | None, None, None, Some _, _, _, _ => inr (strsKey (Post_tags record))
    | None, None, None, None, Some _, _, _ => inr (numsKey (Post_numberArr record))
    | None, None, None, None, None, Some o, _ =>
        match Post_authorId record with
        | None => inr KNull
        | Some a =>
            match firstOrThrow (whereNumberIs (fun u => Some (User_id u)) (Some a)
                                  (UserStore st)) with
            | inl e => inl e
            | inr u => User_resolveOrderByKey st o u
            end
        end
    | None, None, None, None, None, None, Some _ =>
        inr (KNum (Z.of_nat (List.length (scopedTo Comment_postId (Post_id record) (CommentStore st)))))
    | None, None, None, None, None, None, None => inr KUndefined
    end
  end.

Definition Comment_resolveOrderByKey (st : Store) (orderByInput : CommentOrderBy)
    (record : CommentRecord) : Error + Key :=
  match orderByInput with
  | mkCommentOrderBy o_id o_postId o_userId o_text o_post o_user =>
    match o_id, o_postId, o_userId, o_text, o_post, o_user with
    | Some _, _, _, _, _, _ => inr (KStr (Comment_id record))
    | None, Some _, _, _, _, _ => inr (numKey (Comment_postId record))
    | None, None, Some _, _, _, _ => inr (numKey (Comment_userId record))
    | None, None, None, Some _, _, _ => inr (KStr (Comment_text record))
    | None, None, None, None, Some o, _ =>
        match firstOrThrow (whereNumberIs (fun p => Some (Post_id p)) (Comment_postId record)
                              (PostStore st)) with
        | inl e => inl e
        | inr p => Post_resolveOrderByKey st o (Post_preprocessListFields p)
        end
    | None, None, None, None, None, Some o =>
        match firstOrThrow (whereNumberIs (fun u => Some (User_id u)) (Comment_userId record)
                              (UserStore st)) with
        | inl e => inl e
        | inr u => User_resolveOrderByKey st o u
        end
    | None, None, None, None, None, None => inr KUndefined
    end
  end.

(** [_resolveSortOrder(orderByInput)] of the four classes. *)
Fixpoint User_resolveSortOrder (orderByInput : UserOrderBy) : Error + SortArg :=
  match orderByInput with
  | mkUserOrderBy o_id o_name o_profile o_posts o_comments =>
    match o_id, o_name, o_profile with
    | Some d, _, _ => inr (Sort d)
    | None, Some d, _ => inr (Sort d)
    | None, None, Some o => Profile_resolveSortOrder o
    | None, None, None =>
        match o_posts with
        | Some (mkOrderByAggregate (Some d)) => inr (Sort d)
        | _ =>
            match o_comments with
            | Some (mkOrderByAggregate (Some d)) => inr (Sort d)
            | _ => inl NoFieldInOrderByClause
            end
        end
    end
  end

with Profile_resolveSortOrder (orderByInput : ProfileOrderBy) : Error + SortArg :=
  match orderByInput with
  | mkProfileOrderBy o_id o_bio o_userId o_user =>
    match o_id, o_bio, o_userId, o_user with
    | Some d, _, _, _ => inr (Sort d)
    | None, Some a, _, _ => inr a
    | None, None, Some d, _ => inr (Sort d)
    | None, None, None, Some o => User_resolveSortOrder o
    | None, None, None, None => inl NoFieldInOrderByClause
    end
  end.

Definition Post_resolveSortOrder (orderByInput : PostOrderBy) : Error + SortArg :=
  match orderByInput with
  | mkPostOrderBy o_id o_title o_authorId o_tags o_numberArr o_author o_comments =>
    match o_id, o_title, o_authorId, o_tags, o_numberArr, o_author with
    | Some d, _, _, _, _, _ => inr (Sort d)
    | None, Some d, _, _, _, _ => inr (Sort d)
    | None, None, Some a, _, _, _ => inr a
    | None, None, None, Some d, _, _ => inr (Sort d)
    | None, None, None, None, Some d, _ => inr (Sort d)
    | None, None, None, None, None, Some o => User_resolveSortOrder o
    | None, None, None, None, None, None =>
        match o_comments with
        | Some (mkOrderByAggregate (Some d)) => inr (Sort d)
        | _ => inl NoFieldInOrderByClause
        end
    end
  end.

Definition Comment_resolveSortOrder (orderByInput : CommentOrderBy) : Error + SortArg :=
  match orderByInput with
  | mkCommentOrderBy o_id o_postId o_userId o_text o_post o_user =>
    match o_id, o_postId, o_userId, o_text, o_post, o_user with
    | Some d, _, _, _, _, _ => inr (Sort d)
    | None, Some d, _, _, _, _ => inr (Sort d)
    | None, None, Some d, _, _, _ => inr (Sort d)
    | None, None, None, Some d, _, _ => inr (Sort d)
    | None, None, None, None, Some o, _ => Post_resolveSortOrder o
    | None, None, None, None, None, Some o => User_resolveSortOrder o
    | None, None, None, None, None, None => inl NoFieldInOrderByClause
    end
  end.

(** Comparison of two sort keys in ascending order, as a sign.  Keys of one
    kind are compared as numbers, as strings, or as lists of them; [null]
    and [undefined] are alike and come before every value; values of
    different kinds are ordered by kind. *)
Definition signOf (c : comparison) : Z :=
  match c with Lt => -1 | Eq => 0 | Gt => 1 end.

Fixpoint compareList {A : Type} (cmp : A -> A -> comparison) (l1 l2 : list A) : comparison :=
  match l1, l2 with
  | [], [] => Eq
  | [], _ :: _ => Lt
  | _ :: _, [] => Gt
  | x :: l1', y :: l2' =>
      match cmp x y with
      | Eq => compareList cmp l1' l2'
      | c => c
      end
  end.

Definition keyKind (k : Key) : Z :=
  match k with
  | KUndefined | KNull => 0
  | KNum _ => 1
  | KStr _ => 2
  | KNums _ => 3
  | KStrs _ => 4
  end.

Definition compareKeys (a b : Key) : comparison :=
  match a, b with
  | KNum x, KNum y => Z.compare x y
  | KStr x, KStr y => String.compare x y
  | KNums x, KNums y => compareList Z.compare x y
  | KStrs x, KStrs y => compareList String.compare x y
  | _, _ => Z.compare (keyKind a) (keyKind b)
  end.

Definition isNullish (k : Key) : bool :=
  match k with KUndefined | KNull => true | _ => false end.

Definition directed (d : SortOrder) (c : Z) : Z :=
  match d with asc => c | desc => - c end.

(** Modelled from the spec: [genericComparator(a, b, sortOrder)] of
    idb-utils.ts, "using each clause's declared direction
    (ascending/descending)".  The result is negative, zero or positive.  A
    [nulls] placement, when the clause gives one, puts the absent keys first
    or last whatever the direction. *)
Definition genericComparator (a b : Key) (sortOrder : SortArg) : Z :=
  match sortOrder with
  | Sort d => directed d (signOf (compareKeys a b))
  | SortInput (mkSortOrderInput d None) => directed d (signOf (compareKeys a b))
  | SortInput (mkSortOrderInput d (Some placement)) =>
      match isNullish a, isNullish b with
      | true, true => 0
      | true, false => match placement with first => -1 | last => 1 end
      | false, true => match placement with first => 1 | last => -1 end
      | false, false => directed d (signOf (compareKeys a b))
      end
  end.

Section ApplyOrderBy.
Variables (R OB : Type).
(** [_resolveOrderByKey] and [_resolveSortOrder] of the class. *)
Variable resolveOrderByKey : OB -> R -> Error + Key.
Variable resolveSortOrder : OB -> Error + SortArg.

(** [{ keys, record }] *)
Definition Indexed : Type := (list Key * R)%type.

Fixpoint mapE {A B : Type} (f : A -> Error + B) (l : list A) : Error + list B :=
  match l with
  | [] => inr []
  | x :: l' =>
      match f x with
      | inl e => inl e
      | inr y =>
          match mapE f l' with
          | inl e => inl e
          | inr ys => inr (y :: ys)
          end
      end
  end.

(** The comparator handed to [indexedKeys.sort]: clause by clause, the
    first comparison that is not zero decides.  [keys[i]] of a list that
    is too short is [undefined]. *)
Fixpoint compareIndexedKeys (orderByClauses : list OB) (a_keys b_keys : list Key)
  : Error + Z :=
  match orderByClauses with
  | [] => inr 0
  | clause :: rest =>
      match resolveSortOrder clause with
      | inl e => inl e
      | inr sortOrder =>
          let comparison :=
            genericComparator (hd KUndefined a_keys) (hd KUndefined b_keys) sortOrder in
          if comparison =? 0
          then compareIndexedKeys rest (tl a_keys) (tl b_keys)
          else inr comparison
      end
  end.

Definition compareIndexed (orderByClauses : list OB) (a b : Indexed) : Error + Z :=
  compareIndexedKeys orderByClauses (fst a) (fst b).

(** [Array.prototype.sort(compareFn)] is stable; it is modelled as the
    stable insertion sort.  Which pairs the comparator is called on only
    matters when it throws. *)
Fixpoint insertE {A : Type} (cmp : A -> A -> Error + Z) (x : A) (sorted : list A)
  : Error + list A :=
  match sorted with
  | [] => inr [x]
  | y :: sorted' =>
      match cmp x y with
      | inl e => inl e
      | inr c =>
          if c <=? 0 then inr (x :: sorted)
          else
            match insertE cmp x sorted' with
            | inl e => inl e
            | inr l => inr (y :: l)
            end
      end
  end.

Fixpoint sortE {A : Type} (cmp : A -> A -> Error + Z) (l : list A) : Error + list A :=
  match l with
  | [] => inr []
  | x :: l' =>
      match sortE cmp l' with
      | inl e => inl e
      | inr sorted => insertE cmp x sorted
      end
  end.

(** [_applyOrderByClause(records, orderByClause, tx)]: the records in
    their new order ([records[i] = indexedKeys[i].record]). *)
Definition applyOrderByClause (records : list R) (orderByClause : option (list OB))
  : Error + list R :=
  match orderByClause with
  | None => inr records
  | Some orderByClauses =>
      match mapE (fun record =>
                    match mapE (fun clause => resolveOrderByKey clause record)
                               orderByClauses with
                    | inl e => inl e
                    | inr keys => inr (keys, record)
                    end) records with
      | inl e => inl e
      | inr indexedKeys =>
          match sortE (compareIndexed orderByClauses) indexedKeys with
          | inl e => inl e
          | inr sorted => inr (map snd sorted)
          end
      end
  end.
End ApplyOrderBy.

Definition User_applyOrderByClause (st : Store) :=
  applyOrderByClause (User_resolveOrderByKey st) User_resolveSortOrder.
Definition Profile_applyOrderByClause (st : Store) :=
  applyOrderByClause (Profile_resolveOrderByKey st) Profile_resolveSortOrder.
Definition Post_applyOrderByClause (st : Store) :=
  applyOrderByClause (Post_resolveOrderByKey st) Post_resolveSortOrder.
Definition Comment_applyOrderByClause (st : Store) :=
  applyOrderByClause (Comment_resolveOrderByKey st) Comment_resolveSortOrder.

(** ** The find operations *)

(** The arguments of [findMany], [findFirst] and their variants. *)
Record FindArgs (W OB : Type) : Type := mkFindArgs {
  q_where : option W;
  q_orderBy : option (list OB)
}.

Definition whereOf {W OB : Type} (query : option (FindArgs W OB)) : option W :=
  match query with None => None | Some q => q_where q end.
Definition orderByOf {W OB : Type} (query : option (FindArgs W OB)) : option (list OB) :=
  match query with None => None | Some q => q_orderBy q end.

(** [{ where: w }] *)
Definition justWhere {W OB : Type} (w : option W) : option (FindArgs W OB) :=
  Some (mkFindArgs w None).

Definition UserFindArgs : Type := FindArgs UserWhere UserOrderBy.
Definition ProfileFindArgs : Type := FindArgs ProfileWhere ProfileOrderBy.
Definition PostFindArgs : Type := FindArgs PostWhere PostOrderBy.
Definition CommentFindArgs : Type := FindArgs CommentWhere CommentOrderBy.

(** [findMany(query, tx)]: [getAll()], the where clause, the order. *)
Definition User_findMany (query : option UserFindArgs) : M (list UserRecord) :=
  st <- readStore ;;
  let records := User_applyWhereClause st (UserStore st) (whereOf query) in
  liftRead (fun st => User_applyOrderByClause st records (orderByOf query)).

Definition Profile_findMany (query : option ProfileFindArgs) : M (list ProfileRecord) :=
  st <- readStore ;;
  let records := Profile_applyWhereClause st (ProfileStore st) (whereOf query) in
  liftRead (fun st => Profile_applyOrderByClause st records (orderByOf query)).

Definition Post_findMany (query : option PostFindArgs) : M (list PostRecord) :=
  st <- readStore ;;
  let records := Post_applyWhereClause st (PostStore st) (whereOf query) in
  records <- liftRead (fun st => Post_applyOrderByClause st records (orderByOf query)) ;;
  ret (map Post_preprocessListFields records).

Definition Comment_findMany (query : option CommentFindArgs) : M (list CommentRecord) :=
  st <- readStore ;;
  let records := Comment_applyWhereClause st (CommentStore st) (whereOf query) in
  liftRead (fun st => Comment_applyOrderByClause st records (orderByOf query)).

(** [findFirst]: [(await this.findMany(query, tx))[0] ?? null] *)
Definition User_findFirst (query : option UserFindArgs) : M (option UserRecord) :=
  records <- User_findMany query ;; ret (hd_error records).
Definition Profile_findFirst (query : option ProfileFindArgs) : M (option ProfileRecord) :=
  records <- Profile_findMany query ;; ret (hd_error records).
Definition Post_findFirst (query : option PostFindArgs) : M (option PostRecord) :=
  records <- Post_findMany query ;; ret (hd_error records).
Definition Comment_findFirst (query : option CommentFindArgs) : M (option CommentRecord) :=
  records <- Comment_findMany query ;; ret (hd_error records).

(** [if (!record) { tx.abort(); throw new Error("Record not found"); }] *)
Definition orThrow {A : Type} (found : option A) : M A :=
  match found with
  | None => tx_abort ;;; throw RecordNotFound
  | Some record => ret record
  end.

(** What [findUnique] returns: [null] when no row has the key, [undefined]
    when the row with the key does not pass the where clause ([[...][0]] of
    an empty array), or the row. *)
Inductive Lookup (R : Type) : Type :=
| IsNull
| IsUndefined
| Found (record : R).
Arguments IsNull {R}.
Arguments IsUndefined {R}.
Arguments Found {R} _.

Definition firstOf {R : Type} (rows : list R) : Lookup R :=
  match rows with
  | [] => IsUndefined
  | r :: _ => Found r
  end.

(** [!record] *)
Definition truthy {R : Type} (l : Lookup R) : option R :=
  match l with
  | Found r => Some r
  | IsNull | IsUndefined => None
  end.

Definition User_findFirstOrThrow (query : option UserFindArgs) : M UserRecord :=
  record <- User_findFirst query ;; orThrow record.
Definition Profile_findFirstOrThrow (query : option ProfileFindArgs) : M ProfileRecord :=
  record <- Profile_findFirst query ;; orThrow record.
Definition Post_findFirstOrThrow (query : option PostFindArgs) : M PostRecord :=
  record <- Post_findFirst query ;; orThrow record.
Definition Comment_findFirstOrThrow (query : option CommentFindArgs) : M CommentRecord :=
  record <- Comment_findFirst query ;; orThrow record.

(** The key that [findUnique] reads off its where clause:
    [if (query.where.id) record = await store.get([query.where.id])].  A key
    that is [0], the empty string, [null] or absent is falsy, so nothing is
    looked up; a filter object is truthy and is no valid key for [get]. *)
Inductive UniqueKey (K : Type) : Type :=
| NoKey
| KeyIs (k : K)
| BadKey.
Arguments NoKey {K}.
Arguments KeyIs {K} _.
Arguments BadKey {K}.

Definition numberKey (arg : option NumberFilterArg) : UniqueKey Z :=
  match arg with
  | Some (NumIs k) => if k =? 0 then NoKey else KeyIs k
  | Some (NumFilter _) => BadKey
  | Some NumNull | None => NoKey
  end.

Definition stringKey (arg : option StringFilterArg) : UniqueKey string :=
  match arg with
  | Some (StrIs s) => if String.eqb s EmptyString then NoKey else KeyIs s
  | Some (StrFilter _) => BadKey
  | Some StrNull | None => NoKey
  end.

Definition uw_id (w : UserWhere) : option NumberFilterArg :=
  match whereFields w with mkUserWhere a _ _ _ _ => a end.
Definition pw_id (w : ProfileWhere) : option NumberFilterArg :=
  match whereFields w with mkProfileWhere a _ _ _ => a end.
Definition pw_userId (w : ProfileWhere) : option NumberFilterArg :=
  match whereFields w with mkProfileWhere _ _ c _ => c end.
Definition tw_id (w : PostWhere) : option NumberFilterArg :=
  match whereFields w with mkPostWhere a _ _ _ _ _ _ => a end.
Definition cw_id (w : CommentWhere) : option StringFilterArg :=
  match whereFields w with mkCommentWhere a _ _ _ _ _ => a end.

(** [findUnique(query, tx)]: the row read by key, kept when it passes the
    whole where clause; the result is [null] or [undefined] otherwise. *)
Definition User_findUnique (where_ : UserWhere) : M (Lookup UserRecord) :=
  st <- readStore ;;
  match numberKey (uw_id where_) with
  | BadKey => throw DataError
  | NoKey => ret IsNull
  | KeyIs k =>
      match store_get User_id Z.eqb k (UserStore st) with
      | None => ret IsNull
      | Some record => ret (firstOf (User_applyWhereClause st [record] (Some where_)))
      end
  end.

(** For profiles the unique index on [userId] is read when the clause has no
    [id]. *)
Definition Profile_findUnique (where_ : ProfileWhere) : M (Lookup ProfileRecord) :=
  st <- readStore ;;
  let found (record : option ProfileRecord) : M (Lookup ProfileRecord) :=
    match record with
    | None => ret IsNull
    | Some record => ret (firstOf (Profile_applyWhereClause st [record] (Some where_)))
    end in
  match numberKey (pw_id where_) with
  | BadKey => throw DataError
  | KeyIs k => found (store_get Profile_id Z.eqb k (ProfileStore st))
  | NoKey =>
      match numberKey (pw_userId where_) with
      | BadKey => throw DataError
      | KeyIs k =>
          found (find (fun p => optEqb Z.eqb (Profile_userId p) (JVal k)) (ProfileStore st))
      | NoKey => ret IsNull
      end
  end.

(** For posts [_preprocessListFields([recordWithRelations])] reads
    [record.tags] of [undefined] when the where clause rejects the row. *)
Definition Post_findUnique (where_ : PostWhere) : M (Lookup PostRecord) :=
  st <- readStore ;;
  match numberKey (tw_id where_) with
  | BadKey => throw DataError
  | NoKey => ret IsNull
  | KeyIs k =>
      match store_get Post_id Z.eqb k (PostStore st) with
      | None => ret IsNull
      | Some record =>
          match Post_applyWhereClause st [record] (Some where_) with
          | [] => throw TypeError
          | r :: _ => ret (Found (Post_preprocessListFields r))
          end
      end
  end.

Definition Comment_findUnique (where_ : CommentWhere) : M (Lookup CommentRecord) :=
  st <- readStore ;;
  match stringKey (cw_id where_) with
  | BadKey => throw DataError
  | NoKey => ret IsNull
  | KeyIs k =>
      match store_get Comment_id String.eqb k (CommentStore st) with
      | None => ret IsNull
      | Some record => ret (firstOf (Comment_applyWhereClause st [record] (Some where_)))
      end
  end.

Definition User_findUniqueOrThrow (where_ : UserWhere) : M UserRecord :=
  record <- User_findUnique where_ ;; orThrow (truthy record).
Definition Profile_findUniqueOrThrow (where_ : ProfileWhere) : M ProfileRecord :=
  record <- Profile_findUnique where_ ;; orThrow (truthy record).
Definition Post_findUniqueOrThrow (where_ : PostWhere) : M PostRecord :=
  record <- Post_findUnique where_ ;; orThrow (truthy record).
Definition Comment_findUniqueOrThrow (where_ : CommentWhere) : M CommentRecord :=
  record <- Comment_findUnique where_ ;; orThrow (truthy record).

(** Where clauses with one key, for look-ups by primary key. *)
Definition where_User_id (k : Z) : UserWhere :=
  MkWhere None None None (mkUserWhere (Some (NumIs k)) None None None None).
Definition where_Profile_id (k : Z) : ProfileWhere :=
  MkWhere None None None (mkProfileWhere (Some (NumIs k)) None None None).
Definition where_Post_id (k : Z) : PostWhere :=
  MkWhere None None None (mkPostWhere (Some (NumIs k)) None None None None None None).
Definition where_Comment_id (k : string) : CommentWhere :=
  MkWhere None None None (mkCommentWhere (Some (StrIs k)) None None None None None).

(** ** count *)

(** A key of the [select] of [count]: [_all] or a field of the entity. *)
Inductive CountKey (Fld : Type) : Type :=
| count_all
| count_field (f : Fld).
Arguments count_all {Fld}.
Arguments count_field {Fld} _.

(** [select: true] or [select: { key: boolean, ... }], with the keys in the
    order [Object.keys] gives them. *)
Inductive CountSelect (Fld : Type) : Type :=
| SelectTrue
| SelectKeys (keys : list (CountKey Fld * bool)).
Arguments SelectTrue {Fld}.
Arguments SelectKeys {Fld} _.

Record CountArgs (W Fld : Type) : Type := mkCountArgs {
  c_where : option W;
  c_select : option (CountSelect Fld)
}.

(** The result: a number, or an object with a number for every key. *)
Inductive CountResult (Fld : Type) : Type :=
| CountNumber (n : nat)
| CountObject (counts : list (CountKey Fld * nat)).
Arguments CountNumber {Fld} _.
Arguments CountObject {Fld} _.

Fixpoint mapM {A B : Type} (f : A -> M B) (l : list A) : M (list B) :=
  match l with
  | [] => ret []
  | x :: l' => y <- f x ;; ys <- mapM f l' ;; ret (y :: ys)
  end.

Section Count.
Variables (W OB R Fld : Type).
Variable findMany : option (FindArgs W OB) -> M (list R).
(** [{ [key]: { not: null } }] *)
Variable notNull : Fld -> W.

(** [count(query, tx)] *)
Definition count (query : option (CountArgs W Fld)) : M (CountResult Fld) :=
  let where_ := match query with None => None | Some q => c_where q end in
  match match query with None => None | Some q => c_select q end with
  | None | Some SelectTrue =>
      records <- findMany (justWhere where_) ;;
      ret (CountNumber (List.length records))
  | Some (SelectKeys keys) =>
      counts <- mapM (fun entry : CountKey Fld * bool =>
                        match fst entry with
                        | count_all =>
                            records <- findMany (justWhere where_) ;;
                            ret (count_all, List.length records)
                        | count_field f =>
                            records <- findMany (justWhere (Some (notNull f))) ;;
                            ret (count_field f, List.length records)
                        end) keys ;;
      ret (CountObject counts)
  end.
End Count.

Definition numberNotNull : NumberFilterArg :=
  NumFilter (mkNumberFilter None (Some JNull) None None None None None None).
Definition stringNotNull : StringFilterArg :=
  StrFilter (mkStringFilter None (Some JNull) None None None None None).
(** [{ not: null }] read as a list filter has none of the keys of one. *)
Definition listNotNull {A : Type} : ListFilter A :=
  mkListFilter None None None None None.

Inductive UserField : Type := User_field_id | User_field_name.
Inductive ProfileField : Type := Profile_field_id | Profile_field_bio | Profile_field_userId.
Inductive PostField : Type :=
| Post_field_id | Post_field_title | Post_field_authorId | Post_field_tags | Post_field_numberArr.
Inductive CommentField : Type :=
| Comment_field_id | Comment_field_postId | Comment_field_userId | Comment_field_text.

Definition User_notNull (f : UserField) : UserWhere :=
  MkWhere None None None
    match f with
    | User_field_id => mkUserWhere (Some numberNotNull) None None None None
    | User_field_name => mkUserWhere None (Some stringNotNull) None None None
    end.

Definition Profile_notNull (f : ProfileField) : ProfileWhere :=
  MkWhere None None None
    match f with
    | Profile_field_id => mkProfileWhere (Some numberNotNull) None None None
    | Profile_field_bio => mkProfileWhere None (Some stringNotNull) None None
    | Profile_field_userId => mkProfileWhere None None (Some numberNotNull) None
    end.

Definition Post_notNull (f : PostField) : PostWhere :=
  MkWhere None None None
    match f with
    | Post_field_id => mkPostWhere (Some numberNotNull) None None None None None None
    | Post_field_title => mkPostWhere None (Some stringNotNull) None None None None None
    | Post_field_authorId => mkPostWhere None None (Some numberNotNull) None None None None
    | Post_field_tags => mkPostWhere None None None (Some listNotNull) None None None
    | Post_field_numberArr => mkPostWhere None None None None (Some listNotNull) None None
    end.

Definition Comment_notNull (f : CommentField) : CommentWhere :=
  MkWhere None None None
    match f with
    | Comment_field_id => mkCommentWhere (Some stringNotNull) None None None None None
    | Comment_field_postId => mkCommentWhere None (Some numberNotNull) None None None None
    | Comment_field_userId => mkCommentWhere None None (Some numberNotNull) None None None
    | Comment_field_text => mkCommentWhere None None None (Some stringNotNull) None None
    end.

Definition User_count := count User_findMany User_notNull.
Definition Profile_count := count Profile_findMany Profile_notNull.
Definition Post_count := count Post_findMany Post_notNull.
Definition Comment_count := count Comment_findMany Comment_notNull.

(** ** Writes to the stores *)

(** The unique index [userIdIndex] on [["userId"]] of the profile store: a
    record with a [userId] is refused when another record, under another
    key, has the same; a record without [userId] is not indexed. *)
Definition userIdIndex_allows (record : ProfileRecord) (table : list ProfileRecord) : bool :=
  match Profile_userId record with
  | None => true
  | Some k =>
      forallb (fun p => Z.eqb (Profile_id p) (Profile_id record)
                        || negb (optEqb Z.eqb (Profile_userId p) (JVal k)))
              table
  end.

(** [store.add(record)]: a request that fails aborts its transaction. *)
Definition addTo {R : Type} (added : Store -> option Store) : M unit :=
  st <- readStore ;;
  match added st with
  | None => tx_abort ;;; throw ConstraintError
  | Some st' => writeStore (fun _ => st')
  end.

Definition User_store_add (record : UserRecord) : M Z :=
  addTo (R := UserRecord)
        (fun st => option_map (fun t => setUserStore t st)
                              (store_add User_id Z.eqb Z.ltb record (UserStore st))) ;;;
  ret (User_id record).
Definition Profile_store_add (record : ProfileRecord) : M Z :=
  addTo (R := ProfileRecord)
        (fun st =>
           if userIdIndex_allows record (ProfileStore st)
           then option_map (fun t => setProfileStore t st)
                           (store_add Profile_id Z.eqb Z.ltb record (ProfileStore st))
           else None) ;;;
  ret (Profile_id record).
Definition Post_store_add (record : PostRecord) : M Z :=
  addTo (R := PostRecord)
        (fun st => option_map (fun t => setPostStore t st)
                              (store_add Post_id Z.eqb Z.ltb record (PostStore st))) ;;;
  ret (Post_id record).
Definition Comment_store_add (record : CommentRecord) : M string :=
  addTo (R := CommentRecord)
        (fun st => option_map (fun t => setCommentStore t st)
                              (store_add Comment_id String.eqb String.ltb record (CommentStore st))) ;;;
  ret (Comment_id record).

(** [store.put(record)], which returns the key of the record, read from the
    record along the key path. *)
Definition User_store_put (record : UserRecord) : M Z :=
  writeStore (fun st => setUserStore (store_put User_id Z.eqb Z.ltb record (UserStore st)) st) ;;;
  ret (User_id record).
Definition Profile_store_put (record : ProfileRecord) : M Z :=
  st <- readStore ;;
  (if userIdIndex_allows record (ProfileStore st)
   then writeStore (fun st =>
          setProfileStore (store_put Profile_id Z.eqb Z.ltb record (ProfileStore st)) st)
   else tx_abort ;;; throw ConstraintError) ;;;
  ret (Profile_id record).
Definition Post_store_put (record : PostRecord) : M Z :=
  writeStore (fun st => setPostStore (store_put Post_id Z.eqb Z.ltb record (PostStore st)) st) ;;;
  ret (Post_id record).
Definition Comment_store_put (record : CommentRecord) : M string :=
  writeStore (fun st =>
    setCommentStore (store_put Comment_id String.eqb String.ltb record (CommentStore st)) st) ;;;
  ret (Comment_id record).

(** [store.delete([k])] *)
Definition User_store_delete (k : Z) : M unit :=
  writeStore (fun st => setUserStore (store_delete User_id Z.eqb k (UserStore st)) st).
Definition Profile_store_delete (k : Z) : M unit :=
  writeStore (fun st => setProfileStore (store_delete Profile_id Z.eqb k (ProfileStore st)) st).
Definition Post_store_delete (k : Z) : M unit :=
  writeStore (fun st => setPostStore (store_delete Post_id Z.eqb k (PostStore st)) st).
Definition Comment_store_delete (k : string) : M unit :=
  writeStore (fun st =>
    setCommentStore (store_delete Comment_id String.eqb k (CommentStore st)) st).

(** ** update *)

(** The patch of a string field: a bare value or [{ set }]. *)
Inductive StringUpdateArg : Type :=
| StrTo (v : Nullable string)
| StrSetTo (v : Nullable string).

(** The patch of a number field: a bare value or an object of operations. *)
Record NumberOperations : Type := mkNumberOperations {
  op_set : option (Nullable Z);
  op_increment : option Z;
  op_decrement : option Z;
  op_multiply : option Z;
  op_divide : option Z
}.

Inductive IntUpdateArg : Type :=
| IntTo (v : Nullable Z)
| IntOperations (ops : NumberOperations).

(** The patch of a scalar-list field. *)
Inductive ListUpdateArg (A : Type) : Type :=
| ListTo (l : list A)
| ListSetTo (l : list A)
| ListPush (l : list A)
| ListUnset.
Arguments ListUnset {A}.

Definition fromNullable {A : Type} (v : Nullable A) : option A :=
  match v with JNull => None | JVal a => Some a end.

(** Modelled from the spec: [handleStringUpdateField(record, field, patch)]
    of idb-utils.ts, "set".  The new value of the field is returned. *)
Definition handleStringUpdateField (value : option string) (patch : option StringUpdateArg)
  : option string :=
  match patch with
  | None => value
  | Some (StrTo v) | Some (StrSetTo v) => fromNullable v
  end.

(** Modelled from the spec: [handleIntUpdateField(record, field, patch)] of
    idb-utils.ts, "set; numeric increment/decrement/multiply/divide".  The
    arithmetic leaves an absent value absent; the quotient is taken in the
    integers. *)
Definition handleIntUpdateField (value : option Z) (patch : option IntUpdateArg) : option Z :=
  match patch with
  | None => value
  | Some (IntTo v) => fromNullable v
  | Some (IntOperations ops) =>
      let value := match op_set ops with None => value | Some v => fromNullable v end in
      let value := match op_increment ops with None => value | Some n => option_map (fun v => v + n) value end in
      let value := match op_decrement ops with None => value | Some n => option_map (fun v => v - n) value end in
      let value := match op_multiply ops with None => value | Some n => option_map (fun v => v * n) value end in
      match op_divide ops with None => value | Some n => option_map (fun v => v / n) value end
  end.

(** Modelled from the spec: [handleScalarListUpdateField(record, field,
    patch)] of idb-utils.ts, "list push/set/unset". *)
Definition handleScalarListUpdateField {A : Type} (value : option (list A))
    (patch : option (ListUpdateArg A)) : option (list A) :=
  match patch with
  | None => value
  | Some (ListTo l) | Some (ListSetTo l) => Some l
  | Some (ListPush l) => Some (match value with None => [] | Some v => v end ++ l)
  | Some ListUnset => None
  end.

(** A required field keeps a value: [null] is not in the type of its
    patch. *)
Definition required {A : Type} (old : A) (new : option A) : A :=
  match new with Some v => v | None => old end.

Record UserUpdate : Type := mkUserUpdate {
  uu_name : option StringUpdateArg;
  uu_id : option IntUpdateArg
}.
Record ProfileUpdate : Type := mkProfileUpdate {
  pu_bio : option StringUpdateArg;
  pu_id : option IntUpdateArg;
  pu_userId : option IntUpdateArg
}.
Record PostUpdate : Type := mkPostUpdate {
  tu_title : option StringUpdateArg;
  tu_id : option IntUpdateArg;
  tu_authorId : option IntUpdateArg;
  tu_tags : option (ListUpdateArg string);
  tu_numberArr : option (ListUpdateArg Z)
}.
Record CommentUpdate : Type := mkCommentUpdate {
  cu_id : option StringUpdateArg;
  cu_text : option StringUpdateArg;
  cu_postId : option IntUpdateArg;
  cu_userId : option IntUpdateArg
}.

(** The record after the handlers of [update] have run over its fields. *)
Definition User_patch (record : UserRecord) (data : UserUpdate) : UserRecord :=
  mkUser (required (User_id record) (handleIntUpdateField (Some (User_id record)) (uu_id data)))
         (required (User_name record)
                   (handleStringUpdateField (Some (User_name record)) (uu_name data))).

Definition Profile_patch (record : ProfileRecord) (data : ProfileUpdate) : ProfileRecord :=
  mkProfile
    (required (Profile_id record) (handleIntUpdateField (Some (Profile_id record)) (pu_id data)))
    (handleStringUpdateField (Profile_bio record) (pu_bio data))
    (handleIntUpdateField (Profile_userId record) (pu_userId data)).

Definition Post_patch (record : PostRecord) (data : PostUpdate) : PostRecord :=
  mkPost
    (required (Post_id record) (handleIntUpdateField (Some (Post_id record)) (tu_id data)))
    (required (Post_title record)
              (handleStringUpdateField (Some (Post_title record)) (tu_title data)))
    (handleIntUpdateField (Post_authorId record) (tu_authorId data))
    (handleScalarListUpdateField (Post_tags record) (tu_tags data))
    (handleScalarListUpdateField (Post_numberArr record) (tu_numberArr data)).

Definition Comment_patch (record : CommentRecord) (data : CommentUpdate) : CommentRecord :=
  mkComment
    (required (Comment_id record)
              (handleStringUpdateField (Some (Comment_id record)) (cu_id data)))
    (handleIntUpdateField (Comment_postId record) (cu_postId data))
    (handleIntUpdateField (Comment_userId record) (cu_userId data))
    (required (Comment_text record)
              (handleStringUpdateField (Some (Comment_text record)) (cu_text data))).

(** [update(query, tx)].  [if (record === null)] is a strict test: an
    [undefined] record goes on to the handlers, which read a property of
    it. *)
Definition User_update (where_ : UserWhere) (data : UserUpdate) : M (Lookup UserRecord) :=
  record <- User_findUnique where_ ;;
  match record with
  | IsNull => tx_abort ;;; throw RecordNotFound
  | IsUndefined => throw TypeError
  | Found record =>
      keyPath <- User_store_put (User_patch record data) ;;
      User_findUnique (where_User_id keyPath)
  end.

Definition Profile_update (where_ : ProfileWhere) (data : ProfileUpdate)
  : M (Lookup ProfileRecord) :=
  record <- Profile_findUnique where_ ;;
  match record with
  | IsNull => tx_abort ;;; throw RecordNotFound
  | IsUndefined => throw TypeError
  | Found record =>
      keyPath <- Profile_store_put (Profile_patch record data) ;;
      Profile_findUnique (where_Profile_id keyPath)
  end.

Definition Post_update (where_ : PostWhere) (data : PostUpdate) : M (Lookup PostRecord) :=
  record <- Post_findUnique where_ ;;
  match record with
  | IsNull => tx_abort ;;; throw RecordNotFound
  | IsUndefined => throw TypeError
  | Found record =>
      keyPath <- Post_store_put (Post_patch record data) ;;
      Post_findUnique (where_Post_id keyPath)
  end.

Definition Comment_update (where_ : CommentWhere) (data : CommentUpdate)
  : M (Lookup CommentRecord) :=
  record <- Comment_findUnique where_ ;;
  match record with
  | IsNull => tx_abort ;;; throw RecordNotFound
  | IsUndefined => throw TypeError
  | Found record =>
      keyPath <- Comment_store_put (Comment_patch record data) ;;
      Comment_findUnique (where_Comment_id keyPath)
  end.

(** ** delete and deleteMany *)

(** [if (!record) throw new Error("Record not found")], as [delete] has it. *)
Definition orThrowOnly {A : Type} (found : option A) : M A :=
  match found with
  | None => throw RecordNotFound
  | Some record => ret record
  end.

Definition Comment_delete (where_ : CommentWhere) : M CommentRecord :=
  record <- Comment_findUnique where_ ;;
  record <- orThrowOnly (truthy record) ;;
  Comment_store_delete (Comment_id record) ;;;
  ret record.

Definition Comment_deleteMany (where_ : option CommentWhere) : M nat :=
  records <- Comment_findMany (justWhere where_) ;;
  forEach records (fun record =>
    Comment_delete (where_Comment_id (Comment_id record)) ;;; ret tt) ;;;
  ret (List.length records).

Definition Profile_delete (where_ : ProfileWhere) : M ProfileRecord :=
  record <- Profile_findUnique where_ ;;
  record <- orThrowOnly (truthy record) ;;
  Profile_store_delete (Profile_id record) ;;;
  ret record.

Definition Profile_deleteMany (where_ : option ProfileWhere) : M nat :=
  records <- Profile_findMany (justWhere where_) ;;
  forEach records (fun record =>
    Profile_delete (where_Profile_id (Profile_id record)) ;;; ret tt) ;;;
  ret (List.length records).

Definition Post_delete (where_ : PostWhere) : M PostRecord :=
  record <- Post_findUnique where_ ;;
  record <- orThrowOnly (truthy record) ;;
  Comment_deleteMany (Some (where_Comment_postId (Post_id record))) ;;;
  Post_store_delete (Post_id record) ;;;
  ret record.

Definition Post_deleteMany (where_ : option PostWhere) : M nat :=
  records <- Post_findMany (justWhere where_) ;;
  forEach records (fun record =>
    Post_delete (where_Post_id (Post_id record)) ;;; ret tt) ;;;
  ret (List.length records).

Definition User_delete (where_ : UserWhere) : M UserRecord :=
  record <- User_findUnique where_ ;;
  record <- orThrowOnly (truthy record) ;;
  Profile_deleteMany (Some (where_Profile_userId (User_id record))) ;;;
  Comment_deleteMany (Some (where_Comment_userId (User_id record))) ;;;
  User_store_delete (User_id record) ;;;
  ret record.

Definition User_deleteMany (where_ : option UserWhere) : M nat :=
  records <- User_findMany (justWhere where_) ;;
  forEach records (fun record =>
    User_delete (where_User_id (User_id record)) ;;; ret tt) ;;;
  ret (List.length records).

(** ** create *)

(** The nested write on a to-one relation,
    [{ create?, connectOrCreate?, connect? }], and on a to-many relation,
    where each form takes one value or an array and [createMany] is
    [{ data }].  A [connectOrCreate] is [{ where, create }]. *)
Record NestedOne (C W : Type) : Type := mkNestedOne {
  n_create : option C;
  n_connectOrCreate : option (W * C);
  n_connect : option W
}.

Record NestedMany (C W : Type) : Type := mkNestedMany {
  m_create : option (list C);
  m_connectOrCreate : option (list (W * C));
  m_connect : option (list W);
  m_createMany : option (list C)
}.

(** A list given as it is, or in a [{ set: [...] }] wrapper. *)
Inductive ListInput (A : Type) : Type :=
| ListIs (l : list A)
| ListSet (l : list A).

Inductive UserCreate : Type :=
  mkUserCreate
    (uc_id : option Z)
    (uc_name : string)
    (uc_profile : option (NestedOne ProfileCreate ProfileWhere))
    (uc_posts : option (NestedMany PostCreate PostWhere))
    (uc_comments : option (NestedMany CommentCreate CommentWhere))
with ProfileCreate : Type :=
  mkProfileCreate
    (pc_id : option Z)
    (pc_bio : option (Nullable string))
    (pc_user : option (NestedOne UserCreate UserWhere))
    (pc_userId : option Z)
with PostCreate : Type :=
  mkPostCreate
    (tc_id : option Z)
    (tc_title : string)
    (tc_author : option (NestedOne UserCreate UserWhere))
    (tc_authorId : option (Nullable Z))
    (tc_tags : option (ListInput string))
    (tc_numberArr : option (ListInput Z))
    (tc_comments : option (NestedMany CommentCreate CommentWhere))
with CommentCreate : Type :=
  mkCommentCreate
    (cc_id : option string)
    (cc_text : string)
    (cc_post : option (NestedOne PostCreate PostWhere))
    (cc_postId : option Z)
    (cc_user : option (NestedOne UserCreate UserWhere))
    (cc_userId : option Z).

(** *** The default filler *)

(** A numeric key is a JavaScript number, a double with 53 bits of
    significand.  [toNumber n] is the result of an arithmetic operation whose
    exact value is the integer [n] (of a magnitude below 2^1024): [n] itself
    up to 2^53 in magnitude, and beyond that the nearest multiple of the
    spacing of the doubles around [n], a tie going to the even significand. *)
Definition toNumber (n : Z) : Z :=
  let a := Z.abs n in
  if a <? 2 ^ 53 then n
  else
    let ulp := 2 ^ (Z.log2 a - 52) in
    let q := a / ulp in
    let r := a mod ulp in
    let q' := if 2 * r <? ulp then q
              else if ulp <? 2 * r then q + 1
              else if Z.even q then q else q + 1 in
    Z.sgn n * (q' * ulp).

(** [cursor ? Number(cursor.key) + 1 : 1] after
    [store.openCursor(null, "prev")] *)
Definition nextId {R : Type} (key : R -> Z) (table : list R) : Z :=
  match store_last key Z.ltb table with
  | None => 1
  | Some r => toNumber (key r + 1)
  end.

(** The table has room for [n] more keys: counting up [n] times from its
    greatest key (from 0 on an empty table) stays below 2^53, among the
    integers that a double holds, so that [Number(key) + 1] is one more each
    time. *)
Definition roomFor {R : Type} (n : nat) (key : R -> Z) (table : list R) : Prop :=
  Z.of_nat n < 2 ^ 53
  /\ match store_last key Z.ltb table with
     | None => True
     | Some r => - 2 ^ 53 <= key r /\ key r + Z.of_nat n < 2 ^ 53
     end.

(** [_fillDefaults(data, tx)] of the four classes. *)
Definition User_fillDefaults (data : UserCreate) : M UserCreate :=
  match data with
  | mkUserCreate d_id d_name d_profile d_posts d_comments =>
      d_id <- match d_id with
              | Some k => ret (Some k)
              | None => st <- readStore ;; ret (Some (nextId User_id (UserStore st)))
              end ;;
      ret (mkUserCreate d_id d_name d_profile d_posts d_comments)
  end.

Definition Profile_fillDefaults (data : ProfileCreate) : M ProfileCreate :=
  match data with
  | mkProfileCreate d_id d_bio d_user d_userId =>
      d_id <- match d_id with
              | Some k => ret (Some k)
              | None => st <- readStore ;; ret (Some (nextId Profile_id (ProfileStore st)))
              end ;;
      let d_bio := match d_bio with None => Some JNull | Some b => Some b end in
      ret (mkProfileCreate d_id d_bio d_user d_userId)
  end.

(** [if (!Array.isArray(data.tags)) data.tags = data.tags?.set] *)
Definition unwrapSet {A : Type} (v : option (ListInput A)) : option (ListInput A) :=
  match v with
  | None => None
  | Some (ListIs l) => Some (ListIs l)
  | Some (ListSet l) => Some (ListIs l)
  end.

Definition Post_fillDefaults (data : PostCreate) : M PostCreate :=
  match data with
  | mkPostCreate d_id d_title d_author d_authorId d_tags d_numberArr d_comments =>
      d_id <- match d_id with
              | Some k => ret (Some k)
              | None => st <- readStore ;; ret (Some (nextId Post_id (PostStore st)))
              end ;;
      let d_authorId := match d_authorId with None => Some JNull | Some a => Some a end in
      ret (mkPostCreate d_id d_title d_author d_authorId
                        (unwrapSet d_tags) (unwrapSet d_numberArr) d_comments)
  end.

Definition Comment_fillDefaults (data : CommentCreate) : M CommentCreate :=
  match data with
  | mkCommentCreate d_id d_text d_post d_postId d_user d_userId =>
      d_id <- match d_id with
              | Some k => ret (Some k)
              | None => k <- createId ;; ret (Some k)
              end ;;
      ret (mkCommentCreate d_id d_text d_post d_postId d_user d_userId)
  end.

(** [_removeNestedCreateData(data)]: a copy without the relation keys. *)
Definition User_removeNestedCreateData (data : UserCreate) : UserCreate :=
  match data with
  | mkUserCreate d_id d_name _ _ _ => mkUserCreate d_id d_name None None None
  end.
Definition Profile_removeNestedCreateData (data : ProfileCreate) : ProfileCreate :=
  match data with
  | mkProfileCreate d_id d_bio _ d_userId => mkProfileCreate d_id d_bio None d_userId
  end.
Definition Post_removeNestedCreateData (data : PostCreate) : PostCreate :=
  match data with
  | mkPostCreate d_id d_title _ d_authorId d_tags d_numberArr _ =>
      mkPostCreate d_id d_title None d_authorId d_tags d_numberArr None
  end.
Definition Comment_removeNestedCreateData (data : CommentCreate) : CommentCreate :=
  match data with
  | mkCommentCreate d_id d_text _ d_postId _ d_userId =>
      mkCommentCreate d_id d_text None d_postId None d_userId
  end.

(** The cast of the stripped data to the record type; a record without a
    key cannot be stored. *)
Definition listOf {A : Type} (v : option (ListInput A)) : option (list A) :=
  match v with
  | None => None
  | Some (ListIs l) | Some (ListSet l) => Some l
  end.

Definition User_asRecord (data : UserCreate) : option UserRecord :=
  match data with
  | mkUserCreate (Some k) d_name _ _ _ => Some (mkUser k d_name)
  | _ => None
  end.
Definition Profile_asRecord (data : ProfileCreate) : option ProfileRecord :=
  match data with
  | mkProfileCreate (Some k) d_bio _ d_userId =>
      Some (mkProfile k (match d_bio with Some (JVal b) => Some b | _ => None end) d_userId)
  | _ => None
  end.
Definition Post_asRecord (data : PostCreate) : option PostRecord :=
  match data with
  | mkPostCreate (Some k) d_title _ d_authorId d_tags d_numberArr _ =>
      Some (mkPost k d_title (match d_authorId with Some (JVal a) => Some a | _ => None end)
                   (listOf d_tags) (listOf d_numberArr))
  | _ => None
  end.
Definition Comment_asRecord (data : CommentCreate) : option CommentRecord :=
  match data with
  | mkCommentCreate (Some k) d_text _ d_postId _ d_userId =>
      Some (mkComment k d_postId d_userId d_text)
  | _ => None
  end.

(** [await tx.objectStore(...).add(record)] on the stripped data *)
Definition User_add (data : UserCreate) : M Z :=
  match User_asRecord data with
  | None => throw DataError
  | Some record => User_store_add record
  end.
Definition Profile_add (data : ProfileCreate) : M Z :=
  match Profile_asRecord data with
  | None => throw DataError
  | Some record => Profile_store_add record
  end.
Definition Post_add (data : PostCreate) : M Z :=
  match Post_asRecord data with
  | None => throw DataError
  | Some record => Post_store_add record
  end.
Definition Comment_add (data : CommentCreate) : M string :=
  match Comment_asRecord data with
  | None => throw DataError
  | Some record => Comment_store_add record
  end.

(** [(await tx.objectStore(...).get(keyPath))!] *)
Definition getRow {K R : Type} (key : R -> K) (keyEqb : K -> K -> bool)
    (table : Store -> list R) (k : K) : M R :=
  st <- readStore ;;
  match store_get key keyEqb k (table st) with
  | None => throw TypeError
  | Some r => ret r
  end.

(** [createMany(query, tx)]: the rows are filled and added, nothing else. *)
Definition User_createMany (data : list UserCreate) : M nat :=
  forEach data (fun createData =>
    filled <- User_fillDefaults createData ;;
    User_add (User_removeNestedCreateData filled) ;;; ret tt) ;;;
  ret (List.length data).
Definition Profile_createMany (data : list ProfileCreate) : M nat :=
  forEach data (fun createData =>
    filled <- Profile_fillDefaults createData ;;
    Profile_add (Profile_removeNestedCreateData filled) ;;; ret tt) ;;;
  ret (List.length data).
Definition Post_createMany (data : list PostCreate) : M nat :=
  forEach data (fun createData =>
    filled <- Post_fillDefaults createData ;;
    Post_add (Post_removeNestedCreateData filled) ;;; ret tt) ;;;
  ret (List.length data).
Definition Comment_createMany (data : list CommentCreate) : M nat :=
  forEach data (fun createData =>
    filled <- Comment_fillDefaults createData ;;
    Comment_add (Comment_removeNestedCreateData filled) ;;; ret tt) ;;;
  ret (List.length data).

(** The payloads that [create] builds for its nested calls. *)
Definition connectTo {C W : Type} (w : W) : NestedOne C W :=
  mkNestedOne None None (Some w).

(** [{ ...data, userId: k }] *)
Definition ProfileCreate_withUserId (data : ProfileCreate) (k : Z) : ProfileCreate :=
  match data with
  | mkProfileCreate d_id d_bio d_user _ => mkProfileCreate d_id d_bio d_user (Some k)
  end.
(** [{ ...data, author: { connect: { id: k } } }] *)
Definition PostCreate_withAuthor (data : PostCreate) (k : Z) : PostCreate :=
  match data with
  | mkPostCreate d_id d_title _ d_authorId d_tags d_numberArr d_comments =>
      mkPostCreate d_id d_title (Some (connectTo (where_User_id k))) d_authorId
                   d_tags d_numberArr d_comments
  end.
(** [{ ...data, authorId: k }] *)
Definition PostCreate_withAuthorId (data : PostCreate) (k : Z) : PostCreate :=
  match data with
  | mkPostCreate d_id d_title d_author _ d_tags d_numberArr d_comments =>
      mkPostCreate d_id d_title d_author (Some (JVal k)) d_tags d_numberArr d_comments
  end.
(** [{ ...data, user: { connect: { id: k } } }] and [{ ...data, userId: k }] *)
Definition CommentCreate_withUser (data : CommentCreate) (k : Z) : CommentCreate :=
  match data with
  | mkCommentCreate d_id d_text d_post d_postId _ d_userId =>
      mkCommentCreate d_id d_text d_post d_postId (Some (connectTo (where_User_id k))) d_userId
  end.
Definition CommentCreate_withUserId (data : CommentCreate) (k : Z) : CommentCreate :=
  match data with
  | mkCommentCreate d_id d_text d_post d_postId d_user _ =>
      mkCommentCreate d_id d_text d_post d_postId d_user (Some k)
  end.
(** [{ ...data, post: { connect: { id: k } } }] and [{ ...data, postId: k }] *)
Definition CommentCreate_withPost (data : CommentCreate) (k : Z) : CommentCreate :=
  match data with
  | mkCommentCreate d_id d_text _ d_postId d_user d_userId =>
      mkCommentCreate d_id d_text (Some (connectTo (where_Post_id k))) d_postId d_user d_userId
  end.
Definition CommentCreate_withPostId (data : CommentCreate) (k : Z) : CommentCreate :=
  match data with
  | mkCommentCreate d_id d_text d_post _ d_user d_userId =>
      mkCommentCreate d_id d_text d_post (Some k) d_user d_userId
  end.

(** [{ userId: k }], [{ authorId: k }], [{ postId: k }] as update data *)
Definition setTo (k : Z) : option IntUpdateArg := Some (IntTo (JVal k)).
Definition Profile_data_userId (k : Z) : ProfileUpdate := mkProfileUpdate None None (setTo k).
Definition Post_data_authorId (k : Z) : PostUpdate := mkPostUpdate None None (setTo k) None None.
Definition Comment_data_userId (k : Z) : CommentUpdate := mkCommentUpdate None None None (setTo k).
Definition Comment_data_postId (k : Z) : CommentUpdate := mkCommentUpdate None None (setTo k) None.

(** [if (x) { ... }] on an optional value *)
Definition ifSet {A : Type} (o : option A) (f : A -> M unit) : M unit :=
  match o with
  | None => ret tt
  | Some a => f a
  end.

Definition done {A : Type} (m : M A) : M unit := m ;;; ret tt.

Definition cc_post_of (data : CommentCreate) :=
  match data with mkCommentCreate _ _ p _ _ _ => p end.
Definition cc_postId_of (data : CommentCreate) :=
  match data with mkCommentCreate _ _ _ p _ _ => p end.
Definition cc_user_of (data : CommentCreate) :=
  match data with mkCommentCreate _ _ _ _ u _ => u end.
Definition cc_userId_of (data : CommentCreate) :=
  match data with mkCommentCreate _ _ _ _ _ u => u end.

(** [create(query, tx)] of the four classes.  The nested calls go through
    the other engines and back, as deep as the payload is nested; [fuel]
    bounds that depth.  The calls over a list that the source starts
    together with [Promise.all] ([connect] on a list, [comments.create]) run
    here one after the other, in the order of the list; how the engine
    interleaves them is outside the model. *)
Fixpoint User_create (fuel : nat) (data : UserCreate) {struct fuel} : M UserRecord :=
  match fuel with
  | O => fun _ => OutOfFuel
  | S fuel =>
    filled <- User_fillDefaults data ;;
    keyPath <- User_add (User_removeNestedCreateData filled) ;;
    match data with
    | mkUserCreate _ _ d_profile d_posts d_comments =>
      ifSet d_profile (fun profile =>
        ifSet (n_create profile) (fun createData =>
          done (Profile_create fuel (ProfileCreate_withUserId createData keyPath))) ;;;
        ifSet (n_connect profile) (fun connectWhere =>
          done (Profile_update connectWhere (Profile_data_userId keyPath))) ;;;
        ifSet (n_connectOrCreate profile) (fun _ => throw ConnectOrCreateNotImplemented)) ;;;
      ifSet d_posts (fun posts =>
        ifSet (m_create posts) (fun creates =>
          forEach creates (fun createData =>
            done (Post_create fuel (PostCreate_withAuthor createData keyPath)))) ;;;
        ifSet (m_connect posts) (fun connects =>
          forEach connects (fun connectWhere =>
            done (Post_update connectWhere (Post_data_authorId keyPath)))) ;;;
        ifSet (m_connectOrCreate posts) (fun _ => throw ConnectOrCreateNotImplemented) ;;;
        ifSet (m_createMany posts) (fun createManyData =>
          done (Post_createMany
                  (map (fun createData => PostCreate_withAuthorId createData keyPath)
                       createManyData)))) ;;;
      ifSet d_comments (fun comments =>
        ifSet (m_create comments) (fun creates =>
          forEach creates (fun elem =>
            match cc_post_of elem, cc_postId_of elem with
            | Some _, None => done (Comment_create fuel (CommentCreate_withUser elem keyPath))
            | _, Some _ => done (Comment_create fuel (CommentCreate_withUserId elem keyPath))
            | None, None => ret tt
            end)) ;;;
        ifSet (m_connect comments) (fun connects =>
          forEach connects (fun connectWhere =>
            done (Comment_update connectWhere (Comment_data_userId keyPath)))) ;;;
        ifSet (m_connectOrCreate comments) (fun _ => throw ConnectOrCreateNotImplemented) ;;;
        ifSet (m_createMany comments) (fun createManyData =>
          done (Comment_createMany
                  (map (fun createData => CommentCreate_withUserId createData keyPath)
                       createManyData)))) ;;;
      getRow User_id Z.eqb UserStore keyPath
    end
  end

with Profile_create (fuel : nat) (data : ProfileCreate) {struct fuel} : M ProfileRecord :=
  match fuel with
  | O => fun _ => OutOfFuel
  | S fuel =>
    match data with
    | mkProfileCreate d_id d_bio d_user d_userId =>
      data <-
        match d_user with
        | Some user =>
            fk <- match n_create user with
                  | None => ret None
                  | Some createData =>
                      created <- User_create fuel createData ;; ret (Some (User_id created))
                  end ;;
            fk <- match n_connect user with
                  | None => ret fk
                  | Some connectWhere =>
                      record <- User_findUniqueOrThrow connectWhere ;;
                      ret (Some (User_id record))
                  end ;;
            ifSet (n_connectOrCreate user) (fun _ => throw ConnectOrCreateNotImplemented) ;;;
            ret (mkProfileCreate d_id d_bio None fk)
        | None =>
            ifSet d_userId (fun userId =>
              done (User_findUniqueOrThrow (where_User_id userId))) ;;;
            ret data
        end ;;
      filled <- Profile_fillDefaults data ;;
      keyPath <- Profile_add (Profile_removeNestedCreateData filled) ;;
      getRow Profile_id Z.eqb ProfileStore keyPath
    end
  end

with Post_create (fuel : nat) (data : PostCreate) {struct fuel} : M PostRecord :=
  match fuel with
  | O => fun _ => OutOfFuel
  | S fuel =>
    match data with
    | mkPostCreate d_id d_title d_author d_authorId d_tags d_numberArr d_comments =>
      data <-
        match d_author with
        | Some author =>
            fk <- match n_create author with
                  | None => ret None
                  | Some createData =>
                      created <- User_create fuel createData ;; ret (Some (User_id created))
                  end ;;
            fk <- match n_connect author with
                  | None => ret fk
                  | Some connectWhere =>
                      record <- User_findUniqueOrThrow connectWhere ;;
                      ret (Some (User_id record))
                  end ;;
            ifSet (n_connectOrCreate author) (fun _ => throw ConnectOrCreateNotImplemented) ;;;
            ret (mkPostCreate d_id d_title None (option_map JVal fk)
                              d_tags d_numberArr d_comments)
        | None =>
            match d_authorId with
            | Some (JVal authorId) => done (User_findUniqueOrThrow (where_User_id authorId))
            | _ => ret tt
            end ;;;
            ret data
        end ;;
      filled <- Post_fillDefaults data ;;
      keyPath <- Post_add (Post_removeNestedCreateData filled) ;;
      ifSet d_comments (fun comments =>
        ifSet (m_create comments) (fun creates =>
          forEach creates (fun elem =>
            match cc_user_of elem, cc_userId_of elem with
            | Some _, None => done (Comment_create fuel (CommentCreate_withPost elem keyPath))
            | _, Some _ => done (Comment_create fuel (CommentCreate_withPostId elem keyPath))
            | None, None => ret tt
            end)) ;;;
        ifSet (m_connect comments) (fun connects =>
          forEach connects (fun connectWhere =>
            done (Comment_update connectWhere (Comment_data_postId keyPath)))) ;;;
        ifSet (m_connectOrCreate comments) (fun _ => throw ConnectOrCreateNotImplemented) ;;;
        ifSet (m_createMany comments) (fun createManyData =>
          done (Comment_createMany
                  (map (fun createData => CommentCreate_withPostId createData keyPath)
                       createManyData)))) ;;;
      row <- getRow Post_id Z.eqb PostStore keyPath ;;
      ret (Post_preprocessListFields row)
    end
  end

with Comment_create (fuel : nat) (data : CommentCreate) {struct fuel} : M CommentRecord :=
  match fuel with
  | O => fun _ => OutOfFuel
  | S fuel =>
    match data with
    | mkCommentCreate d_id d_text d_post d_postId d_user d_userId =>
      d_postId <-
        match d_post with
        | Some post =>
            fk <- match n_create post with
                  | None => ret None
                  | Some createData =>
                      created <- Post_create fuel createData ;; ret (Some (Post_id created))
                  end ;;
            fk <- match n_connect post with
                  | None => ret fk
                  | Some connectWhere =>
                      record <- Post_findUniqueOrThrow connectWhere ;;
                      ret (Some (Post_id record))
                  end ;;
            ifSet (n_connectOrCreate post) (fun _ => throw ConnectOrCreateNotImplemented) ;;;
            ret fk
        | None =>
            ifSet d_postId (fun postId =>
              done (Post_findUniqueOrThrow (where_Post_id postId))) ;;;
            ret d_postId
        end ;;
      d_userId <-
        match d_user with
        | Some user =>
            fk <- match n_create user with
                  | None => ret None
                  | Some createData =>
                      created <- User_create fuel createData ;; ret (Some (User_id created))
                  end ;;
            fk <- match n_connect user with
                  | None => ret fk
                  | Some connectWhere =>
                      record <- User_findUniqueOrThrow connectWhere ;;
                      ret (Some (User_id record))
                  end ;;
            ifSet (n_connectOrCreate user) (fun _ => throw ConnectOrCreateNotImplemented) ;;;
            ret fk
        | None =>
            ifSet d_userId (fun userId =>
              done (User_findUniqueOrThrow (where_User_id userId))) ;;;
            ret d_userId
        end ;;
      filled <- Comment_fillDefaults (mkCommentCreate d_id d_text None d_postId None d_userId) ;;
      keyPath <- Comment_add (Comment_removeNestedCreateData filled) ;;
      getRow Comment_id String.eqb CommentStore keyPath
    end
  end.

(** ** The scope analyser *)

(** [Set<StoreNames<PrismaIDBSchema>>], in insertion order. *)
Definition StoreSet : Type := list StoreName.

Definition addStore (s : StoreName) (set : StoreSet) : StoreSet :=
  if existsb (StoreName_eqb s) set then set else set ++ [s].

(** [other.forEach((storeName) => neededStores.add(storeName))] *)
Definition addStores (other : StoreSet) (set : StoreSet) : StoreSet :=
  fold_left (fun acc s => addStore s acc) other set.

Definition hasStore (s : StoreName) (set : StoreSet) : bool :=
  existsb (StoreName_eqb s) set.

Section NeededStoresForWhere.
Variable F : Type.
(** The relation keys of [_getNeededStoresForWhere]. *)
Variable relations : F -> StoreSet -> StoreSet.

(** [_getNeededStoresForWhere(whereClause, neededStores)] for a clause
    that is present: the logical keys in the order of [LogicalParams],
    then the relation keys. *)
Fixpoint neededStoresForWhere (whereClause : Where F) (neededStores : StoreSet)
    {struct whereClause} : StoreSet :=
  match whereClause with
  | MkWhere AND OR NOT fields =>
      let walk (param : option (list (Where F))) (acc : StoreSet) :=
        match param with
        | None => acc
        | Some clauses => fold_left (fun acc clause => neededStoresForWhere clause acc) clauses acc
        end in
      relations fields (walk NOT (walk OR (walk AND neededStores)))
  end.
End NeededStoresForWhere.

Definition forOptional {W : Type} (f : W -> StoreSet -> StoreSet) (w : option W)
    (neededStores : StoreSet) : StoreSet :=
  match w with
  | None => neededStores
  | Some w => f w neededStores
  end.

(** The relation keys of the four [_getNeededStoresForWhere] methods.  A
    to-one filter object is handed to the related engine as if it were a
    where clause of that entity: its [is] and [isNot] are no keys of such a
    clause and are not read. *)
Fixpoint User_whereRelations (fields : UserWhereFields) (neededStores : StoreSet)
    {struct fields} : StoreSet :=
  match fields with
  | mkUserWhere _ _ w_profile w_posts w_comments =>
    let neededStores :=
      match w_profile with
      | Some (JVal rel) =>
          neededStoresForWhere Profile_whereRelations (rel_rest rel) (addStore Profile neededStores)
      | _ => neededStores
      end in
    let neededStores :=
      match w_posts with
      | Some rel =>
          forOptional (neededStoresForWhere Post_whereRelations) (rel_none rel)
            (forOptional (neededStoresForWhere Post_whereRelations) (rel_some rel)
               (forOptional (neededStoresForWhere Post_whereRelations) (rel_every rel)
                  (addStore Post neededStores)))
      | None => neededStores
      end in
    match w_comments with
    | Some rel =>
        forOptional (neededStoresForWhere Comment_whereRelations) (rel_none rel)
          (forOptional (neededStoresForWhere Comment_whereRelations) (rel_some rel)
             (forOptional (neededStoresForWhere Comment_whereRelations) (rel_every rel)
                (addStore Comment neededStores)))
    | None => neededStores
    end
  end

with Profile_whereRelations (fields : ProfileWhereFields) (neededStores : StoreSet)
    {struct fields} : StoreSet :=
  match fields with
  | mkProfileWhere _ _ _ w_user =>
    match w_user with
    | Some rel =>
        neededStoresForWhere User_whereRelations (rel_rest rel) (addStore User neededStores)
    | None => neededStores
    end
  end

with Post_whereRelations (fields : PostWhereFields) (neededStores : StoreSet)
    {struct fields} : StoreSet :=
  match fields with
  | mkPostWhere _ _ _ _ _ w_author w_comments =>
    let neededStores :=
      match w_author with
      | Some (JVal rel) =>
          neededStoresForWhere User_whereRelations (rel_rest rel) (addStore User neededStores)
      | _ => neededStores
      end in
    match w_comments with
    | Some rel =>
        forOptional (neededStoresForWhere Comment_whereRelations) (rel_none rel)
          (forOptional (neededStoresForWhere Comment_whereRelations) (rel_some rel)
             (forOptional (neededStoresForWhere Comment_whereRelations) (rel_every rel)
                (addStore Comment neededStores)))
    | None => neededStores
    end
  end

with Comment_whereRelations (fields : CommentWhereFields) (neededStores : StoreSet)
    {struct fields} : StoreSet :=
  match fields with
  | mkCommentWhere _ _ _ _ w_post w_user =>
    let neededStores :=
      match w_post with
      | Some rel =>
          neededStoresForWhere Post_whereRelations (rel_rest rel) (addStore Post neededStores)
      | None => neededStores
      end in
    match w_user with
    | Some rel =>
        neededStoresForWhere User_whereRelations (rel_rest rel) (addStore User neededStores)
    | None => neededStores
    end
  end.

(** [_getNeededStoresForWhere(whereClause, neededStores)] *)
Definition User_getNeededStoresForWhere :=
  forOptional (neededStoresForWhere User_whereRelations).
Definition Profile_getNeededStoresForWhere :=
  forOptional (neededStoresForWhere Profile_whereRelations).
Definition Post_getNeededStoresForWhere :=
  forOptional (neededStoresForWhere Post_whereRelations).
Definition Comment_getNeededStoresForWhere :=
  forOptional (neededStoresForWhere Comment_whereRelations).

(** The value of a relation key in [select] or [include]: a boolean, or the
    arguments of the nested find. *)
Inductive RelationArg (Q : Type) : Type :=
| RelationBool (b : bool)
| RelationArgs (q : Q).
Arguments RelationBool {Q} _.
Arguments RelationArgs {Q} _.

(** The query shapes the analyser walks: [where], [orderBy], and the
    relation keys of [select] and [include]. *)
Inductive UserQuery : Type :=
  mkUserQuery
    (where_ : option UserWhere) (orderBy : option (list UserOrderBy))
    (select include : option UserRelationArgs)
with UserRelationArgs : Type :=
  mkUserRelationArgs
    (ur_profile : option (RelationArg ProfileQuery))
    (ur_posts : option (RelationArg PostQuery))
    (ur_comments : option (RelationArg CommentQuery))
with ProfileQuery : Type :=
  mkProfileQuery
    (where_ : option ProfileWhere) (orderBy : option (list ProfileOrderBy))
    (select include : option ProfileRelationArgs)
with ProfileRelationArgs : Type :=
  mkProfileRelationArgs
    (pr_user : option (RelationArg UserQuery))
with PostQuery : Type :=
  mkPostQuery
    (where_ : option PostWhere) (orderBy : option (list PostOrderBy))
    (select include : option PostRelationArgs)
with PostRelationArgs : Type :=
  mkPostRelationArgs
    (tr_author : option (RelationArg UserQuery))
    (tr_comments : option (RelationArg CommentQuery))
with CommentQuery : Type :=
  mkCommentQuery
    (where_ : option CommentWhere) (orderBy : option (list CommentOrderBy))
    (select include : option CommentRelationArgs)
with CommentRelationArgs : Type :=
  mkCommentRelationArgs
    (cr_post : option (RelationArg PostQuery))
    (cr_user : option (RelationArg UserQuery)).

(** An orderBy clause of one entity read through the keys of another, as
    happens when [{ orderBy: orderBy_post }] is handed to the related
    engine: a key is found when both clause types have it. *)
Definition User_clause_as_Profile (c : UserOrderBy) : ProfileOrderBy :=
  match c with mkUserOrderBy o_id _ _ _ _ => mkProfileOrderBy o_id None None None end.
Definition User_clause_as_Post (c : UserOrderBy) : PostOrderBy :=
  match c with
  | mkUserOrderBy o_id _ _ _ o_comments => mkPostOrderBy o_id None None None None None o_comments
  end.
Definition User_clause_as_Comment (c : UserOrderBy) : CommentOrderBy :=
  match c with mkUserOrderBy o_id _ _ _ _ => mkCommentOrderBy o_id None None None None None end.
Definition Profile_clause_as_User (c : ProfileOrderBy) : UserOrderBy :=
  match c with mkProfileOrderBy o_id _ _ _ => mkUserOrderBy o_id None None None None end.
Definition Post_clause_as_User (c : PostOrderBy) : UserOrderBy :=
  match c with
  | mkPostOrderBy o_id _ _ _ _ _ o_comments => mkUserOrderBy o_id None None None o_comments
  end.
Definition Post_clause_as_Comment (c : PostOrderBy) : CommentOrderBy :=
  match c with
  | mkPostOrderBy o_id _ _ _ _ _ _ => mkCommentOrderBy o_id None None None None None
  end.
Definition Comment_clause_as_Post (c : CommentOrderBy) : PostOrderBy :=
  match c with
  | mkCommentOrderBy o_id _ _ _ _ _ => mkPostOrderBy o_id None None None None None None
  end.
Definition Comment_clause_as_User (c : CommentOrderBy) : UserOrderBy :=
  match c with
  | mkCommentOrderBy o_id _ _ _ _ _ => mkUserOrderBy o_id None None None None
  end.

(** [{ orderBy: clause }] *)
Definition UserQuery_orderBy (c : UserOrderBy) : option UserQuery :=
  Some (mkUserQuery None (Some [c]) None None).
Definition ProfileQuery_orderBy (c : ProfileOrderBy) : option ProfileQuery :=
  Some (mkProfileQuery None (Some [c]) None None).
Definition PostQuery_orderBy (c : PostOrderBy) : option PostQuery :=
  Some (mkPostQuery None (Some [c]) None None).
Definition CommentQuery_orderBy (c : CommentOrderBy) : option CommentQuery :=
  Some (mkCommentQuery None (Some [c]) None None).

(** The relation keys of an orderBy clause. *)
Definition uo_profile_of (c : UserOrderBy) := match c with mkUserOrderBy _ _ p _ _ => p end.
Definition uo_posts_of (c : UserOrderBy) := match c with mkUserOrderBy _ _ _ p _ => p end.
Definition uo_comments_of (c : UserOrderBy) := match c with mkUserOrderBy _ _ _ _ p => p end.
Definition po_user_of (c : ProfileOrderBy) := match c with mkProfileOrderBy _ _ _ u => u end.
Definition to_author_of (c : PostOrderBy) := match c with mkPostOrderBy _ _ _ _ _ a _ => a end.
Definition to_comments_of (c : PostOrderBy) := match c with mkPostOrderBy _ _ _ _ _ _ a => a end.
Definition co_post_of (c : CommentOrderBy) := match c with mkCommentOrderBy _ _ _ _ p _ => p end.
Definition co_user_of (c : CommentOrderBy) := match c with mkCommentOrderBy _ _ _ _ _ u => u end.

Definition isSome {A : Type} (o : option A) : bool := negb (isNone o).

(** [query?.select?.r || query?.include?.r] *)
Definition attached {Q : Type} (s i : option (RelationArg Q)) : bool :=
  let truthyArg (a : option (RelationArg Q)) :=
    match a with
    | Some (RelationBool b) => b
    | Some (RelationArgs _) => true
    | None => false
    end in
  truthyArg s || truthyArg i.

(** [typeof x === "object"] *)
Definition argsOf {Q : Type} (a : option (RelationArg Q)) : option Q :=
  match a with
  | Some (RelationArgs q) => Some q
  | _ => None
  end.

Section NeededStoresForFind.
(** The calls into the engines of the related entities, a level down. *)
Variable User_find : option UserQuery -> option StoreSet.
Variable Profile_find : option ProfileQuery -> option StoreSet.
Variable Post_find : option PostQuery -> option StoreSet.
Variable Comment_find : option CommentQuery -> option StoreSet.

Definition addFrom (stores : option StoreSet) (neededStores : option StoreSet)
  : option StoreSet :=
  match neededStores, stores with
  | Some set, Some other => Some (addStores other set)
  | _, _ => None
  end.

Definition whenTrue (b : bool) (f : option StoreSet -> option StoreSet)
    (neededStores : option StoreSet) : option StoreSet :=
  if b then f neededStores else neededStores.

Definition forArgs {Q : Type} (find_ : option Q -> option StoreSet)
    (a : option Q) (neededStores : option StoreSet) : option StoreSet :=
  match a with
  | None => neededStores
  | Some q => addFrom (find_ (Some q)) neededStores
  end.

(** The part of [_getNeededStoresForFind] for one relation key of
    [select] and [include]. *)
Definition forRelation {Q : Type} (store : StoreName) (find_ : option Q -> option StoreSet)
    (s i : option (RelationArg Q)) (neededStores : option StoreSet) : option StoreSet :=
  whenTrue (attached s i)
    (fun neededStores =>
       forArgs find_ (argsOf i)
         (forArgs find_ (argsOf s) (option_map (addStore store) neededStores)))
    neededStores.

Definition User_getNeededStoresForFind_body (query : option UserQuery) : option StoreSet :=
  let '(where_, orderBy, select, include) :=
    match query with
    | None => (None, None, None, None)
    | Some (mkUserQuery w o s i) => (w, o, s, i)
    end in
  let neededStores := Some (User_getNeededStoresForWhere where_ (addStore User [])) in
  let neededStores :=
    match orderBy with
    | None => neededStores
    | Some orderBy =>
        let neededStores :=
          match find (fun clause => isSome (uo_profile_of clause)) orderBy with
          | None => neededStores
          | Some orderBy_profile =>
              addFrom (Profile_find (ProfileQuery_orderBy (User_clause_as_Profile orderBy_profile)))
                      neededStores
          end in
        let neededStores :=
          match find (fun clause => isSome (uo_posts_of clause)) orderBy with
          | None => neededStores
          | Some orderBy_posts =>
              addFrom (Post_find (PostQuery_orderBy (User_clause_as_Post orderBy_posts)))
                      neededStores
          end in
        match find (fun clause => isSome (uo_comments_of clause)) orderBy with
        | None => neededStores
        | Some orderBy_comments =>
            addFrom (Comment_find (CommentQuery_orderBy (User_clause_as_Comment orderBy_comments)))
                    neededStores
        end
    end in
  let rel (r : option UserRelationArgs) :=
    match r with
    | None => (None, None, None)
    | Some (mkUserRelationArgs a b c) => (a, b, c)
    end in
  let '(s_profile, s_posts, s_comments) := rel select in
  let '(i_profile, i_posts, i_comments) := rel include in
  forRelation Comment Comment_find s_comments i_comments
    (forRelation Post Post_find s_posts i_posts
       (forRelation Profile Profile_find s_profile i_profile neededStores)).

Definition Profile_getNeededStoresForFind_body (query : option ProfileQuery)
  : option StoreSet :=
  let '(where_, orderBy, select, include) :=
    match query with
    | None => (None, None, None, None)
    | Some (mkProfileQuery w o s i) => (w, o, s, i)
    end in
  let neededStores := Some (Profile_getNeededStoresForWhere where_ (addStore Profile [])) in
  let neededStores :=
    match orderBy with
    | None => neededStores
    | Some orderBy =>
        match find (fun clause => isSome (po_user_of clause)) orderBy with
        | None => neededStores
        | Some orderBy_user =>
            addFrom (User_find (UserQuery_orderBy (Profile_clause_as_User orderBy_user)))
                    neededStores
        end
    end in
  let rel (r : option ProfileRelationArgs) :=
    match r with
    | None => None
    | Some (mkProfileRelationArgs a) => a
    end in
  forRelation User User_find (rel select) (rel include) neededStores.

Definition Post_getNeededStoresForFind_body (query : option PostQuery) : option StoreSet :=
  let '(where_, orderBy, select, include) :=
    match query with
    | None => (None, None, None, None)
    | Some (mkPostQuery w o s i) => (w, o, s, i)
    end in
  let neededStores := Some (Post_getNeededStoresForWhere where_ (addStore Post [])) in
  let neededStores :=
    match orderBy with
    | None => neededStores
    | Some orderBy =>
        let neededStores :=
          match find (fun clause => isSome (to_author_of clause)) orderBy with
          | None => neededStores
          | Some orderBy_author =>
              addFrom (User_find (UserQuery_orderBy (Post_clause_as_User orderBy_author)))
                      neededStores
          end in
        match find (fun clause => isSome (to_comments_of clause)) orderBy with
        | None => neededStores
        | Some orderBy_comments =>
            addFrom (Comment_find (CommentQuery_orderBy (Post_clause_as_Comment orderBy_comments)))
                    neededStores
        end
    end in
  let rel (r : option PostRelationArgs) :=
    match r with
    | None => (None, None)
    | Some (mkPostRelationArgs a b) => (a, b)
    end in
  let '(s_author, s_comments) := rel select in
  let '(i_author, i_comments) := rel include in
  forRelation Comment Comment_find s_comments i_comments
    (forRelation User User_find s_author i_author neededStores).

Definition Comment_getNeededStoresForFind_body (query : option CommentQuery)
  : option StoreSet :=
  let '(where_, orderBy, select, include) :=
    match query with
    | None => (None, None, None, None)
    | Some (mkCommentQuery w o s i) => (w, o, s, i)
    end in
  let neededStores := Some (Comment_getNeededStoresForWhere where_ (addStore Comment [])) in
  let neededStores :=
    match orderBy with
    | None => neededStores
    | Some orderBy =>
        let neededStores :=
          match find (fun clause => isSome (co_post_of clause)) orderBy with
          | None => neededStores
          | Some orderBy_post =>
              addFrom (Post_find (PostQuery_orderBy (Comment_clause_as_Post orderBy_post)))
                      neededStores
          end in
        match find (fun clause => isSome (co_user_of clause)) orderBy with
        | None => neededStores
        | Some orderBy_user =>
            addFrom (User_find (UserQuery_orderBy (Comment_clause_as_User orderBy_user)))
                    neededStores
        end
    end in
  let rel (r : option CommentRelationArgs) :=
    match r with
    | None => (None, None)
    | Some (mkCommentRelationArgs a b) => (a, b)
    end in
  let '(s_post, s_user) := rel select in
  let '(i_post, i_user) := rel include in
  forRelation User User_find s_user i_user
    (forRelation Post Post_find s_post i_post neededStores).
End NeededStoresForFind.

(** [_getNeededStoresForFind(query)] of the four classes.  The calls go from
    engine to engine as deep as the query is nested; [fuel] bounds that
    depth, and [None] is a walk that ran out of it. *)
Fixpoint User_getNeededStoresForFind (fuel : nat) (query : option UserQuery)
    {struct fuel} : option StoreSet :=
  match fuel with
  | O => None
  | S fuel =>
      User_getNeededStoresForFind_body
        (Profile_getNeededStoresForFind fuel) (Post_getNeededStoresForFind fuel)
        (Comment_getNeededStoresForFind fuel) query
  end
with Profile_getNeededStoresForFind (fuel : nat) (query : option ProfileQuery)
    {struct fuel} : option StoreSet :=
  match fuel with
  | O => None
  | S fuel => Profile_getNeededStoresForFind_body (User_getNeededStoresForFind fuel) query
  end
with Post_getNeededStoresForFind (fuel : nat) (query : option PostQuery)
    {struct fuel} : option StoreSet :=
  match fuel with
  | O => None
  | S fuel =>
      Post_getNeededStoresForFind_body
        (User_getNeededStoresForFind fuel) (Comment_getNeededStoresForFind fuel) query
  end
with Comment_getNeededStoresForFind (fuel : nat) (query : option CommentQuery)
    {struct fuel} : option StoreSet :=
  match fuel with
  | O => None
  | S fuel =>
      Comment_getNeededStoresForFind_body
        (User_getNeededStoresForFind fuel) (Post_getNeededStoresForFind fuel) query
  end.

(** ** Sample data *)

(** A generator for [createId()]: "a", "b", "c", ... *)
Definition sampleCuid (n : nat) : string :=
  String (ascii_of_nat (97 + n)) EmptyString.

(** A fresh database, and a call that opens its own transaction on the
    committed stores [st]. *)
Definition openOn (st : Store) : World :=
  mkWorld st st false [] [] sampleCuid 0.

Definition emptyWorld : World := openOn emptyStore.

(** [{ orderBy: { post: { author: { name: "asc" } } } }] on comments *)
Definition orderBy_post_author_name : CommentOrderBy :=
  mkCommentOrderBy None None None None
    (Some (mkPostOrderBy None None None None None
             (Some (mkUserOrderBy None (Some asc) None None None)) None))
    None.

Definition comments_by_post_author : option CommentQuery :=
  Some (mkCommentQuery None (Some [orderBy_post_author_name]) None None).

(** [{ where: { post: { is: { author: { is: { name: "Ann" } } } } } }]: the
    comments on the posts of Ann. *)
Definition comments_on_posts_of_Ann : option CommentQuery :=
  let byName : UserWhere :=
    MkWhere None None None (mkUserWhere None (Some (StrIs "Ann")) None None None) in
  let byAuthor : PostWhere :=
    MkWhere None None None
      (mkPostWhere None None None None None
         (Some (JVal (mkToOne (Some (JVal byName)) None (MkWhere None None None noUserWhere))))
         None) in
  Some (mkCommentQuery
          (Some (MkWhere None None None
                   (mkCommentWhere None None None None
                      (Some (mkToOne (Some (JVal byAuthor)) None
                                     (MkWhere None None None noPostWhere)))
                      None)))
          None None None).

(** [{ name: "John" }] *)
Definition john : UserCreate := mkUserCreate None "John" None None None.

(** A transaction on an empty database in which John has been created. *)
Definition johnCreated : World :=
  mkWorld (mkStore [mkUser 1 "John"] [] [] []) emptyStore false [] [] sampleCuid 0.

Definition noUserUpdate : UserUpdate := mkUserUpdate None None.

(** The transaction after [tx.abort()]. *)
Definition abortedFrom (w : World) : World :=
  mkWorld (db_begin w) (db_begin w) true (listeners w) (called w) (cuid w) (cuid_calls w).

(** [{ id: 1, name: "Jane" }] *)
Definition user_1_named_Jane : UserWhere :=
  MkWhere None None None (mkUserWhere (Some (NumIs 1)) (Some (StrIs "Jane")) None None None).

(** The world after one more call of [createId()]. *)
Definition afterCreateId (w : World) : World :=
  mkWorld (db_now w) (db_begin w) (aborted w) (listeners w) (called w)
          (cuid w) (S (cuid_calls w)).

(** Whether a record holds a value, not [null], in a field. *)
Definition User_hasValue (f : UserField) (record : UserRecord) : bool := true.

Definition Profile_hasValue (f : ProfileField) (record : ProfileRecord) : bool :=
  match f with
  | Profile_field_id => true
  | Profile_field_bio => isSome (Profile_bio record)
  | Profile_field_userId => isSome (Profile_userId record)
  end.

Definition Comment_hasValue (f : CommentField) (record : CommentRecord) : bool :=
  match f with
  | Comment_field_id | Comment_field_text => true
  | Comment_field_postId => isSome (Comment_postId record)
  | Comment_field_userId => isSome (Comment_userId record)
  end.

(** The counts of [count] with a [select] of keys: the where clause of the
    call for [_all], the whole table for a field. *)
Definition countsOf {R W Fld : Type} (applyWhereClause : list R -> option W -> list R)
    (hasValue : Fld -> R -> bool) (table : list R) (where_ : option W)
    (keys : list (CountKey Fld * bool)) : list (CountKey Fld * nat) :=
  map (fun entry : CountKey Fld * bool =>
         match fst entry with
         | count_all => (count_all, List.length (applyWhereClause table where_))
         | count_field f => (count_field f, List.length (filter (hasValue f) table))
         end) keys.

(** The sub-clauses under a logical key. *)
Definition clausesOf {W : Type} (param : option (list W)) : list W :=
  match param with None => [] | Some clauses => clauses end.

(** Two users, a profile for the first, two posts by the first, and a
    comment of the first on the first post. *)
Definition ann : UserRecord := mkUser 1 "Ann".
Definition bob : UserRecord := mkUser 2 "Bob".
Definition sampleStore : Store :=
  mkStore [ann; bob]
          [mkProfile 1 (Some "hi"%string) (Some 1)]
          [mkPost 1 "p1" (Some 1) None None; mkPost 2 "p2" (Some 1) None None]
          [mkComment "a" (Some 1) (Some 1) "nice"].

(** [{ title: { contains: "p" } }] *)
Definition title_contains_p : PostWhere :=
  MkWhere None None None
    (mkPostWhere None
       (Some (StrFilter (mkStringFilter None None None None (Some "p"%string) None None)))
       None None None None None).

(** A computation that runs no callback and registers none. *)
Definition quiet {A : Type} (m : M A) : Prop :=
  forall w,
    match m w with
    | Ok _ w' | Throw _ w' => called w' = called w /\ listeners w' = listeners w
    | OutOfFuel => True
    end.

(** A call that notifies: when it returns, every callback subscribed to the
    event on the model has been run. *)
Definition notifies {A : Type} (model : StoreName) (event : EventKind) (m : M A) (w : World)
  : Prop :=
  forall a w', m w = Ok a w' ->
    forall callback, In (model, event, callback) (listeners w) ->
                     In (model, event, callback) (called w').

(** A database with John in it, and a callback, number 7, subscribed to
    the three events of the user engine. *)
Definition johnStored : Store := mkStore [mkUser 1 "John"] [] [] [].
Definition subscribed : World :=
  subscribe User [create_event; update_event; delete_event] 7 (openOn johnStored).

(** [{ name: "Jane" }] as a payload and as update data *)
Definition jane : UserCreate := mkUserCreate None "Jane" None None None.
Definition renameToJane : UserUpdate := mkUserUpdate (Some (StrTo (JVal "Jane"%string))) None.

(** [update] re-persists under the unchanged key: the row that the selector
    locates is found, patched, under its key afterwards. *)
Definition User_update_keeps_key (where_ : UserWhere) (data : UserUpdate) (w : World) : Prop :=
  forall record l w',
    User_findUnique where_ w = Ok (Found record) w ->
    User_update where_ data w = Ok l w' ->
    store_get User_id Z.eqb (User_id record) (UserStore (db_now w'))
    = Some (User_patch record data).

(** [{ id: 5 }] as update data *)
Definition moveTo5 : UserUpdate := mkUserUpdate None (Some (IntTo (JVal 5))).

(** The world after a write to the stores. *)
Definition withStore (st : Store) (w : World) : World :=
  mkWorld st (db_begin w) (aborted w) (listeners w) (called w) (cuid w) (cuid_calls w).

(** An error about [connectOrCreate] that is raised before any mutation:
    the stores are what they were when the call began. *)
Definition raisedBeforeAnyMutation {A : Type} (m : M A) (w : World) : Prop :=
  exists w', m w = Throw ConnectOrCreateNotImplemented w' /\ db_now w' = db_now w.

(** Nested writes that consist of a [connectOrCreate] only. *)
Definition onlyConnectOrCreate {C W : Type} (where_ : W) (create : C) : NestedOne C W :=
  mkNestedOne None (Some (where_, create)) None.
Definition onlyConnectOrCreateMany {C W : Type} (entries : list (W * C)) : NestedMany C W :=
  mkNestedMany None (Some entries) None None.

(** [{ name: "John", posts: { connectOrCreate: { where: { id: 1 },
    create: { title: "p1" } } } }] *)
Definition johnWithPostConnectOrCreate : UserCreate :=
  mkUserCreate None "John" None
    (Some (onlyConnectOrCreateMany
             [(where_Post_id 1, mkPostCreate None "p1" None None None None None)]))
    None.

(** The world after the row of a new user has been added. *)
Definition withUserAdded (name : string) (w : World) : World :=
  withStore
    (setUserStore
       (store_insert User_id Z.ltb (mkUser (nextId User_id (UserStore (db_now w))) name)
                     (UserStore (db_now w)))
       (db_now w))
    w.

(** [{ name: "John", profile: { create: { bio: "X" } },
      posts: { create: [{ title: "p1" }, { title: "p2" }] } }] *)
Definition johnWithProfileAndPosts : UserCreate :=
  mkUserCreate None "John"
    (Some (mkNestedOne (Some (mkProfileCreate None (Some (JVal "X"%string)) None None))
                       None None))
    (Some (mkNestedMany
             (Some [mkPostCreate None "p1" None None None None None;
                    mkPostCreate None "p2" None None None None None])
             None None None))
    None.

(** The stores after that user has been created in an empty database. *)
Definition johnWithProfileAndPostsStored : Store :=
  mkStore [mkUser 1 "John"]
          [mkProfile 1 (Some "X"%string) (Some 1)]
          [mkPost 1 "p1" (Some 1) None None; mkPost 2 "p2" (Some 1) None None]
          [].

(** After [delete] of a user has completed, the scoped [findMany] on
    profiles and on posts both return the empty sequence. *)
Definition deleteLeavesNoProfileNoPost (where_ : UserWhere) (w : World) : Prop :=
  forall u w',
    User_delete where_ w = Ok u w' ->
    Profile_findMany (justWhere (Some (where_Profile_userId (User_id u)))) w' = Ok [] w'
    /\ Post_findMany (justWhere (Some (where_Post_authorId (User_id u)))) w' = Ok [] w'.

(** The table after the rows with the keys of [rows] have been deleted one
    by one. *)
Definition deleteRows {K R : Type} (key : R -> K) (keyEqb : K -> K -> bool)
    (rows table : list R) : list R :=
  fold_left (fun t r => store_delete key keyEqb (key r) t) rows table.

(** ** The order resolver, in pure form *)

(** The stable insertion sort for a comparator that does not throw. *)
Fixpoint insertBy {A : Type} (cmp : A -> A -> Z) (x : A) (sorted : list A) : list A :=
  match sorted with
  | [] => [x]
  | y :: sorted' => if cmp x y <=? 0 then x :: sorted else y :: insertBy cmp x sorted'
  end.

Fixpoint sortBy {A : Type} (cmp : A -> A -> Z) (l : list A) : list A :=
  match l with
  | [] => []
  | x :: l' => insertBy cmp x (sortBy cmp l')
  end.

(** The comparator of [_applyOrderByClause] once the sort orders of the
    clauses are resolved: clause by clause, the first comparison that is not
    zero decides. *)
Fixpoint lexCompare (orders : list SortArg) (a_keys b_keys : list Key) : Z :=
  match orders with
  | [] => 0
  | sortOrder :: rest =>
      let comparison :=
        genericComparator (hd KUndefined a_keys) (hd KUndefined b_keys) sortOrder in
      if comparison =? 0 then lexCompare rest (tl a_keys) (tl b_keys) else comparison
  end.

(** [{ keys, record }] for a record: its key under each clause. *)
Definition indexRecord {R OB : Type} (resolveOrderByKey : OB -> R -> Error + Key)
    (orderByClauses : list OB) (record : R) : Error + Indexed R :=
  match mapE (fun clause => resolveOrderByKey clause record) orderByClauses with
  | inl e => inl e
  | inr keys => inr (keys, record)
  end.

(** A comparator is consistent when swapping its arguments negates the
    result and "not after" is transitive. *)
Definition Consistent {A : Type} (cmp : A -> A -> Z) : Prop :=
  (forall a b, cmp b a = - cmp a b)
  /\ (forall a b c, cmp a b <= 0 -> cmp b c <= 0 -> cmp a c <= 0).

(** Reversing the direction of a clause. *)
Definition flipOrder (d : SortOrder) : SortOrder :=
  match d with asc => desc | desc => asc end.

Definition flipArg (a : SortArg) : SortArg :=
  match a with
  | Sort d => Sort (flipOrder d)
  | SortInput (mkSortOrderInput d placement) =>
      SortInput (mkSortOrderInput (flipOrder d) placement)
  end.

Definition flipAggregate (a : OrderByAggregate) : OrderByAggregate :=
  match a with
  | mkOrderByAggregate c => mkOrderByAggregate (option_map flipOrder c)
  end.

Fixpoint User_reverseOrderBy (c : UserOrderBy) : UserOrderBy :=
  match c with
  | mkUserOrderBy o_id o_name o_profile o_posts o_comments =>
      mkUserOrderBy (option_map flipOrder o_id) (option_map flipOrder o_name)
                    (option_map Profile_reverseOrderBy o_profile)
                    (option_map flipAggregate o_posts)
                    (option_map flipAggregate o_comments)
  end
with Profile_reverseOrderBy (c : ProfileOrderBy) : ProfileOrderBy :=
  match c with
  | mkProfileOrderBy o_id o_bio o_userId o_user =>
      mkProfileOrderBy (option_map flipOrder o_id) (option_map flipArg o_bio)
                       (option_map flipOrder o_userId)
                       (option_map User_reverseOrderBy o_user)
  end.

(** A sort order without a placement of the absent keys. *)
Definition plain (a : SortArg) : bool :=
  match a with
  | Sort _ => true
  | SortInput (mkSortOrderInput _ None) => true
  | SortInput (mkSortOrderInput _ (Some _)) => false
  end.

(** Sorting with every direction reversed gives the reverse of the
    result. *)
Definition reversingReverses (st : Store) (records : list UserRecord)
    (clauses : list UserOrderBy) : Prop :=
  forall sorted,
    User_applyOrderByClause st records (Some clauses) = inr sorted ->
    User_applyOrderByClause st records (Some (map User_reverseOrderBy clauses))
    = inr (rev sorted).

(** [[{ name: "asc" }, { posts: { _count: "asc" } }]] *)
Definition byNameThenPosts : list UserOrderBy :=
  [mkUserOrderBy None (Some asc) None None None;
   mkUserOrderBy None None None (Some (mkOrderByAggregate (Some asc))) None].

(** [[{ name: "asc" }, { id: "desc" }]] *)
Definition byNameThenIdDesc : list UserOrderBy :=
  [mkUserOrderBy None (Some asc) None None None;
   mkUserOrderBy (Some desc) None None None None].

(** Two users with the same name and no posts, and one more. *)
Definition ann2 : UserRecord := mkUser 3 "Ann".

(** A three-way comparison is an ordering when swapping its arguments
    swaps the result, [Eq] is equality and [Lt] is transitive. *)
Definition Ordering {A : Type} (cmp : A -> A -> comparison) : Prop :=
  (forall a b, cmp b a = CompOpp (cmp a b))
  /\ (forall a b, cmp a b = Eq -> a = b)
  /\ (forall a b c, cmp a b = Lt -> cmp b c = Lt -> cmp a c = Lt).

(** Two users of one name, neither has a post. *)
Definition twoAnns : Store := mkStore [ann; ann2] [] [] [].

(** ** Sample data for the further properties *)

(** [{ id: 0, name: "Zed" }], and the transaction on an empty database in
    which it has been created. *)
Definition userZero : UserCreate := mkUserCreate (Some 0) "Zed" None None None.
Definition userZeroCreated : World :=
  mkWorld (mkStore [mkUser 0 "Zed"] [] [] []) emptyStore false [] [] sampleCuid 0.

(** The fields of a create payload. *)
Definition uc_id_of (data : UserCreate) : option Z :=
  match data with mkUserCreate d_id _ _ _ _ => d_id end.
Definition uc_name_of (data : UserCreate) : string :=
  match data with mkUserCreate _ d_name _ _ _ => d_name end.

(** Users with the given names under consecutive keys from [n] on. *)
Fixpoint numberedUsers (n : Z) (names : list string) : list UserRecord :=
  match names with
  | [] => []
  | name :: names' => mkUser n name :: numberedUsers (n + 1) names'
  end.

(** [[{ name: "Ann" }, { name: "Bob", posts: ... }]] as the data of
    [createMany]: the second payload carries a nested write. *)
Definition annAndBob : list UserCreate :=
  [mkUserCreate None "Ann" None None None;
   mkUserCreate None "Bob" None
     (Some (mkNestedMany (Some [mkPostCreate None "p" None None None None None])
                         None None None))
     None].

(** Two comments on post 1, by users 1 and 2, and the clause
    [{ userId: 2 }]. *)
Definition twoComments : Store :=
  mkStore [ann; bob] [] [mkPost 1 "p1" (Some 1) None None]
          [mkComment "a" (Some 1) (Some 1) "nice"; mkComment "b" (Some 1) (Some 2) "fine"].

(** [{ profile: { bio: "asc" } }] as an orderBy clause on users *)
Definition byProfileBio : UserOrderBy :=
  mkUserOrderBy None None
    (Some (mkProfileOrderBy None (Some (Sort asc)) None None)) None None.

Definition tc_id_of (data : PostCreate) : option Z :=
  match data with mkPostCreate d_id _ _ _ _ _ _ => d_id end.
Definition tc_title_of (data : PostCreate) : string :=
  match data with mkPostCreate _ d_title _ _ _ _ _ => d_title end.
Definition tc_tags_of (data : PostCreate) : option (ListInput string) :=
  match data with mkPostCreate _ _ _ _ d_tags _ _ => d_tags end.
Definition tc_numberArr_of (data : PostCreate) : option (ListInput Z) :=
  match data with mkPostCreate _ _ _ _ _ d_numberArr _ => d_numberArr end.
Definition tc_comments_of (data : PostCreate)
  : option (NestedMany CommentCreate CommentWhere) :=
  match data with mkPostCreate _ _ _ _ _ _ d_comments => d_comments end.

(** The row that a post payload is stored as, under key [k] and with
    author [author]. *)
Definition postRow (k author : Z) (data : PostCreate) : PostRecord :=
  mkPost k (tc_title_of data) (Some author)
         (listOf (tc_tags_of data)) (listOf (tc_numberArr_of data)).

Fixpoint numberedPosts (k author : Z) (posts : list PostCreate) : list PostRecord :=
  match posts with
  | [] => []
  | data :: posts' => postRow k author data :: numberedPosts (k + 1) author posts'
  end.

(** [{ name, posts: { create: posts } }] *)
Definition userWithPosts (name : string) (posts : list PostCreate) : UserCreate :=
  mkUserCreate None name None (Some (mkNestedMany (Some posts) None None None)) None.

(** A post payload without a key and without nested comments. *)
Definition plainPost (data : PostCreate) : bool :=
  isNone (tc_id_of data) && isNone (tc_comments_of data).

(** [[{ title: "p1" }, { title: "p2", tags: ["t"], authorId: 9 }]]: the
    second payload names another author. *)
Definition twoPosts : list PostCreate :=
  [mkPostCreate None "p1" None None None None None;
   mkPostCreate None "p2" None (Some (JVal 9)) (Some (ListIs ["t"%string])) None None].

(** ** The scope analyser of [create] *)

(** [_getNeededStoresForCreate(data)] of the four classes: the entity's own
    store, the store of every relation the payload writes through (with the
    stores of the nested [create], [connectOrCreate] and [createMany]
    payloads), and the store that a foreign key given by value points
    into. *)
Fixpoint User_getNeededStoresForCreate (data : UserCreate) : StoreSet :=
  match data with
  | mkUserCreate _ _ d_profile d_posts d_comments =>
    let neededStores := addStore User [] in
    let neededStores :=
      match d_profile with
      | None => neededStores
      | Some (mkNestedOne create connectOrCreate _) =>
          let neededStores := addStore Profile neededStores in
          let neededStores :=
            match create with
            | None => neededStores
            | Some record => addStores (Profile_getNeededStoresForCreate record) neededStores
            end in
          match connectOrCreate with
          | None => neededStores
          | Some (_, record) => addStores (Profile_getNeededStoresForCreate record) neededStores
          end
      end in
    let neededStores :=
      match d_posts with
      | None => neededStores
      | Some (mkNestedMany create connectOrCreate _ createMany) =>
          let neededStores := addStore Post neededStores in
          let neededStores :=
            match create with
            | None => neededStores
            | Some createData =>
                fold_left (fun acc record => addStores (Post_getNeededStoresForCreate record) acc)
                          createData neededStores
            end in
          let neededStores :=
            match connectOrCreate with
            | None => neededStores
            | Some entries =>
                fold_left (fun acc entry =>
                             let '(_, record) := entry in
                             addStores (Post_getNeededStoresForCreate record) acc)
                          entries neededStores
            end in
          match createMany with
          | None => neededStores
          | Some createData =>
              fold_left (fun acc record => addStores (Post_getNeededStoresForCreate record) acc)
                        createData neededStores
          end
      end in
    match d_comments with
    | None => neededStores
    | Some (mkNestedMany create connectOrCreate _ createMany) =>
        let neededStores := addStore Comment neededStores in
        let neededStores :=
          match create with
          | None => neededStores
          | Some createData =>
              fold_left (fun acc record =>
                           addStores (Comment_getNeededStoresForCreate record) acc)
                        createData neededStores
          end in
        let neededStores :=
          match connectOrCreate with
          | None => neededStores
          | Some entries =>
              fold_left (fun acc entry =>
                           let '(_, record) := entry in
                           addStores (Comment_getNeededStoresForCreate record) acc)
                        entries neededStores
          end in
        match createMany with
        | None => neededStores
        | Some createData =>
            fold_left (fun acc record =>
                         addStores (Comment_getNeededStoresForCreate record) acc)
                      createData neededStores
        end
    end
  end

with Profile_getNeededStoresForCreate (data : ProfileCreate) : StoreSet :=
  match data with
  | mkProfileCreate _ _ d_user d_userId =>
    let neededStores := addStore Profile [] in
    let neededStores :=
      match d_user with
      | None => neededStores
      | Some (mkNestedOne create connectOrCreate _) =>
          let neededStores := addStore User neededStores in
          let neededStores :=
            match create with
            | None => neededStores
            | Some record => addStores (User_getNeededStoresForCreate record) neededStores
            end in
          match connectOrCreate with
          | None => neededStores
          | Some (_, record) => addStores (User_getNeededStoresForCreate record) neededStores
          end
      end in
    match d_userId with
    | None => neededStores
    | Some _ => addStore User neededStores
    end
  end

with Post_getNeededStoresForCreate (data : PostCreate) : StoreSet :=
  match data with
  | mkPostCreate _ _ d_author d_authorId _ _ d_comments =>
    let neededStores := addStore Post [] in
    let neededStores :=
      match d_author with
      | None => neededStores
      | Some (mkNestedOne create connectOrCreate _) =>
          let neededStores := addStore User neededStores in
          let neededStores :=
            match create with
            | None => neededStores
            | Some record => addStores (User_getNeededStoresForCreate record) neededStores
            end in
          match connectOrCreate with
          | None => neededStores
          | Some (_, record) => addStores (User_getNeededStoresForCreate record) neededStores
          end
      end in
    let neededStores :=
      match d_authorId with
      | None => neededStores
      | Some _ => addStore User neededStores
      end in
    match d_comments with
    | None => neededStores
    | Some (mkNestedMany create connectOrCreate _ createMany) =>
        let neededStores := addStore Comment neededStores in
        let neededStores :=
          match create with
          | None => neededStores
          | Some createData =>
              fold_left (fun acc record =>
                           addStores (Comment_getNeededStoresForCreate record) acc)
                        createData neededStores
          end in
        let neededStores :=
          match connectOrCreate with
          | None => neededStores
          | Some entries =>
              fold_left (fun acc entry =>
                           let '(_, record) := entry in
                           addStores (Comment_getNeededStoresForCreate record) acc)
                        entries neededStores
          end in
        match createMany with
        | None => neededStores
        | Some createData =>
            fold_left (fun acc record =>
                         addStores (Comment_getNeededStoresForCreate record) acc)
                      createData neededStores
        end
    end
  end

with Comment_getNeededStoresForCreate (data : CommentCreate) : StoreSet :=
  match data with
  | mkCommentCreate _ _ d_post d_postId d_user d_userId =>
    let neededStores := addStore Comment [] in
    let neededStores :=
      match d_post with
      | None => neededStores
      | Some (mkNestedOne create connectOrCreate _) =>
          let neededStores := addStore Post neededStores in
          let neededStores :=
            match create with
            | None => neededStores
            | Some record => addStores (Post_getNeededStoresForCreate record) neededStores
            end in
          match connectOrCreate with
          | None => neededStores
          | Some (_, record) => addStores (Post_getNeededStoresForCreate record) neededStores
          end
      end in
    let neededStores :=
      match d_postId with
      | None => neededStores
      | Some _ => addStore Post neededStores
      end in
    let neededStores :=
      match d_user with
      | None => neededStores
      | Some (mkNestedOne create connectOrCreate _) =>
          let neededStores := addStore User neededStores in
          let neededStores :=
            match create with
            | None => neededStores
            | Some record => addStores (User_getNeededStoresForCreate record) neededStores
            end in
          match connectOrCreate with
          | None => neededStores
          | Some (_, record) => addStores (User_getNeededStoresForCreate record) neededStores
          end
      end in
    match d_userId with
    | None => neededStores
    | Some _ => addStore User neededStores
    end
  end.

(** A transaction that is opened on the stores [scope] can write to these
    stores only.  [writesWithin scope st st']: the tables outside [scope] are
    in [st'] what they are in [st]. *)
Definition writesWithin (scope : StoreSet) (st st' : Store) : Prop :=
  (hasStore User scope = false -> UserStore st' = UserStore st)
  /\ (hasStore Profile scope = false -> ProfileStore st' = ProfileStore st)
  /\ (hasStore Post scope = false -> PostStore st' = PostStore st)
  /\ (hasStore Comment scope = false -> CommentStore st' = CommentStore st).

(** A call that stays within [scope]: when it returns, and when it throws,
    the tables outside [scope] are what they were, unless it throws after
    [tx.abort()], which takes every table back to where the transaction
    began. *)
Definition staysWithin {A : Type} (scope : StoreSet) (m : M A) : Prop :=
  forall w,
    match m w with
    | Ok _ w' => writesWithin scope (db_now w) (db_now w') /\ db_begin w' = db_begin w
    | Throw _ w' => writesWithin scope (db_now w) (db_now w') \/ db_now w' = db_begin w
    | OutOfFuel => True
    end.

Definition StoreSet_incl (a b : StoreSet) : Prop :=
  forall s, hasStore s a = true -> hasStore s b = true.

(** ** Finds with [select] and [include] *)

(** The arguments of a find as the engines read them.  A scalar key of
    [select] is a boolean, an absent one being as good as [false]; a
    relation key of [select] or [include] is a boolean or the arguments of
    the nested find. *)
Inductive UserArgs : Type :=
  mkUserArgs
    (where_ : option UserWhere) (orderBy : option (list UserOrderBy))
    (select : option UserSelect) (include : option UserInclude)
with UserSelect : Type :=
  mkUserSelect
    (s_id s_name : bool)
    (s_profile : option (RelationArg ProfileArgs))
    (s_posts : option (RelationArg PostArgs))
    (s_comments : option (RelationArg CommentArgs))
with UserInclude : Type :=
  mkUserInclude
    (i_profile : option (RelationArg ProfileArgs))
    (i_posts : option (RelationArg PostArgs))
    (i_comments : option (RelationArg CommentArgs))
with ProfileArgs : Type :=
  mkProfileArgs
    (where_ : option ProfileWhere) (orderBy : option (list ProfileOrderBy))
    (select : option ProfileSelect) (include : option ProfileInclude)
with ProfileSelect : Type :=
  mkProfileSelect
    (s_id s_bio s_userId : bool)
    (s_user : option (RelationArg UserArgs))
with ProfileInclude : Type :=
  mkProfileInclude
    (i_user : option (RelationArg UserArgs))
with PostArgs : Type :=
  mkPostArgs
    (where_ : option PostWhere) (orderBy : option (list PostOrderBy))
    (select : option PostSelect) (include : option PostInclude)
with PostSelect : Type :=
  mkPostSelect
    (s_id s_title s_authorId s_tags s_numberArr : bool)
    (s_author : option (RelationArg UserArgs))
    (s_comments : option (RelationArg CommentArgs))
with PostInclude : Type :=
  mkPostInclude
    (i_author : option (RelationArg UserArgs))
    (i_comments : option (RelationArg CommentArgs))
with CommentArgs : Type :=
  mkCommentArgs
    (where_ : option CommentWhere) (orderBy : option (list CommentOrderBy))
    (select : option CommentSelect) (include : option CommentInclude)
with CommentSelect : Type :=
  mkCommentSelect
    (s_id s_postId s_userId s_text : bool)
    (s_post : option (RelationArg PostArgs))
    (s_user : option (RelationArg UserArgs))
with CommentInclude : Type :=
  mkCommentInclude
    (i_post : option (RelationArg PostArgs))
    (i_user : option (RelationArg UserArgs)).

(** [query?.where], [query?.orderBy], [query?.select], [query?.include] *)
Definition ua_where (query : option UserArgs) : option UserWhere :=
  match query with Some (mkUserArgs w _ _ _) => w | None => None end.
Definition ua_orderBy (query : option UserArgs) : option (list UserOrderBy) :=
  match query with Some (mkUserArgs _ o _ _) => o | None => None end.
Definition ua_select (query : option UserArgs) : option UserSelect :=
  match query with Some (mkUserArgs _ _ s _) => s | None => None end.
Definition ua_include (query : option UserArgs) : option UserInclude :=
  match query with Some (mkUserArgs _ _ _ i) => i | None => None end.

Definition pa_where (query : option ProfileArgs) : option ProfileWhere :=
  match query with Some (mkProfileArgs w _ _ _) => w | None => None end.
Definition pa_orderBy (query : option ProfileArgs) : option (list ProfileOrderBy) :=
  match query with Some (mkProfileArgs _ o _ _) => o | None => None end.
Definition pa_select (query : option ProfileArgs) : option ProfileSelect :=
  match query with Some (mkProfileArgs _ _ s _) => s | None => None end.
Definition pa_include (query : option ProfileArgs) : option ProfileInclude :=
  match query with Some (mkProfileArgs _ _ _ i) => i | None => None end.

Definition ta_where (query : option PostArgs) : option PostWhere :=
  match query with Some (mkPostArgs w _ _ _) => w | None => None end.
Definition ta_orderBy (query : option PostArgs) : option (list PostOrderBy) :=
  match query with Some (mkPostArgs _ o _ _) => o | None => None end.
Definition ta_select (query : option PostArgs) : option PostSelect :=
  match query with Some (mkPostArgs _ _ s _) => s | None => None end.
Definition ta_include (query : option PostArgs) : option PostInclude :=
  match query with Some (mkPostArgs _ _ _ i) => i | None => None end.

Definition ca_where (query : option CommentArgs) : option CommentWhere :=
  match query with Some (mkCommentArgs w _ _ _) => w | None => None end.
Definition ca_orderBy (query : option CommentArgs) : option (list CommentOrderBy) :=
  match query with Some (mkCommentArgs _ o _ _) => o | None => None end.
Definition ca_select (query : option CommentArgs) : option CommentSelect :=
  match query with Some (mkCommentArgs _ _ s _) => s | None => None end.
Definition ca_include (query : option CommentArgs) : option CommentInclude :=
  match query with Some (mkCommentArgs _ _ _ i) => i | None => None end.

(** [select?.r] and [include?.r] for the relation keys *)
Definition us_profile (s : option UserSelect) : option (RelationArg ProfileArgs) :=
  match s with Some (mkUserSelect _ _ r _ _) => r | None => None end.
Definition us_posts (s : option UserSelect) : option (RelationArg PostArgs) :=
  match s with Some (mkUserSelect _ _ _ r _) => r | None => None end.
Definition us_comments (s : option UserSelect) : option (RelationArg CommentArgs) :=
  match s with Some (mkUserSelect _ _ _ _ r) => r | None => None end.
Definition ui_profile (i : option UserInclude) : option (RelationArg ProfileArgs) :=
  match i with Some (mkUserInclude r _ _) => r | None => None end.
Definition ui_posts (i : option UserInclude) : option (RelationArg PostArgs) :=
  match i with Some (mkUserInclude _ r _) => r | None => None end.
Definition ui_comments (i : option UserInclude) : option (RelationArg CommentArgs) :=
  match i with Some (mkUserInclude _ _ r) => r | None => None end.

Definition ps_user (s : option ProfileSelect) : option (RelationArg UserArgs) :=
  match s with Some (mkProfileSelect _ _ _ r) => r | None => None end.
Definition pi_user (i : option ProfileInclude) : option (RelationArg UserArgs) :=
  match i with Some (mkProfileInclude r) => r | None => None end.

Definition ts_author (s : option PostSelect) : option (RelationArg UserArgs) :=
  match s with Some (mkPostSelect _ _ _ _ _ r _) => r | None => None end.
Definition ts_comments (s : option PostSelect) : option (RelationArg CommentArgs) :=
  match s with Some (mkPostSelect _ _ _ _ _ _ r) => r | None => None end.
Definition ti_author (i : option PostInclude) : option (RelationArg UserArgs) :=
  match i with Some (mkPostInclude r _) => r | None => None end.
Definition ti_comments (i : option PostInclude) : option (RelationArg CommentArgs) :=
  match i with Some (mkPostInclude _ r) => r | None => None end.

Definition cs_post (s : option CommentSelect) : option (RelationArg PostArgs) :=
  match s with Some (mkCommentSelect _ _ _ _ r _) => r | None => None end.
Definition cs_user (s : option CommentSelect) : option (RelationArg UserArgs) :=
  match s with Some (mkCommentSelect _ _ _ _ _ r) => r | None => None end.
Definition ci_post (i : option CommentInclude) : option (RelationArg PostArgs) :=
  match i with Some (mkCommentInclude r _) => r | None => None end.
Definition ci_user (i : option CommentInclude) : option (RelationArg UserArgs) :=
  match i with Some (mkCommentInclude _ r) => r | None => None end.

(** What a find returns: the row, without the keys that [select] deleted and
    with the relations that were attached.  A key that is not there is
    [None]; a to-one relation holds what [findUnique] returned, a to-many
    relation what [findMany] returned. *)
Inductive UserResult : Type :=
  mkUserResult
    (r_id : option Z) (r_name : option string)
    (r_profile : option (Lookup ProfileResult))
    (r_posts : option (list PostResult))
    (r_comments : option (list CommentResult))
with ProfileResult : Type :=
  mkProfileResult
    (r_id : option Z) (r_bio : option (Nullable string)) (r_userId : option Z)
    (r_user : option (Lookup UserResult))
with PostResult : Type :=
  mkPostResult
    (r_id : option Z) (r_title : option string) (r_authorId : option (Nullable Z))
    (r_tags : option (list string)) (r_numberArr : option (list Z))
    (r_author : option (Lookup UserResult))
    (r_comments : option (list CommentResult))
with CommentResult : Type :=
  mkCommentResult
    (r_id : option string) (r_postId r_userId : option Z) (r_text : option string)
    (r_post : option (Lookup PostResult))
    (r_user : option (Lookup UserResult)).

Definition toNullable {A : Type} (v : option A) : Nullable A :=
  match v with None => JNull | Some a => JVal a end.

(** A stored row as a result: every scalar, no relation. *)
Definition User_result (record : UserRecord) : UserResult :=
  mkUserResult (Some (User_id record)) (Some (User_name record)) None None None.
Definition Profile_result (record : ProfileRecord) : ProfileResult :=
  mkProfileResult (Some (Profile_id record)) (Some (toNullable (Profile_bio record)))
                  (Profile_userId record) None.
Definition Post_result (record : PostRecord) : PostResult :=
  mkPostResult (Some (Post_id record)) (Some (Post_title record))
               (Some (toNullable (Post_authorId record)))
               (Post_tags record) (Post_numberArr record) None None.
Definition Comment_result (record : CommentRecord) : CommentResult :=
  mkCommentResult (Some (Comment_id record)) (Comment_postId record) (Comment_userId record)
                  (Some (Comment_text record)) None None.

(** [selectClause[key]] of a relation key, read for truth *)
Definition selects {Q : Type} (a : option (RelationArg Q)) : bool :=
  match a with
  | Some (RelationBool b) => b
  | Some (RelationArgs _) => true
  | None => false
  end.

(** [if (!selectClause[key]) delete partialRecord[key]] *)
Definition keep {A : Type} (selected : bool) (v : option A) : option A :=
  if selected then v else None.

(** [_applySelectClause(records, selectClause)] of the four classes. *)
Definition User_applySelectClause (records : list UserResult)
    (selectClause : option UserSelect) : list UserResult :=
  match selectClause with
  | None => records
  | Some (mkUserSelect s_id s_name s_profile s_posts s_comments) =>
      map (fun record =>
             match record with
             | mkUserResult r_id r_name r_profile r_posts r_comments =>
                 mkUserResult (keep s_id r_id) (keep s_name r_name)
                              (keep (selects s_profile) r_profile)
                              (keep (selects s_posts) r_posts)
                              (keep (selects s_comments) r_comments)
             end) records
  end.

Definition Profile_applySelectClause (records : list ProfileResult)
    (selectClause : option ProfileSelect) : list ProfileResult :=
  match selectClause with
  | None => records
  | Some (mkProfileSelect s_id s_bio s_userId s_user) =>
      map (fun record =>
             match record with
             | mkProfileResult r_id r_bio r_userId r_user =>
                 mkProfileResult (keep s_id r_id) (keep s_bio r_bio) (keep s_userId r_userId)
                                 (keep (selects s_user) r_user)
             end) records
  end.

Definition Post_applySelectClause (records : list PostResult)
    (selectClause : option PostSelect) : list PostResult :=
  match selectClause with
  | None => records
  | Some (mkPostSelect s_id s_title s_authorId s_tags s_numberArr s_author s_comments) =>
      map (fun record =>
             match record with
             | mkPostResult r_id r_title r_authorId r_tags r_numberArr r_author r_comments =>
                 mkPostResult (keep s_id r_id) (keep s_title r_title)
                              (keep s_authorId r_authorId)
                              (keep s_tags r_tags) (keep s_numberArr r_numberArr)
                              (keep (selects s_author) r_author)
                              (keep (selects s_comments) r_comments)
             end) records
  end.

Definition Comment_applySelectClause (records : list CommentResult)
    (selectClause : option CommentSelect) : list CommentResult :=
  match selectClause with
  | None => records
  | Some (mkCommentSelect s_id s_postId s_userId s_text s_post s_user) =>
      map (fun record =>
             match record with
             | mkCommentResult r_id r_postId r_userId r_text r_post r_user =>
                 mkCommentResult (keep s_id r_id) (keep s_postId r_postId)
                                 (keep s_userId r_userId) (keep s_text r_text)
                                 (keep (selects s_post) r_post)
                                 (keep (selects s_user) r_user)
             end) records
  end.

(** [_preprocessListFields] of [PostIDBClass] on a result; the other three
    classes have an empty one. *)
Definition Post_preprocessResult (record : PostResult) : PostResult :=
  match record with
  | mkPostResult r_id r_title r_authorId r_tags r_numberArr r_author r_comments =>
      mkPostResult r_id r_title r_authorId
                   (Some (match r_tags with None => [] | Some l => l end))
                   (Some (match r_numberArr with None => [] | Some l => l end))
                   r_author r_comments
  end.

(** [query.select?.r || query.include?.r] when it is truthy: [None] stands
    for [true], and is spread as [{}]. *)
Definition attachment {Q : Type} (s i : option (RelationArg Q)) : option (option Q) :=
  let truthyArg (a : option (RelationArg Q)) : option (option Q) :=
    match a with
    | Some (RelationBool true) => Some None
    | Some (RelationArgs q) => Some (Some q)
    | _ => None
    end in
  match truthyArg s with
  | Some a => Some a
  | None => truthyArg i
  end.

(** [if (attach) unsafeRecord[r] = await find({ ...attach, where })] *)
Definition attach {Q R : Type} (a : option (option Q)) (find_ : option Q -> M R)
  : M (option R) :=
  match a with
  | None => ret None
  | Some nested => r <- find_ nested ;; ret (Some r)
  end.

(** [{ ...(attach === true ? {} : attach), where: w }] *)
Definition User_nestedArgs (nested : option UserArgs) (w : UserWhere) : UserArgs :=
  mkUserArgs (Some w) (ua_orderBy nested) (ua_select nested) (ua_include nested).
Definition Profile_nestedArgs (nested : option ProfileArgs) (w : ProfileWhere) : ProfileArgs :=
  mkProfileArgs (Some w) (pa_orderBy nested) (pa_select nested) (pa_include nested).
Definition Post_nestedArgs (nested : option PostArgs) (w : PostWhere) : PostArgs :=
  mkPostArgs (Some w) (ta_orderBy nested) (ta_select nested) (ta_include nested).
Definition Comment_nestedArgs (nested : option CommentArgs) (w : CommentWhere) : CommentArgs :=
  mkCommentArgs (Some w) (ca_orderBy nested) (ca_select nested) (ca_include nested).

(** [{ id: v }] for a foreign key [v] that the row may not have *)
Definition where_User_idOf (v : option Z) : UserWhere :=
  MkWhere None None None (mkUserWhere (option_map NumIs v) None None None None).
Definition where_Post_idOf (v : option Z) : PostWhere :=
  MkWhere None None None (mkPostWhere (option_map NumIs v) None None None None None None).

Section FindWith.
(** The finds of the engines of the related entities, a level down. *)
Variable User_findUnique_ : UserArgs -> M (Lookup UserResult).
Variable Profile_findUnique_ : ProfileArgs -> M (Lookup ProfileResult).
Variable Post_findUnique_ : PostArgs -> M (Lookup PostResult).
Variable Post_findMany_ : option PostArgs -> M (list PostResult).
Variable Comment_findMany_ : option CommentArgs -> M (list CommentResult).

(** [_applyRelations(records, tx, query)] of the four classes.  Without a
    query nothing is attached, as with a query that names no relation. *)
Definition User_applyRelations (records : list UserRecord) (query : option UserArgs)
  : M (list UserResult) :=
  mapM (fun record =>
    profile <- attach (attachment (us_profile (ua_select query)) (ui_profile (ua_include query)))
                 (fun attach_profile =>
                    Profile_findUnique_
                      (Profile_nestedArgs attach_profile (where_Profile_userId (User_id record)))) ;;
    posts <- attach (attachment (us_posts (ua_select query)) (ui_posts (ua_include query)))
               (fun attach_posts =>
                  Post_findMany_
                    (Some (Post_nestedArgs attach_posts (where_Post_authorId (User_id record))))) ;;
    comments <- attach (attachment (us_comments (ua_select query))
                                   (ui_comments (ua_include query)))
                  (fun attach_comments =>
                     Comment_findMany_
                       (Some (Comment_nestedArgs attach_comments
                                                 (where_Comment_userId (User_id record))))) ;;
    ret (mkUserResult (Some (User_id record)) (Some (User_name record))
                      profile posts comments)) records.

Definition Profile_applyRelations (records : list ProfileRecord) (query : option ProfileArgs)
  : M (list ProfileResult) :=
  mapM (fun record =>
    user <- attach (attachment (ps_user (pa_select query)) (pi_user (pa_include query)))
              (fun attach_user =>
                 User_findUnique_
                   (User_nestedArgs attach_user (where_User_idOf (Profile_userId record)))) ;;
    ret (mkProfileResult (Some (Profile_id record)) (Some (toNullable (Profile_bio record)))
                         (Profile_userId record) user)) records.

(** [record.authorId === null ? null : await this.client.user.findUnique(...)] *)
Definition Post_applyRelations (records : list PostRecord) (query : option PostArgs)
  : M (list PostResult) :=
  mapM (fun record =>
    author <- attach (attachment (ts_author (ta_select query)) (ti_author (ta_include query)))
                (fun attach_author =>
                   match Post_authorId record with
                   | None => ret IsNull
                   | Some authorId =>
                       User_findUnique_ (User_nestedArgs attach_author (where_User_id authorId))
                   end) ;;
    comments <- attach (attachment (ts_comments (ta_select query))
                                   (ti_comments (ta_include query)))
                  (fun attach_comments =>
                     Comment_findMany_
                       (Some (Comment_nestedArgs attach_comments
                                                 (where_Comment_postId (Post_id record))))) ;;
    ret (mkPostResult (Some (Post_id record)) (Some (Post_title record))
                      (Some (toNullable (Post_authorId record)))
                      (Post_tags record) (Post_numberArr record) author comments)) records.

Definition Comment_applyRelations (records : list CommentRecord) (query : option CommentArgs)
  : M (list CommentResult) :=
  mapM (fun record =>
    post <- attach (attachment (cs_post (ca_select query)) (ci_post (ca_include query)))
              (fun attach_post =>
                 Post_findUnique_
                   (Post_nestedArgs attach_post (where_Post_idOf (Comment_postId record)))) ;;
    user <- attach (attachment (cs_user (ca_select query)) (ci_user (ca_include query)))
              (fun attach_user =>
                 User_findUnique_
                   (User_nestedArgs attach_user (where_User_idOf (Comment_userId record)))) ;;
    ret (mkCommentResult (Some (Comment_id record)) (Comment_postId record)
                         (Comment_userId record) (Some (Comment_text record)) post user)) records.

(** [findMany(query, tx)]: [getAll()], the where clause, the order, the
    relations, the select clause, the list fields. *)
Definition User_findManyWith_body (query : option UserArgs) : M (list UserResult) :=
  st <- readStore ;;
  let records := User_applyWhereClause st (UserStore st) (ua_where query) in
  records <- liftRead (fun st => User_applyOrderByClause st records (ua_orderBy query)) ;;
  relationAppliedRecords <- User_applyRelations records query ;;
  ret (User_applySelectClause relationAppliedRecords (ua_select query)).

Definition Profile_findManyWith_body (query : option ProfileArgs) : M (list ProfileResult) :=
  st <- readStore ;;
  let records := Profile_applyWhereClause st (ProfileStore st) (pa_where query) in
  records <- liftRead (fun st => Profile_applyOrderByClause st records (pa_orderBy query)) ;;
  relationAppliedRecords <- Profile_applyRelations records query ;;
  ret (Profile_applySelectClause relationAppliedRecords (pa_select query)).

Definition Post_findManyWith_body (query : option PostArgs) : M (list PostResult) :=
  st <- readStore ;;
  let records := Post_applyWhereClause st (PostStore st) (ta_where query) in
  records <- liftRead (fun st => Post_applyOrderByClause st records (ta_orderBy query)) ;;
  relationAppliedRecords <- Post_applyRelations records query ;;
  ret (map Post_preprocessResult
           (Post_applySelectClause relationAppliedRecords (ta_select query))).

Definition Comment_findManyWith_body (query : option CommentArgs) : M (list CommentResult) :=
  st <- readStore ;;
  let records := Comment_applyWhereClause st (CommentStore st) (ca_where query) in
  records <- liftRead (fun st => Comment_applyOrderByClause st records (ca_orderBy query)) ;;
  relationAppliedRecords <- Comment_applyRelations records query ;;
  ret (Comment_applySelectClause relationAppliedRecords (ca_select query)).

(** [findUnique(query, tx)]: the row read by key and filtered by the whole
    where clause, then the relations and the select clause; [[0]] of the
    outcome.  A query without [where] has no [query.where.id] to read. *)
Definition User_findUniqueWith_body (query : UserArgs) : M (Lookup UserResult) :=
  match ua_where (Some query) with
  | None => throw TypeError
  | Some where_ =>
      st <- readStore ;;
      match numberKey (uw_id where_) with
      | BadKey => throw DataError
      | NoKey => ret IsNull
      | KeyIs k =>
          match store_get User_id Z.eqb k (UserStore st) with
          | None => ret IsNull
          | Some record =>
              records <- User_applyRelations
                           (User_applyWhereClause st [record] (Some where_)) (Some query) ;;
              ret (firstOf (User_applySelectClause records (ua_select (Some query))))
          end
      end
  end.

Definition Profile_findUniqueWith_body (query : ProfileArgs) : M (Lookup ProfileResult) :=
  match pa_where (Some query) with
  | None => throw TypeError
  | Some where_ =>
      st <- readStore ;;
      let found (record : option ProfileRecord) : M (Lookup ProfileResult) :=
        match record with
        | None => ret IsNull
        | Some record =>
            records <- Profile_applyRelations
                         (Profile_applyWhereClause st [record] (Some where_)) (Some query) ;;
            ret (firstOf (Profile_applySelectClause records (pa_select (Some query))))
        end in
      match numberKey (pw_id where_) with
      | BadKey => throw DataError
      | KeyIs k => found (store_get Profile_id Z.eqb k (ProfileStore st))
      | NoKey =>
          match numberKey (pw_userId where_) with
          | BadKey => throw DataError
          | KeyIs k =>
              found (find (fun p => optEqb Z.eqb (Profile_userId p) (JVal k)) (ProfileStore st))
          | NoKey => ret IsNull
          end
      end
  end.

(** For posts [_preprocessListFields([recordWithRelations])] reads
    [record.tags] of [undefined] when the where clause rejects the row. *)
Definition Post_findUniqueWith_body (query : PostArgs) : M (Lookup PostResult) :=
  match ta_where (Some query) with
  | None => throw TypeError
  | Some where_ =>
      st <- readStore ;;
      match numberKey (tw_id where_) with
      | BadKey => throw DataError
      | NoKey => ret IsNull
      | KeyIs k =>
          match store_get Post_id Z.eqb k (PostStore st) with
          | None => ret IsNull
          | Some record =>
              records <- Post_applyRelations
                           (Post_applyWhereClause st [record] (Some where_)) (Some query) ;;
              match Post_applySelectClause records (ta_select (Some query)) with
              | [] => throw TypeError
              | r :: _ => ret (Found (Post_preprocessResult r))
              end
          end
      end
  end.

Definition Comment_findUniqueWith_body (query : CommentArgs) : M (Lookup CommentResult) :=
  match ca_where (Some query) with
  | None => throw TypeError
  | Some where_ =>
      st <- readStore ;;
      match stringKey (cw_id where_) with
      | BadKey => throw DataError
      | NoKey => ret IsNull
      | KeyIs k =>
          match store_get Comment_id String.eqb k (CommentStore st) with
          | None => ret IsNull
          | Some record =>
              records <- Comment_applyRelations
                           (Comment_applyWhereClause st [record] (Some where_)) (Some query) ;;
              ret (firstOf (Comment_applySelectClause records (ca_select (Some query))))
          end
      end
  end.
End FindWith.

(** The finds that the engines call on each other.  The calls go from
    engine to engine as deep as [select] and [include] are nested; [fuel]
    bounds that depth. *)
Fixpoint User_findUniqueWith (fuel : nat) (query : UserArgs) {struct fuel}
  : M (Lookup UserResult) :=
  match fuel with
  | O => fun _ => OutOfFuel
  | S fuel =>
      User_findUniqueWith_body (Profile_findUniqueWith fuel) (Post_findManyWith fuel)
                               (Comment_findManyWith fuel) query
  end
with Profile_findUniqueWith (fuel : nat) (query : ProfileArgs) {struct fuel}
  : M (Lookup ProfileResult) :=
  match fuel with
  | O => fun _ => OutOfFuel
  | S fuel => Profile_findUniqueWith_body (User_findUniqueWith fuel) query
  end
with Post_findUniqueWith (fuel : nat) (query : PostArgs) {struct fuel}
  : M (Lookup PostResult) :=
  match fuel with
  | O => fun _ => OutOfFuel
  | S fuel =>
      Post_findUniqueWith_body (User_findUniqueWith fuel) (Comment_findManyWith fuel) query
  end
with Post_findManyWith (fuel : nat) (query : option PostArgs) {struct fuel}
  : M (list PostResult) :=
  match fuel with
  | O => fun _ => OutOfFuel
  | S fuel =>
      Post_findManyWith_body (User_findUniqueWith fuel) (Comment_findManyWith fuel) query
  end
with Comment_findManyWith (fuel : nat) (query : option CommentArgs) {struct fuel}
  : M (list CommentResult) :=
  match fuel with
  | O => fun _ => OutOfFuel
  | S fuel =>
      Comment_findManyWith_body (User_findUniqueWith fuel) (Post_findUniqueWith fuel) query
  end.

(** The finds that no other engine calls. *)
Definition User_findManyWith (fuel : nat) (query : option UserArgs) : M (list UserResult) :=
  match fuel with
  | O => fun _ => OutOfFuel
  | S fuel =>
      User_findManyWith_body (Profile_findUniqueWith fuel) (Post_findManyWith fuel)
                             (Comment_findManyWith fuel) query
  end.

Definition Profile_findManyWith (fuel : nat) (query : option ProfileArgs)
  : M (list ProfileResult) :=
  match fuel with
  | O => fun _ => OutOfFuel
  | S fuel => Profile_findManyWith_body (User_findUniqueWith fuel) query
  end.

Definition Comment_findUniqueWith (fuel : nat) (query : CommentArgs)
  : M (Lookup CommentResult) :=
  match fuel with
  | O => fun _ => OutOfFuel
  | S fuel =>
      Comment_findUniqueWith_body (User_findUniqueWith fuel) (Post_findUniqueWith fuel) query
  end.

(** ** createManyAndReturn *)

(** [createManyAndReturn(query, tx)]: each payload is filled and added, and
    [_applySelectClause([record], query.select)[0]] is pushed on the
    result. *)
Definition User_createManyAndReturn (data : list UserCreate) (select : option UserSelect)
  : M (list UserResult) :=
  records <- mapM (fun createData =>
               filled <- User_fillDefaults createData ;;
               let record := User_removeNestedCreateData filled in
               User_add record ;;;
               ret (User_applySelectClause
                      (map User_result (match User_asRecord record with
                                        | Some r => [r] | None => [] end))
                      select)) data ;;
  ret (List.concat records).

Definition Profile_createManyAndReturn (data : list ProfileCreate)
    (select : option ProfileSelect) : M (list ProfileResult) :=
  records <- mapM (fun createData =>
               filled <- Profile_fillDefaults createData ;;
               let record := Profile_removeNestedCreateData filled in
               Profile_add record ;;;
               ret (Profile_applySelectClause
                      (map Profile_result (match Profile_asRecord record with
                                           | Some r => [r] | None => [] end))
                      select)) data ;;
  ret (List.concat records).

Definition Post_createManyAndReturn (data : list PostCreate) (select : option PostSelect)
  : M (list PostResult) :=
  records <- mapM (fun createData =>
               filled <- Post_fillDefaults createData ;;
               let record := Post_removeNestedCreateData filled in
               Post_add record ;;;
               ret (Post_applySelectClause
                      (map Post_result (match Post_asRecord record with
                                        | Some r => [r] | None => [] end))
                      select)) data ;;
  ret (map Post_preprocessResult (List.concat records)).

Definition Comment_createManyAndReturn (data : list CommentCreate)
    (select : option CommentSelect) : M (list CommentResult) :=
  records <- mapM (fun createData =>
               filled <- Comment_fillDefaults createData ;;
               let record := Comment_removeNestedCreateData filled in
               Comment_add record ;;;
               ret (Comment_applySelectClause
                      (map Comment_result (match Comment_asRecord record with
                                           | Some r => [r] | None => [] end))
                      select)) data ;;
  ret (List.concat records).

(** A computation that leaves the world as it found it, whether it returns
    or throws. *)
Definition readsOnly {A : Type} (m : M A) : Prop :=
  forall w,
    match m w with
    | Ok _ w' => w' = w
    | Throw _ w' => w' = w
    | OutOfFuel => True
    end.

(** [{ posts: true }] and [{ posts: { where } }] as an [include] *)
Definition include_posts (nested : option (option PostWhere)) : option UserInclude :=
  Some (mkUserInclude None
          (Some (match nested with
                 | None => RelationBool true
                 | Some where_ => RelationArgs (mkPostArgs where_ None None None)
                 end))
          None).

(** The keys that a user result has, and the keys that a select clause asks
    for, in the order [id], [name], [profile], [posts], [comments]. *)
Definition User_keys (record : UserResult) : list bool :=
  match record with
  | mkUserResult r_id r_name r_profile r_posts r_comments =>
      [isSome r_id; isSome r_name; isSome r_profile; isSome r_posts; isSome r_comments]
  end.
Definition UserSelect_keys (selectClause : UserSelect) : list bool :=
  match selectClause with
  | mkUserSelect s_id s_name s_profile s_posts s_comments =>
      [s_id; s_name; selects s_profile; selects s_posts; selects s_comments]
  end.

(** [record.tags] and [record.numberArr] of a post result, [select?.tags]
    and [select?.numberArr] read for truth. *)
Definition tr_tags (record : PostResult) : option (list string) :=
  match record with mkPostResult _ _ _ r _ _ _ => r end.
Definition tr_numberArr (record : PostResult) : option (list Z) :=
  match record with mkPostResult _ _ _ _ r _ _ => r end.
Definition ts_tags (s : option PostSelect) : bool :=
  match s with Some (mkPostSelect _ _ _ b _ _ _) => b | None => false end.
Definition ts_numberArr (s : option PostSelect) : bool :=
  match s with Some (mkPostSelect _ _ _ _ b _ _) => b | None => false end.

(** A select clause for users that names [id] only. *)
Definition select_User_id : UserSelect := mkUserSelect true false None None None.
(** A select clause for posts that names [title] only. *)
Definition select_Post_title : PostSelect :=
  mkPostSelect false true false false false None None.

(** What [include: { author: true }] attaches to a post with this
    [authorId]: the user under that key; [null] when the key is [null], is
    [0], or is the key of no user. *)
Definition authorOf (st : Store) (authorId : option Z) : Lookup UserResult :=
  match authorId with
  | None => IsNull
  | Some k =>
      if k =? 0 then IsNull
      else match store_get User_id Z.eqb k (UserStore st) with
           | None => IsNull
           | Some u => Found (User_result u)
           end
  end.

(** [{ author: true }] as an [include] *)
Definition include_author : option PostInclude :=
  Some (mkPostInclude (Some (RelationBool true)) None).

(** A table of posts with list fields. *)
Definition taggedPosts : Store :=
  mkStore [ann] [] [mkPost 4 "p" None (Some ["t"%string]) (Some [7]);
                    mkPost 5 "q" (Some 1) None None;
                    mkPost 6 "r" (Some 9) None None] [].

(** * The helpers of the generator (helpers/utils.ts) *)

(** ** toCamelCase

    A name is a string of code units below 128, as the names of a Prisma
    schema are.  On these, [\s] is the space and the code units 9 to 13, a
    line terminator is code unit 10 or 13, and [toUpperCase] and
    [toLowerCase] move the 26 letters. *)
Definition isAsciiName (str : string) : bool :=
  forallb (fun c => (nat_of_ascii c <? 128)%nat) (list_ascii_of_string str).

(** [[_\s-]] *)
Definition isSeparator (c : ascii) : bool :=
  let n := nat_of_ascii c in
  ((n =? 95) || (n =? 45) || (n =? 32) || ((9 <=? n) && (n <=? 13)))%nat.

Definition isLineTerminator (c : ascii) : bool :=
  let n := nat_of_ascii c in ((n =? 10) || (n =? 13))%nat.

Definition toUpperCase (c : ascii) : ascii :=
  let n := nat_of_ascii c in
  if ((97 <=? n) && (n <=? 122))%nat then ascii_of_nat (n - 32) else c.

Definition toLowerCase (c : ascii) : ascii :=
  let n := nat_of_ascii c in
  if ((65 <=? n) && (n <=? 90))%nat then ascii_of_nat (n + 32) else c.

(** [str.replace(/[_\s-]+(.)?/g, (_, chr) => (chr ? chr.toUpperCase() : ""))]:
    every run of separators goes, and the character after it, if there is
    one, is put in upper case.  [afterSeparator] says that the scan is in
    or just past such a run.  (The character after a run is no separator,
    so it is no line terminator, and [.] matches it.) *)
Fixpoint dropSeparators (afterSeparator : bool) (str : string) : string :=
  match str with
  | EmptyString => EmptyString
  | String c rest =>
      if isSeparator c then dropSeparators true rest
      else String (if afterSeparator then toUpperCase c else c) (dropSeparators false rest)
  end.

(** A string in which no separator is left. *)
Definition noSeparator (str : string) : bool :=
  forallb (fun c => negb (isSeparator c)) (list_ascii_of_string str).

(** [str.replace(/^(.)/, (match) => match.toLowerCase())] *)
Definition lowerFirst (str : string) : string :=
  match str with
  | EmptyString => EmptyString
  | String c rest => if isLineTerminator c then str else String (toLowerCase c) rest
  end.

Definition toCamelCase (str : string) : string :=
  lowerFirst (dropSeparators false str).

(** ** generateIDBKey and getModelFieldData *)

(** The part of a DMMF model that the helpers read. *)
Record Field : Type := mkField {
  field_name : string;
  isId : bool;
  isUnique : bool;
  isRequired : bool;
  hasDefaultValue : bool
}.

Record Model : Type := mkModel {
  model_name : string;
  model_fields : list Field;
  (** [primaryKey.fields], when the model has a compound [@@id] *)
  model_primaryKey : option (list string)
}.

Record ModelFieldData : Type := mkModelFieldData {
  optionalFields : list Field;
  fieldsWithDefaultValue : list Field;
  allRequiredFieldsHaveDefaults : bool;
  nonKeyUniqueFields : list Field;
  storeName : string
}.

Section GeneratorHelpers.
(** [JSON.stringify] and [JSON.parse] on arrays of names; the text between
    them is of no concern here. *)
Variable JSON : Type.
Variable JSON_stringify : list string -> JSON.
Variable JSON_parse : JSON -> list string.

(** [generateIDBKey(model)]: the compound key, else the [@id] field, else
    the first [@unique] field; without any, [uniqueField!.name] reads a
    property of [undefined]. *)
Definition generateIDBKey (model : Model) : Error + JSON :=
  match model_primaryKey model with
  | Some names => inr (JSON_stringify names)
  | None =>
      match find isId (model_fields model) with
      | Some idField => inr (JSON_stringify [field_name idField])
      | None =>
          match find isUnique (model_fields model) with
          | Some uniqueField => inr (JSON_stringify [field_name uniqueField])
          | None => inl TypeError
          end
      end
  end.

(** [getModelFieldData(model)] *)
Definition getModelFieldData (model : Model) : Error + ModelFieldData :=
  match generateIDBKey model with
  | inl e => inl e
  | inr key =>
      let keyPath := JSON_parse key in
      let nonKeyUniqueFields :=
        filter (fun f => isUnique f && negb (inb String.eqb (field_name f) keyPath))
               (model_fields model) in
      let storeName := toCamelCase (model_name model) in
      let optionalFields := filter (fun f => negb (isRequired f)) (model_fields model) in
      let fieldsWithDefaultValue := filter hasDefaultValue (model_fields model) in
      let allRequiredFieldsHaveDefaults :=
        Nat.eqb (List.length fieldsWithDefaultValue)
                (List.length (model_fields model) - List.length optionalFields) in
      inr (mkModelFieldData optionalFields fieldsWithDefaultValue
                            allRequiredFieldsHaveDefaults nonKeyUniqueFields storeName)
  end.
End GeneratorHelpers.

(** A model with an optional field that has a default and a required field
    that has none. *)
Definition unevenModel : Model :=
  mkModel "Note"
          [mkField "id" true false true true;
           mkField "title" false false true false;
           mkField "lang" false false false true]
          None.

(** A user table whose greatest key is 2^53. *)
Definition atTheLimit : Store := mkStore [mkUser 9007199254740992 "Max"] [] [] [].

(** [{ title: "p1", comments: { connectOrCreate: { where: { id: "a" },
      create: { text: "x" } } } }], and the same [connectOrCreate] under
    [author] *)
Definition postWithCommentConnectOrCreate : PostCreate :=
  mkPostCreate None "p1" None None None None
    (Some (onlyConnectOrCreateMany
             [(where_Comment_id "a", mkCommentCreate None "x" None None None None)])).
Definition postWithAuthorConnectOrCreate : PostCreate :=
  mkPostCreate None "p1" (Some (onlyConnectOrCreate (where_User_id 1) john)) None None None None.

(** ** Clauses that keep to the transaction of the call

    A to-many quantifier of a where clause runs its sub-query in a
    transaction of its own ([findFirst({ where, tx })] has [tx] inside the
    query), and so does the [findFirstOrThrow] behind a relation key of an
    orderBy clause, which is given no transaction: while the engine waits
    for them the transaction of the call finishes, and what uses it
    afterwards fails.  [User_matches], [Post_matches] and the key resolvers
    give what these sub-queries read; what an operation does with its
    transaction after them is outside the model, so the statements about
    such operations are made for the clauses below, which consult no
    relation. *)
Section ScalarWhere.
Variable F : Type.
Variable fieldsScalar : F -> bool.

(** No relation is consulted, at any depth of [AND], [OR] and [NOT]. *)
Fixpoint whereIsScalar (w : Where F) : bool :=
  match w with
  | MkWhere AND OR NOT fields =>
      let all (clauses : option (list (Where F))) :=
        match clauses with None => true | Some l => forallb whereIsScalar l end in
      all AND && all OR && all NOT && fieldsScalar fields
  end.
End ScalarWhere.

Definition UserWhereFields_isScalar (f : UserWhereFields) : bool :=
  match f with mkUserWhere _ _ profile posts comments =>
    isNone profile && isNone posts && isNone comments
  end.
Definition ProfileWhereFields_isScalar (f : ProfileWhereFields) : bool :=
  match f with mkProfileWhere _ _ _ user => isNone user end.
Definition PostWhereFields_isScalar (f : PostWhereFields) : bool :=
  match f with mkPostWhere _ _ _ _ _ author comments => isNone author && isNone comments end.
Definition CommentWhereFields_isScalar (f : CommentWhereFields) : bool :=
  match f with mkCommentWhere _ _ _ _ post user => isNone post && isNone user end.

(** [query?.where] is absent or consults no relation. *)
Definition scalarWhere {F : Type} (fieldsScalar : F -> bool) (where_ : option (Where F)) : bool :=
  match where_ with
  | None => true
  | Some w => whereIsScalar fieldsScalar w
  end.
Definition User_scalarWhere := scalarWhere UserWhereFields_isScalar.
Definition Profile_scalarWhere := scalarWhere ProfileWhereFields_isScalar.
Definition Post_scalarWhere := scalarWhere PostWhereFields_isScalar.
Definition Comment_scalarWhere := scalarWhere CommentWhereFields_isScalar.

(** An orderBy clause on a field of the entity itself. *)
Definition UserOrderBy_isScalar (c : UserOrderBy) : bool :=
  isNone (uo_profile_of c) && isNone (uo_posts_of c) && isNone (uo_comments_of c).
Definition PostOrderBy_isScalar (c : PostOrderBy) : bool :=
  isNone (to_author_of c) && isNone (to_comments_of c).

(** [query?.orderBy] is absent or has such clauses only. *)
Definition scalarOrderBy {OB : Type} (clauseScalar : OB -> bool) (orderBy : option (list OB))
  : bool :=
  match orderBy with
  | None => true
  | Some clauses => forallb clauseScalar clauses
  end.
Definition User_scalarOrderBy := scalarOrderBy UserOrderBy_isScalar.
Definition Post_scalarOrderBy := scalarOrderBy PostOrderBy_isScalar.

(** An orderBy clause on a field of the user or on a field of the user's
    profile. *)
Definition UserOrderBy_ownOrProfile (c : UserOrderBy) : bool :=
  isNone (uo_posts_of c) && isNone (uo_comments_of c)
  && match uo_profile_of c with
     | None => true
     | Some o => isNone (po_user_of o)
     end.

(** Whether a post holds a value, not [null], in a field; a list field
    passes [{ not: null }] whatever it holds. *)
Definition Post_hasValue (f : PostField) (record : PostRecord) : bool :=
  match f with
  | Post_field_authorId => isSome (Post_authorId record)
  | _ => true
  end.

(** [{ name: "Ann" }] and [{ title: "p1" }] *)
Definition name_is_Ann : UserWhere :=
  MkWhere None None None (mkUserWhere None (Some (StrIs "Ann")) None None None).
Definition title_is_p1 : PostWhere :=
  MkWhere None None None (mkPostWhere None (Some (StrIs "p1")) None None None None None).

(** [{ name: "John", profile: { connectOrCreate: ... } }] and
    [{ name: "John", comments: { connectOrCreate: ... } }] *)
Definition johnWithProfileConnectOrCreate : UserCreate :=
  mkUserCreate None "John"
    (Some (onlyConnectOrCreate (where_Profile_id 1) (mkProfileCreate None None None None)))
    None None.
Definition johnWithCommentConnectOrCreate : UserCreate :=
  mkUserCreate None "John" None None
    (Some (onlyConnectOrCreateMany
             [(where_Comment_id "a", mkCommentCreate None "x" None None None None)])).

(** The [select] of a [count] names fields only, not [_all]. *)
Definition fieldsOnly {Fld : Type} (keys : list (CountKey Fld * bool)) : bool :=
  forallb (fun entry : CountKey Fld * bool =>
             match fst entry with count_all => false | count_field _ => true end) keys.

(** * Properties of the engine *)

(** ** The scope analyser *)

(** Once the walk has fuel for two levels, its result for a query that
    orders comments by the author of their post no longer depends on it. *)
Lemma comments_by_post_author_stores (fuel : nat) :
  Comment_getNeededStoresForFind (S (S fuel)) comments_by_post_author
  = Some [Comment; Post].
Proof. reflexivity. Qed.

(** C8.  Ordering comments by [post.author] reaches the users through the
    posts, and resolving the sort key reads the user store; the analyser
    hands the comment clause itself to the post engine, which finds no
    [author] key in it, so the computed set is Comment and Post, without
    User.  (The same happens to a relation named only under [is] or [isNot]
    of a to-one filter.) *)
Theorem scope_misses_relation_behind_orderBy :
  Comment_getNeededStoresForFind 3 comments_by_post_author = Some [Comment; Post]
  /\ hasStore User [Comment; Post] = false
  /\ Comment_getNeededStoresForFind 4 comments_on_posts_of_Ann = Some [Comment; Post].
Proof. repeat split. Qed.

(** ** Not-found failures *)

Lemma bind_Ok {A B : Type} (m : M A) (f : A -> M B) (w w' : World) (a : A) :
  m w = Ok a w' -> bind m f w = f a w'.
Proof. intros H. unfold bind. now rewrite H. Qed.

Lemma bind_Throw {A B : Type} (m : M A) (f : A -> M B) (w w' : World) (e : Error) :
  m w = Throw e w' -> bind m f w = Throw e w'.
Proof. intros H. unfold bind. now rewrite H. Qed.

Lemma orThrow_None {A : Type} (w : World) :
  orThrow (A := A) None w = Throw RecordNotFound (abortedFrom w).
Proof. reflexivity. Qed.

(** The variants that throw, and [update], abort the transaction they run
    in when the row is not there. *)
Lemma User_findUniqueOrThrow_not_found (where_ : UserWhere) (w : World) (l : Lookup UserRecord) :
  User_findUnique where_ w = Ok l w -> truthy l = None ->
  User_findUniqueOrThrow where_ w = Throw RecordNotFound (abortedFrom w).
Proof.
  intros H Hl. unfold User_findUniqueOrThrow.
  rewrite (bind_Ok _ _ _ H), Hl. apply orThrow_None.
Qed.

Lemma User_findFirstOrThrow_not_found (query : option UserFindArgs) (w : World) :
  User_findMany query w = Ok [] w ->
  User_findFirstOrThrow query w = Throw RecordNotFound (abortedFrom w).
Proof.
  intros H. unfold User_findFirstOrThrow, User_findFirst.
  unfold bind at 1. unfold bind at 1. rewrite H. reflexivity.
Qed.

Lemma User_update_not_found (where_ : UserWhere) (data : UserUpdate) (w : World) :
  User_findUnique where_ w = Ok IsNull w ->
  User_update where_ data w = Throw RecordNotFound (abortedFrom w).
Proof.
  intros H. unfold User_update. rewrite (bind_Ok _ _ _ H). reflexivity.
Qed.

(** [delete] throws the same error and leaves the transaction as it is:
    open, with every write made in it so far. *)
Lemma User_delete_not_found (where_ : UserWhere) (w : World) (l : Lookup UserRecord) :
  User_findUnique where_ w = Ok l w -> truthy l = None ->
  User_delete where_ w = Throw RecordNotFound w.
Proof.
  intros H Hl. unfold User_delete.
  rewrite (bind_Ok _ _ _ H), Hl. reflexivity.
Qed.

Lemma Profile_delete_not_found (where_ : ProfileWhere) (w : World) (l : Lookup ProfileRecord) :
  Profile_findUnique where_ w = Ok l w -> truthy l = None ->
  Profile_delete where_ w = Throw RecordNotFound w.
Proof.
  intros H Hl. unfold Profile_delete.
  rewrite (bind_Ok _ _ _ H), Hl. reflexivity.
Qed.

Lemma Post_delete_not_found (where_ : PostWhere) (w : World) (l : Lookup PostRecord) :
  Post_findUnique where_ w = Ok l w -> truthy l = None ->
  Post_delete where_ w = Throw RecordNotFound w.
Proof.
  intros H Hl. unfold Post_delete.
  rewrite (bind_Ok _ _ _ H), Hl. reflexivity.
Qed.

Lemma Comment_delete_not_found (where_ : CommentWhere) (w : World) (l : Lookup CommentRecord) :
  Comment_findUnique where_ w = Ok l w -> truthy l = None ->
  Comment_delete where_ w = Throw RecordNotFound w.
Proof.
  intros H Hl. unfold Comment_delete.
  rewrite (bind_Ok _ _ _ H), Hl. reflexivity.
Qed.

(** C5.  In a transaction that has created John, deleting the user 99, who
    does not exist, throws "Record not found" and leaves the transaction
    open with John in it: nothing is aborted, nothing rolled back.  The
    update of the same missing user, and [findUniqueOrThrow], do abort and
    roll back.  (An update whose selector names John's key with another
    name finds [undefined], not [null], and fails on it without aborting.) *)
Theorem delete_not_found_does_not_abort :
  User_create 1 john emptyWorld = Ok (mkUser 1 "John") johnCreated
  /\ User_delete (where_User_id 99) johnCreated = Throw RecordNotFound johnCreated
  /\ aborted johnCreated = false
  /\ UserStore (db_now johnCreated) = [mkUser 1 "John"]
  /\ User_update (where_User_id 99) noUserUpdate johnCreated
     = Throw RecordNotFound (abortedFrom johnCreated)
  /\ User_findUniqueOrThrow (where_User_id 99) johnCreated
     = Throw RecordNotFound (abortedFrom johnCreated)
  /\ aborted (abortedFrom johnCreated) = true
  /\ db_now (abortedFrom johnCreated) = emptyStore
  /\ User_update user_1_named_Jane noUserUpdate johnCreated = Throw TypeError johnCreated.
Proof. repeat split. Qed.

(** ** The default filler *)

Section GreatestKey.
Variable R : Type.
Variable key : R -> Z.

Lemma store_last_nil (t : list R) :
  store_last key Z.ltb t = None -> t = [].
Proof.
  destruct t as [|x t]; [reflexivity|]. simpl.
  destruct (store_last key Z.ltb t) as [m|]; [|discriminate].
  destruct (key m <? key x); discriminate.
Qed.

(** The cursor opened with direction "prev" stands on a row of the table
    whose key no other key exceeds. *)
Lemma store_last_greatest (t : list R) (m : R) :
  store_last key Z.ltb t = Some m ->
  In m t /\ forall r, In r t -> key r <= key m.
Proof.
  revert m. induction t as [|x t IH]; intros m H; [discriminate|].
  simpl in H. destruct (store_last key Z.ltb t) as [m'|] eqn:E.
  - destruct (IH m' eq_refl) as [Hin Hmax].
    destruct (key m' <? key x) eqn:L; injection H as <-.
    + apply Z.ltb_lt in L. split; [now left|].
      intros r [<-|Hr]; [lia|]. specialize (Hmax r Hr). lia.
    + apply Z.ltb_ge in L. split; [now right|].
      intros r [<-|Hr]; [lia|]. now apply Hmax.
  - injection H as <-. apply store_last_nil in E. subst t.
    split; [now left|]. intros r [<-|[]]. lia.
Qed.

(** Up to 2^53 in magnitude an integer is a double. *)
Lemma toNumber_exact (n : Z) : Z.abs n <= 2 ^ 53 -> toNumber n = n.
Proof.
  intros H. unfold toNumber. destruct (Z.abs n <? 2 ^ 53) eqn:E; [reflexivity|].
  apply Z.ltb_ge in E. assert (Ha : Z.abs n = 2 ^ 53) by lia.
  destruct (Z.abs_eq_or_opp n) as [En|En]; rewrite En in Ha.
  - subst n. reflexivity.
  - assert (En' : n = - 2 ^ 53) by lia. subst n. reflexivity.
Qed.

(** The key that the filler assigns: 1 on an empty table, else the greatest
    key plus one, as a double. *)
Lemma nextId_spec (t : list R) :
  (t = [] /\ nextId key t = 1)
  \/ (exists m, In m t /\ (forall r, In r t -> key r <= key m)
                /\ nextId key t = toNumber (key m + 1)).
Proof.
  unfold nextId. destruct (store_last key Z.ltb t) as [m|] eqn:E.
  - right. exists m. destruct (store_last_greatest _ E) as [Hin Hmax]. auto.
  - left. split; [now apply store_last_nil|reflexivity].
Qed.

(** Where the table has room for one more key, that is one more than the
    greatest key. *)
Lemma nextId_exact (t : list R) :
  roomFor 1 key t ->
  (t = [] /\ nextId key t = 1)
  \/ (exists m, In m t /\ (forall r, In r t -> key r <= key m)
                /\ nextId key t = key m + 1).
Proof.
  intros [_ Hroom]. unfold nextId. destruct (store_last key Z.ltb t) as [m|] eqn:E.
  - right. exists m. destruct (store_last_greatest _ E) as [Hin Hmax].
    repeat split; [exact Hin|exact Hmax|]. apply toNumber_exact. lia.
  - left. split; [now apply store_last_nil|reflexivity].
Qed.

(** The assigned key is new to the table. *)
Lemma nextId_fresh (t : list R) (r : R) :
  roomFor 1 key t -> In r t -> key r <> nextId key t.
Proof.
  intros Hroom Hr. destruct (nextId_exact Hroom) as [[-> _]|(m & _ & Hmax & ->)].
  - destruct Hr.
  - specialize (Hmax r Hr). lia.
Qed.

(** Room for more keys is room for fewer. *)
Lemma roomFor_less (n n' : nat) (t : list R) :
  (n' <= n)%nat -> roomFor n key t -> roomFor n' key t.
Proof.
  intros Hle [Hn Hroom]. split; [lia|].
  destruct (store_last key Z.ltb t); [lia|exact I].
Qed.
End GreatestKey.

(** At the greatest key 2^53 the filler assigns 2^53 again: the key of a new
    user is not one greater than the greatest key, and [create] fails on the
    key that is taken. *)
Lemma key_after_the_limit_is_not_one_greater :
  User_fillDefaults (mkUserCreate None "Ann" None None None) (openOn atTheLimit)
  = Ok (mkUserCreate (Some 9007199254740992) "Ann" None None None) (openOn atTheLimit)
  /\ UserStore atTheLimit = [mkUser 9007199254740992 "Max"]
  /\ 9007199254740992 <> 9007199254740992 + 1
  /\ User_create 1 (mkUserCreate None "Ann" None None None) (openOn atTheLimit)
     = Throw ConstraintError (abortedFrom (openOn atTheLimit)).
Proof. repeat split. lia. Qed.

(** C9, as the code has it.  With no [id] in the payload, a user (and
    likewise a profile and a post) is given the key 1 when its table is
    empty and otherwise the greatest key of the table plus one, as long as
    the table has room for one more key (its greatest key is at least -2^53
    and the next is below 2^53: the sum is one of doubles); a comment is
    given the next identifier drawn from [createId()], and the draw is used
    up.  Nothing else of the payload or the world changes. *)
Theorem fillDefaults_assigns_primary_key
    (w : World) (name title text : string)
    (profile : option (NestedOne ProfileCreate ProfileWhere))
    (posts : option (NestedMany PostCreate PostWhere))
    (comments : option (NestedMany CommentCreate CommentWhere))
    (bio : option (Nullable string)) (user author : option (NestedOne UserCreate UserWhere))
    (post : option (NestedOne PostCreate PostWhere))
    (userId postId : option Z) (authorId : option (Nullable Z))
    (tags : option (ListInput string)) (numberArr : option (ListInput Z))
    (room_users : roomFor 1 User_id (UserStore (db_now w)))
    (room_profiles : roomFor 1 Profile_id (ProfileStore (db_now w)))
    (room_posts : roomFor 1 Post_id (PostStore (db_now w))) :
  let users := UserStore (db_now w) in
  let profiles := ProfileStore (db_now w) in
  let postTable := PostStore (db_now w) in
  User_fillDefaults (mkUserCreate None name profile posts comments) w
  = Ok (mkUserCreate (Some (nextId User_id users)) name profile posts comments) w
  /\ ((users = [] /\ nextId User_id users = 1)
      \/ (exists m, In m users /\ (forall r, In r users -> User_id r <= User_id m)
                    /\ nextId User_id users = User_id m + 1))
  /\ Profile_fillDefaults (mkProfileCreate None bio user userId) w
     = Ok (mkProfileCreate (Some (nextId Profile_id profiles))
             (Some (match bio with None => JNull | Some b => b end)) user userId) w
  /\ ((profiles = [] /\ nextId Profile_id profiles = 1)
      \/ (exists m, In m profiles /\ (forall r, In r profiles -> Profile_id r <= Profile_id m)
                    /\ nextId Profile_id profiles = Profile_id m + 1))
  /\ Post_fillDefaults (mkPostCreate None title author authorId tags numberArr comments) w
     = Ok (mkPostCreate (Some (nextId Post_id postTable)) title author
             (Some (match authorId with None => JNull | Some a => a end))
             (unwrapSet tags) (unwrapSet numberArr) comments) w
  /\ ((postTable = [] /\ nextId Post_id postTable = 1)
      \/ (exists m, In m postTable /\ (forall r, In r postTable -> Post_id r <= Post_id m)
                    /\ nextId Post_id postTable = Post_id m + 1))
  /\ Comment_fillDefaults (mkCommentCreate None text post postId user userId) w
     = Ok (mkCommentCreate (Some (cuid w (cuid_calls w))) text post postId user userId)
          (afterCreateId w).
Proof.
  cbv zeta. repeat split; try (now apply nextId_exact).
  - destruct bio; reflexivity.
  - destruct authorId; reflexivity.
Qed.

Lemma fillDefaults_assigns_primary_key_witness :
  User_fillDefaults (mkUserCreate None "Cy" None None None) (openOn sampleStore)
  = Ok (mkUserCreate (Some 3) "Cy" None None None) (openOn sampleStore)
  /\ Profile_fillDefaults (mkProfileCreate None None None None) (openOn sampleStore)
     = Ok (mkProfileCreate (Some 2) (Some JNull) None None) (openOn sampleStore)
  /\ Post_fillDefaults (mkPostCreate None "p3" None None None None None) (openOn emptyStore)
     = Ok (mkPostCreate (Some 1) "p3" None (Some JNull) None None None) (openOn emptyStore).
Proof.
  assert (room : forall st, st = sampleStore \/ st = emptyStore ->
                 roomFor 1 User_id (UserStore st) /\ roomFor 1 Profile_id (ProfileStore st)
                 /\ roomFor 1 Post_id (PostStore st)).
  { intros st [->| ->]; repeat split; vm_compute; first [reflexivity|discriminate]. }
  destruct (room sampleStore (or_introl eq_refl)) as (Ru & Rp & Rt).
  destruct (room emptyStore (or_intror eq_refl)) as (Ru' & Rp' & Rt').
  destruct (@fillDefaults_assigns_primary_key (openOn sampleStore) "Cy" "p3" "t"
              None None None None None None None None None None None None Ru Rp Rt)
    as (Hu & _ & Hp & _).
  destruct (@fillDefaults_assigns_primary_key (openOn emptyStore) "Cy" "p3" "t"
              None None None None None None None None None None None None Ru' Rp' Rt')
    as (_ & _ & _ & _ & Ht & _).
  exact (conj Hu (conj Hp Ht)).
Defined.

(** A payload that carries its key keeps it. *)
Lemma User_fillDefaults_keeps_id (w : World) (k : Z) (name : string)
    (profile : option (NestedOne ProfileCreate ProfileWhere))
    (posts : option (NestedMany PostCreate PostWhere))
    (comments : option (NestedMany CommentCreate CommentWhere)) :
  User_fillDefaults (mkUserCreate (Some k) name profile posts comments) w
  = Ok (mkUserCreate (Some k) name profile posts comments) w.
Proof. reflexivity. Qed.

(** Two comments filled one after the other draw two identifiers, which
    differ when the generator never repeats itself. *)
Lemma Comment_fillDefaults_twice (w : World) (text1 text2 : string) :
  (forall i j, cuid w i = cuid w j -> i = j) ->
  exists k1 k2 w1 w2,
    Comment_fillDefaults (mkCommentCreate None text1 None None None None) w
    = Ok (mkCommentCreate (Some k1) text1 None None None None) w1
    /\ Comment_fillDefaults (mkCommentCreate None text2 None None None None) w1
       = Ok (mkCommentCreate (Some k2) text2 None None None None) w2
    /\ k1 <> k2.
Proof.
  intros Hinj.
  exists (cuid w (cuid_calls w)), (cuid w (S (cuid_calls w))),
         (afterCreateId w), (afterCreateId (afterCreateId w)).
  repeat split. intros E. apply Hinj in E. now apply n_Sn in E.
Qed.

(** ** Finds with a where clause only, and count *)

Lemma User_findMany_where (where_ : option UserWhere) (w : World) :
  User_findMany (justWhere where_) w
  = Ok (User_applyWhereClause (db_now w) (UserStore (db_now w)) where_) w.
Proof. reflexivity. Qed.

Lemma Profile_findMany_where (where_ : option ProfileWhere) (w : World) :
  Profile_findMany (justWhere where_) w
  = Ok (Profile_applyWhereClause (db_now w) (ProfileStore (db_now w)) where_) w.
Proof. reflexivity. Qed.

Lemma Post_findMany_where (where_ : option PostWhere) (w : World) :
  Post_findMany (justWhere where_) w
  = Ok (map Post_preprocessListFields
          (Post_applyWhereClause (db_now w) (PostStore (db_now w)) where_)) w.
Proof. reflexivity. Qed.

Lemma Comment_findMany_where (where_ : option CommentWhere) (w : World) :
  Comment_findMany (justWhere where_) w
  = Ok (Comment_applyWhereClause (db_now w) (CommentStore (db_now w)) where_) w.
Proof. reflexivity. Qed.

Lemma mapM_reads {A B : Type} (f : A -> M B) (g : A -> B) (l : list A) (w : World) :
  (forall x, f x w = Ok (g x) w) -> mapM f l w = Ok (map g l) w.
Proof.
  intros H. induction l as [|x l IH]; [reflexivity|].
  simpl. rewrite (bind_Ok _ _ _ (H x)), (bind_Ok _ _ _ IH). reflexivity.
Qed.

Lemma applyLogicalFilters_none {K R W : Type} (key : R -> K) (keyEqb : K -> K -> bool)
    (records : list R) (f : list R -> W -> list R) :
  applyLogicalFilters key keyEqb records None None None f = records.
Proof. reflexivity. Qed.

(** A clause [{ [field]: { not: null } }] keeps the records that hold a
    value in the field. *)
Lemma User_applyWhere_notNull (st : Store) (table : list UserRecord) (f : UserField) :
  User_applyWhereClause st table (Some (User_notNull f)) = filter (User_hasValue f) table.
Proof.
  unfold User_applyWhereClause, User_notNull, applyWhere. simpl. apply filter_ext.
  intros r. destruct f; reflexivity.
Qed.

Lemma Profile_applyWhere_notNull (st : Store) (table : list ProfileRecord) (f : ProfileField) :
  Profile_applyWhereClause st table (Some (Profile_notNull f)) = filter (Profile_hasValue f) table.
Proof.
  unfold Profile_applyWhereClause, Profile_notNull, applyWhere. simpl. apply filter_ext.
  intros r. destruct f; simpl.
  - reflexivity.
  - destruct (Profile_bio r); reflexivity.
  - destruct (Profile_userId r); reflexivity.
Qed.

Lemma Comment_applyWhere_notNull (st : Store) (table : list CommentRecord) (f : CommentField) :
  Comment_applyWhereClause st table (Some (Comment_notNull f)) = filter (Comment_hasValue f) table.
Proof.
  unfold Comment_applyWhereClause, Comment_notNull, applyWhere. simpl. apply filter_ext.
  intros r. destruct f; simpl.
  - reflexivity.
  - destruct (Comment_postId r); reflexivity.
  - destruct (Comment_userId r); reflexivity.
  - reflexivity.
Qed.

Lemma filter_all {A : Type} (l : list A) : filter (fun _ => true) l = l.
Proof. induction l as [|x l IH]; simpl; congruence. Qed.

Lemma Post_applyWhere_notNull (st : Store) (table : list PostRecord) (f : PostField) :
  Post_applyWhereClause st table (Some (Post_notNull f)) = filter (Post_hasValue f) table.
Proof.
  unfold Post_applyWhereClause, Post_notNull, applyWhere. simpl. apply filter_ext.
  intros r. destruct f; simpl; try reflexivity.
  destruct (Post_authorId r); reflexivity.
Qed.



(** ** The predicate evaluator *)

(** Induction on a where clause: the sub-clauses under [AND], [OR] and
    [NOT] come first. *)
Lemma Where_induction (F : Type) (P : Where F -> Prop) :
  (forall AND OR NOT fields,
      Forall P (clausesOf AND) -> Forall P (clausesOf OR) -> Forall P (clausesOf NOT) ->
      P (MkWhere AND OR NOT fields)) ->
  forall w, P w.
Proof.
  intros H. fix IH 1. intros [a o n f].
  apply H.
  - destruct a as [l|]; simpl; [|constructor].
    induction l as [|c l IHl]; constructor; [apply IH|exact IHl].
  - destruct o as [l|]; simpl; [|constructor].
    induction l as [|c l IHl]; constructor; [apply IH|exact IHl].
  - destruct n as [l|]; simpl; [|constructor].
    induction l as [|c l IHl]; constructor; [apply IH|exact IHl].
Qed.

Section LogicalFiltersFacts.
Variables (K R W : Type).
Variable key : R -> K.
Variable keyEqb : K -> K -> bool.

(** The predicate evaluator filters: what it returns was in its input. *)
Lemma applyLogicalFilters_incl (records : list R) (AND OR NOT : option (list W))
    (f : list R -> W -> list R) :
  incl (applyLogicalFilters key keyEqb records AND OR NOT f) records.
Proof.
  unfold applyLogicalFilters.
  destruct AND, OR, NOT; intros r Hr;
    repeat (apply filter_In in Hr; destruct Hr as [Hr _]); exact Hr.
Qed.

(** Only the results on the sub-clauses at hand matter. *)
Lemma applyLogicalFilters_ext (records : list R) (AND OR NOT : option (list W))
    (f g : list R -> W -> list R) :
  Forall (fun c => forall rs, f rs c = g rs c) (clausesOf AND) ->
  Forall (fun c => forall rs, f rs c = g rs c) (clausesOf OR) ->
  Forall (fun c => forall rs, f rs c = g rs c) (clausesOf NOT) ->
  applyLogicalFilters key keyEqb records AND OR NOT f
  = applyLogicalFilters key keyEqb records AND OR NOT g.
Proof.
  intros HA HO HN. unfold applyLogicalFilters.
  assert (EA : match AND with
               | Some clauses =>
                   filter (fun r => forallb (fun c => inByKey key keyEqb r (f records c)) clauses)
                          records
               | None => records
               end
               = match AND with
                 | Some clauses =>
                     filter (fun r => forallb (fun c => inByKey key keyEqb r (g records c)) clauses)
                            records
                 | None => records
                 end).
  { destruct AND as [l|]; [|reflexivity]. simpl in HA. apply filter_ext. intros r.
    induction HA as [|c l Hc _ IH]; [reflexivity|]. simpl. now rewrite Hc, IH. }
  rewrite EA. clear EA.
  set (r1 := match AND with Some _ => _ | None => _ end).
  assert (EO : match OR with
               | Some clauses =>
                   filter (fun r => existsb (fun c => inByKey key keyEqb r (f r1 c)) clauses) r1
               | None => r1
               end
               = match OR with
                 | Some clauses =>
                     filter (fun r => existsb (fun c => inByKey key keyEqb r (g r1 c)) clauses) r1
                 | None => r1
                 end).
  { destruct OR as [l|]; [|reflexivity]. simpl in HO. apply filter_ext. intros r.
    induction HO as [|c l Hc _ IH]; [reflexivity|]. simpl. now rewrite Hc, IH. }
  rewrite EO. clear EO.
  set (r2 := match OR with Some _ => _ | None => _ end).
  destruct NOT as [l|]; [|reflexivity]. simpl in HN. apply filter_ext. intros r.
  f_equal. induction HN as [|c l Hc _ IH]; [reflexivity|]. simpl. now rewrite Hc, IH.
Qed.
End LogicalFiltersFacts.

Section ApplyWhereFacts.
Variables (K R F : Type).
Variable key : R -> K.
Variable keyEqb : K -> K -> bool.

Lemma applyWhereFrom_incl (matches : bool -> F -> R -> bool) (top : bool)
    (w : Where F) (records : list R) :
  incl (applyWhereFrom key keyEqb matches top w records) records.
Proof.
  destruct w as [a o n f]. simpl. intros r Hr.
  apply filter_In in Hr. destruct Hr as [Hr _].
  now apply applyLogicalFilters_incl in Hr.
Qed.

(** Every record that is returned passed the per-record tests of the
    clause. *)
Lemma applyWhereFrom_matches (matches : bool -> F -> R -> bool) (top : bool)
    (w : Where F) (records : list R) (r : R) :
  In r (applyWhereFrom key keyEqb matches top w records) ->
  matches top (whereFields w) r = true.
Proof.
  destruct w as [a o n f]. simpl. intros Hr.
  apply filter_In in Hr. tauto.
Qed.

(** Below the top, two evaluators that agree on the per-record tests of
    sub-clauses agree. *)
Lemma applyWhereFrom_nested_ext (m1 m2 : bool -> F -> R -> bool) :
  (forall f r, m1 false f r = m2 false f r) ->
  forall (w : Where F) (records : list R),
    applyWhereFrom key keyEqb m1 false w records
    = applyWhereFrom key keyEqb m2 false w records.
Proof.
  intros Hm w. induction w as [a o n f HA HO HN] using Where_induction.
  intros records. simpl.
  rewrite (applyLogicalFilters_ext key keyEqb records a o n
             (fun rs c => applyWhereFrom key keyEqb m1 false c rs)
             (fun rs c => applyWhereFrom key keyEqb m2 false c rs)); auto.
  apply filter_ext. intros r. apply Hm.
Qed.

(** A clause written [{ ...w, k: v }] is the clause [w'] that carries the
    written key, when the top-level tests of the one are the tests of the
    other. *)
Lemma applyWhereSpread_is_applyWhere (matches top : F -> R -> bool)
    (w w' : Where F) (records : list R) :
  (match w, w' with
   | MkWhere a o n f, MkWhere a' o' n' f' =>
       a = a' /\ o = o' /\ n = n' /\ forall r, top f r = matches f' r
   end) ->
  applyWhereSpread key keyEqb matches top w records
  = applyWhere key keyEqb matches w' records.
Proof.
  destruct w as [a o n f], w' as [a' o' n' f']. intros (-> & -> & -> & Hf).
  unfold applyWhereSpread, applyWhere. simpl.
  rewrite (applyLogicalFilters_ext key keyEqb records a' o' n'
             (fun rs c => applyWhereFrom key keyEqb (fun b : bool => if b then top else matches)
                                         false c rs)
             (fun rs c => applyWhereFrom key keyEqb (fun _ : bool => matches) false c rs)).
  - apply filter_ext. exact Hf.
  - apply Forall_forall. intros c _ rs. now apply applyWhereFrom_nested_ext.
  - apply Forall_forall. intros c _ rs. now apply applyWhereFrom_nested_ext.
  - apply Forall_forall. intros c _ rs. now apply applyWhereFrom_nested_ext.
Qed.
End ApplyWhereFacts.

Lemma optEqb_Z_JVal (v : option Z) (k : Z) :
  optEqb Z.eqb v (JVal k) = true -> v = Some k.
Proof.
  destruct v as [x|]; simpl; [|discriminate].
  intros H. apply Z.eqb_eq in H. now subst.
Qed.

Lemma whereNumberFilter_is (v : option Z) (k : Z) :
  whereNumberFilter v (Some (NumIs k)) = true -> v = Some k.
Proof. apply optEqb_Z_JVal. Qed.

Ltac split_andb H :=
  repeat match type of H with
         | (_ && _)%bool = true =>
             let H' := fresh H in
             apply andb_true_iff in H; destruct H as [H H']
         end.

(** A sub-query scoped to a foreign key returns rows with that key only. *)
Lemma Post_matches_scoped_to_author (st : Store) (f : PostWhereFields)
    (i : option (option Z)) (k : Z) (r : PostRecord) :
  Post_matches st f (mkPostScope i (Some (Some k))) r = true -> Post_authorId r = Some k.
Proof.
  destruct f. simpl. intros H. split_andb H.
  now apply whereNumberFilter_is.
Qed.

Lemma Comment_matches_scoped_to_user (st : Store) (f : CommentWhereFields)
    (i : option (option Z)) (k : Z) (r : CommentRecord) :
  Comment_matches st f (mkCommentScope i (Some (Some k))) r = true -> Comment_userId r = Some k.
Proof.
  destruct f. simpl. intros H. split_andb H.
  now apply whereNumberFilter_is.
Qed.

Lemma Comment_matches_scoped_to_post (st : Store) (f : CommentWhereFields)
    (i : option (option Z)) (k : Z) (r : CommentRecord) :
  Comment_matches st f (mkCommentScope (Some (Some k)) i) r = true -> Comment_postId r = Some k.
Proof.
  destruct f. simpl. intros H. split_andb H.
  now apply whereNumberFilter_is.
Qed.

(** The sub-queries of the quantifiers on [User.posts] are the where
    clauses [{ ...w, authorId: k }] and [{ NOT: { ...w }, authorId: k }]
    evaluated on the post table. *)
Lemma Post_subquery_withAuthorId (st : Store) (w : PostWhere) (k : Z) (table : list PostRecord) :
  applyWhereSpread Post_id Z.eqb
    (fun f => Post_matches st f noPostScope)
    (fun f => Post_matches st f (mkPostScope None (Some (Some k)))) w table
  = Post_applyWhereClause st table (Some (Post_withAuthorId w k)).
Proof.
  unfold Post_applyWhereClause. apply applyWhereSpread_is_applyWhere.
  destruct w as [a o n []]. simpl. repeat split.
Qed.

Lemma Post_subquery_notWithAuthorId (st : Store) (w : PostWhere) (k : Z)
    (table : list PostRecord) :
  applyWhereNot Post_id Z.eqb (fun _ f => Post_matches st f noPostScope)
    (fun p => whereNumberFilter (Post_authorId p) (Some (NumIs k))) w table
  = Post_applyWhereClause st table (Some (Post_notWithAuthorId w k)).
Proof.
  unfold applyWhereNot, Post_applyWhereClause, applyWhere, Post_notWithAuthorId.
  cbn [applyWhereFrom]. apply filter_ext. intros p. simpl.
  now rewrite !andb_true_r.
Qed.

Lemma Comment_subquery_withUserId (st : Store) (w : CommentWhere) (k : Z)
    (table : list CommentRecord) :
  applyWhereSpread Comment_id String.eqb
    (fun f => Comment_matches st f noCommentScope)
    (fun f => Comment_matches st f (mkCommentScope None (Some (Some k)))) w table
  = Comment_applyWhereClause st table (Some (Comment_withUserId w k)).
Proof.
  unfold Comment_applyWhereClause. apply applyWhereSpread_is_applyWhere.
  destruct w as [a o n []]. simpl. repeat split.
Qed.

Lemma Comment_subquery_notWithUserId (st : Store) (w : CommentWhere) (k : Z)
    (table : list CommentRecord) :
  applyWhereNot Comment_id String.eqb (fun _ f => Comment_matches st f noCommentScope)
    (fun c => whereNumberFilter (Comment_userId c) (Some (NumIs k))) w table
  = Comment_applyWhereClause st table (Some (Comment_notWithUserId w k)).
Proof.
  unfold applyWhereNot, Comment_applyWhereClause, applyWhere, Comment_notWithUserId.
  cbn [applyWhereFrom]. apply filter_ext. intros p. simpl.
  now rewrite !andb_true_r.
Qed.

Lemma Comment_subquery_withPostId (st : Store) (w : CommentWhere) (k : Z)
    (table : list CommentRecord) :
  applyWhereSpread Comment_id String.eqb
    (fun f => Comment_matches st f noCommentScope)
    (fun f => Comment_matches st f (mkCommentScope (Some (Some k)) None)) w table
  = Comment_applyWhereClause st table (Some (Comment_withPostId w k)).
Proof.
  unfold Comment_applyWhereClause. apply applyWhereSpread_is_applyWhere.
  destruct w as [a o n []]. simpl. repeat split.
Qed.

Lemma Comment_subquery_notWithPostId (st : Store) (w : CommentWhere) (k : Z)
    (table : list CommentRecord) :
  applyWhereNot Comment_id String.eqb (fun _ f => Comment_matches st f noCommentScope)
    (fun c => whereNumberFilter (Comment_postId c) (Some (NumIs k))) w table
  = Comment_applyWhereClause st table (Some (Comment_notWithPostId w k)).
Proof.
  unfold applyWhereNot, Comment_applyWhereClause, applyWhere, Comment_notWithPostId.
  cbn [applyWhereFrom]. apply filter_ext. intros p. simpl.
  now rewrite !andb_true_r.
Qed.

(** Scoped to a parent without children, a sub-query finds nothing,
    whatever its clause. *)
Lemma no_rows_in_scope {R : Type} (rows table : list R) (fk : R -> option Z) (k : Z) :
  incl rows table ->
  (forall r, In r rows -> fk r = Some k) ->
  (forall r, In r table -> fk r <> Some k) ->
  rows = [].
Proof.
  intros Hincl Hfk Hnone. destruct rows as [|r rows]; [reflexivity|].
  exfalso. apply (Hnone r); [apply Hincl|apply Hfk]; now left.
Qed.

Lemma Post_scoped_empty (st : Store) (w : PostWhere) (k : Z) :
  (forall p, In p (PostStore st) -> Post_authorId p <> Some k) ->
  Post_applyWhereClause st (PostStore st) (Some (Post_withAuthorId w k)) = []
  /\ Post_applyWhereClause st (PostStore st) (Some (Post_notWithAuthorId w k)) = [].
Proof.
  intros Hnone. split.
  - rewrite <- Post_subquery_withAuthorId.
    apply (@no_rows_in_scope _ _ (PostStore st) Post_authorId k); auto.
    + apply applyWhereFrom_incl.
    + intros r Hr. apply applyWhereFrom_matches in Hr.
      now apply Post_matches_scoped_to_author in Hr.
  - rewrite <- Post_subquery_notWithAuthorId.
    apply (@no_rows_in_scope _ _ (PostStore st) Post_authorId k); auto.
    + intros r Hr. apply filter_In in Hr. destruct Hr as [Hr _].
      now apply applyLogicalFilters_incl in Hr.
    + intros r Hr. apply filter_In in Hr. destruct Hr as [_ Hr].
      now apply whereNumberFilter_is.
Qed.

Lemma Comment_scoped_to_user_empty (st : Store) (w : CommentWhere) (k : Z) :
  (forall c, In c (CommentStore st) -> Comment_userId c <> Some k) ->
  Comment_applyWhereClause st (CommentStore st) (Some (Comment_withUserId w k)) = []
  /\ Comment_applyWhereClause st (CommentStore st) (Some (Comment_notWithUserId w k)) = [].
Proof.
  intros Hnone. split.
  - rewrite <- Comment_subquery_withUserId.
    apply (@no_rows_in_scope _ _ (CommentStore st) Comment_userId k); auto.
    + apply applyWhereFrom_incl.
    + intros r Hr. apply applyWhereFrom_matches in Hr.
      now apply Comment_matches_scoped_to_user in Hr.
  - rewrite <- Comment_subquery_notWithUserId.
    apply (@no_rows_in_scope _ _ (CommentStore st) Comment_userId k); auto.
    + intros r Hr. apply filter_In in Hr. destruct Hr as [Hr _].
      now apply applyLogicalFilters_incl in Hr.
    + intros r Hr. apply filter_In in Hr. destruct Hr as [_ Hr].
      now apply whereNumberFilter_is.
Qed.

Lemma Comment_scoped_to_post_empty (st : Store) (w : CommentWhere) (k : Z) :
  (forall c, In c (CommentStore st) -> Comment_postId c <> Some k) ->
  Comment_applyWhereClause st (CommentStore st) (Some (Comment_withPostId w k)) = []
  /\ Comment_applyWhereClause st (CommentStore st) (Some (Comment_notWithPostId w k)) = [].
Proof.
  intros Hnone. split.
  - rewrite <- Comment_subquery_withPostId.
    apply (@no_rows_in_scope _ _ (CommentStore st) Comment_postId k); auto.
    + apply applyWhereFrom_incl.
    + intros r Hr. apply applyWhereFrom_matches in Hr.
      now apply Comment_matches_scoped_to_post in Hr.
  - rewrite <- Comment_subquery_notWithPostId.
    apply (@no_rows_in_scope _ _ (CommentStore st) Comment_postId k); auto.
    + intros r Hr. apply filter_In in Hr. destruct Hr as [Hr _].
      now apply applyLogicalFilters_incl in Hr.
    + intros r Hr. apply filter_In in Hr. destruct Hr as [_ Hr].
      now apply whereNumberFilter_is.
Qed.

(** A where clause on [User.posts] with one quantifier keeps a user
    according to the scoped sub-query on the post table. *)
Lemma User_where_posts_is_subquery (st : Store) (record : UserRecord) (w : PostWhere) :
  let posts clause := Post_applyWhereClause st (PostStore st) (Some clause) in
  User_applyWhereClause st [record] (Some (where_User_posts (every_ w)))
  = (if isNil (posts (Post_notWithAuthorId w (User_id record))) then [record] else [])
  /\ User_applyWhereClause st [record] (Some (where_User_posts (some_ w)))
     = (if isNil (posts (Post_withAuthorId w (User_id record))) then [] else [record])
  /\ User_applyWhereClause st [record] (Some (where_User_posts (none_ w)))
     = (if isNil (posts (Post_withAuthorId w (User_id record))) then [record] else []).
Proof.
  cbv beta zeta. rewrite <- Post_subquery_notWithAuthorId, <- Post_subquery_withAuthorId.
  unfold User_applyWhereClause, applyWhere, where_User_posts, every_, some_, none_.
  cbn [applyWhereFrom applyLogicalFilters filter User_matches whereStringFilter
       whereNumberFilter spread rel_every rel_some rel_none whenSet andb].
  repeat split.
  - match goal with |- context [isNil ?l] => destruct (isNil l) end; reflexivity.
  - match goal with |- context [isNil ?l] => destruct (isNil l) end; reflexivity.
  - match goal with |- context [isNil ?l] => destruct (isNil l) end; reflexivity.
Qed.

Lemma User_where_comments_is_subquery (st : Store) (record : UserRecord) (w : CommentWhere) :
  let comments clause := Comment_applyWhereClause st (CommentStore st) (Some clause) in
  User_applyWhereClause st [record] (Some (where_User_comments (every_ w)))
  = (if isNil (comments (Comment_notWithUserId w (User_id record))) then [record] else [])
  /\ User_applyWhereClause st [record] (Some (where_User_comments (some_ w)))
     = (if isNil (comments (Comment_withUserId w (User_id record))) then [] else [record])
  /\ User_applyWhereClause st [record] (Some (where_User_comments (none_ w)))
     = (if isNil (comments (Comment_withUserId w (User_id record))) then [record] else []).
Proof.
  cbv beta zeta. rewrite <- Comment_subquery_notWithUserId, <- Comment_subquery_withUserId.
  unfold User_applyWhereClause, applyWhere, where_User_comments, every_, some_, none_.
  cbn [applyWhereFrom applyLogicalFilters filter User_matches whereStringFilter
       whereNumberFilter spread rel_every rel_some rel_none whenSet andb].
  repeat split;
    match goal with |- context [isNil ?l] => destruct (isNil l) end; reflexivity.
Qed.

Lemma Post_where_comments_is_subquery (st : Store) (record : PostRecord) (w : CommentWhere) :
  let comments clause := Comment_applyWhereClause st (CommentStore st) (Some clause) in
  Post_applyWhereClause st [record] (Some (where_Post_comments (every_ w)))
  = (if isNil (comments (Comment_notWithPostId w (Post_id record))) then [record] else [])
  /\ Post_applyWhereClause st [record] (Some (where_Post_comments (some_ w)))
     = (if isNil (comments (Comment_withPostId w (Post_id record))) then [] else [record])
  /\ Post_applyWhereClause st [record] (Some (where_Post_comments (none_ w)))
     = (if isNil (comments (Comment_withPostId w (Post_id record))) then [record] else []).
Proof.
  cbv beta zeta. rewrite <- Comment_subquery_notWithPostId, <- Comment_subquery_withPostId.
  unfold Post_applyWhereClause, applyWhere, where_Post_comments, every_, some_, none_.
  cbn [applyWhereFrom applyLogicalFilters filter Post_matches whereStringFilter
       whereNumberFilter whereStringListFilter whereNumberListFilter whereListFilter
       spread rel_every rel_some rel_none whenSet andb
       scope_Post_id scope_Post_authorId noPostScope].
  repeat split;
    match goal with |- context [isNil ?l] => destruct (isNil l) end; reflexivity.
Qed.



(** ** Notifications *)

Lemma quiet_ret {A : Type} (a : A) : quiet (ret a).
Proof. intros w. simpl. auto. Qed.

Lemma quiet_throw {A : Type} (e : Error) : quiet (throw (A := A) e).
Proof. intros w. simpl. auto. Qed.

Lemma quiet_bind {A B : Type} (m : M A) (f : A -> M B) :
  quiet m -> (forall a, quiet (f a)) -> quiet (bind m f).
Proof.
  intros Hm Hf w. unfold bind. specialize (Hm w).
  destruct (m w) as [a w'|e w'|]; auto.
  specialize (Hf a w'). destruct (f a w') as [b w''|e w''|]; auto.
  - destruct Hm as [Hc Hl], Hf as [Hc' Hl']. split; congruence.
  - destruct Hm as [Hc Hl], Hf as [Hc' Hl']. split; congruence.
Qed.

Lemma quiet_readStore : quiet readStore.
Proof. intros w. simpl. auto. Qed.

Lemma quiet_writeStore (f : Store -> Store) : quiet (writeStore f).
Proof. intros w. simpl. auto. Qed.

Lemma quiet_tx_abort : quiet tx_abort.
Proof. intros w. simpl. auto. Qed.

Lemma quiet_createId : quiet createId.
Proof. intros w. simpl. auto. Qed.

Lemma quiet_liftRead {A : Type} (f : Store -> Error + A) : quiet (liftRead f).
Proof. intros w. unfold liftRead. destruct (f (db_now w)); simpl; auto. Qed.

Lemma quiet_out_of_fuel {A : Type} : quiet (fun _ : World => OutOfFuel (A := A)).
Proof. intros w. exact I. Qed.

Lemma quiet_forEach {A : Type} (l : list A) (f : A -> M unit) :
  (forall x, quiet (f x)) -> quiet (forEach l f).
Proof.
  intros Hf. induction l as [|x l IH]; simpl.
  - apply quiet_ret.
  - apply quiet_bind; auto.
Qed.

Lemma quiet_mapM {A B : Type} (l : list A) (f : A -> M B) :
  (forall x, quiet (f x)) -> quiet (mapM f l).
Proof.
  intros Hf. induction l as [|x l IH]; simpl.
  - apply quiet_ret.
  - apply quiet_bind; auto. intros y.
    apply quiet_bind; auto. intros ys. apply quiet_ret.
Qed.

Lemma quiet_ifSet {A : Type} (o : option A) (f : A -> M unit) :
  (forall a, quiet (f a)) -> quiet (ifSet o f).
Proof. intros Hf. destruct o; simpl; auto using quiet_ret. Qed.

Lemma quiet_done {A : Type} (m : M A) : quiet m -> quiet (done m).
Proof. intros Hm. apply quiet_bind; auto. intros _. apply quiet_ret. Qed.

Create HintDb quiet.
#[local] Hint Resolve quiet_ret quiet_throw quiet_readStore quiet_writeStore quiet_tx_abort
  quiet_createId quiet_liftRead quiet_out_of_fuel : quiet.

(** The steps of an engine method, one after the other. *)
Ltac quiet_step :=
  match goal with
  | |- quiet (bind _ _) => apply quiet_bind; [|intros]
  | |- quiet (forEach _ _) => apply quiet_forEach; intros
  | |- quiet (mapM _ _) => apply quiet_mapM; intros
  | |- quiet (ifSet _ _) => apply quiet_ifSet; intros
  | |- quiet (done _) => apply quiet_done
  | |- quiet (match ?x with _ => _ end) => destruct x
  | |- quiet (let '_ := ?x in _) => destruct x
  | |- quiet _ => solve [auto with quiet]
  end.

Ltac quiet_steps := repeat quiet_step.

Lemma quiet_orThrow {A : Type} (found : option A) : quiet (orThrow found).
Proof. unfold orThrow. quiet_steps. Qed.

Lemma quiet_orThrowOnly {A : Type} (found : option A) : quiet (orThrowOnly found).
Proof. unfold orThrowOnly. quiet_steps. Qed.

Lemma quiet_addTo {R : Type} (added : Store -> option Store) : quiet (addTo (R := R) added).
Proof. unfold addTo. quiet_steps. Qed.

Lemma quiet_getRow {K R : Type} (key : R -> K) (keyEqb : K -> K -> bool)
    (table : Store -> list R) (k : K) : quiet (getRow key keyEqb table k).
Proof. unfold getRow. quiet_steps. Qed.

#[local] Hint Resolve quiet_orThrow quiet_orThrowOnly quiet_addTo quiet_getRow : quiet.

Lemma quiet_findMany :
  (forall q, quiet (User_findMany q)) /\ (forall q, quiet (Profile_findMany q))
  /\ (forall q, quiet (Post_findMany q)) /\ (forall q, quiet (Comment_findMany q)).
Proof.
  repeat split; intros q;
    unfold User_findMany, Profile_findMany, Post_findMany, Comment_findMany; quiet_steps.
Qed.

Lemma quiet_findUnique :
  (forall q, quiet (User_findUnique q)) /\ (forall q, quiet (Profile_findUnique q))
  /\ (forall q, quiet (Post_findUnique q)) /\ (forall q, quiet (Comment_findUnique q)).
Proof.
  repeat split; intros q;
    unfold User_findUnique, Profile_findUnique, Post_findUnique, Comment_findUnique;
    quiet_steps.
Qed.

Lemma quiet_User_findMany q : quiet (User_findMany q).
Proof. apply quiet_findMany. Qed.
Lemma quiet_Profile_findMany q : quiet (Profile_findMany q).
Proof. apply quiet_findMany. Qed.
Lemma quiet_Post_findMany q : quiet (Post_findMany q).
Proof. apply quiet_findMany. Qed.
Lemma quiet_Comment_findMany q : quiet (Comment_findMany q).
Proof. apply quiet_findMany. Qed.
Lemma quiet_User_findUnique q : quiet (User_findUnique q).
Proof. apply quiet_findUnique. Qed.
Lemma quiet_Profile_findUnique q : quiet (Profile_findUnique q).
Proof. apply quiet_findUnique. Qed.
Lemma quiet_Post_findUnique q : quiet (Post_findUnique q).
Proof. apply quiet_findUnique. Qed.
Lemma quiet_Comment_findUnique q : quiet (Comment_findUnique q).
Proof. apply quiet_findUnique. Qed.

#[local] Hint Resolve quiet_User_findMany quiet_Profile_findMany quiet_Post_findMany
  quiet_Comment_findMany quiet_User_findUnique quiet_Profile_findUnique
  quiet_Post_findUnique quiet_Comment_findUnique : quiet.

Lemma quiet_User_findUniqueOrThrow q : quiet (User_findUniqueOrThrow q).
Proof. unfold User_findUniqueOrThrow. quiet_steps. Qed.
Lemma quiet_Post_findUniqueOrThrow q : quiet (Post_findUniqueOrThrow q).
Proof. unfold Post_findUniqueOrThrow. quiet_steps. Qed.

Lemma quiet_User_update q d : quiet (User_update q d).
Proof. unfold User_update, User_store_put. quiet_steps. Qed.
Lemma quiet_Profile_update q d : quiet (Profile_update q d).
Proof. unfold Profile_update, Profile_store_put. quiet_steps. Qed.
Lemma quiet_Post_update q d : quiet (Post_update q d).
Proof. unfold Post_update, Post_store_put. quiet_steps. Qed.
Lemma quiet_Comment_update q d : quiet (Comment_update q d).
Proof. unfold Comment_update, Comment_store_put. quiet_steps. Qed.

Lemma quiet_Comment_delete q : quiet (Comment_delete q).
Proof. unfold Comment_delete, Comment_store_delete. quiet_steps. Qed.
Lemma quiet_Profile_delete q : quiet (Profile_delete q).
Proof. unfold Profile_delete, Profile_store_delete. quiet_steps. Qed.

#[local] Hint Resolve quiet_User_findUniqueOrThrow quiet_Post_findUniqueOrThrow
  quiet_User_update quiet_Profile_update quiet_Post_update quiet_Comment_update
  quiet_Comment_delete quiet_Profile_delete : quiet.

Lemma quiet_Comment_deleteMany q : quiet (Comment_deleteMany q).
Proof. unfold Comment_deleteMany. quiet_steps. Qed.
Lemma quiet_Profile_deleteMany q : quiet (Profile_deleteMany q).
Proof. unfold Profile_deleteMany. quiet_steps. Qed.

#[local] Hint Resolve quiet_Comment_deleteMany quiet_Profile_deleteMany : quiet.

Lemma quiet_Post_delete q : quiet (Post_delete q).
Proof. unfold Post_delete, Post_store_delete. quiet_steps. Qed.
Lemma quiet_User_delete q : quiet (User_delete q).
Proof. unfold User_delete, User_store_delete. quiet_steps. Qed.

Lemma quiet_fillDefaults :
  (forall d, quiet (User_fillDefaults d)) /\ (forall d, quiet (Profile_fillDefaults d))
  /\ (forall d, quiet (Post_fillDefaults d)) /\ (forall d, quiet (Comment_fillDefaults d)).
Proof.
  repeat split; intros d;
    unfold User_fillDefaults, Profile_fillDefaults, Post_fillDefaults, Comment_fillDefaults;
    quiet_steps.
Qed.

Lemma quiet_add :
  (forall d, quiet (User_add d)) /\ (forall d, quiet (Profile_add d))
  /\ (forall d, quiet (Post_add d)) /\ (forall d, quiet (Comment_add d)).
Proof.
  repeat split; intros d;
    unfold User_add, Profile_add, Post_add, Comment_add,
           User_store_add, Profile_store_add, Post_store_add, Comment_store_add;
    quiet_steps.
Qed.

Lemma quiet_User_fillDefaults d : quiet (User_fillDefaults d).
Proof. apply quiet_fillDefaults. Qed.
Lemma quiet_Profile_fillDefaults d : quiet (Profile_fillDefaults d).
Proof. apply quiet_fillDefaults. Qed.
Lemma quiet_Post_fillDefaults d : quiet (Post_fillDefaults d).
Proof. apply quiet_fillDefaults. Qed.
Lemma quiet_Comment_fillDefaults d : quiet (Comment_fillDefaults d).
Proof. apply quiet_fillDefaults. Qed.
Lemma quiet_User_add d : quiet (User_add d).
Proof. apply quiet_add. Qed.
Lemma quiet_Profile_add d : quiet (Profile_add d).
Proof. apply quiet_add. Qed.
Lemma quiet_Post_add d : quiet (Post_add d).
Proof. apply quiet_add. Qed.
Lemma quiet_Comment_add d : quiet (Comment_add d).
Proof. apply quiet_add. Qed.

#[local] Hint Resolve quiet_User_fillDefaults quiet_Profile_fillDefaults
  quiet_Post_fillDefaults quiet_Comment_fillDefaults
  quiet_User_add quiet_Profile_add quiet_Post_add quiet_Comment_add : quiet.

Lemma quiet_Post_createMany d : quiet (Post_createMany d).
Proof. unfold Post_createMany. quiet_steps. Qed.
Lemma quiet_Comment_createMany d : quiet (Comment_createMany d).
Proof. unfold Comment_createMany. quiet_steps. Qed.

#[local] Hint Resolve quiet_Post_createMany quiet_Comment_createMany : quiet.

(** The four [create] methods call each other; none of them calls [emit]. *)
Lemma quiet_create (fuel : nat) :
  (forall d, quiet (User_create fuel d)) /\ (forall d, quiet (Profile_create fuel d))
  /\ (forall d, quiet (Post_create fuel d)) /\ (forall d, quiet (Comment_create fuel d)).
Proof.
  induction fuel as [|fuel (IHU & IHP & IHT & IHC)].
  - repeat split; intros d; apply quiet_out_of_fuel.
  - repeat split; intros d; simpl; quiet_steps.
Qed.

Lemma StoreName_eqb_eq (a b : StoreName) : StoreName_eqb a b = true <-> a = b.
Proof. destruct a, b; simpl; split; intros H; try reflexivity; discriminate. Qed.

Lemma EventKind_eqb_eq (a b : EventKind) : EventKind_eqb a b = true <-> a = b.
Proof. destruct a, b; simpl; split; intros H; try reflexivity; discriminate. Qed.

Lemma Listener_eqb_eq (a b : Listener) : Listener_eqb a b = true <-> a = b.
Proof.
  destruct a as [[m1 e1] c1], b as [[m2 e2] c2]. simpl.
  rewrite !andb_true_iff, StoreName_eqb_eq, EventKind_eqb_eq, Nat.eqb_eq.
  split; [intros [[-> ->] ->]; reflexivity|intros [= -> -> ->]; auto].
Qed.

Lemma addEventListener_keeps (l x : Listener) (w : World) :
  In x (listeners w) -> In x (listeners (addEventListener l w)).
Proof.
  intros H. unfold addEventListener.
  destruct (existsb (Listener_eqb l) (listeners w)); [exact H|].
  simpl. apply in_or_app. now left.
Qed.

Lemma addEventListener_registers (l : Listener) (w : World) :
  In l (listeners (addEventListener l w)).
Proof.
  unfold addEventListener.
  destruct (existsb (Listener_eqb l) (listeners w)) eqn:E.
  - apply existsb_exists in E. destruct E as (x & Hx & Hlx).
    apply Listener_eqb_eq in Hlx. now subst.
  - simpl. apply in_or_app. right. now left.
Qed.

(** [subscribe] registers the callback for each of the event kinds. *)
Lemma subscribe_registers (model : StoreName) (events : list EventKind) (callback : nat)
    (event : EventKind) (w : World) :
  In event events -> In (model, event, callback) (listeners (subscribe model events callback w)).
Proof.
  unfold subscribe. revert w.
  induction events as [|e events IH]; intros w; [intros []|].
  intros [->|Hin]; simpl.
  - assert (K : forall evs w', In (model, event, callback) (listeners w') ->
                In (model, event, callback)
                   (listeners (fold_left (fun w0 e0 => addEventListener (model, e0, callback) w0)
                                         evs w'))).
    { intros evs. induction evs as [|e' evs IH']; intros w' H'; [exact H'|].
      simpl. apply IH'. now apply addEventListener_keeps. }
    apply K. apply addEventListener_registers.
  - now apply IH.
Qed.

(** [emit] runs every callback registered for the event on the engine. *)
Lemma emit_runs_listeners (model : StoreName) (event : EventKind) (w : World) :
  exists w', emit model event w = Ok tt w'
             /\ listeners w' = listeners w
             /\ forall callback, In (model, event, callback) (listeners w) ->
                                 In (model, event, callback) (called w').
Proof.
  eexists. split; [reflexivity|]. split; [reflexivity|].
  intros callback Hin. simpl. apply in_or_app. left. apply -> in_rev.
  apply filter_In. split; [exact Hin|].
  apply andb_true_iff. split; [now apply StoreName_eqb_eq|now apply EventKind_eqb_eq].
Qed.

(** With callback 7 subscribed to the events of the user engine, creating
    Jane, renaming John to Jane and deleting John all succeed, and the
    callback has not been run. *)
Lemma writes_run_no_callback :
  ~ notifies User create_event (User_create 1 jane) subscribed
  /\ ~ notifies User update_event (User_update (where_User_id 1) renameToJane) subscribed
  /\ ~ notifies User delete_event (User_delete (where_User_id 1)) subscribed.
Proof.
  repeat split; intros H.
  - exact (H (mkUser 2 "Jane") _ eq_refl 7%nat (or_introl eq_refl)).
  - exact (H (Found (mkUser 1 "Jane")) _ eq_refl 7%nat (or_intror (or_introl eq_refl))).
  - exact (H (mkUser 1 "John") _ eq_refl 7%nat (or_intror (or_intror (or_introl eq_refl)))).
Qed.

(** C4, as the code has it.  [emit] runs every callback subscribed to the
    event on the engine; [create], [update] and [delete] of the four engines
    never call it: whether they return or throw, the callbacks run so far
    and the registered listeners are what they were. *)
Theorem writes_emit_nothing (fuel : nat) :
  (forall data, quiet (User_create fuel data))
  /\ (forall data, quiet (Profile_create fuel data))
  /\ (forall data, quiet (Post_create fuel data))
  /\ (forall data, quiet (Comment_create fuel data))
  /\ (forall where_ data, quiet (User_update where_ data))
  /\ (forall where_ data, quiet (Profile_update where_ data))
  /\ (forall where_ data, quiet (Post_update where_ data))
  /\ (forall where_ data, quiet (Comment_update where_ data))
  /\ (forall where_, quiet (User_delete where_))
  /\ (forall where_, quiet (Profile_delete where_))
  /\ (forall where_, quiet (Post_delete where_))
  /\ (forall where_, quiet (Comment_delete where_))
  /\ (forall model event w,
         exists w', emit model event w = Ok tt w'
                    /\ listeners w' = listeners w
                    /\ forall callback, In (model, event, callback) (listeners w) ->
                                        In (model, event, callback) (called w')).
Proof.
  destruct (quiet_create fuel) as (HU & HP & HT & HC).
  repeat split; auto using quiet_User_update, quiet_Profile_update, quiet_Post_update,
    quiet_Comment_update, quiet_User_delete, quiet_Profile_delete, quiet_Post_delete,
    quiet_Comment_delete.
  intros model event w. apply emit_runs_listeners.
Qed.

(** ** update and the primary key *)

Section ObjectStoreFacts.
Variables (K R : Type).
Variable key : R -> K.
Variable keyEqb : K -> K -> bool.
Variable keyLtb : K -> K -> bool.
Hypothesis keyEqb_eq : forall a b, keyEqb a b = true <-> a = b.

Lemma keyEqb_refl (k : K) : keyEqb k k = true.
Proof. now apply keyEqb_eq. Qed.

Lemma keyEqb_neq (a b : K) : a <> b -> keyEqb a b = false.
Proof.
  intros H. destruct (keyEqb a b) eqn:E; [|reflexivity].
  apply keyEqb_eq in E. contradiction.
Qed.

Lemma store_get_In (k : K) (t : list R) (r : R) :
  store_get key keyEqb k t = Some r -> In r t /\ key r = k.
Proof.
  unfold store_get. intros H. apply find_some in H.
  destruct H as [Hin Hk]. now apply keyEqb_eq in Hk.
Qed.

Lemma store_get_None (k : K) (t : list R) :
  store_get key keyEqb k t = None <-> forall r, In r t -> key r <> k.
Proof.
  unfold store_get. split.
  - intros H r Hr E. apply (find_none _ _ H) in Hr.
    rewrite E, keyEqb_refl in Hr. discriminate.
  - intros H. induction t as [|x t IH]; [reflexivity|]. simpl.
    rewrite keyEqb_neq; [|apply H; now left].
    apply IH. intros r Hr. apply H. now right.
Qed.

Lemma store_get_insert_same (r : R) (t : list R) :
  (forall x, In x t -> key x <> key r) ->
  store_get key keyEqb (key r) (store_insert key keyLtb r t) = Some r.
Proof.
  unfold store_get. induction t as [|x t IH]; intros H; simpl.
  - now rewrite keyEqb_refl.
  - destruct (keyLtb (key r) (key x)); simpl.
    + now rewrite keyEqb_refl.
    + rewrite keyEqb_neq; [|apply H; now left].
      apply IH. intros y Hy. apply H. now right.
Qed.

Lemma store_get_insert_other (k : K) (r : R) (t : list R) :
  k <> key r ->
  store_get key keyEqb k (store_insert key keyLtb r t) = store_get key keyEqb k t.
Proof.
  unfold store_get. intros Hk. induction t as [|x t IH]; simpl.
  - rewrite keyEqb_neq; auto.
  - destruct (keyLtb (key r) (key x)); simpl.
    + rewrite (@keyEqb_neq (key r) k); auto.
    + destruct (keyEqb (key x) k); [reflexivity|exact IH].
Qed.

Lemma store_delete_In (k : K) (t : list R) (r : R) :
  In r (store_delete key keyEqb k t) <-> In r t /\ key r <> k.
Proof.
  unfold store_delete. rewrite filter_In. split; intros [Hin Hk]; split; auto.
  - intros E. rewrite E, keyEqb_refl in Hk. discriminate.
  - now rewrite keyEqb_neq.
Qed.

Lemma store_get_delete_other (k k' : K) (t : list R) :
  k' <> k ->
  store_get key keyEqb k' (store_delete key keyEqb k t) = store_get key keyEqb k' t.
Proof.
  unfold store_get, store_delete. intros Hk. induction t as [|x t IH]; [reflexivity|].
  simpl. destruct (keyEqb (key x) k) eqn:E; simpl.
  - apply keyEqb_eq in E. rewrite keyEqb_neq; [exact IH|congruence].
  - destruct (keyEqb (key x) k'); [reflexivity|exact IH].
Qed.

(** After [put], the record is the row under its key, and the rows under
    the other keys are as before. *)
Lemma store_get_put_same (r : R) (t : list R) :
  store_get key keyEqb (key r) (store_put key keyEqb keyLtb r t) = Some r.
Proof.
  unfold store_put. apply store_get_insert_same.
  intros x Hx. apply store_delete_In in Hx. tauto.
Qed.

Lemma store_get_put_other (k : K) (r : R) (t : list R) :
  k <> key r ->
  store_get key keyEqb k (store_put key keyEqb keyLtb r t) = store_get key keyEqb k t.
Proof.
  intros Hk. unfold store_put.
  rewrite store_get_insert_other by exact Hk.
  now apply store_get_delete_other.
Qed.
End ObjectStoreFacts.

Lemma User_findUnique_by_id (k : Z) (w : World) :
  exists l, User_findUnique (where_User_id k) w = Ok l w.
Proof.
  unfold User_findUnique, bind, readStore. simpl.
  destruct (k =? 0); [eexists; reflexivity|].
  destruct (store_get User_id Z.eqb k (UserStore (db_now w))); eexists; reflexivity.
Qed.

Lemma Comment_findUnique_by_id (k : string) (w : World) :
  exists l, Comment_findUnique (where_Comment_id k) w = Ok l w.
Proof.
  unfold Comment_findUnique, bind, readStore. simpl.
  destruct (String.eqb k EmptyString); [eexists; reflexivity|].
  destruct (store_get Comment_id String.eqb k (CommentStore (db_now w))); eexists; reflexivity.
Qed.

(** What [update] does to the stores when the selector finds a row. *)
Lemma User_update_found (where_ : UserWhere) (data : UserUpdate) (record : UserRecord)
    (w : World) :
  User_findUnique where_ w = Ok (Found record) w ->
  exists l,
    User_update where_ data w
    = Ok l (withStore
              (setUserStore
                 (store_put User_id Z.eqb Z.ltb (User_patch record data) (UserStore (db_now w)))
                 (db_now w)) w).
Proof.
  intros H. unfold User_update. rewrite (bind_Ok _ _ _ H).
  unfold User_store_put.
  set (w' := withStore _ w).
  destruct (User_findUnique_by_id (User_id (User_patch record data)) w') as [l Hl].
  exists l. unfold bind at 1. unfold bind at 1. exact Hl.
Qed.

Lemma Comment_update_found (where_ : CommentWhere) (data : CommentUpdate)
    (record : CommentRecord) (w : World) :
  Comment_findUnique where_ w = Ok (Found record) w ->
  exists l,
    Comment_update where_ data w
    = Ok l (withStore
              (setCommentStore
                 (store_put Comment_id String.eqb String.ltb (Comment_patch record data)
                            (CommentStore (db_now w)))
                 (db_now w)) w).
Proof.
  intros H. unfold Comment_update. rewrite (bind_Ok _ _ _ H).
  unfold Comment_store_put.
  set (w' := withStore _ w).
  destruct (Comment_findUnique_by_id (Comment_id (Comment_patch record data)) w') as [l Hl].
  exists l. unfold bind at 1. unfold bind at 1. exact Hl.
Qed.

(** Moving John from key 1 to key 5 leaves the old row under key 1 and
    stores the patched record under key 5. *)
Lemma update_can_change_the_key :
  ~ User_update_keeps_key (where_User_id 1) moveTo5 (openOn johnStored).
Proof.
  intros H.
  specialize (H (mkUser 1 "John") _ _ eq_refl eq_refl).
  discriminate H.
Qed.

Lemma update_with_key_patch_stores_two_rows :
  exists l w',
    User_update (where_User_id 1) moveTo5 (openOn johnStored) = Ok l w'
    /\ l = Found (mkUser 5 "John")
    /\ UserStore (db_now w') = [mkUser 1 "John"; mkUser 5 "John"].
Proof. eexists. eexists. repeat split. Qed.

(** C3, as the code has it.  When the update data has no patch for [id], an
    [update] that completes has stored the record that its selector
    locates, patched, under the key it had, and has left the rows under the
    other keys untouched; with a selector that consults no relation it
    completes.  (The [id] is among the fields that [update] patches.) *)
Theorem update_without_id_patch_keeps_key
    (w : World) (where_ : UserWhere) (data : UserUpdate) (record : UserRecord)
    (located : User_findUnique where_ w = Ok (Found record) w)
    (no_id_patch : uu_id data = None) :
  User_id (User_patch record data) = User_id record
  /\ (forall l w',
        User_update where_ data w = Ok l w' ->
        store_get User_id Z.eqb (User_id record) (UserStore (db_now w'))
        = Some (User_patch record data)
        /\ forall k, k <> User_id record ->
             store_get User_id Z.eqb k (UserStore (db_now w'))
             = store_get User_id Z.eqb k (UserStore (db_now w)))
  /\ User_update_keeps_key where_ data w
  /\ (whereIsScalar UserWhereFields_isScalar where_ = true ->
      exists l w', User_update where_ data w = Ok l w').
Proof.
  destruct (User_update_found where_ data located) as [l Hl].
  assert (Ek : User_id (User_patch record data) = User_id record).
  { unfold User_patch. rewrite no_id_patch. reflexivity. }
  assert (Eget : store_get User_id Z.eqb (User_id record)
                   (store_put User_id Z.eqb Z.ltb (User_patch record data) (UserStore (db_now w)))
                 = Some (User_patch record data)).
  { rewrite <- Ek at 1. apply store_get_put_same. apply Z.eqb_eq. }
  split; [exact Ek|]. split; [|split].
  - intros l' w' Hupd. rewrite Hl in Hupd. injection Hupd as _ <-.
    split; [exact Eget|].
    intros k Hk. simpl. apply store_get_put_other; [apply Z.eqb_eq|congruence].
  - intros record' l' w' Hfound Hupd.
    rewrite located in Hfound. injection Hfound as <-.
    rewrite Hl in Hupd. injection Hupd as _ <-. exact Eget.
  - intros _. exists l. eexists. exact Hl.
Qed.

Lemma update_without_id_patch_keeps_key_witness :
  whereIsScalar UserWhereFields_isScalar (where_User_id 1) = true
  /\ User_findUnique (where_User_id 1) (openOn johnStored)
     = Ok (Found (mkUser 1 "John")) (openOn johnStored)
  /\ uu_id renameToJane = None
  /\ exists l w',
       User_update (where_User_id 1) renameToJane (openOn johnStored) = Ok l w'
       /\ UserStore (db_now w') = [mkUser 1 "Jane"].
Proof.
  split; [reflexivity|]. split; [reflexivity|]. split; [reflexivity|].
  destruct (@update_without_id_patch_keeps_key (openOn johnStored) (where_User_id 1)
              renameToJane (mkUser 1 "John") eq_refl eq_refl)
    as (_ & _ & _ & Hcompletes).
  destruct (Hcompletes eq_refl) as (l & w' & Hupd).
  exists l, w'. split; [exact Hupd|].
  assert (E : User_update (where_User_id 1) renameToJane (openOn johnStored)
              = Ok (Found (mkUser 1 "Jane"))
                   (withStore (mkStore [mkUser 1 "Jane"] [] [] []) (openOn johnStored)))
    by reflexivity.
  rewrite E in Hupd. injection Hupd as _ <-. reflexivity.
Defined.

(** The same for comments, whose key is a string. *)
Lemma Comment_update_without_id_patch_keeps_key
    (w : World) (where_ : CommentWhere) (data : CommentUpdate) (record : CommentRecord) :
  Comment_findUnique where_ w = Ok (Found record) w ->
  cu_id data = None ->
  Comment_id (Comment_patch record data) = Comment_id record
  /\ (forall l w',
        Comment_update where_ data w = Ok l w' ->
        store_get Comment_id String.eqb (Comment_id record) (CommentStore (db_now w'))
        = Some (Comment_patch record data)
        /\ forall k, k <> Comment_id record ->
             store_get Comment_id String.eqb k (CommentStore (db_now w'))
             = store_get Comment_id String.eqb k (CommentStore (db_now w)))
  /\ (whereIsScalar CommentWhereFields_isScalar where_ = true ->
      exists l w', Comment_update where_ data w = Ok l w').
Proof.
  intros located no_id_patch.
  destruct (Comment_update_found where_ data located) as [l Hl].
  assert (Ek : Comment_id (Comment_patch record data) = Comment_id record).
  { unfold Comment_patch. rewrite no_id_patch. reflexivity. }
  split; [exact Ek|]. split.
  - intros l' w' Hupd. rewrite Hl in Hupd. injection Hupd as _ <-. split.
    + simpl. rewrite <- Ek at 1. apply store_get_put_same. apply String.eqb_eq.
    + intros k Hk. simpl. apply store_get_put_other; [apply String.eqb_eq|congruence].
  - intros _. exists l. eexists. exact Hl.
Qed.

(** ** connectOrCreate *)

(** A [connectOrCreate] under an owning-side relation, with no [create] or
    [connect] beside it, makes [create] throw before anything is written:
    the world is what it was. *)
Lemma connectOrCreate_on_the_owning_side
    (fuel : nat) (w : World)
    (id_ : option Z) (sid : option string) (title text : string)
    (bio : option (Nullable string)) (userId postId : option Z)
    (authorId : option (Nullable Z))
    (tags : option (ListInput string)) (numberArr : option (ListInput Z))
    (comments : option (NestedMany CommentCreate CommentWhere))
    (user : option (NestedOne UserCreate UserWhere))
    (uw : UserWhere) (uc : UserCreate) (tw : PostWhere) (tc : PostCreate) :
  Profile_create (S fuel)
    (mkProfileCreate id_ bio (Some (onlyConnectOrCreate uw uc)) userId) w
  = Throw ConnectOrCreateNotImplemented w
  /\ Post_create (S fuel)
       (mkPostCreate id_ title (Some (onlyConnectOrCreate uw uc)) authorId tags numberArr
                     comments) w
     = Throw ConnectOrCreateNotImplemented w
  /\ Comment_create (S fuel)
       (mkCommentCreate sid text (Some (onlyConnectOrCreate tw tc)) postId user userId) w
     = Throw ConnectOrCreateNotImplemented w
  /\ Comment_create (S fuel)
       (mkCommentCreate sid text None None (Some (onlyConnectOrCreate uw uc)) userId) w
     = Throw ConnectOrCreateNotImplemented w.
Proof. repeat split. Qed.

(** C2.  A user created on an empty database with a [connectOrCreate] under
    [posts]: the error is thrown after the user's row has been added, in a
    transaction that is not aborted, so the row stays written; the same with
    a [connectOrCreate] under [profile] or under [comments], and for a post
    with a [connectOrCreate] under [comments].  A post with a
    [connectOrCreate] under [author], the owning side, throws with nothing
    written. *)
Theorem connectOrCreate_after_the_row_is_added :
  User_create 1 johnWithPostConnectOrCreate emptyWorld
  = Throw ConnectOrCreateNotImplemented johnCreated
  /\ UserStore (db_now johnCreated) = [mkUser 1 "John"]
  /\ aborted johnCreated = false
  /\ ~ raisedBeforeAnyMutation (User_create 1 johnWithPostConnectOrCreate) emptyWorld
  /\ User_create 1 johnWithProfileConnectOrCreate emptyWorld
     = Throw ConnectOrCreateNotImplemented johnCreated
  /\ User_create 1 johnWithCommentConnectOrCreate emptyWorld
     = Throw ConnectOrCreateNotImplemented johnCreated
  /\ Post_create 1 postWithCommentConnectOrCreate emptyWorld
     = Throw ConnectOrCreateNotImplemented
             (withStore (mkStore [] [] [mkPost 1 "p1" None None None] []) emptyWorld)
  /\ raisedBeforeAnyMutation (Post_create 1 postWithAuthorConnectOrCreate) emptyWorld.
Proof.
  assert (E : User_create 1 johnWithPostConnectOrCreate emptyWorld
              = Throw ConnectOrCreateNotImplemented johnCreated) by reflexivity.
  repeat split; try reflexivity.
  - intros (w' & H & Hdb). rewrite E in H. injection H as <-. discriminate Hdb.
  - exists emptyWorld. split; reflexivity.
Qed.

(** The key that the filler assigns can be added. *)
Lemma User_add_new (name : string) (w : World)
    (profile : option (NestedOne ProfileCreate ProfileWhere))
    (posts : option (NestedMany PostCreate PostWhere))
    (comments : option (NestedMany CommentCreate CommentWhere)) :
  roomFor 1 User_id (UserStore (db_now w)) ->
  User_add (User_removeNestedCreateData
              (mkUserCreate (Some (nextId User_id (UserStore (db_now w)))) name
                            profile posts comments)) w
  = Ok (nextId User_id (UserStore (db_now w))) (withUserAdded name w).
Proof.
  intros Hroom.
  unfold User_add, User_removeNestedCreateData, User_asRecord, User_store_add, addTo.
  unfold bind, readStore, store_add. cbn [User_id].
  assert (E : store_get User_id Z.eqb (nextId User_id (UserStore (db_now w)))
                        (UserStore (db_now w)) = None).
  { apply store_get_None; [apply Z.eqb_eq|].
    intros r Hr. now apply nextId_fresh. }
  rewrite E. reflexivity.
Qed.

Lemma User_create_first_steps (name : string) (w : World)
    (profile : option (NestedOne ProfileCreate ProfileWhere))
    (posts : option (NestedMany PostCreate PostWhere))
    (comments : option (NestedMany CommentCreate CommentWhere))
    (rest : Z -> M UserRecord) :
  roomFor 1 User_id (UserStore (db_now w)) ->
  (filled <- User_fillDefaults (mkUserCreate None name profile posts comments) ;;
   keyPath <- User_add (User_removeNestedCreateData filled) ;;
   rest keyPath) w
  = rest (nextId User_id (UserStore (db_now w))) (withUserAdded name w).
Proof.
  intros Hroom.
  unfold bind at 1. cbn [User_fillDefaults bind readStore ret].
  unfold bind at 1. now rewrite User_add_new.
Qed.


(** ** Cascading delete *)

Lemma bind_Ok_inv {A B : Type} (m : M A) (f : A -> M B) (w w' : World) (b : B) :
  bind m f w = Ok b w' -> exists a w1, m w = Ok a w1 /\ f a w1 = Ok b w'.
Proof.
  unfold bind. destruct (m w) as [a w1|e w1|]; try discriminate.
  intros H. now exists a, w1.
Qed.

Section DeleteRows.
Variables (K R : Type).
Variable key : R -> K.
Variable keyEqb : K -> K -> bool.
Hypothesis keyEqb_eq : forall a b, keyEqb a b = true <-> a = b.

(** What is left are the rows of the table whose key is none of the
    deleted ones. *)
Lemma deleteRows_In (rows table : list R) (x : R) :
  In x (deleteRows key keyEqb rows table)
  <-> In x table /\ forall r, In r rows -> key x <> key r.
Proof.
  unfold deleteRows. revert table.
  induction rows as [|r rows IH]; intros table; simpl.
  - split; [intros H; split; [exact H|intros r []]|tauto].
  - rewrite IH, (store_delete_In key keyEqb keyEqb_eq). split.
    + intros [[Hin Hk] Hrest]. split; [exact Hin|].
      intros r' [<-|Hr']; [exact Hk|now apply Hrest].
    + intros [Hin Hall]. split; [split; [exact Hin|apply Hall; now left]|].
      intros r' Hr'. apply Hall. now right.
Qed.

(** Deleting all the rows that a filter selects leaves none that the filter
    selects. *)
Lemma deleteRows_filter (p : R -> bool) (table : list R) (x : R) :
  In x (deleteRows key keyEqb (filter p table) table) -> p x = false.
Proof.
  intros H. apply deleteRows_In in H. destruct H as [Hin Hall].
  destruct (p x) eqn:E; [|reflexivity].
  exfalso. apply (Hall x); [|reflexivity]. apply filter_In. now split.
Qed.
End DeleteRows.

Lemma filter_none {A : Type} (p : A -> bool) (l : list A) :
  (forall x, In x l -> p x = false) -> filter p l = [].
Proof.
  intros H. induction l as [|x l IH]; [reflexivity|]. simpl.
  rewrite H by now left. apply IH. intros y Hy. apply H. now right.
Qed.

(** A where clause that only names a foreign key selects the rows with that
    key. *)
Lemma Profile_applyWhere_userId (st : Store) (table : list ProfileRecord) (k : Z) :
  Profile_applyWhereClause st table (Some (where_Profile_userId k))
  = scopedTo Profile_userId k table.
Proof.
  unfold Profile_applyWhereClause, where_Profile_userId, applyWhere, scopedTo. simpl.
  apply filter_ext. intros r. now rewrite andb_true_r.
Qed.

Lemma Comment_applyWhere_userId (st : Store) (table : list CommentRecord) (k : Z) :
  Comment_applyWhereClause st table (Some (where_Comment_userId k))
  = scopedTo Comment_userId k table.
Proof.
  unfold Comment_applyWhereClause, where_Comment_userId, applyWhere, scopedTo. simpl.
  apply filter_ext. intros r. now rewrite !andb_true_r.
Qed.

Lemma Comment_applyWhere_postId (st : Store) (table : list CommentRecord) (k : Z) :
  Comment_applyWhereClause st table (Some (where_Comment_postId k))
  = scopedTo Comment_postId k table.
Proof.
  unfold Comment_applyWhereClause, where_Comment_postId, applyWhere, scopedTo. simpl.
  apply filter_ext. intros r. now rewrite !andb_true_r.
Qed.

(** A row read by its key passes the where clause that names the key. *)
Lemma Profile_applyWhere_id (st : Store) (record : ProfileRecord) :
  applyWhere Profile_id Z.eqb (fun f => Profile_matches st f None)
             (where_Profile_id (Profile_id record)) [record] = [record].
Proof.
  unfold applyWhere, where_Profile_id. simpl. now rewrite Z.eqb_refl.
Qed.

Lemma Comment_applyWhere_id (st : Store) (record : CommentRecord) :
  applyWhere Comment_id String.eqb (fun f => Comment_matches st f noCommentScope)
             (where_Comment_id (Comment_id record)) [record] = [record].
Proof.
  unfold applyWhere, where_Comment_id. simpl. now rewrite String.eqb_refl.
Qed.

(** [delete] by primary key, when it completes, has removed the rows under
    that key and nothing else. *)
Lemma Profile_delete_by_id (k : Z) (w w' : World) (r : ProfileRecord) :
  Profile_delete (where_Profile_id k) w = Ok r w' ->
  w' = withStore (setProfileStore (store_delete Profile_id Z.eqb k (ProfileStore (db_now w)))
                                  (db_now w)) w.
Proof.
  unfold Profile_delete, Profile_findUnique, bind, readStore.
  cbn [pw_id pw_userId where_Profile_id whereFields numberKey].
  destruct (k =? 0); [discriminate|].
  destruct (store_get Profile_id Z.eqb k (ProfileStore (db_now w))) as [record|] eqn:E;
    [|discriminate].
  apply store_get_In in E; [|apply Z.eqb_eq]. destruct E as [_ Ek]. subst k.
  unfold Profile_applyWhereClause. rewrite Profile_applyWhere_id.
  simpl. intros [= _ <-]. reflexivity.
Qed.

Lemma Comment_delete_by_id (k : string) (w w' : World) (r : CommentRecord) :
  Comment_delete (where_Comment_id k) w = Ok r w' ->
  w' = withStore (setCommentStore
                    (store_delete Comment_id String.eqb k (CommentStore (db_now w)))
                    (db_now w)) w.
Proof.
  unfold Comment_delete, Comment_findUnique, bind, readStore.
  cbn [cw_id where_Comment_id whereFields stringKey].
  destruct (String.eqb k EmptyString); [discriminate|].
  destruct (store_get Comment_id String.eqb k (CommentStore (db_now w))) as [record|] eqn:E;
    [|discriminate].
  apply store_get_In in E; [|apply String.eqb_eq]. destruct E as [_ Ek]. subst k.
  unfold Comment_applyWhereClause. rewrite Comment_applyWhere_id.
  simpl. intros [= _ <-]. reflexivity.
Qed.

Lemma Profile_delete_loop (rows : list ProfileRecord) (w w' : World) :
  forEach rows (fun record =>
                  Profile_delete (where_Profile_id (Profile_id record)) ;;; ret tt) w
  = Ok tt w' ->
  w' = withStore (setProfileStore
                    (deleteRows Profile_id Z.eqb rows (ProfileStore (db_now w)))
                    (db_now w)) w.
Proof.
  revert w. induction rows as [|r rows IH]; intros w H; simpl in H.
  - injection H as <-. unfold deleteRows. simpl.
    destruct w as [[] ? ? ? ? ? ?]. reflexivity.
  - apply bind_Ok_inv in H. destruct H as (u & w1 & H1 & H2).
    apply bind_Ok_inv in H1. destruct H1 as (r' & w1' & H1 & Hret).
    injection Hret as _ <-.
    apply Profile_delete_by_id in H1. subst w1'.
    apply IH in H2. rewrite H2. reflexivity.
Qed.

Lemma Comment_delete_loop (rows : list CommentRecord) (w w' : World) :
  forEach rows (fun record =>
                  Comment_delete (where_Comment_id (Comment_id record)) ;;; ret tt) w
  = Ok tt w' ->
  w' = withStore (setCommentStore
                    (deleteRows Comment_id String.eqb rows (CommentStore (db_now w)))
                    (db_now w)) w.
Proof.
  revert w. induction rows as [|r rows IH]; intros w H; simpl in H.
  - injection H as <-. unfold deleteRows. simpl.
    destruct w as [[] ? ? ? ? ? ?]. reflexivity.
  - apply bind_Ok_inv in H. destruct H as (u & w1 & H1 & H2).
    apply bind_Ok_inv in H1. destruct H1 as (r' & w1' & H1 & Hret).
    injection Hret as _ <-.
    apply Comment_delete_by_id in H1. subst w1'.
    apply IH in H2. rewrite H2. reflexivity.
Qed.

(** [deleteMany] scoped to a foreign key, when it completes, has removed
    every row with that key from its table and touched no other table. *)
Lemma Profile_deleteMany_userId (k : Z) (w w' : World) (n : nat) :
  Profile_deleteMany (Some (where_Profile_userId k)) w = Ok n w' ->
  w' = withStore
         (setProfileStore
            (deleteRows Profile_id Z.eqb (scopedTo Profile_userId k (ProfileStore (db_now w)))
                        (ProfileStore (db_now w)))
            (db_now w)) w.
Proof.
  unfold Profile_deleteMany. intros H.
  rewrite (bind_Ok _ _ _ (Profile_findMany_where _ _)) in H.
  rewrite Profile_applyWhere_userId in H.
  apply bind_Ok_inv in H. destruct H as (u & w1 & H1 & Hret).
  injection Hret as _ <-. destruct u. now apply Profile_delete_loop in H1.
Qed.

Lemma Comment_deleteMany_userId (k : Z) (w w' : World) (n : nat) :
  Comment_deleteMany (Some (where_Comment_userId k)) w = Ok n w' ->
  w' = withStore
         (setCommentStore
            (deleteRows Comment_id String.eqb
                        (scopedTo Comment_userId k (CommentStore (db_now w)))
                        (CommentStore (db_now w)))
            (db_now w)) w.
Proof.
  unfold Comment_deleteMany. intros H.
  rewrite (bind_Ok _ _ _ (Comment_findMany_where _ _)) in H.
  rewrite Comment_applyWhere_userId in H.
  apply bind_Ok_inv in H. destruct H as (u & w1 & H1 & Hret).
  injection Hret as _ <-. destruct u. now apply Comment_delete_loop in H1.
Qed.

Lemma User_findUnique_Ok (where_ : UserWhere) (w w' : World) (l : Lookup UserRecord) :
  User_findUnique where_ w = Ok l w' -> w' = w.
Proof.
  unfold User_findUnique, bind, readStore.
  destruct (numberKey (uw_id where_)); try discriminate.
  - now intros [= _ <-].
  - destruct (store_get User_id Z.eqb k (UserStore (db_now w))); now intros [= _ <-].
Qed.

(** The stores after [delete] of a user has completed. *)
Lemma User_delete_Ok (where_ : UserWhere) (w w' : World) (u : UserRecord) :
  User_delete where_ w = Ok u w' ->
  User_findUnique where_ w = Ok (Found u) w
  /\ w' = withStore
            (mkStore
               (store_delete User_id Z.eqb (User_id u) (UserStore (db_now w)))
               (deleteRows Profile_id Z.eqb
                  (scopedTo Profile_userId (User_id u) (ProfileStore (db_now w)))
                  (ProfileStore (db_now w)))
               (PostStore (db_now w))
               (deleteRows Comment_id String.eqb
                  (scopedTo Comment_userId (User_id u) (CommentStore (db_now w)))
                  (CommentStore (db_now w))))
            w.
Proof.
  unfold User_delete. intros H.
  apply bind_Ok_inv in H. destruct H as (l & w0 & Hfind & H).
  pose proof (User_findUnique_Ok _ _ Hfind) as ->.
  apply bind_Ok_inv in H. destruct H as (record & w1 & Hfound & H).
  destruct l as [| |r]; try discriminate. injection Hfound as <- <-.
  apply bind_Ok_inv in H. destruct H as (n1 & w1 & Hp & H).
  apply Profile_deleteMany_userId in Hp. subst w1.
  apply bind_Ok_inv in H. destruct H as (n2 & w2 & Hc & H).
  apply Comment_deleteMany_userId in Hc. subst w2.
  apply bind_Ok_inv in H. destruct H as (t & w3 & Hd & Hret).
  injection Hret as Eu Ew. injection Hd as Ed. subst u w' w3.
  split; [exact Hfind|reflexivity].
Qed.

(** The user created with a profile and two posts: after [delete], the
    scoped [findMany] on posts still returns the two posts. *)
Lemma delete_leaves_the_posts :
  User_create 3 johnWithProfileAndPosts emptyWorld
  = Ok (mkUser 1 "John") (withStore johnWithProfileAndPostsStored emptyWorld)
  /\ ~ deleteLeavesNoProfileNoPost (where_User_id 1)
         (withStore johnWithProfileAndPostsStored emptyWorld).
Proof.
  split; [reflexivity|]. intros H.
  destruct (H (mkUser 1 "John") _ eq_refl) as [_ Hposts].
  discriminate Hposts.
Qed.

(** C1, as the code has it.  After [delete] of a user has completed, the
    user's row is gone, and so is every profile and every comment whose
    [userId] is the user's key: the scoped [findMany] on profiles and on
    comments return the empty sequence.  The relation from posts to their
    author is not declared cascading and [delete] does not touch the post
    table. *)
Theorem delete_cascades_to_profile_and_comments
    (w w' : World) (where_ : UserWhere) (u : UserRecord)
    (completed : User_delete where_ w = Ok u w') :
  Profile_findMany (justWhere (Some (where_Profile_userId (User_id u)))) w' = Ok [] w'
  /\ Comment_findMany (justWhere (Some (where_Comment_userId (User_id u)))) w' = Ok [] w'
  /\ store_get User_id Z.eqb (User_id u) (UserStore (db_now w')) = None
  /\ PostStore (db_now w') = PostStore (db_now w).
Proof.
  destruct (User_delete_Ok _ _ completed) as [_ ->].
  rewrite Profile_findMany_where, Comment_findMany_where.
  rewrite Profile_applyWhere_userId, Comment_applyWhere_userId.
  cbn [db_now withStore ProfileStore CommentStore UserStore PostStore].
  unfold scopedTo.
  assert (EP : filter (fun r => whereNumberFilter (Profile_userId r) (Some (NumIs (User_id u))))
                 (deleteRows Profile_id Z.eqb
                    (filter (fun r => whereNumberFilter (Profile_userId r)
                                                        (Some (NumIs (User_id u))))
                            (ProfileStore (db_now w)))
                    (ProfileStore (db_now w))) = []).
  { apply filter_none. intros x Hx.
    exact (deleteRows_filter Profile_id Z.eqb Z.eqb_eq _ _ x Hx). }
  assert (EC : filter (fun r => whereNumberFilter (Comment_userId r) (Some (NumIs (User_id u))))
                 (deleteRows Comment_id String.eqb
                    (filter (fun r => whereNumberFilter (Comment_userId r)
                                                        (Some (NumIs (User_id u))))
                            (CommentStore (db_now w)))
                    (CommentStore (db_now w))) = []).
  { apply filter_none. intros x Hx.
    exact (deleteRows_filter Comment_id String.eqb String.eqb_eq _ _ x Hx). }
  rewrite EP, EC. repeat split.
  apply store_get_None; [apply Z.eqb_eq|].
  intros r Hr. apply store_delete_In in Hr; [tauto|apply Z.eqb_eq].
Qed.

Lemma delete_cascades_to_profile_and_comments_witness :
  User_delete (where_User_id 1) (openOn sampleStore)
  = Ok ann (withStore (mkStore [bob] []
                         [mkPost 1 "p1" (Some 1) None None; mkPost 2 "p2" (Some 1) None None]
                         []) (openOn sampleStore))
  /\ Profile_findMany (justWhere (Some (where_Profile_userId 1)))
       (withStore (mkStore [bob] []
                     [mkPost 1 "p1" (Some 1) None None; mkPost 2 "p2" (Some 1) None None]
                     []) (openOn sampleStore))
     = Ok [] (withStore (mkStore [bob] []
                     [mkPost 1 "p1" (Some 1) None None; mkPost 2 "p2" (Some 1) None None]
                     []) (openOn sampleStore)).
Proof.
  split; [reflexivity|].
  exact (proj1 (@delete_cascades_to_profile_and_comments (openOn sampleStore) _
                  (where_User_id 1) ann eq_refl)).
Defined.

(** ** The order resolver *)

Section StableSort.
Variable A : Type.
Variable cmp : A -> A -> Z.

Lemma insertBy_Permutation (x : A) (l : list A) :
  Permutation (x :: l) (insertBy cmp x l).
Proof.
  induction l as [|y l IH]; simpl; [reflexivity|].
  destruct (cmp x y <=? 0); [reflexivity|].
  rewrite perm_swap. now apply perm_skip.
Qed.

Lemma sortBy_Permutation (l : list A) : Permutation l (sortBy cmp l).
Proof.
  induction l as [|x l IH]; simpl; [reflexivity|].
  rewrite <- insertBy_Permutation. now apply perm_skip.
Qed.

(** The sort that may throw is the pure sort when the comparator does not
    throw. *)
Lemma insertE_total (cmpE : A -> A -> Error + Z)
    (total : forall a b, cmpE a b = inr (cmp a b)) (x : A) (l : list A) :
  insertE cmpE x l = inr (insertBy cmp x l).
Proof.
  induction l as [|y l IH]; simpl; [reflexivity|].
  rewrite total. destruct (cmp x y <=? 0); [reflexivity|].
  now rewrite IH.
Qed.

Lemma sortE_total (cmpE : A -> A -> Error + Z)
    (total : forall a b, cmpE a b = inr (cmp a b)) (l : list A) :
  sortE cmpE l = inr (sortBy cmp l).
Proof.
  induction l as [|x l IH]; simpl; [reflexivity|].
  rewrite IH. now apply insertE_total.
Qed.

Hypothesis consistent : Consistent cmp.

Lemma cmp_swap (a b : A) : cmp b a = - cmp a b.
Proof. apply consistent. Qed.

Lemma cmp_trans (a b c : A) : cmp a b <= 0 -> cmp b c <= 0 -> cmp a c <= 0.
Proof. apply consistent. Qed.

Lemma insertBy_sorted (x : A) (l : list A) :
  StronglySorted (fun a b => cmp a b <= 0) l ->
  StronglySorted (fun a b => cmp a b <= 0) (insertBy cmp x l).
Proof.
  induction 1 as [|y l Hs IH Hy]; simpl.
  - repeat constructor.
  - destruct (cmp x y <=? 0) eqn:E.
    + apply Z.leb_le in E. constructor; [now constructor|].
      constructor; [exact E|].
      eapply Forall_impl; [|exact Hy].
      intros z Hz. now apply cmp_trans with y.
    + apply Z.leb_gt in E. constructor; [exact IH|].
      rewrite <- insertBy_Permutation. constructor; [|exact Hy].
      rewrite cmp_swap. lia.
Qed.

Lemma sortBy_sorted (l : list A) :
  StronglySorted (fun a b => cmp a b <= 0) (sortBy cmp l).
Proof.
  induction l as [|x l IH]; simpl; [constructor|].
  now apply insertBy_sorted.
Qed.

(** Lists without ties. *)
Lemma noTies_Permutation (l l' : list A) :
  Permutation l l' ->
  ForallOrdPairs (fun a b => cmp a b <> 0) l ->
  ForallOrdPairs (fun a b => cmp a b <> 0) l'.
Proof.
  induction 1 as [|x l l' Hp IH|x y l|l l' l'' _ IH1 _ IH2]; intros H.
  - exact H.
  - inversion H as [|? ? Hx Hl]; subst. constructor; [|now apply IH].
    now rewrite <- Hp.
  - inversion H as [|? ? Hy Hl]; subst.
    inversion Hl as [|? ? Hx Hl']; subst.
    inversion Hy as [|? ? Hyx Hy']; subst.
    constructor; [|now constructor].
    constructor; [|exact Hx].
    rewrite cmp_swap. lia.
  - auto.
Qed.

Lemma sorted_noTies_strict (l : list A) :
  StronglySorted (fun a b => cmp a b <= 0) l ->
  ForallOrdPairs (fun a b => cmp a b <> 0) l ->
  StronglySorted (fun a b => cmp a b < 0) l.
Proof.
  induction 1 as [|x l Hs IH Hx]; intros H; [constructor|].
  inversion H as [|? ? Hx' Hl]; subst.
  constructor; [now apply IH|].
  rewrite Forall_forall in *. intros y Hy.
  specialize (Hx y Hy). specialize (Hx' y Hy). lia.
Qed.

(** A list has one strictly sorted arrangement. *)
Lemma strictly_sorted_unique (l l' : list A) :
  StronglySorted (fun a b => cmp a b < 0) l ->
  StronglySorted (fun a b => cmp a b < 0) l' ->
  Permutation l l' ->
  l = l'.
Proof.
  intros Hl. revert l'.
  induction Hl as [|x l Hs IH Hx]; intros l' Hl' Hp.
  - apply Permutation_nil in Hp. now subst.
  - destruct Hl' as [|y l' Hs' Hy].
    + symmetry in Hp. apply Permutation_nil in Hp. discriminate.
    + assert (Hself : forall a, cmp a a = 0)
        by (intros a; pose proof (cmp_swap a a); lia).
      assert (E : x = y).
      { assert (Hin : In x (y :: l')) by (rewrite <- Hp; now left).
        assert (Hin' : In y (x :: l)) by (rewrite Hp; now left).
        destruct Hin as [E|Hin]; [now subst|].
        destruct Hin' as [E|Hin']; [now subst|].
        rewrite Forall_forall in Hx, Hy.
        specialize (Hx y Hin'). specialize (Hy x Hin).
        rewrite cmp_swap in Hy. lia. }
      subst y. f_equal. apply IH; [exact Hs'|].
      now apply Permutation_cons_inv with x.
Qed.

Lemma rev_sorted (R : A -> A -> Prop) (l : list A) :
  StronglySorted R l -> StronglySorted (fun a b => R b a) (rev l).
Proof.
  induction 1 as [|x l Hs IH Hx]; simpl; [constructor|].
  assert (G : forall l1 : list A,
             StronglySorted (fun a b => R b a) l1 ->
             Forall (fun a => R x a) l1 ->
             StronglySorted (fun a b => R b a) (l1 ++ [x])).
  { induction 1 as [|z l1 Hs1 IH1 Hz]; intros Hall; simpl.
    - repeat constructor.
    - inversion Hall; subst. constructor; [now apply IH1|].
      apply Forall_app. split; [exact Hz|]. now repeat constructor. }
  apply G; [exact IH|].
  apply Forall_rev. exact Hx.
Qed.

End StableSort.

Lemma Consistent_negated (A : Type) (cmp cmp' : A -> A -> Z) :
  Consistent cmp ->
  (forall a b, cmp' a b = - cmp a b) ->
  Consistent cmp'.
Proof.
  intros [Hswap Htrans] Hneg. split.
  - intros a b. rewrite !Hneg, Hswap. reflexivity.
  - intros a b c. rewrite !Hneg. intros Hab Hbc.
    rewrite <- Hswap. apply Htrans with b; rewrite Hswap; lia.
Qed.

Lemma StronglySorted_weaken (A : Type) (R R' : A -> A -> Prop) (l : list A) :
  (forall a b, R a b -> R' a b) -> StronglySorted R l -> StronglySorted R' l.
Proof.
  intros HR. induction 1 as [|x l Hs IH Hx]; constructor; [exact IH|].
  eapply Forall_impl; [|exact Hx]. intros; now apply HR.
Qed.

Lemma ForallOrdPairs_weaken (A : Type) (R R' : A -> A -> Prop) (l : list A) :
  (forall a b, R a b -> R' a b) -> ForallOrdPairs R l -> ForallOrdPairs R' l.
Proof.
  intros HR. induction 1 as [|x l Hx Hl IH]; constructor; [|exact IH].
  eapply Forall_impl; [|exact Hx]. intros; now apply HR.
Qed.

(** Sorting by the negated comparator reverses the result when the list has
    no ties. *)
Lemma sortBy_negated (A : Type) (cmp cmp' : A -> A -> Z) (l : list A) :
  Consistent cmp ->
  (forall a b, cmp' a b = - cmp a b) ->
  ForallOrdPairs (fun a b => cmp a b <> 0) l ->
  sortBy cmp' l = rev (sortBy cmp l).
Proof.
  intros Hc Hneg Hties.
  pose proof (@Consistent_negated _ cmp cmp' Hc Hneg) as Hc'.
  assert (Hties' : ForallOrdPairs (fun a b => cmp' a b <> 0) l).
  { eapply ForallOrdPairs_weaken; [|exact Hties].
    intros a b H. cbv beta in *. rewrite Hneg. lia. }
  assert (Hs : StronglySorted (fun a b => cmp a b < 0) (sortBy cmp l)).
  { apply sorted_noTies_strict; [now apply sortBy_sorted|].
    eapply noTies_Permutation; [exact Hc|apply sortBy_Permutation|exact Hties]. }
  assert (Hs' : StronglySorted (fun a b => cmp' a b < 0) (sortBy cmp' l)).
  { apply sorted_noTies_strict; [now apply sortBy_sorted|].
    eapply noTies_Permutation; [exact Hc'|apply sortBy_Permutation|exact Hties']. }
  apply strictly_sorted_unique with (cmp := cmp'); [exact Hc'|exact Hs'| |].
  - apply rev_sorted in Hs.
    eapply StronglySorted_weaken; [|exact Hs].
    intros a b H. cbv beta in *. rewrite Hneg.
    destruct Hc as [Hswap _]. rewrite (Hswap a b) in H. lia.
  - rewrite <- Permutation_rev, <- !sortBy_Permutation. reflexivity.
Qed.

(** *** The comparator is a total preorder *)

Lemma Ordering_Z : Ordering Z.compare.
Proof.
  repeat split.
  - intros a b. apply Z.compare_antisym.
  - intros a b. apply Z.compare_eq.
  - intros a b c. rewrite !Z.compare_lt_iff. lia.
Qed.

Lemma Ordering_ascii : Ordering Ascii.compare.
Proof.
  repeat split.
  - intros a b. apply Ascii.compare_antisym.
  - intros a b. apply Ascii.compare_eq_iff.
  - intros a b c. unfold Ascii.compare. rewrite !N.compare_lt_iff. lia.
Qed.

Lemma Ordering_string : Ordering String.compare.
Proof.
  destruct Ordering_ascii as (Hopp & Heq & Hlt).
  repeat split.
  - intros a b. apply String.compare_antisym.
  - intros a b. apply String.compare_eq_iff.
  - intros a. induction a as [|x a IH]; intros [|y b] [|z c]; simpl;
      try discriminate; auto.
    destruct (Ascii.compare x y) eqn:E1; try discriminate;
      destruct (Ascii.compare y z) eqn:E2; try discriminate.
    + apply Heq in E1. subst y. rewrite E2. apply IH.
    + apply Heq in E1. subst y. now rewrite E2.
    + apply Heq in E2. subst z. now rewrite E1.
    + now rewrite (Hlt _ _ _ E1 E2).
Qed.

Lemma Ordering_compareList (A : Type) (cmp : A -> A -> comparison) :
  Ordering cmp -> Ordering (compareList cmp).
Proof.
  intros (Hopp & Heq & Hlt). repeat split.
  - intros a. induction a as [|x a IH]; intros [|y b]; simpl; auto.
    rewrite (Hopp x y). destruct (cmp x y); simpl; auto.
  - intros a. induction a as [|x a IH]; intros [|y b]; simpl; try discriminate; auto.
    destruct (cmp x y) eqn:E; try discriminate.
    intros H. apply Heq in E. apply IH in H. now subst.
  - intros a. induction a as [|x a IH]; intros [|y b] [|z c]; simpl;
      try discriminate; auto.
    destruct (cmp x y) eqn:E1; try discriminate;
      destruct (cmp y z) eqn:E2; try discriminate.
    + apply Heq in E1. subst y. rewrite E2. apply IH.
    + apply Heq in E1. subst y. now rewrite E2.
    + apply Heq in E2. subst z. now rewrite E1.
    + now rewrite (Hlt _ _ _ E1 E2).
Qed.

Lemma Ordering_Consistent (A : Type) (cmp : A -> A -> comparison) :
  Ordering cmp -> Consistent (fun a b => signOf (cmp a b)).
Proof.
  intros (Hopp & Heq & Hlt). split.
  - intros a b. rewrite (Hopp a b). now destruct (cmp a b).
  - intros a b c.
    destruct (cmp a b) eqn:E1; simpl; try lia;
      destruct (cmp b c) eqn:E2; simpl; try lia; intros _ _.
    + apply Heq in E1. subst b. rewrite E2. simpl. lia.
    + apply Heq in E1. subst b. rewrite E2. simpl. lia.
    + apply Heq in E2. subst c. rewrite E1. simpl. lia.
    + rewrite (Hlt _ _ _ E1 E2). simpl. lia.
Qed.

Lemma Consistent_compareKeys : Consistent (fun a b => signOf (compareKeys a b)).
Proof.
  pose proof (Ordering_Consistent Ordering_Z) as [ZS ZT].
  pose proof (Ordering_Consistent Ordering_string) as [SS ST].
  pose proof (Ordering_Consistent (Ordering_compareList Ordering_Z)) as [LZS LZT].
  pose proof (Ordering_Consistent (Ordering_compareList Ordering_string)) as [LSS LST].
  split.
  - intros [| |x|x|x|x] [| |y|y|y|y]; simpl; auto.
  - intros [| |x|x|x|x] [| |y|y|y|y] [| |z|z|z|z]; simpl; try lia; eauto.
Qed.

Lemma Consistent_directed (A : Type) (cmp : A -> A -> Z) (d : SortOrder) :
  Consistent cmp -> Consistent (fun a b => directed d (cmp a b)).
Proof.
  intros Hc. destruct d; simpl; [exact Hc|].
  now apply Consistent_negated with cmp.
Qed.

Lemma Consistent_genericComparator (sortOrder : SortArg) :
  Consistent (fun a b => genericComparator a b sortOrder).
Proof.
  pose proof Consistent_compareKeys as Hk.
  destruct sortOrder as [d|[d [placement|]]]; simpl;
    try (now apply (Consistent_directed d Hk)).
  destruct (Consistent_directed d Hk) as [HS HT].
  split.
  - intros a b. destruct (isNullish a), (isNullish b), placement; auto.
  - intros a b c.
    destruct (isNullish a), (isNullish b), (isNullish c), placement;
      try lia; apply HT.
Qed.

Lemma Consistent_lexCompare (orders : list SortArg) :
  Consistent (lexCompare orders).
Proof.
  induction orders as [|so orders [IHS IHT]]; simpl.
  - split; intros; lia.
  - destruct (Consistent_genericComparator so) as [HS HT]. split.
    + intros a b. cbv beta in HS. rewrite (HS (hd KUndefined a) (hd KUndefined b)).
      destruct (Z.eqb_spec (genericComparator (hd KUndefined a) (hd KUndefined b) so) 0)
        as [E|E].
      * rewrite E. simpl. apply IHS.
      * destruct (Z.eqb_spec (- genericComparator (hd KUndefined a) (hd KUndefined b) so) 0);
          [lia|reflexivity].
    + intros a b c. cbv beta in HS, HT.
      pose proof (HT (hd KUndefined a) (hd KUndefined b) (hd KUndefined c)) as Habc.
      pose proof (HT (hd KUndefined c) (hd KUndefined a) (hd KUndefined b)) as Hcab.
      pose proof (HT (hd KUndefined b) (hd KUndefined c) (hd KUndefined a)) as Hbca.
      pose proof (HS (hd KUndefined a) (hd KUndefined c)) as Eca.
      pose proof (HS (hd KUndefined a) (hd KUndefined b)) as Eba.
      pose proof (HS (hd KUndefined b) (hd KUndefined c)) as Ecb.
      destruct (Z.eqb_spec (genericComparator (hd KUndefined a) (hd KUndefined b) so) 0);
        destruct (Z.eqb_spec (genericComparator (hd KUndefined b) (hd KUndefined c) so) 0);
        destruct (Z.eqb_spec (genericComparator (hd KUndefined a) (hd KUndefined c) so) 0);
        try lia.
      apply IHT.
Qed.

Lemma Consistent_on (A B : Type) (f : A -> B) (cmp : B -> B -> Z) :
  Consistent cmp -> Consistent (fun a b => cmp (f a) (f b)).
Proof.
  intros [HS HT]. split.
  - intros a b. apply HS.
  - intros a b c. apply HT.
Qed.

(** *** Resolved clauses *)

Lemma mapE_ext (A B : Type) (f g : A -> Error + B) (l : list A) :
  (forall x, f x = g x) -> mapE f l = mapE g l.
Proof.
  intros H. induction l as [|x l IH]; simpl; [reflexivity|].
  now rewrite H, IH.
Qed.

Lemma mapE_map (A B C : Type) (f : B -> Error + C) (g : A -> B) (l : list A) :
  mapE f (map g l) = mapE (fun x => f (g x)) l.
Proof.
  induction l as [|x l IH]; simpl; [reflexivity|].
  now rewrite IH.
Qed.

Lemma mapE_then (A B C : Type) (f : A -> Error + B) (g : B -> C) (l : list A)
    (ys : list B) :
  mapE f l = inr ys ->
  mapE (fun x => match f x with inl e => inl e | inr y => inr (g y) end) l
  = inr (map g ys).
Proof.
  revert ys. induction l as [|x l IH]; simpl; intros ys H.
  - injection H as <-. reflexivity.
  - destruct (f x) as [e|y]; [discriminate|].
    destruct (mapE f l) as [e|ys']; [discriminate|].
    injection H as <-. now rewrite (IH ys' eq_refl).
Qed.

Lemma compareIndexedKeys_total (OB : Type) (resolveSortOrder : OB -> Error + SortArg)
    (clauses : list OB) (orders : list SortArg) (a_keys b_keys : list Key) :
  mapE resolveSortOrder clauses = inr orders ->
  compareIndexedKeys resolveSortOrder clauses a_keys b_keys
  = inr (lexCompare orders a_keys b_keys).
Proof.
  revert orders a_keys b_keys.
  induction clauses as [|clause clauses IH]; simpl; intros orders a_keys b_keys H.
  - injection H as <-. reflexivity.
  - destruct (resolveSortOrder clause) as [e|so]; [discriminate|].
    destruct (mapE resolveSortOrder clauses) as [e|orders']; [discriminate|].
    injection H as <-. simpl.
    destruct (_ =? 0); [|reflexivity].
    now apply IH.
Qed.

(** Reversing the directions of a clause changes no key and flips the
    resolved sort order. *)
Lemma User_resolveOrderByKey_reverse (st : Store) (c : UserOrderBy) :
  forall record,
    User_resolveOrderByKey st (User_reverseOrderBy c) record
    = User_resolveOrderByKey st c record
with Profile_resolveOrderByKey_reverse (st : Store) (c : ProfileOrderBy) :
  forall record,
    Profile_resolveOrderByKey st (Profile_reverseOrderBy c) record
    = Profile_resolveOrderByKey st c record.
Proof.
  - destruct c as [[d|] [d'|] [o|] [g|] [g'|]]; intros record; simpl; try reflexivity.
    all: destruct (firstOrThrow _); [reflexivity|].
    all: apply Profile_resolveOrderByKey_reverse.
  - destruct c as [[d|] [d'|] [d''|] [o|]]; intros record; simpl; try reflexivity.
    all: destruct (firstOrThrow _); [reflexivity|].
    all: apply User_resolveOrderByKey_reverse.
Qed.

Lemma User_resolveSortOrder_reverse (c : UserOrderBy) :
  User_resolveSortOrder (User_reverseOrderBy c)
  = match User_resolveSortOrder c with
    | inl e => inl e
    | inr so => inr (flipArg so)
    end
with Profile_resolveSortOrder_reverse (c : ProfileOrderBy) :
  Profile_resolveSortOrder (Profile_reverseOrderBy c)
  = match Profile_resolveSortOrder c with
    | inl e => inl e
    | inr so => inr (flipArg so)
    end.
Proof.
  - destruct c as [[d|] [d'|] [o|] [[[g|]]|] [[[g'|]]|]]; simpl; try reflexivity.
    all: apply Profile_resolveSortOrder_reverse.
  - destruct c as [[d|] [d'|] [d''|] [o|]]; simpl; try reflexivity.
    apply User_resolveSortOrder_reverse.
Qed.

Lemma genericComparator_flip (a b : Key) (so : SortArg) :
  plain so = true ->
  genericComparator a b (flipArg so) = - genericComparator a b so.
Proof.
  destruct so as [[|]|[[|] [placement|]]]; simpl; try discriminate; intros _; lia.
Qed.

Lemma lexCompare_flip (orders : list SortArg) (a_keys b_keys : list Key) :
  forallb plain orders = true ->
  lexCompare (map flipArg orders) a_keys b_keys = - lexCompare orders a_keys b_keys.
Proof.
  revert a_keys b_keys.
  induction orders as [|so orders IH]; simpl; intros a_keys b_keys H; [reflexivity|].
  apply andb_prop in H as [Hso H].
  rewrite (genericComparator_flip _ _ _ Hso).
  destruct (Z.eqb_spec (genericComparator (hd KUndefined a_keys) (hd KUndefined b_keys) so) 0)
    as [E|E].
  - rewrite E. simpl. now apply IH.
  - destruct (Z.eqb_spec (- genericComparator (hd KUndefined a_keys) (hd KUndefined b_keys) so) 0);
      [lia|reflexivity].
Qed.

Lemma indexRecord_records (R OB : Type) (resolveOrderByKey : OB -> R -> Error + Key)
    (clauses : list OB) (records : list R) (indexedKeys : list (Indexed R)) :
  mapE (indexRecord resolveOrderByKey clauses) records = inr indexedKeys ->
  map snd indexedKeys = records.
Proof.
  revert indexedKeys. induction records as [|r records IH]; simpl; intros indexedKeys H.
  - injection H as <-. reflexivity.
  - unfold indexRecord at 1 in H.
    destruct (mapE (fun clause => resolveOrderByKey clause r) clauses) as [e|keys];
      [discriminate|].
    destruct (mapE _ records) as [e|rest]; [discriminate|].
    injection H as <-. simpl. now rewrite (IH rest eq_refl).
Qed.

Lemma applyOrderByClause_Some (R OB : Type) (resolveOrderByKey : OB -> R -> Error + Key)
    (resolveSortOrder : OB -> Error + SortArg) (records : list R) (clauses : list OB) :
  applyOrderByClause resolveOrderByKey resolveSortOrder records (Some clauses)
  = match mapE (indexRecord resolveOrderByKey clauses) records with
    | inl e => inl e
    | inr indexedKeys =>
        match sortE (compareIndexed resolveSortOrder clauses) indexedKeys with
        | inl e => inl e
        | inr sorted => inr (map snd sorted)
        end
    end.
Proof. reflexivity. Qed.

(** Two users that tie on every clause stay in scan order whatever the
    directions: reversing the directions does not reverse the result. *)
Lemma ties_are_not_reversed :
  User_applyOrderByClause twoAnns [ann; ann2] (Some byNameThenPosts) = inr [ann; ann2]
  /\ User_applyOrderByClause twoAnns [ann; ann2]
       (Some (map User_reverseOrderBy byNameThenPosts)) = inr [ann; ann2]
  /\ ~ reversingReverses twoAnns [ann; ann2] byNameThenPosts.
Proof.
  split; [reflexivity|]. split; [reflexivity|].
  intros H. specialize (H [ann; ann2] eq_refl). discriminate H.
Qed.

(** C6.  When the keys and the sort orders of the clauses resolve,
    [_applyOrderByClause] returns the records arranged by the comparator
    that lets the first clause whose comparison is not zero decide, each
    clause in its declared direction: the comparator does not throw, swapping
    its arguments negates it and "not after" is transitive; the result is a
    permutation of the records in which no record comes after a later one
    (records that tie on every clause stay in scan order, the sort being
    stable).  When moreover no clause places the absent keys and no two
    records tie on every clause, sorting with every direction reversed gives
    exactly the reverse of the result. *)
Theorem orderBy_sorts_by_the_clauses_in_order
    (st : Store) (records : list UserRecord) (clauses : list UserOrderBy)
    (indexedKeys : list (Indexed UserRecord)) (orders : list SortArg)
    (keys_resolve :
       mapE (indexRecord (User_resolveOrderByKey st) clauses) records = inr indexedKeys)
    (orders_resolve : mapE User_resolveSortOrder clauses = inr orders) :
  let cmp := fun a b : Indexed UserRecord => lexCompare orders (fst a) (fst b) in
  let sorted := sortBy cmp indexedKeys in
  (forall a b, compareIndexed User_resolveSortOrder clauses a b = inr (cmp a b))
  /\ Consistent cmp
  /\ User_applyOrderByClause st records (Some clauses) = inr (map snd sorted)
  /\ Permutation records (map snd sorted)
  /\ StronglySorted (fun a b => cmp a b <= 0) sorted
  /\ (forallb plain orders = true ->
      ForallOrdPairs (fun a b => cmp a b <> 0) indexedKeys ->
      User_applyOrderByClause st records (Some (map User_reverseOrderBy clauses))
      = inr (rev (map snd sorted))).
Proof.
  intros cmp sorted.
  assert (Htotal : forall a b,
             compareIndexed User_resolveSortOrder clauses a b = inr (cmp a b)).
  { intros a b. unfold compareIndexed, cmp.
    now apply compareIndexedKeys_total. }
  assert (Hc : Consistent cmp).
  { unfold cmp. apply (Consistent_on fst (Consistent_lexCompare orders)). }
  split; [exact Htotal|]. split; [exact Hc|].
  split; [|split; [|split]].
  - unfold User_applyOrderByClause. rewrite applyOrderByClause_Some, keys_resolve.
    now rewrite (sortE_total cmp _ Htotal).
  - rewrite <- (indexRecord_records _ _ _ keys_resolve).
    apply Permutation_map. apply sortBy_Permutation.
  - now apply sortBy_sorted.
  - intros Hplain Hties.
    set (cmp' := fun a b : Indexed UserRecord =>
                   lexCompare (map flipArg orders) (fst a) (fst b)).
    assert (Hneg : forall a b, cmp' a b = - cmp a b)
      by (intros a b; unfold cmp', cmp; now apply lexCompare_flip).
    assert (Horders : mapE User_resolveSortOrder (map User_reverseOrderBy clauses)
                      = inr (map flipArg orders)).
    { rewrite mapE_map.
      rewrite (mapE_ext _ _ clauses User_resolveSortOrder_reverse).
      now apply mapE_then. }
    assert (Hkeys : mapE (indexRecord (User_resolveOrderByKey st)
                            (map User_reverseOrderBy clauses)) records
                    = inr indexedKeys).
    { rewrite <- keys_resolve. apply mapE_ext. intros record.
      unfold indexRecord. rewrite mapE_map.
      rewrite (mapE_ext _ (fun clause => User_resolveOrderByKey st clause record) clauses);
        [reflexivity|].
      intros clause. apply User_resolveOrderByKey_reverse. }
    unfold User_applyOrderByClause. rewrite applyOrderByClause_Some, Hkeys.
    assert (Htotal' : forall a b,
               compareIndexed User_resolveSortOrder (map User_reverseOrderBy clauses) a b
               = inr (cmp' a b)).
    { intros a b. unfold compareIndexed, cmp'.
      now apply compareIndexedKeys_total. }
    rewrite (sortE_total cmp' _ Htotal').
    rewrite (@sortBy_negated _ cmp cmp' indexedKeys Hc Hneg Hties).
    now rewrite map_rev.
Qed.

Lemma orderBy_sorts_by_the_clauses_in_order_witness :
  User_applyOrderByClause sampleStore [bob; ann] (Some byNameThenIdDesc)
  = inr [ann; bob]
  /\ User_applyOrderByClause sampleStore [bob; ann]
       (Some (map User_reverseOrderBy byNameThenIdDesc))
     = inr [bob; ann].
Proof.
  destruct (@orderBy_sorts_by_the_clauses_in_order sampleStore [bob; ann] byNameThenIdDesc
              [([KStr "Bob"; KNum 2], bob); ([KStr "Ann"; KNum 1], ann)]
              [Sort asc; Sort desc] eq_refl eq_refl)
    as (_ & _ & Hsort & _ & _ & Hrev).
  split; [exact Hsort|].
  apply Hrev; [reflexivity|].
  repeat constructor; vm_compute; discriminate.
Defined.

(** * Further properties of the engines *)

(** ** What [create] returns can be read back *)

Lemma getRow_Ok (K R : Type) (key : R -> K) (keyEqb : K -> K -> bool)
    (table : Store -> list R) (k : K) (w w' : World) (r : R) :
  getRow key keyEqb table k w = Ok r w' ->
  w' = w /\ store_get key keyEqb k (table (db_now w)) = Some r.
Proof.
  unfold getRow, bind, readStore.
  destruct (store_get key keyEqb k (table (db_now w))); [|discriminate].
  cbn. intros [= <- <-]. split; reflexivity.
Qed.

(** [create] returns the row that the store holds under the new key. *)
Lemma User_create_returns_the_row (fuel : nat) (data : UserCreate) (w w' : World)
    (u : UserRecord) :
  User_create fuel data w = Ok u w' ->
  store_get User_id Z.eqb (User_id u) (UserStore (db_now w')) = Some u.
Proof.
  destruct fuel as [|fuel]; [discriminate|].
  destruct data as [d_id d_name d_profile d_posts d_comments].
  cbn [User_create]. intros H.
  do 5 (apply bind_Ok_inv in H; destruct H as (? & ? & _ & H)).
  apply getRow_Ok in H. destruct H as [-> H].
  destruct (store_get_In User_id Z.eqb Z.eqb_eq _ _ H) as [_ <-]. exact H.
Qed.

Lemma User_applyWhere_id (st : Store) (record : UserRecord) :
  User_applyWhereClause st [record] (Some (where_User_id (User_id record))) = [record].
Proof.
  unfold User_applyWhereClause, applyWhere, where_User_id. simpl.
  now rewrite Z.eqb_refl.
Qed.

(** X1.  The record that [create] of a user returns is the row stored under
    its key, and [findUnique] by that key reads it back, unless the key is
    [0]: [findUnique] tests [query.where.id] for truth before it looks the
    key up, so the row under key [0] is reported as [null]. *)
Theorem User_create_then_findUnique (fuel : nat) (data : UserCreate) (w w' : World)
    (u : UserRecord)
    (created : User_create fuel data w = Ok u w') :
  store_get User_id Z.eqb (User_id u) (UserStore (db_now w')) = Some u
  /\ User_findUnique (where_User_id (User_id u)) w'
     = Ok (if User_id u =? 0 then IsNull else Found u) w'.
Proof.
  pose proof (User_create_returns_the_row _ _ _ created) as Hrow.
  split; [exact Hrow|].
  unfold User_findUnique, bind, readStore.
  cbn [uw_id where_User_id whereFields numberKey].
  destruct (User_id u =? 0); [reflexivity|].
  rewrite Hrow, User_applyWhere_id. reflexivity.
Qed.

Lemma User_create_then_findUnique_witness :
  User_findUnique (where_User_id 1) johnCreated = Ok (Found (mkUser 1 "John")) johnCreated
  /\ User_findUnique (where_User_id 0) userZeroCreated = Ok IsNull userZeroCreated.
Proof.
  split.
  - exact (proj2 (@User_create_then_findUnique 1 john emptyWorld johnCreated
                    (mkUser 1 "John") eq_refl)).
  - exact (proj2 (@User_create_then_findUnique 1 userZero emptyWorld userZeroCreated
                    (mkUser 0 "Zed") eq_refl)).
Defined.

(** ** Keys assigned by [createMany] *)

Section AppendedKeys.
Variable R : Type.
Variable key : R -> Z.

(** A row whose key exceeds every key of the table goes to its end. *)
Lemma store_insert_greatest (r : R) (t : list R) :
  (forall x, In x t -> key x < key r) ->
  store_insert key Z.ltb r t = t ++ [r].
Proof.
  induction t as [|x t IH]; intros H; simpl; [reflexivity|].
  assert (L : (key r <? key x) = false).
  { apply Z.ltb_ge. specialize (H x (or_introl eq_refl)). lia. }
  rewrite L, IH; [reflexivity|].
  intros y Hy. apply H. now right.
Qed.

Lemma store_last_greatest_appended (r : R) (t : list R) :
  (forall x, In x t -> key x < key r) ->
  store_last key Z.ltb (t ++ [r]) = Some r.
Proof.
  induction t as [|x t IH]; intros H; simpl; [reflexivity|].
  rewrite IH by (intros y Hy; apply H; now right).
  assert (L : (key r <? key x) = false).
  { apply Z.ltb_ge. specialize (H x (or_introl eq_refl)). lia. }
  now rewrite L.
Qed.

Lemma nextId_appended (r : R) (t : list R) :
  (forall x, In x t -> key x < key r) ->
  - 2 ^ 53 <= key r -> key r < 2 ^ 53 ->
  nextId key (t ++ [r]) = key r + 1.
Proof.
  intros H Hlow Hhigh. unfold nextId. rewrite store_last_greatest_appended by exact H.
  apply toNumber_exact. lia.
Qed.

Lemma below_nextId (t : list R) (x : R) :
  roomFor 1 key t -> In x t -> key x < nextId key t.
Proof.
  intros Hroom Hx. destruct (nextId_exact Hroom) as [[-> _]|(m & _ & Hmax & ->)].
  - destruct Hx.
  - specialize (Hmax x Hx). lia.
Qed.

(** The assigned key is an integer that a double holds, and is at least
    -2^53 + 1. *)
Lemma nextId_bounds (n : nat) (t : list R) :
  roomFor (S n) key t -> - 2 ^ 53 < nextId key t /\ nextId key t + Z.of_nat n < 2 ^ 53.
Proof.
  intros Hroom.
  assert (Hone : roomFor 1 key t) by (apply (roomFor_less (n := S n)); [lia|exact Hroom]).
  destruct (nextId_exact Hone) as [[-> ->]|(m & Hm & Hmax & ->)].
  - destruct Hroom as [Hn _]. lia.
  - destruct Hroom as [Hn Hroom].
    destruct (store_last key Z.ltb t) as [m'|] eqn:E.
    + destruct (@store_last_greatest _ key _ _ E) as [Hin' Hmax'].
      assert (key m = key m') by (specialize (Hmax m' Hin'); specialize (Hmax' m Hm); lia).
      lia.
    + apply (@store_last_nil _ key) in E. subst t. destruct Hm.
Qed.

(** After the assigned key has been appended there is room for one key
    less. *)
Lemma roomFor_appended (n : nat) (r : R) (t : list R) :
  roomFor (S n) key t -> key r = nextId key t -> roomFor n key (t ++ [r]).
Proof.
  intros Hroom Hr.
  destruct (nextId_bounds Hroom) as [Hlow Hhigh].
  assert (Hone : roomFor 1 key t) by (apply (roomFor_less (n := S n)); [lia|exact Hroom]).
  assert (Hbelow : forall x, In x t -> key x < key r).
  { intros x Hx. rewrite Hr. now apply below_nextId. }
  split; [destruct Hroom; lia|].
  rewrite store_last_greatest_appended by exact Hbelow. lia.
Qed.
End AppendedKeys.

(** The step of [createMany] for a payload without a key. *)
Lemma User_createMany_step (data : UserCreate) (w : World) :
  uc_id_of data = None ->
  roomFor 1 User_id (UserStore (db_now w)) ->
  (filled <- User_fillDefaults data ;;
   User_add (User_removeNestedCreateData filled) ;;; ret tt) w
  = Ok tt (withStore
             (setUserStore
                (UserStore (db_now w)
                 ++ [mkUser (nextId User_id (UserStore (db_now w))) (uc_name_of data)])
                (db_now w))
             w).
Proof.
  destruct data as [d_id d_name d_profile d_posts d_comments]. cbn [uc_id_of uc_name_of].
  intros -> Hroom.
  unfold bind at 1. cbn [User_fillDefaults bind readStore ret].
  unfold bind at 1. rewrite User_add_new by exact Hroom. unfold withUserAdded.
  rewrite store_insert_greatest; [reflexivity|].
  intros x Hx. cbn [User_id]. now apply below_nextId.
Qed.

(** X2.  [createMany] on payloads that carry no key, on a table that has
    room for as many keys (counted up from its greatest key they stay below
    2^53): it returns the number of payloads and appends one row per
    payload, in order, under consecutive keys that start one above the
    greatest key of the table (at 1 on an empty table); nested writes in a
    payload are dropped, and no other table changes. *)
Theorem User_createMany_appends_consecutive_keys (data : list UserCreate) (w : World)
    (no_keys : forallb (fun d => isNone (uc_id_of d)) data = true)
    (room : roomFor (List.length data) User_id (UserStore (db_now w))) :
  User_createMany data w
  = Ok (List.length data)
       (withStore
          (setUserStore
             (UserStore (db_now w)
              ++ numberedUsers (nextId User_id (UserStore (db_now w)))
                               (map uc_name_of data))
             (db_now w))
          w).
Proof.
  unfold User_createMany.
  assert (G : forall w,
             roomFor (List.length data) User_id (UserStore (db_now w)) ->
             forEach data (fun createData =>
               filled <- User_fillDefaults createData ;;
               User_add (User_removeNestedCreateData filled) ;;; ret tt) w
             = Ok tt (withStore
                        (setUserStore
                           (UserStore (db_now w)
                            ++ numberedUsers (nextId User_id (UserStore (db_now w)))
                                             (map uc_name_of data))
                           (db_now w))
                        w)).
  { clear w room. induction data as [|d data IH]; intros w Hroom.
    - cbn. rewrite app_nil_r. destruct w as [[] ? ? ? ? ? ?]. reflexivity.
    - cbn [forallb] in no_keys. apply andb_prop in no_keys as [Hd Hrest].
      assert (Ed : uc_id_of d = None) by (destruct (uc_id_of d); [discriminate|reflexivity]).
      cbn [List.length] in Hroom.
      assert (Hone : roomFor 1 User_id (UserStore (db_now w)))
        by (apply (roomFor_less (n := S (List.length data))); [lia|exact Hroom]).
      destruct (nextId_bounds Hroom) as [Hlow Hhigh].
      cbn [forEach]. unfold bind at 1. rewrite (@User_createMany_step d w Ed Hone).
      rewrite (IH Hrest)
        by (cbn [db_now withStore UserStore setUserStore];
            now apply roomFor_appended).
      cbn [map numberedUsers].
      unfold withStore, setUserStore. cbn.
      rewrite nextId_appended
        by (cbn [User_id]; first [lia|intros x Hx; now apply below_nextId]).
      cbn [User_id]. now rewrite <- app_assoc. }
  unfold bind. now rewrite G.
Qed.

Lemma User_createMany_appends_consecutive_keys_witness :
  User_createMany annAndBob johnCreated
  = Ok 2%nat (withStore (mkStore [mkUser 1 "John"; mkUser 2 "Ann"; mkUser 3 "Bob"] [] [] [])
                        johnCreated).
Proof.
  apply (@User_createMany_appends_consecutive_keys annAndBob johnCreated eq_refl).
  repeat split; vm_compute; first [reflexivity|discriminate].
Defined.

(** ** [deleteMany] *)

Section DistinctKeys.
Variables (K R : Type).
Variable key : R -> K.
Variable keyEqb : K -> K -> bool.
Hypothesis keyEqb_eq : forall a b, keyEqb a b = true <-> a = b.

Lemma store_get_of_In (r : R) (t : list R) :
  In r t -> exists r', store_get key keyEqb (key r) t = Some r' /\ key r' = key r.
Proof.
  intros Hr. destruct (store_get key keyEqb (key r) t) as [r'|] eqn:E.
  - exists r'. split; [reflexivity|].
    now destruct (store_get_In key keyEqb keyEqb_eq _ _ E).
  - exfalso. rewrite (store_get_None key keyEqb keyEqb_eq) in E.
    now apply (E r Hr).
Qed.

Lemma NoDup_keys_filter (p : R -> bool) (t : list R) :
  NoDup (map key t) -> NoDup (map key (filter p t)).
Proof.
  induction t as [|x t IH]; simpl; intros H; [constructor|].
  inversion H as [|? ? Hx Ht]; subst. specialize (IH Ht).
  destruct (p x); [|exact IH]. simpl. constructor; [|exact IH].
  intros Hin. apply Hx. apply in_map_iff in Hin. destruct Hin as (y & Ey & Hy).
  apply filter_In in Hy. apply in_map_iff. exists y. tauto.
Qed.

Lemma NoDup_keys_eq (t : list R) (x y : R) :
  NoDup (map key t) -> In x t -> In y t -> key x = key y -> x = y.
Proof.
  induction t as [|z t IH]; simpl; intros H Hx Hy E; [destruct Hx|].
  inversion H as [|? ? Hz Ht]; subst.
  destruct Hx as [<-|Hx], Hy as [<-|Hy]; auto.
  - exfalso. apply Hz. rewrite E. now apply in_map.
  - exfalso. apply Hz. rewrite <- E. now apply in_map.
Qed.

(** With distinct keys, deleting the rows of [rows] by key removes exactly
    those rows. *)
Lemma deleteRows_In_distinct (rows table : list R) (x : R) :
  NoDup (map key table) -> incl rows table ->
  (In x (deleteRows key keyEqb rows table) <-> In x table /\ ~ In x rows).
Proof.
  intros Hnd Hincl. rewrite (deleteRows_In key keyEqb keyEqb_eq). split.
  - intros [Hx Hall]. split; [exact Hx|]. intros Hin. now apply (Hall x Hin).
  - intros [Hx Hnot]. split; [exact Hx|]. intros r Hr E. apply Hnot.
    now rewrite (@NoDup_keys_eq table x r Hnd Hx (Hincl r Hr) E).
Qed.

Lemma applyLogicalFilters_NoDup (W : Type) (records : list R) (AND OR NOT : option (list W))
    (f : list R -> W -> list R) :
  NoDup (map key records) ->
  NoDup (map key (applyLogicalFilters key keyEqb records AND OR NOT f)).
Proof.
  intros H. unfold applyLogicalFilters.
  destruct AND, OR, NOT; repeat apply NoDup_keys_filter; exact H.
Qed.

Lemma applyWhereFrom_NoDup (F : Type) (matches : bool -> F -> R -> bool) (top : bool)
    (w : Where F) (records : list R) :
  NoDup (map key records) ->
  NoDup (map key (applyWhereFrom key keyEqb matches top w records)).
Proof.
  intros H. destruct w as [a o n f]. simpl.
  apply NoDup_keys_filter. now apply applyLogicalFilters_NoDup.
Qed.
End DistinctKeys.

(** [delete] by the key of a stored comment completes when the key is not
    the empty string. *)
Lemma Comment_delete_stored (r : CommentRecord) (w : World) :
  In r (CommentStore (db_now w)) -> Comment_id r <> EmptyString ->
  exists r',
    Comment_delete (where_Comment_id (Comment_id r)) w
    = Ok r' (withStore (setCommentStore
                          (store_delete Comment_id String.eqb (Comment_id r)
                                        (CommentStore (db_now w)))
                          (db_now w)) w).
Proof.
  intros Hr Hk.
  destruct (store_get_of_In Comment_id String.eqb String.eqb_eq r _ Hr) as (r' & E & Ek).
  exists r'. unfold Comment_delete, Comment_findUnique, bind, readStore.
  cbn [cw_id where_Comment_id whereFields stringKey].
  apply String.eqb_neq in Hk. rewrite Hk, E.
  unfold Comment_applyWhereClause. rewrite <- Ek, Comment_applyWhere_id.
  cbn. now rewrite Ek.
Qed.

Lemma Comment_delete_loop_completes (rows : list CommentRecord) (w : World) :
  NoDup (map Comment_id rows) ->
  (forall r, In r rows -> In r (CommentStore (db_now w)) /\ Comment_id r <> EmptyString) ->
  exists w',
    forEach rows (fun record =>
                    Comment_delete (where_Comment_id (Comment_id record)) ;;; ret tt) w
    = Ok tt w'.
Proof.
  revert w. induction rows as [|r rows IH]; intros w Hnd Hrows; cbn [forEach].
  - eexists. reflexivity.
  - inversion Hnd as [|? ? Hr Hnd']; subst.
    destruct (Hrows r (or_introl eq_refl)) as [Hin Hk].
    destruct (Comment_delete_stored r w Hin Hk) as (r' & E).
    unfold bind at 1. unfold bind at 1. rewrite E. cbn [ret].
    apply IH; [exact Hnd'|].
    intros x Hx. destruct (Hrows x (or_intror Hx)) as [Hxin Hxk].
    split; [|exact Hxk]. cbn.
    apply (store_delete_In Comment_id String.eqb String.eqb_eq). split; [exact Hxin|].
    intros Ek. apply Hr. rewrite <- Ek. now apply in_map.
Qed.

Lemma Comment_applyWhereClause_incl (st : Store) (records : list CommentRecord)
    (where_ : option CommentWhere) :
  incl (Comment_applyWhereClause st records where_) records.
Proof.
  destruct where_ as [w|]; [|apply incl_refl].
  apply applyWhereFrom_incl.
Qed.

Lemma Comment_applyWhereClause_NoDup (st : Store) (records : list CommentRecord)
    (where_ : option CommentWhere) :
  NoDup (map Comment_id records) ->
  NoDup (map Comment_id (Comment_applyWhereClause st records where_)).
Proof.
  destruct where_ as [w|]; [|auto].
  apply applyWhereFrom_NoDup.
Qed.

(** X3.  On a comment table with distinct keys, [deleteMany] with a where
    clause that consults no relation completes when no comment that the
    clause selects has the empty string as its key: it returns the number of selected comments, and the comments left
    are those of the table that were not selected.  The other tables are
    what they were and the transaction is not aborted. *)
Theorem Comment_deleteMany_removes_the_selected (where_ : option CommentWhere) (w : World)
    (scalar : Comment_scalarWhere where_ = true)
    (distinct_keys : NoDup (map Comment_id (CommentStore (db_now w))))
    (keys_truthy :
       forall c,
         In c (Comment_applyWhereClause (db_now w) (CommentStore (db_now w)) where_) ->
         Comment_id c <> EmptyString) :
  exists w',
    Comment_deleteMany where_ w
    = Ok (List.length (Comment_applyWhereClause (db_now w) (CommentStore (db_now w)) where_))
         w'
    /\ (forall c,
          In c (CommentStore (db_now w'))
          <-> In c (CommentStore (db_now w))
              /\ ~ In c (Comment_applyWhereClause (db_now w) (CommentStore (db_now w)) where_))
    /\ UserStore (db_now w') = UserStore (db_now w)
    /\ ProfileStore (db_now w') = ProfileStore (db_now w)
    /\ PostStore (db_now w') = PostStore (db_now w)
    /\ aborted w' = aborted w.
Proof.
  set (selected := Comment_applyWhereClause (db_now w) (CommentStore (db_now w)) where_) in *.
  assert (Hincl : incl selected (CommentStore (db_now w)))
    by apply Comment_applyWhereClause_incl.
  assert (Hnd : NoDup (map Comment_id selected))
    by now apply Comment_applyWhereClause_NoDup.
  destruct (Comment_delete_loop_completes selected w Hnd) as (w' & Hloop).
  { intros r Hr. split; [now apply Hincl|now apply keys_truthy]. }
  exists w'. split.
  - unfold Comment_deleteMany.
    rewrite (bind_Ok _ _ _ (Comment_findMany_where _ _)). fold selected.
    now rewrite (bind_Ok _ _ _ Hloop).
  - apply Comment_delete_loop in Hloop. subst w'.
    cbn [db_now withStore setCommentStore CommentStore UserStore ProfileStore PostStore aborted].
    split; [|repeat split].
    intros c. now apply deleteRows_In_distinct; [apply String.eqb_eq| |].
Qed.

Lemma Comment_deleteMany_removes_the_selected_witness :
  Comment_scalarWhere (Some (where_Comment_userId 2)) = true
  /\ exists w',
    Comment_deleteMany (Some (where_Comment_userId 2)) (openOn twoComments) = Ok 1%nat w'
    /\ CommentStore (db_now w') = [mkComment "a" (Some 1) (Some 1) "nice"].
Proof.
  destruct (@Comment_deleteMany_removes_the_selected
              (Some (where_Comment_userId 2)) (openOn twoComments))
    as (w' & Hrun & _).
  - reflexivity.
  - cbn. repeat constructor; cbn; intuition discriminate.
  - intros c Hc. vm_compute in Hc. destruct Hc as [<-|[]]. discriminate.
  - split; [reflexivity|]. exists w'. split; [exact Hrun|].
    assert (E : Comment_deleteMany (Some (where_Comment_userId 2)) (openOn twoComments)
                = Ok 1%nat
                     (withStore
                        (setCommentStore [mkComment "a" (Some 1) (Some 1) "nice"] twoComments)
                        (openOn twoComments))) by reflexivity.
    rewrite E in Hrun. injection Hrun as <-. reflexivity.
Defined.

(** ** Deleting a post *)

Lemma Comment_deleteMany_postId (k : Z) (w w' : World) (n : nat) :
  Comment_deleteMany (Some (where_Comment_postId k)) w = Ok n w' ->
  w' = withStore
         (setCommentStore
            (deleteRows Comment_id String.eqb
                        (scopedTo Comment_postId k (CommentStore (db_now w)))
                        (CommentStore (db_now w)))
            (db_now w)) w.
Proof.
  unfold Comment_deleteMany. intros H.
  rewrite (bind_Ok _ _ _ (Comment_findMany_where _ _)) in H.
  rewrite Comment_applyWhere_postId in H.
  apply bind_Ok_inv in H. destruct H as (u & w1 & H1 & Hret).
  injection Hret as _ <-. destruct u. now apply Comment_delete_loop in H1.
Qed.

Lemma Post_findUnique_Found (where_ : PostWhere) (w w' : World) (p : PostRecord) :
  Post_findUnique where_ w = Ok (Found p) w' ->
  w' = w /\ exists row, In row (PostStore (db_now w)) /\ p = Post_preprocessListFields row.
Proof.
  unfold Post_findUnique, bind, readStore.
  destruct (numberKey (tw_id where_)); try discriminate.
  destruct (store_get Post_id Z.eqb k (PostStore (db_now w))) as [row|] eqn:E;
    [|discriminate].
  pose proof (applyWhereFrom_incl Post_id Z.eqb
                (fun _ f => Post_matches (db_now w) f noPostScope) true where_ [row]) as Hincl.
  unfold Post_applyWhereClause, applyWhere.
  destruct (applyWhereFrom _ _ _ _ _ _) as [|r rest]; [discriminate|].
  cbn. intros [= <- <-]. split; [reflexivity|].
  destruct (Hincl r (or_introl eq_refl)) as [<-|[]].
  exists row. split; [|reflexivity].
  now destruct (store_get_In Post_id Z.eqb Z.eqb_eq _ _ E).
Qed.

(** X4.  After [delete] of a post has completed, the post's row is gone and
    so is every comment whose [postId] is the post's key (the scoped
    [findMany] on comments returns the empty sequence); the rows of the other
    posts, the users and the profiles are what they were. *)
Theorem Post_delete_cascades_to_comments (w w' : World) (where_ : PostWhere) (p : PostRecord)
    (completed : Post_delete where_ w = Ok p w') :
  Comment_findMany (justWhere (Some (where_Comment_postId (Post_id p)))) w' = Ok [] w'
  /\ store_get Post_id Z.eqb (Post_id p) (PostStore (db_now w')) = None
  /\ (forall k, k <> Post_id p ->
        store_get Post_id Z.eqb k (PostStore (db_now w'))
        = store_get Post_id Z.eqb k (PostStore (db_now w)))
  /\ UserStore (db_now w') = UserStore (db_now w)
  /\ ProfileStore (db_now w') = ProfileStore (db_now w).
Proof.
  unfold Post_delete in completed.
  apply bind_Ok_inv in completed. destruct completed as (l & w0 & Hfind & H).
  apply bind_Ok_inv in H. destruct H as (record & w1 & Hfound & H).
  destruct l as [| |r]; try discriminate. injection Hfound as <- <-.
  destruct (Post_findUnique_Found _ _ Hfind) as [-> _].
  apply bind_Ok_inv in H. destruct H as (n & w1 & Hc & H).
  apply Comment_deleteMany_postId in Hc. subst w1.
  apply bind_Ok_inv in H. destruct H as (t & w2 & Hd & Hret).
  injection Hret as Ep Ew. injection Hd as Ed. subst p w' w2.
  rewrite Comment_findMany_where, Comment_applyWhere_postId.
  cbn [db_now withStore setCommentStore setPostStore CommentStore UserStore ProfileStore
       PostStore].
  unfold scopedTo at 1.
  assert (EC : filter (fun c => whereNumberFilter (Comment_postId c) (Some (NumIs (Post_id r))))
                 (deleteRows Comment_id String.eqb
                    (scopedTo Comment_postId (Post_id r) (CommentStore (db_now w)))
                    (CommentStore (db_now w))) = []).
  { apply filter_none. intros x Hx.
    exact (deleteRows_filter Comment_id String.eqb String.eqb_eq _ _ x Hx). }
  rewrite EC. repeat split.
  - apply store_get_None; [apply Z.eqb_eq|].
    intros x Hx. apply store_delete_In in Hx; [tauto|apply Z.eqb_eq].
  - intros k Hk. now apply store_get_delete_other; [apply Z.eqb_eq|].
Qed.

Lemma Post_delete_cascades_to_comments_witness :
  Comment_findMany (justWhere (Some (where_Comment_postId 1)))
    (withStore (mkStore [ann; bob] [] [] []) (openOn twoComments))
  = Ok [] (withStore (mkStore [ann; bob] [] [] []) (openOn twoComments)).
Proof.
  exact (proj1 (@Post_delete_cascades_to_comments (openOn twoComments) _ (where_Post_id 1)
                  (mkPost 1 "p1" (Some 1) (Some []) (Some [])) eq_refl)).
Defined.

(** ** Unsubscribing *)

Lemma removeEventListener_In (l x : Listener) (w : World) :
  In x (listeners (removeEventListener l w)) <-> In x (listeners w) /\ x <> l.
Proof.
  unfold removeEventListener, setListeners. cbn [listeners].
  rewrite filter_In. split; intros [Hin H]; split; auto.
  - intros ->. rewrite (proj2 (Listener_eqb_eq l l) eq_refl) in H. discriminate.
  - destruct (Listener_eqb l x) eqn:E; [|reflexivity].
    apply Listener_eqb_eq in E. congruence.
Qed.

Lemma unsubscribe_In (model : StoreName) (events : list EventKind) (callback : nat)
    (w : World) (x : Listener) :
  In x (listeners (unsubscribe model events callback w))
  <-> In x (listeners w) /\ forall e, In e events -> x <> (model, e, callback).
Proof.
  unfold unsubscribe. revert w.
  induction events as [|e events IH]; intros w; cbn [fold_left].
  - split; [intros H; split; [exact H|intros e []]|tauto].
  - rewrite IH, removeEventListener_In. split.
    + intros [[Hin Hne] Hall]. split; [exact Hin|].
      intros e' [<-|He']; [exact Hne|now apply Hall].
    + intros [Hin Hall]. split; [split; [exact Hin|apply Hall; now left]|].
      intros e' He'. apply Hall. now right.
Qed.

Lemma unsubscribe_called (model : StoreName) (events : list EventKind) (callback : nat)
    (w : World) :
  called (unsubscribe model events callback w) = called w.
Proof.
  unfold unsubscribe. revert w.
  induction events as [|e events IH]; intros w; cbn [fold_left]; [reflexivity|].
  now rewrite IH.
Qed.

(** X5.  After [unsubscribe(events, callback)] on an engine, the callback is
    registered for none of these events on that engine, whatever had been
    subscribed, and every other registration is kept; an [emit] of one of the
    events then runs the other callbacks registered for it and does not run
    the callback. *)
Theorem unsubscribe_stops_the_callback (model : StoreName) (events : list EventKind)
    (callback : nat) (w : World) :
  (forall x,
      In x (listeners (unsubscribe model events callback w))
      <-> In x (listeners w) /\ forall e, In e events -> x <> (model, e, callback))
  /\ forall e,
       In e events ->
       exists ran w',
         emit model e (unsubscribe model events callback w) = Ok tt w'
         /\ called w' = ran ++ called w
         /\ ~ In (model, e, callback) ran
         /\ forall other,
              other <> callback ->
              In (model, e, other) (listeners w) -> In (model, e, other) ran.
Proof.
  split; [intros x; apply unsubscribe_In|].
  intros e He. unfold emit.
  set (run := filter _ (listeners (unsubscribe model events callback w))).
  exists (rev run). eexists. split; [reflexivity|].
  cbn [called]. rewrite unsubscribe_called. split; [reflexivity|]. split.
  - intros Hin. apply in_rev in Hin. apply filter_In in Hin. destruct Hin as [Hin _].
    apply unsubscribe_In in Hin. destruct Hin as [_ Hall]. now apply (Hall e He).
  - intros other Hother Hin. apply -> in_rev. apply filter_In. split.
    + apply unsubscribe_In. split; [exact Hin|]. intros e' _ [= _ E]. congruence.
    + rewrite (proj2 (StoreName_eqb_eq model model) eq_refl).
      now rewrite (proj2 (EventKind_eqb_eq e e) eq_refl).
Qed.

(** ** Ordering users by a field of their profile *)

Lemma mapE_inl_inv (A B : Type) (f : A -> Error + B) (l : list A) (e : Error) :
  mapE f l = inl e -> exists x, In x l /\ f x = inl e.
Proof.
  induction l as [|x l IH]; simpl; [discriminate|].
  destruct (f x) as [e'|y] eqn:E.
  - intros [= <-]. exists x. auto.
  - destruct (mapE f l) as [e'|ys]; [|discriminate].
    intros [= <-]. destruct (IH eq_refl) as (z & Hz & Ez). exists z. auto.
Qed.

Lemma mapE_fails (A B : Type) (f : A -> Error + B) (l : list A) (x : A) (e : Error) :
  In x l -> f x = inl e -> exists e', mapE f l = inl e'.
Proof.
  induction l as [|y l IH]; simpl; [intros []|].
  intros [->|Hx] E.
  - rewrite E. eauto.
  - destruct (f y) as [e'|z]; [eauto|].
    destruct (IH Hx E) as (e' & ->). eauto.
Qed.

Lemma scopedTo_none {R : Type} (fk : R -> option Z) (k : Z) (table : list R) :
  (forall r, In r table -> fk r <> Some k) -> scopedTo fk k table = [].
Proof.
  intros H. apply filter_none. intros r Hr. specialize (H r Hr).
  cbn [whereNumberFilter optEqb]. destruct (fk r) as [v|]; [|reflexivity].
  apply Z.eqb_neq. congruence.
Qed.

(** The only error of the key resolvers is the one of
    [findFirstOrThrow]. *)
Lemma User_resolveOrderByKey_error (st : Store) (c : UserOrderBy) :
  forall record e, User_resolveOrderByKey st c record = inl e -> e = RecordNotFound
with Profile_resolveOrderByKey_error (st : Store) (c : ProfileOrderBy) :
  forall record e, Profile_resolveOrderByKey st c record = inl e -> e = RecordNotFound.
Proof.
  - destruct c as [[d|] [d'|] [o|] [g|] [g'|]]; intros record e; simpl; try discriminate.
    all: destruct (scopedTo Profile_userId (User_id record) (ProfileStore st)) as [|p rest];
      simpl; [now intros [= <-]|apply Profile_resolveOrderByKey_error].
  - destruct c as [[d|] [d'|] [d''|] [o|]]; intros record e; simpl; try discriminate.
    all: destruct (whereNumberIs _ _ _) as [|u rest];
      simpl; [now intros [= <-]|apply User_resolveOrderByKey_error].
Qed.

(** X6.  [findMany] on users, with a where clause that consults no relation
    and orderBy clauses on fields of the user or of the user's profile, one
    of them on the profile, throws "Record not found" as soon as one of the
    users that the where clause selects has no profile, also when that user
    is the only one selected: the keys of all records are resolved before any
    two are compared, and the resolver reads the profile with
    [findFirstOrThrow].  No store is written and the transaction of the
    call is not aborted. *)
Theorem User_findMany_orderBy_profile_throws
    (w : World) (where_ : option UserWhere) (clauses : list UserOrderBy)
    (o : ProfileOrderBy) (posts comments : option OrderByAggregate) (u : UserRecord)
    (scalar : User_scalarWhere where_ = true)
    (own_or_profile : forallb UserOrderBy_ownOrProfile clauses = true)
    (by_profile : In (mkUserOrderBy None None (Some o) posts comments) clauses)
    (selected : In u (User_applyWhereClause (db_now w) (UserStore (db_now w)) where_))
    (no_profile : forall p, In p (ProfileStore (db_now w)) ->
                            Profile_userId p <> Some (User_id u)) :
  User_findMany (Some (mkFindArgs where_ (Some clauses))) w = Throw RecordNotFound w.
Proof.
  unfold User_findMany, bind, readStore, liftRead. cbn [whereOf orderByOf q_where q_orderBy].
  set (records := User_applyWhereClause (db_now w) (UserStore (db_now w)) where_) in *.
  unfold User_applyOrderByClause. rewrite applyOrderByClause_Some.
  assert (Eu : User_resolveOrderByKey (db_now w)
                 (mkUserOrderBy None None (Some o) posts comments) u = inl RecordNotFound).
  { cbn [User_resolveOrderByKey].
    now rewrite (@scopedTo_none _ Profile_userId (User_id u) _ no_profile). }
  destruct (mapE_fails (fun clause => User_resolveOrderByKey (db_now w) clause u)
              clauses _ by_profile Eu) as (e1 & E1).
  assert (Ei : indexRecord (User_resolveOrderByKey (db_now w)) clauses u = inl e1)
    by (unfold indexRecord; now rewrite E1).
  destruct (mapE_fails (indexRecord (User_resolveOrderByKey (db_now w)) clauses)
              records _ selected Ei) as (e2 & E2).
  rewrite E2. f_equal.
  apply mapE_inl_inv in E2. destruct E2 as (x & _ & Ex).
  unfold indexRecord in Ex.
  destruct (mapE (fun clause => User_resolveOrderByKey (db_now w) clause x) clauses)
    as [e3|keys] eqn:E3; [|discriminate].
  injection Ex as ->.
  apply mapE_inl_inv in E3. destruct E3 as (c & _ & Ec).
  exact (User_resolveOrderByKey_error _ _ _ Ec).
Qed.

Lemma User_findMany_orderBy_profile_throws_witness :
  forallb UserOrderBy_ownOrProfile [byProfileBio] = true
  /\ User_findMany (Some (mkFindArgs (Some (MkWhere None None None
                                           (mkUserWhere (Some (NumIs 2)) None None None None)))
                                  (Some [byProfileBio])))
                (openOn sampleStore)
  = Throw RecordNotFound (openOn sampleStore).
Proof.
  split; [reflexivity|].
  apply (@User_findMany_orderBy_profile_throws (openOn sampleStore) _ [byProfileBio]
           (mkProfileOrderBy None (Some (Sort asc)) None None) None None bob).
  - reflexivity.
  - reflexivity.
  - left. reflexivity.
  - left. reflexivity.
  - intros p [<-|[]]. discriminate.
Defined.

(** ** Posts created with their author *)

Lemma store_get_appended (R : Type) (key : R -> Z) (r : R) (t : list R) :
  (forall x, In x t -> key x < key r) ->
  store_get key Z.eqb (key r) (t ++ [r]) = Some r.
Proof.
  intros H. unfold store_get. induction t as [|x t IH]; simpl.
  - now rewrite Z.eqb_refl.
  - assert (E : (key x =? key r) = false).
    { apply Z.eqb_neq. specialize (H x (or_introl eq_refl)). lia. }
    rewrite E. apply IH. intros y Hy. apply H. now right.
Qed.

Lemma listOf_unwrapSet (A : Type) (v : option (ListInput A)) : listOf (unwrapSet v) = listOf v.
Proof. now destruct v as [[l|l]|]. Qed.

(** One post of [posts.create], created by the post engine with
    [author: { connect: { id: k } }]. *)
Lemma Post_create_with_author (fuel : nat) (data : PostCreate) (k : Z) (author : UserRecord)
    (w : World) :
  tc_id_of data = None -> tc_comments_of data = None ->
  k <> 0 ->
  store_get User_id Z.eqb k (UserStore (db_now w)) = Some author ->
  roomFor 1 Post_id (PostStore (db_now w)) ->
  Post_create (S fuel) (PostCreate_withAuthor data k) w
  = Ok (Post_preprocessListFields (postRow (nextId Post_id (PostStore (db_now w))) k data))
       (withStore
          (setPostStore
             (PostStore (db_now w) ++ [postRow (nextId Post_id (PostStore (db_now w))) k data])
             (db_now w))
          w).
Proof.
  destruct data as [d_id d_title d_author d_authorId d_tags d_numberArr d_comments].
  cbn [tc_id_of tc_comments_of]. intros -> -> Hk Hauthor Hroom.
  destruct (store_get_In User_id Z.eqb Z.eqb_eq _ _ Hauthor) as [_ Ek].
  assert (Efind : User_findUniqueOrThrow (where_User_id k) w = Ok author w).
  { unfold User_findUniqueOrThrow, User_findUnique, bind, readStore.
    cbn [uw_id where_User_id whereFields numberKey].
    apply Z.eqb_neq in Hk. rewrite Hk, Hauthor. rewrite <- Ek, User_applyWhere_id.
    reflexivity. }
  cbn [Post_create PostCreate_withAuthor connectTo n_create n_connect n_connectOrCreate ifSet].
  unfold bind at 1. unfold bind at 1. cbn [ret]. unfold bind at 1. unfold bind at 1.
  rewrite Efind. cbn [ret]. unfold bind at 1. cbn [ret].
  unfold bind at 1. cbn [Post_fillDefaults bind readStore ret].
  unfold bind at 1.
  unfold Post_add, Post_removeNestedCreateData, Post_asRecord, Post_store_add, addTo.
  cbn [option_map].
  set (row := mkPost (nextId Post_id (PostStore (db_now w))) d_title (Some (User_id author))
                     (listOf (unwrapSet d_tags)) (listOf (unwrapSet d_numberArr))).
  assert (Efresh : store_get Post_id Z.eqb (Post_id row) (PostStore (db_now w)) = None).
  { apply store_get_None; [apply Z.eqb_eq|].
    intros r Hr. cbn [row Post_id]. now apply nextId_fresh. }
  unfold bind at 1. unfold bind at 1. unfold readStore at 1.
  unfold store_add. rewrite Efresh. cbn [option_map writeStore bind ret].
  rewrite store_insert_greatest
    by (intros x Hx; cbn [row Post_id]; now apply below_nextId).
  unfold getRow, bind, readStore. cbn [db_now PostStore setPostStore].
  change (nextId Post_id (PostStore (db_now w))) with (Post_id row) at 1.
  rewrite store_get_appended
    by (intros x Hx; cbn [row Post_id]; now apply below_nextId).
  unfold postRow, row. cbn [tc_title_of tc_tags_of tc_numberArr_of].
  rewrite !listOf_unwrapSet, Ek. reflexivity.
Qed.

Lemma Post_create_loop_with_author (fuel : nat) (k : Z) (author : UserRecord)
    (posts : list PostCreate) (w : World) :
  forallb plainPost posts = true ->
  k <> 0 ->
  store_get User_id Z.eqb k (UserStore (db_now w)) = Some author ->
  roomFor (List.length posts) Post_id (PostStore (db_now w)) ->
  forEach posts
    (fun createData => done (Post_create (S fuel) (PostCreate_withAuthor createData k))) w
  = Ok tt (withStore
             (setPostStore
                (PostStore (db_now w)
                 ++ numberedPosts (nextId Post_id (PostStore (db_now w))) k posts)
                (db_now w))
             w).
Proof.
  intros Hplain Hk. revert w.
  induction posts as [|p posts IH]; intros w Hauthor Hroom.
  - cbn. rewrite app_nil_r. destruct w as [[] ? ? ? ? ? ?]. reflexivity.
  - cbn [forallb] in Hplain. apply andb_prop in Hplain as [Hp Hrest].
    unfold plainPost in Hp. apply andb_prop in Hp as [Hid Hcomments].
    assert (Eid : tc_id_of p = None) by (destruct (tc_id_of p); [discriminate|reflexivity]).
    assert (Ecomments : tc_comments_of p = None)
      by (destruct (tc_comments_of p); [discriminate|reflexivity]).
    cbn [List.length] in Hroom.
    assert (Hone : roomFor 1 Post_id (PostStore (db_now w)))
      by (apply (roomFor_less (n := S (List.length posts))); [lia|exact Hroom]).
    destruct (nextId_bounds Hroom) as [Hlow Hhigh].
    cbn [forEach]. unfold bind at 1. unfold done at 1. unfold bind at 1.
    rewrite (@Post_create_with_author fuel p k author w Eid Ecomments Hk Hauthor Hone).
    cbn [ret].
    rewrite (IH Hrest)
      by (cbn [db_now withStore PostStore UserStore setPostStore];
          first [exact Hauthor|now apply roomFor_appended]).
    cbn [numberedPosts]. unfold withStore, setPostStore. cbn.
    rewrite nextId_appended
      by (cbn [postRow Post_id]; first [lia|intros x Hx; now apply below_nextId]).
    cbn [postRow Post_id]. now rewrite <- app_assoc.
Qed.

(** X7.  [create] of a user with [posts: { create: [...] }], on payloads
    that carry no key and no nested comments, when the user table has room
    for one more key and the post table for as many as there are payloads
    (counted up from the greatest key they stay below 2^53), and the key
    assigned to the user is not [0]: the user's row is appended under the
    next key, and one row per payload is appended to the post table, in
    order, under consecutive keys, each with [authorId] set to the key of
    the new user, whatever [authorId] the payload named.  Profiles and
    comments are left as they were. *)
Theorem User_create_with_posts (fuel : nat) (name : string) (posts : list PostCreate)
    (w : World)
    (plain : forallb plainPost posts = true)
    (key_truthy : nextId User_id (UserStore (db_now w)) <> 0)
    (room_users : roomFor 1 User_id (UserStore (db_now w)))
    (room_posts : roomFor (List.length posts) Post_id (PostStore (db_now w))) :
  User_create (S (S fuel)) (userWithPosts name posts) w
  = Ok (mkUser (nextId User_id (UserStore (db_now w))) name)
       (withStore
          (mkStore
             (UserStore (db_now w) ++ [mkUser (nextId User_id (UserStore (db_now w))) name])
             (ProfileStore (db_now w))
             (PostStore (db_now w)
              ++ numberedPosts (nextId Post_id (PostStore (db_now w)))
                               (nextId User_id (UserStore (db_now w))) posts)
             (CommentStore (db_now w)))
          w).
Proof.
  set (k := nextId User_id (UserStore (db_now w))) in *.
  assert (Hbelow : forall x, In x (UserStore (db_now w)) -> User_id x < User_id (mkUser k name))
    by (intros x Hx; cbn [User_id]; now apply below_nextId).
  unfold userWithPosts.
  change (User_create (S (S fuel))
            (mkUserCreate None name None (Some (mkNestedMany (Some posts) None None None)) None))
    with (filled <- User_fillDefaults
                      (mkUserCreate None name None
                         (Some (mkNestedMany (Some posts) None None None)) None) ;;
          keyPath <- User_add (User_removeNestedCreateData filled) ;;
          (ifSet (@None (NestedOne ProfileCreate ProfileWhere)) (fun _ => ret tt) ;;;
           (ifSet (Some posts) (fun creates =>
              forEach creates (fun createData =>
                done (Post_create (S fuel) (PostCreate_withAuthor createData keyPath)))) ;;;
            ret tt ;;; ret tt ;;; ret tt) ;;;
           ret tt ;;;
           getRow User_id Z.eqb UserStore keyPath)).
  rewrite User_create_first_steps by exact room_users. fold k.
  unfold withUserAdded. fold k. rewrite (store_insert_greatest User_id _ _ Hbelow).
  set (w1 := withStore _ w).
  assert (Hauthor : store_get User_id Z.eqb k (UserStore (db_now w1)) = Some (mkUser k name))
    by exact (store_get_appended User_id (mkUser k name) _ Hbelow).
  cbn [ifSet]. unfold bind at 1. cbn [ret]. unfold bind at 1. unfold bind at 1.
  rewrite (@Post_create_loop_with_author fuel k (mkUser k name) posts w1 plain key_truthy
             Hauthor room_posts).
  cbn [ret bind]. unfold getRow, bind, readStore.
  cbn [db_now withStore setPostStore UserStore w1 setUserStore].
  cbn [db_now withStore UserStore w1 setUserStore] in Hauthor. rewrite Hauthor.
  reflexivity.
Qed.

Lemma User_create_with_posts_witness :
  User_create 2 (userWithPosts "Cy" twoPosts) (openOn sampleStore)
  = Ok (mkUser 3 "Cy")
       (withStore
          (mkStore [ann; bob; mkUser 3 "Cy"]
                   [mkProfile 1 (Some "hi"%string) (Some 1)]
                   [mkPost 1 "p1" (Some 1) None None; mkPost 2 "p2" (Some 1) None None;
                    mkPost 3 "p1" (Some 3) None None;
                    mkPost 4 "p2" (Some 3) (Some ["t"%string]) None]
                   [mkComment "a" (Some 1) (Some 1) "nice"])
          (openOn sampleStore)).
Proof.
  apply (@User_create_with_posts 0 "Cy" twoPosts (openOn sampleStore) eq_refl).
  - vm_compute. discriminate.
  - repeat split; vm_compute; first [reflexivity|discriminate].
  - repeat split; vm_compute; first [reflexivity|discriminate].
Defined.

(** ** The stores that [create] writes to *)

Lemma StoreName_eqb_refl (s : StoreName) : StoreName_eqb s s = true.
Proof. now destruct s. Qed.

Lemma hasStore_app (s : StoreName) (a b : StoreSet) :
  hasStore s (a ++ b) = hasStore s a || hasStore s b.
Proof. unfold hasStore. apply existsb_app. Qed.

Lemma hasStore_addStore (s t : StoreName) (set : StoreSet) :
  hasStore s (addStore t set) = hasStore s set || StoreName_eqb s t.
Proof.
  unfold addStore. destruct (existsb (StoreName_eqb t) set) eqn:E.
  - destruct (StoreName_eqb s t) eqn:Est; [|now rewrite orb_false_r].
    apply StoreName_eqb_eq in Est. subst t. unfold hasStore. now rewrite E.
  - rewrite hasStore_app. cbn. now rewrite orb_false_r.
Qed.

Lemma hasStore_addStores (s : StoreName) (other set : StoreSet) :
  hasStore s (addStores other set) = hasStore s set || hasStore s other.
Proof.
  unfold addStores. revert set.
  induction other as [|t other IH]; intros set; cbn [fold_left].
  - cbn. now rewrite orb_false_r.
  - rewrite IH, hasStore_addStore. cbn [hasStore existsb].
    now rewrite <- orb_assoc.
Qed.

Lemma hasStore_fold (A : Type) (f : A -> StoreSet) (s : StoreName) (l : list A)
    (set : StoreSet) :
  hasStore s (fold_left (fun acc x => addStores (f x) acc) l set)
  = hasStore s set || existsb (fun x => hasStore s (f x)) l.
Proof.
  revert set. induction l as [|x l IH]; intros set; cbn [fold_left existsb].
  - now rewrite orb_false_r.
  - rewrite IH, hasStore_addStores. now rewrite <- orb_assoc.
Qed.

Lemma writesWithin_refl (scope : StoreSet) (st : Store) : writesWithin scope st st.
Proof. repeat split. Qed.

Lemma writesWithin_trans (scope : StoreSet) (st1 st2 st3 : Store) :
  writesWithin scope st1 st2 -> writesWithin scope st2 st3 -> writesWithin scope st1 st3.
Proof.
  intros (U1 & P1 & T1 & C1) (U2 & P2 & T2 & C2).
  repeat split; intros H.
  - now rewrite U2, U1.
  - now rewrite P2, P1.
  - now rewrite T2, T1.
  - now rewrite C2, C1.
Qed.

Lemma writesWithin_incl (a b : StoreSet) (st st' : Store) :
  StoreSet_incl a b -> writesWithin a st st' -> writesWithin b st st'.
Proof.
  intros Hincl (U & P & T & C).
  assert (G : forall s, hasStore s b = false -> hasStore s a = false).
  { intros s Hs. destruct (hasStore s a) eqn:E; [|reflexivity].
    apply Hincl in E. congruence. }
  repeat split; intros H; auto.
Qed.

Lemma staysWithin_incl (A : Type) (a b : StoreSet) (m : M A) :
  StoreSet_incl a b -> staysWithin a m -> staysWithin b m.
Proof.
  intros Hincl Hm w. specialize (Hm w). destruct (m w) as [x w'|e w'|]; auto.
  - destruct Hm. split; [|assumption]. now apply writesWithin_incl with a.
  - destruct Hm as [Hm|Hm]; [left|now right]. now apply writesWithin_incl with a.
Qed.

Lemma staysWithin_ret (A : Type) (scope : StoreSet) (a : A) : staysWithin scope (ret a).
Proof. intros w. cbn. split; [apply writesWithin_refl|reflexivity]. Qed.

Lemma staysWithin_throw (A : Type) (scope : StoreSet) (e : Error) :
  staysWithin scope (throw (A := A) e).
Proof. intros w. cbn. left. apply writesWithin_refl. Qed.

Lemma staysWithin_bind (A B : Type) (scope : StoreSet) (m : M A) (f : A -> M B) :
  staysWithin scope m -> (forall a, staysWithin scope (f a)) -> staysWithin scope (bind m f).
Proof.
  intros Hm Hf w. unfold bind. specialize (Hm w).
  destruct (m w) as [a w1|e w1|]; auto.
  destruct Hm as [Hw Hb]. specialize (Hf a w1).
  destruct (f a w1) as [b w2|e w2|]; auto.
  - destruct Hf as [Hw' Hb']. split; [|congruence].
    now apply writesWithin_trans with (db_now w1).
  - destruct Hf as [Hw'|Hr]; [left|right; congruence].
    now apply writesWithin_trans with (db_now w1).
Qed.

Lemma staysWithin_readStore (scope : StoreSet) : staysWithin scope readStore.
Proof. intros w. cbn. split; [apply writesWithin_refl|reflexivity]. Qed.

Lemma staysWithin_liftRead (A : Type) (scope : StoreSet) (f : Store -> Error + A) :
  staysWithin scope (liftRead f).
Proof.
  intros w. unfold liftRead. destruct (f (db_now w)); cbn.
  - left. apply writesWithin_refl.
  - split; [apply writesWithin_refl|reflexivity].
Qed.

Lemma staysWithin_createId (scope : StoreSet) : staysWithin scope createId.
Proof. intros w. cbn. split; [apply writesWithin_refl|reflexivity]. Qed.

Lemma staysWithin_out_of_fuel (A : Type) (scope : StoreSet) :
  staysWithin scope (fun _ : World => OutOfFuel (A := A)).
Proof. intros w. exact I. Qed.

(** [tx.abort(); throw ...] *)
Lemma staysWithin_abort_throw (A : Type) (scope : StoreSet) (e : Error) :
  staysWithin scope (tx_abort ;;; throw (A := A) e).
Proof. intros w. cbn. now right. Qed.

Lemma staysWithin_writeStore (scope : StoreSet) (f : Store -> Store) :
  (forall st, writesWithin scope st (f st)) -> staysWithin scope (writeStore f).
Proof. intros H w. cbn. split; [apply H|reflexivity]. Qed.

Lemma staysWithin_forEach (A : Type) (scope : StoreSet) (l : list A) (f : A -> M unit) :
  (forall x, In x l -> staysWithin scope (f x)) -> staysWithin scope (forEach l f).
Proof.
  induction l as [|x l IH]; intros Hf; cbn [forEach].
  - apply staysWithin_ret.
  - apply staysWithin_bind; [apply Hf; now left|].
    intros _. apply IH. intros y Hy. apply Hf. now right.
Qed.

Lemma staysWithin_ifSet (A : Type) (scope : StoreSet) (o : option A) (f : A -> M unit) :
  (forall a, o = Some a -> staysWithin scope (f a)) -> staysWithin scope (ifSet o f).
Proof.
  intros Hf. destruct o as [a|]; cbn [ifSet]; [now apply Hf|apply staysWithin_ret].
Qed.

Lemma staysWithin_done (A : Type) (scope : StoreSet) (m : M A) :
  staysWithin scope m -> staysWithin scope (done m).
Proof.
  intros Hm. apply staysWithin_bind; [exact Hm|]. intros _. apply staysWithin_ret.
Qed.

(** Writing one table stays within a scope that has its store. *)
Lemma writesWithin_setUserStore (scope : StoreSet) (t : list UserRecord) (st : Store) :
  hasStore User scope = true -> writesWithin scope st (setUserStore t st).
Proof. intros H. repeat split. cbn. congruence. Qed.

Lemma writesWithin_setProfileStore (scope : StoreSet) (t : list ProfileRecord) (st : Store) :
  hasStore Profile scope = true -> writesWithin scope st (setProfileStore t st).
Proof. intros H. repeat split. cbn. congruence. Qed.

Lemma writesWithin_setPostStore (scope : StoreSet) (t : list PostRecord) (st : Store) :
  hasStore Post scope = true -> writesWithin scope st (setPostStore t st).
Proof. intros H. repeat split. cbn. congruence. Qed.

Lemma writesWithin_setCommentStore (scope : StoreSet) (t : list CommentRecord) (st : Store) :
  hasStore Comment scope = true -> writesWithin scope st (setCommentStore t st).
Proof. intros H. repeat split. cbn. congruence. Qed.

Lemma staysWithin_addTo (R : Type) (scope : StoreSet) (added : Store -> option Store) :
  (forall st st', added st = Some st' -> writesWithin scope st st') ->
  staysWithin scope (addTo (R := R) added).
Proof.
  intros H w. unfold addTo, bind, readStore.
  destruct (added (db_now w)) as [st'|] eqn:E; cbn.
  - split; [now apply H|reflexivity].
  - now right.
Qed.

Create HintDb scope.
#[local] Hint Resolve staysWithin_ret staysWithin_throw staysWithin_readStore
  staysWithin_liftRead staysWithin_createId staysWithin_out_of_fuel
  staysWithin_abort_throw : scope.

(** The steps of an engine method, one after the other. *)
Ltac scope_step :=
  match goal with
  | |- staysWithin _ (bind tx_abort _) => apply staysWithin_abort_throw
  | |- staysWithin _ (bind _ _) => apply staysWithin_bind; [|intros]
  | |- staysWithin _ (ifSet _ _) => apply staysWithin_ifSet; intros
  | |- staysWithin _ (done _) => apply staysWithin_done
  | |- staysWithin _ (match ?x with _ => _ end) => destruct x eqn:?
  | |- staysWithin _ _ => solve [auto with scope]
  end.

Ltac scope_steps := repeat scope_step.

Lemma staysWithin_orThrow (A : Type) (scope : StoreSet) (found : option A) :
  staysWithin scope (orThrow found).
Proof. unfold orThrow. scope_steps. Qed.

Lemma staysWithin_getRow (K R : Type) (scope : StoreSet) (key : R -> K)
    (keyEqb : K -> K -> bool) (table : Store -> list R) (k : K) :
  staysWithin scope (getRow key keyEqb table k).
Proof. unfold getRow. scope_steps. Qed.

#[local] Hint Resolve staysWithin_orThrow staysWithin_getRow : scope.

Lemma staysWithin_findUnique (scope : StoreSet) :
  (forall q, staysWithin scope (User_findUnique q))
  /\ (forall q, staysWithin scope (Profile_findUnique q))
  /\ (forall q, staysWithin scope (Post_findUnique q))
  /\ (forall q, staysWithin scope (Comment_findUnique q)).
Proof.
  repeat split; intros q;
    unfold User_findUnique, Profile_findUnique, Post_findUnique, Comment_findUnique;
    scope_steps.
Qed.

Lemma staysWithin_User_findUnique scope q : staysWithin scope (User_findUnique q).
Proof. apply staysWithin_findUnique. Qed.
Lemma staysWithin_Profile_findUnique scope q : staysWithin scope (Profile_findUnique q).
Proof. apply staysWithin_findUnique. Qed.
Lemma staysWithin_Post_findUnique scope q : staysWithin scope (Post_findUnique q).
Proof. apply staysWithin_findUnique. Qed.
Lemma staysWithin_Comment_findUnique scope q : staysWithin scope (Comment_findUnique q).
Proof. apply staysWithin_findUnique. Qed.

#[local] Hint Resolve staysWithin_User_findUnique staysWithin_Profile_findUnique
  staysWithin_Post_findUnique staysWithin_Comment_findUnique : scope.

Lemma staysWithin_User_findUniqueOrThrow scope q :
  staysWithin scope (User_findUniqueOrThrow q).
Proof. unfold User_findUniqueOrThrow. scope_steps. Qed.
Lemma staysWithin_Post_findUniqueOrThrow scope q :
  staysWithin scope (Post_findUniqueOrThrow q).
Proof. unfold Post_findUniqueOrThrow. scope_steps. Qed.

#[local] Hint Resolve staysWithin_User_findUniqueOrThrow staysWithin_Post_findUniqueOrThrow
  : scope.

(** [update] writes to the table of its engine. *)
Lemma staysWithin_Profile_update scope q d :
  hasStore Profile scope = true -> staysWithin scope (Profile_update q d).
Proof.
  intros H. unfold Profile_update, Profile_store_put. scope_steps.
  apply staysWithin_writeStore. intros st. now apply writesWithin_setProfileStore.
Qed.
Lemma staysWithin_Post_update scope q d :
  hasStore Post scope = true -> staysWithin scope (Post_update q d).
Proof.
  intros H. unfold Post_update, Post_store_put. scope_steps.
  apply staysWithin_writeStore. intros st. now apply writesWithin_setPostStore.
Qed.
Lemma staysWithin_Comment_update scope q d :
  hasStore Comment scope = true -> staysWithin scope (Comment_update q d).
Proof.
  intros H. unfold Comment_update, Comment_store_put. scope_steps.
  apply staysWithin_writeStore. intros st. now apply writesWithin_setCommentStore.
Qed.

Lemma staysWithin_fillDefaults (scope : StoreSet) :
  (forall d, staysWithin scope (User_fillDefaults d))
  /\ (forall d, staysWithin scope (Profile_fillDefaults d))
  /\ (forall d, staysWithin scope (Post_fillDefaults d))
  /\ (forall d, staysWithin scope (Comment_fillDefaults d)).
Proof.
  repeat split; intros d;
    unfold User_fillDefaults, Profile_fillDefaults, Post_fillDefaults, Comment_fillDefaults;
    scope_steps.
Qed.

Lemma staysWithin_User_add scope d :
  hasStore User scope = true -> staysWithin scope (User_add d).
Proof.
  intros H. unfold User_add, User_store_add. scope_steps.
  apply staysWithin_addTo. intros st st' E.
  destruct (store_add _ _ _ _ _); [|discriminate]. injection E as <-.
  now apply writesWithin_setUserStore.
Qed.
Lemma staysWithin_Profile_add scope d :
  hasStore Profile scope = true -> staysWithin scope (Profile_add d).
Proof.
  intros H. unfold Profile_add, Profile_store_add. scope_steps.
  apply staysWithin_addTo. intros st st' E.
  destruct (userIdIndex_allows _ _); [|discriminate].
  destruct (store_add _ _ _ _ _); [|discriminate]. injection E as <-.
  now apply writesWithin_setProfileStore.
Qed.
Lemma staysWithin_Post_add scope d :
  hasStore Post scope = true -> staysWithin scope (Post_add d).
Proof.
  intros H. unfold Post_add, Post_store_add. scope_steps.
  apply staysWithin_addTo. intros st st' E.
  destruct (store_add _ _ _ _ _); [|discriminate]. injection E as <-.
  now apply writesWithin_setPostStore.
Qed.
Lemma staysWithin_Comment_add scope d :
  hasStore Comment scope = true -> staysWithin scope (Comment_add d).
Proof.
  intros H. unfold Comment_add, Comment_store_add. scope_steps.
  apply staysWithin_addTo. intros st st' E.
  destruct (store_add _ _ _ _ _); [|discriminate]. injection E as <-.
  now apply writesWithin_setCommentStore.
Qed.

(** [createMany] writes to the table of its engine. *)
Lemma staysWithin_Post_createMany scope l :
  hasStore Post scope = true -> staysWithin scope (Post_createMany l).
Proof.
  intros H. unfold Post_createMany. scope_steps.
  apply staysWithin_forEach. intros d _. scope_steps.
  - apply staysWithin_fillDefaults.
  - now apply staysWithin_Post_add.
Qed.
Lemma staysWithin_Comment_createMany scope l :
  hasStore Comment scope = true -> staysWithin scope (Comment_createMany l).
Proof.
  intros H. unfold Comment_createMany. scope_steps.
  apply staysWithin_forEach. intros d _. scope_steps.
  - apply staysWithin_fillDefaults.
  - now apply staysWithin_Comment_add.
Qed.

Lemma hasStore_fold_entries (W A : Type) (f : A -> StoreSet) (s : StoreName)
    (l : list (W * A)) (set : StoreSet) :
  hasStore s (fold_left (fun acc entry => let '(_, record) := entry in
                                          addStores (f record) acc) l set)
  = hasStore s set || existsb (fun entry => hasStore s (f (snd entry))) l.
Proof.
  revert set. induction l as [|[w x] l IH]; intros set; cbn [fold_left existsb snd].
  - now rewrite orb_false_r.
  - rewrite IH, hasStore_addStores. now rewrite <- orb_assoc.
Qed.

Lemma existsb_of_In (A : Type) (p : A -> bool) (l : list A) (x : A) :
  In x l -> p x = true -> existsb p l = true.
Proof. intros Hx Hp. apply existsb_exists. eauto. Qed.

(** Membership in the needed stores, as a boolean formula. *)
Ltac needed_stores :=
  cbn [User_getNeededStoresForCreate Profile_getNeededStoresForCreate
       Post_getNeededStoresForCreate Comment_getNeededStoresForCreate
       ProfileCreate_withUserId PostCreate_withAuthor PostCreate_withAuthorId
       CommentCreate_withUser CommentCreate_withUserId
       CommentCreate_withPost CommentCreate_withPostId connectTo] in *;
  repeat rewrite ?hasStore_fold, ?hasStore_fold_entries, ?hasStore_addStores,
                 ?hasStore_addStore in *;
  cbn [hasStore existsb orb] in *.

Ltac bool_facts :=
  repeat match goal with
         | H : _ || _ = true |- _ => apply orb_true_iff in H; destruct H as [H|H]
         | H : false = true |- _ => discriminate H
         | H : ?b = true |- context [?b] => rewrite H
         end;
  repeat (rewrite orb_true_r || rewrite orb_true_l || rewrite orb_false_r
          || rewrite orb_false_l);
  try reflexivity.

(** Which stores [_getNeededStoresForCreate] returns. *)
Lemma User_needed_stores (s : StoreName) (d_id : option Z) (d_name : string)
    (d_profile : option (NestedOne ProfileCreate ProfileWhere))
    (d_posts : option (NestedMany PostCreate PostWhere))
    (d_comments : option (NestedMany CommentCreate CommentWhere)) :
  hasStore s (User_getNeededStoresForCreate
                (mkUserCreate d_id d_name d_profile d_posts d_comments))
  = StoreName_eqb s User
    || match d_profile with
       | None => false
       | Some profile =>
           StoreName_eqb s Profile
           || match n_create profile with
              | None => false
              | Some record => hasStore s (Profile_getNeededStoresForCreate record)
              end
           || match n_connectOrCreate profile with
              | None => false
              | Some entry => hasStore s (Profile_getNeededStoresForCreate (snd entry))
              end
       end
    || match d_posts with
       | None => false
       | Some posts =>
           StoreName_eqb s Post
           || match m_create posts with
              | None => false
              | Some l => existsb (fun x => hasStore s (Post_getNeededStoresForCreate x)) l
              end
           || match m_connectOrCreate posts with
              | None => false
              | Some l =>
                  existsb (fun e => hasStore s (Post_getNeededStoresForCreate (snd e))) l
              end
           || match m_createMany posts with
              | None => false
              | Some l => existsb (fun x => hasStore s (Post_getNeededStoresForCreate x)) l
              end
       end
    || match d_comments with
       | None => false
       | Some comments =>
           StoreName_eqb s Comment
           || match m_create comments with
              | None => false
              | Some l => existsb (fun x => hasStore s (Comment_getNeededStoresForCreate x)) l
              end
           || match m_connectOrCreate comments with
              | None => false
              | Some l =>
                  existsb (fun e => hasStore s (Comment_getNeededStoresForCreate (snd e))) l
              end
           || match m_createMany comments with
              | None => false
              | Some l => existsb (fun x => hasStore s (Comment_getNeededStoresForCreate x)) l
              end
       end.
Proof.
  destruct d_profile as [[[pc|] [[pw pcoc]|] pcon]|],
           d_posts as [[[tc|] [tcoc|] tcon [tcm|]]|],
           d_comments as [[[cc|] [ccoc|] ccon [ccm|]]|];
    needed_stores;
    cbn [n_create n_connectOrCreate m_create m_connectOrCreate m_createMany snd];
    rewrite ?orb_false_r, ?orb_assoc; reflexivity.
Qed.

Lemma Profile_needed_stores (s : StoreName) (d_id : option Z)
    (d_bio : option (Nullable string)) (d_user : option (NestedOne UserCreate UserWhere))
    (d_userId : option Z) :
  hasStore s (Profile_getNeededStoresForCreate (mkProfileCreate d_id d_bio d_user d_userId))
  = StoreName_eqb s Profile
    || match d_user with
       | None => false
       | Some user =>
           StoreName_eqb s User
           || match n_create user with
              | None => false
              | Some record => hasStore s (User_getNeededStoresForCreate record)
              end
           || match n_connectOrCreate user with
              | None => false
              | Some entry => hasStore s (User_getNeededStoresForCreate (snd entry))
              end
       end
    || match d_userId with
       | None => false
       | Some _ => StoreName_eqb s User
       end.
Proof.
  destruct d_user as [[[uc|] [[uw ucoc]|] ucon]|], d_userId as [k|];
    needed_stores; cbn [n_create n_connectOrCreate snd];
    rewrite ?orb_false_r, ?orb_assoc; reflexivity.
Qed.

Lemma Post_needed_stores (s : StoreName) (d_id : option Z) (d_title : string)
    (d_author : option (NestedOne UserCreate UserWhere)) (d_authorId : option (Nullable Z))
    (d_tags : option (ListInput string)) (d_numberArr : option (ListInput Z))
    (d_comments : option (NestedMany CommentCreate CommentWhere)) :
  hasStore s (Post_getNeededStoresForCreate
                (mkPostCreate d_id d_title d_author d_authorId d_tags d_numberArr d_comments))
  = StoreName_eqb s Post
    || match d_author with
       | None => false
       | Some author =>
           StoreName_eqb s User
           || match n_create author with
              | None => false
              | Some record => hasStore s (User_getNeededStoresForCreate record)
              end
           || match n_connectOrCreate author with
              | None => false
              | Some entry => hasStore s (User_getNeededStoresForCreate (snd entry))
              end
       end
    || match d_authorId with
       | None => false
       | Some _ => StoreName_eqb s User
       end
    || match d_comments with
       | None => false
       | Some comments =>
           StoreName_eqb s Comment
           || match m_create comments with
              | None => false
              | Some l => existsb (fun x => hasStore s (Comment_getNeededStoresForCreate x)) l
              end
           || match m_connectOrCreate comments with
              | None => false
              | Some l =>
                  existsb (fun e => hasStore s (Comment_getNeededStoresForCreate (snd e))) l
              end
           || match m_createMany comments with
              | None => false
              | Some l => existsb (fun x => hasStore s (Comment_getNeededStoresForCreate x)) l
              end
       end.
Proof.
  destruct d_author as [[[uc|] [[uw ucoc]|] ucon]|], d_authorId as [k|],
           d_comments as [[[cc|] [ccoc|] ccon [ccm|]]|];
    needed_stores;
    cbn [n_create n_connectOrCreate m_create m_connectOrCreate m_createMany snd];
    rewrite ?orb_false_r, ?orb_assoc; reflexivity.
Qed.

Lemma Comment_needed_stores (s : StoreName) (d_id : option string) (d_text : string)
    (d_post : option (NestedOne PostCreate PostWhere)) (d_postId : option Z)
    (d_user : option (NestedOne UserCreate UserWhere)) (d_userId : option Z) :
  hasStore s (Comment_getNeededStoresForCreate
                (mkCommentCreate d_id d_text d_post d_postId d_user d_userId))
  = StoreName_eqb s Comment
    || match d_post with
       | None => false
       | Some post =>
           StoreName_eqb s Post
           || match n_create post with
              | None => false
              | Some record => hasStore s (Post_getNeededStoresForCreate record)
              end
           || match n_connectOrCreate post with
              | None => false
              | Some entry => hasStore s (Post_getNeededStoresForCreate (snd entry))
              end
       end
    || match d_postId with
       | None => false
       | Some _ => StoreName_eqb s Post
       end
    || match d_user with
       | None => false
       | Some user =>
           StoreName_eqb s User
           || match n_create user with
              | None => false
              | Some record => hasStore s (User_getNeededStoresForCreate record)
              end
           || match n_connectOrCreate user with
              | None => false
              | Some entry => hasStore s (User_getNeededStoresForCreate (snd entry))
              end
       end
    || match d_userId with
       | None => false
       | Some _ => StoreName_eqb s User
       end.
Proof.
  destruct d_post as [[[tc|] [[tw tcoc]|] tcon]|], d_postId as [k|],
           d_user as [[[uc|] [[uw ucoc]|] ucon]|], d_userId as [k'|];
    needed_stores; cbn [n_create n_connectOrCreate snd];
    rewrite ?orb_false_r, ?orb_assoc; reflexivity.
Qed.

(** The payloads that [create] hands to the other engines need no store
    beyond those of the payload they were made from and the store of the
    engine that made them. *)
Lemma Profile_withUserId_needs (s : StoreName) (c : ProfileCreate) (k : Z) :
  hasStore s (Profile_getNeededStoresForCreate (ProfileCreate_withUserId c k)) = true ->
  StoreName_eqb s User = true \/ hasStore s (Profile_getNeededStoresForCreate c) = true.
Proof.
  destruct c as [ci cb cu cuid]. cbn [ProfileCreate_withUserId].
  rewrite !Profile_needed_stores. intros H. bool_facts; auto.
  all: right; bool_facts.
Qed.

Lemma Post_withAuthor_needs (s : StoreName) (c : PostCreate) (k : Z) :
  hasStore s (Post_getNeededStoresForCreate (PostCreate_withAuthor c k)) = true ->
  StoreName_eqb s User = true \/ hasStore s (Post_getNeededStoresForCreate c) = true.
Proof.
  destruct c as [ci ct ca caid ctags carr cc]. cbn [PostCreate_withAuthor].
  rewrite !Post_needed_stores. cbn [connectTo n_create n_connectOrCreate].
  intros H. bool_facts; auto.
  all: right; bool_facts.
Qed.

Lemma Comment_withUser_needs (s : StoreName) (c : CommentCreate) (k : Z) :
  hasStore s (Comment_getNeededStoresForCreate (CommentCreate_withUser c k)) = true ->
  StoreName_eqb s User = true \/ hasStore s (Comment_getNeededStoresForCreate c) = true.
Proof.
  destruct c as [ci ct cp cpid cu cuid]. cbn [CommentCreate_withUser].
  rewrite !Comment_needed_stores. cbn [connectTo n_create n_connectOrCreate].
  intros H. bool_facts; auto.
  all: right; bool_facts.
Qed.

Lemma Comment_withUserId_needs (s : StoreName) (c : CommentCreate) (k : Z) :
  hasStore s (Comment_getNeededStoresForCreate (CommentCreate_withUserId c k)) = true ->
  StoreName_eqb s User = true \/ hasStore s (Comment_getNeededStoresForCreate c) = true.
Proof.
  destruct c as [ci ct cp cpid cu cuid]. cbn [CommentCreate_withUserId].
  rewrite !Comment_needed_stores. intros H. bool_facts; auto.
  all: right; bool_facts.
Qed.

Lemma Comment_withPost_needs (s : StoreName) (c : CommentCreate) (k : Z) :
  hasStore s (Comment_getNeededStoresForCreate (CommentCreate_withPost c k)) = true ->
  StoreName_eqb s Post = true \/ hasStore s (Comment_getNeededStoresForCreate c) = true.
Proof.
  destruct c as [ci ct cp cpid cu cuid]. cbn [CommentCreate_withPost].
  rewrite !Comment_needed_stores. cbn [connectTo n_create n_connectOrCreate].
  intros H. bool_facts; auto.
  all: right; bool_facts.
Qed.

Lemma Comment_withPostId_needs (s : StoreName) (c : CommentCreate) (k : Z) :
  hasStore s (Comment_getNeededStoresForCreate (CommentCreate_withPostId c k)) = true ->
  StoreName_eqb s Post = true \/ hasStore s (Comment_getNeededStoresForCreate c) = true.
Proof.
  destruct c as [ci ct cp cpid cu cuid]. cbn [CommentCreate_withPostId].
  rewrite !Comment_needed_stores. intros H. bool_facts; auto.
  all: right; bool_facts.
Qed.

Lemma staysWithin_User_fillDefaults scope d : staysWithin scope (User_fillDefaults d).
Proof. apply staysWithin_fillDefaults. Qed.
Lemma staysWithin_Profile_fillDefaults scope d : staysWithin scope (Profile_fillDefaults d).
Proof. apply staysWithin_fillDefaults. Qed.
Lemma staysWithin_Post_fillDefaults scope d : staysWithin scope (Post_fillDefaults d).
Proof. apply staysWithin_fillDefaults. Qed.
Lemma staysWithin_Comment_fillDefaults scope d : staysWithin scope (Comment_fillDefaults d).
Proof. apply staysWithin_fillDefaults. Qed.

#[local] Hint Resolve staysWithin_User_fillDefaults staysWithin_Profile_fillDefaults
  staysWithin_Post_fillDefaults staysWithin_Comment_fillDefaults : scope.

(** A store, or the stores of a nested payload, are within a scope that
    includes the stores needed for the payload at hand. *)
Ltac in_scope Hincl :=
  try (let s := fresh "s" in
       let Hs := fresh "Hs" in
       intros s Hs;
       try (first [apply Profile_withUserId_needs in Hs
                  |apply Post_withAuthor_needs in Hs
                  |apply Comment_withUser_needs in Hs
                  |apply Comment_withUserId_needs in Hs
                  |apply Comment_withPost_needs in Hs
                  |apply Comment_withPostId_needs in Hs];
            destruct Hs as [Hs|Hs]));
  apply Hincl;
  rewrite ?User_needed_stores, ?Profile_needed_stores, ?Post_needed_stores,
          ?Comment_needed_stores;
  repeat match goal with
         | H : _ = Some _ |- _ => rewrite H
         end;
  try match goal with
      | Hin : In ?c ?l, Hs : hasStore ?s (?f ?c) = true |- _ =>
          rewrite (existsb_of_In (fun x => hasStore s (f x)) l c Hin Hs)
      end;
  cbn [StoreName_eqb];
  bool_facts.

Ltac scope_call IHU IHP IHT IHC :=
  match goal with
  | |- staysWithin _ (User_add _) => apply staysWithin_User_add
  | |- staysWithin _ (Profile_add _) => apply staysWithin_Profile_add
  | |- staysWithin _ (Post_add _) => apply staysWithin_Post_add
  | |- staysWithin _ (Comment_add _) => apply staysWithin_Comment_add
  | |- staysWithin _ (Profile_update _ _) => apply staysWithin_Profile_update
  | |- staysWithin _ (Post_update _ _) => apply staysWithin_Post_update
  | |- staysWithin _ (Comment_update _ _) => apply staysWithin_Comment_update
  | |- staysWithin _ (Post_createMany _) => apply staysWithin_Post_createMany
  | |- staysWithin _ (Comment_createMany _) => apply staysWithin_Comment_createMany
  | |- staysWithin _ (User_create _ _) => apply IHU
  | |- staysWithin _ (Profile_create _ _) => apply IHP
  | |- staysWithin _ (Post_create _ _) => apply IHT
  | |- staysWithin _ (Comment_create _ _) => apply IHC
  | |- staysWithin _ (forEach _ _) => apply staysWithin_forEach; intros
  end.

Lemma create_staysWithin (fuel : nat) :
  (forall data scope,
      StoreSet_incl (User_getNeededStoresForCreate data) scope ->
      staysWithin scope (User_create fuel data))
  /\ (forall data scope,
        StoreSet_incl (Profile_getNeededStoresForCreate data) scope ->
        staysWithin scope (Profile_create fuel data))
  /\ (forall data scope,
        StoreSet_incl (Post_getNeededStoresForCreate data) scope ->
        staysWithin scope (Post_create fuel data))
  /\ (forall data scope,
        StoreSet_incl (Comment_getNeededStoresForCreate data) scope ->
        staysWithin scope (Comment_create fuel data)).
Proof.
  induction fuel as [|fuel (IHU & IHP & IHT & IHC)].
  - repeat split; intros data scope _ w; exact I.
  - repeat split.
    + intros [d_id d_name d_profile d_posts d_comments] scope Hincl.
      cbn [User_create].
      repeat (scope_step || scope_call IHU IHP IHT IHC).
      all: in_scope Hincl.
    + intros [d_id d_bio d_user d_userId] scope Hincl.
      cbn [Profile_create].
      repeat (scope_step || scope_call IHU IHP IHT IHC).
      all: in_scope Hincl.
    + intros [d_id d_title d_author d_authorId d_tags d_numberArr d_comments] scope Hincl.
      cbn [Post_create].
      repeat (scope_step || scope_call IHU IHP IHT IHC).
      all: in_scope Hincl.
    + intros [d_id d_text d_post d_postId d_user d_userId] scope Hincl.
      cbn [Comment_create].
      repeat (scope_step || scope_call IHU IHP IHT IHC).
      all: in_scope Hincl.
Qed.

Lemma StoreSet_incl_refl (a : StoreSet) : StoreSet_incl a a.
Proof. intros s H. exact H. Qed.

(** X8.  [create] of each engine writes only to the stores that
    [_getNeededStoresForCreate] computes for its payload, the stores its
    transaction is opened on: whether the call returns or throws, every
    table outside that set is what it was, at any depth of nested writes
    (when the call throws after [tx.abort()], all tables are back where the
    transaction began). *)
Theorem create_writes_within_its_scope (fuel : nat) :
  (forall data, staysWithin (User_getNeededStoresForCreate data) (User_create fuel data))
  /\ (forall data,
        staysWithin (Profile_getNeededStoresForCreate data) (Profile_create fuel data))
  /\ (forall data, staysWithin (Post_getNeededStoresForCreate data) (Post_create fuel data))
  /\ (forall data,
        staysWithin (Comment_getNeededStoresForCreate data) (Comment_create fuel data)).
Proof.
  destruct (create_staysWithin fuel) as (HU & HP & HT & HC).
  repeat split; intros data;
    [apply HU|apply HP|apply HT|apply HC]; apply StoreSet_incl_refl.
Qed.

(** ** Foreign keys given by value *)

Lemma Post_findUniqueOrThrow_missing (k : Z) (w : World) :
  k = 0 \/ store_get Post_id Z.eqb k (PostStore (db_now w)) = None ->
  Post_findUniqueOrThrow (where_Post_id k) w = Throw RecordNotFound (abortedFrom w).
Proof.
  intros H. unfold Post_findUniqueOrThrow, Post_findUnique, bind, readStore.
  cbn [tw_id where_Post_id whereFields numberKey].
  destruct (k =? 0) eqn:E; [reflexivity|].
  destruct H as [ -> | -> ]; [discriminate|reflexivity].
Qed.

Lemma User_findUniqueOrThrow_missing (k : Z) (w : World) :
  k = 0 \/ store_get User_id Z.eqb k (UserStore (db_now w)) = None ->
  User_findUniqueOrThrow (where_User_id k) w = Throw RecordNotFound (abortedFrom w).
Proof.
  intros H. unfold User_findUniqueOrThrow, User_findUnique, bind, readStore.
  cbn [uw_id where_User_id whereFields numberKey].
  destruct (k =? 0) eqn:E; [reflexivity|].
  destruct H as [ -> | -> ]; [discriminate|reflexivity].
Qed.

(** X9.  [create] checks a foreign key that the payload gives by value
    before it writes anything: a comment whose [postId] is the key of no
    post, or is [0] (which [findUnique] never looks up), and a post whose
    [authorId] is the key of no user, or is [0], are refused with "Record not
    found", after [tx.abort()]. *)
Theorem create_checks_foreign_keys (fuel : nat) (w : World) (k : Z)
    (d_id : option string) (text : string)
    (d_user : option (NestedOne UserCreate UserWhere)) (d_userId : option Z)
    (t_id : option Z) (title : string)
    (tags : option (ListInput string)) (numberArr : option (ListInput Z))
    (comments : option (NestedMany CommentCreate CommentWhere)) :
  (k = 0 \/ store_get Post_id Z.eqb k (PostStore (db_now w)) = None ->
   Comment_create (S fuel) (mkCommentCreate d_id text None (Some k) d_user d_userId) w
   = Throw RecordNotFound (abortedFrom w))
  /\ (k = 0 \/ store_get User_id Z.eqb k (UserStore (db_now w)) = None ->
      Post_create (S fuel)
        (mkPostCreate t_id title None (Some (JVal k)) tags numberArr comments) w
      = Throw RecordNotFound (abortedFrom w)).
Proof.
  split; intros H.
  - cbn [Comment_create ifSet]. unfold bind at 1. unfold bind at 1. unfold done at 1.
    unfold bind at 1. now rewrite (@Post_findUniqueOrThrow_missing _ _ H).
  - cbn [Post_create]. unfold bind at 1. unfold bind at 1. unfold done at 1.
    unfold bind at 1. now rewrite (@User_findUniqueOrThrow_missing _ _ H).
Qed.

Lemma create_checks_foreign_keys_witness :
  Comment_create 1 (mkCommentCreate None "late" None (Some 7) None (Some 1))
    (withStore sampleStore johnCreated)
  = Throw RecordNotFound (abortedFrom johnCreated)
  /\ Post_create 1 (mkPostCreate None "p" None (Some (JVal 0)) None None None)
       (withStore sampleStore johnCreated)
     = Throw RecordNotFound (abortedFrom johnCreated).
Proof.
  destruct (@create_checks_foreign_keys 0 (withStore sampleStore johnCreated) 7
              None "late" None (Some 1) None "p" None None None) as [Hc _].
  destruct (@create_checks_foreign_keys 0 (withStore sampleStore johnCreated) 0
              None "late" None (Some 1) None "p" None None None) as [_ Hp].
  split.
  - apply Hc. right. reflexivity.
  - apply Hp. left. reflexivity.
Defined.

(** ** Finds leave the stores alone *)

Lemma readsOnly_ret (A : Type) (a : A) : readsOnly (ret a).
Proof. intros w. reflexivity. Qed.

Lemma readsOnly_throw (A : Type) (e : Error) : readsOnly (throw (A := A) e).
Proof. intros w. reflexivity. Qed.

Lemma readsOnly_out_of_fuel (A : Type) : readsOnly (fun _ : World => OutOfFuel (A := A)).
Proof. intros w. exact I. Qed.

Lemma readsOnly_readStore : readsOnly readStore.
Proof. intros w. reflexivity. Qed.

Lemma readsOnly_liftRead (A : Type) (f : Store -> Error + A) : readsOnly (liftRead f).
Proof. intros w. unfold liftRead. now destruct (f (db_now w)). Qed.

Lemma readsOnly_bind (A B : Type) (m : M A) (f : A -> M B) :
  readsOnly m -> (forall a, readsOnly (f a)) -> readsOnly (bind m f).
Proof.
  intros Hm Hf w. unfold bind. specialize (Hm w).
  destruct (m w) as [a w1|e w1|]; [subst w1; apply Hf|exact Hm|exact I].
Qed.

Lemma readsOnly_mapM (A B : Type) (f : A -> M B) (l : list A) :
  (forall x, readsOnly (f x)) -> readsOnly (mapM f l).
Proof.
  intros Hf. induction l as [|x l IH]; cbn [mapM].
  - apply readsOnly_ret.
  - apply readsOnly_bind; [apply Hf|]. intros y.
    apply readsOnly_bind; [exact IH|]. intros ys. apply readsOnly_ret.
Qed.

Lemma readsOnly_attach (Q R : Type) (a : option (option Q)) (find_ : option Q -> M R) :
  (forall q, readsOnly (find_ q)) -> readsOnly (attach a find_).
Proof.
  intros H. destruct a as [nested|]; cbn [attach].
  - apply readsOnly_bind; [apply H|]. intros r. apply readsOnly_ret.
  - apply readsOnly_ret.
Qed.

Create HintDb reads.
#[local] Hint Resolve readsOnly_ret readsOnly_throw readsOnly_out_of_fuel readsOnly_readStore
  readsOnly_liftRead : reads.

Ltac reads_step :=
  first
    [ apply readsOnly_bind; [|intro]
    | apply readsOnly_mapM; intro
    | apply readsOnly_attach; intro
    | solve [auto with reads]
    | match goal with
      | |- readsOnly (match ?x with _ => _ end) => destruct x
      | |- readsOnly (let _ := _ in _) => cbv zeta
      end ].

Section FindsRead.
Variable User_findUnique_ : UserArgs -> M (Lookup UserResult).
Variable Profile_findUnique_ : ProfileArgs -> M (Lookup ProfileResult).
Variable Post_findUnique_ : PostArgs -> M (Lookup PostResult).
Variable Post_findMany_ : option PostArgs -> M (list PostResult).
Variable Comment_findMany_ : option CommentArgs -> M (list CommentResult).
Hypothesis User_reads : forall q, readsOnly (User_findUnique_ q).
Hypothesis Profile_reads : forall q, readsOnly (Profile_findUnique_ q).
Hypothesis Post_reads : forall q, readsOnly (Post_findUnique_ q).
Hypothesis Posts_read : forall q, readsOnly (Post_findMany_ q).
Hypothesis Comments_read : forall q, readsOnly (Comment_findMany_ q).

Local Hint Resolve User_reads Profile_reads Post_reads Posts_read Comments_read : reads.

Lemma readsOnly_User_applyRelations (records : list UserRecord) (query : option UserArgs) :
  readsOnly (User_applyRelations Profile_findUnique_ Post_findMany_ Comment_findMany_
                                 records query).
Proof. unfold User_applyRelations. repeat reads_step. Qed.

Lemma readsOnly_Profile_applyRelations (records : list ProfileRecord)
    (query : option ProfileArgs) :
  readsOnly (Profile_applyRelations User_findUnique_ records query).
Proof. unfold Profile_applyRelations. repeat reads_step. Qed.

Lemma readsOnly_Post_applyRelations (records : list PostRecord) (query : option PostArgs) :
  readsOnly (Post_applyRelations User_findUnique_ Comment_findMany_ records query).
Proof. unfold Post_applyRelations. repeat reads_step. Qed.

Lemma readsOnly_Comment_applyRelations (records : list CommentRecord)
    (query : option CommentArgs) :
  readsOnly (Comment_applyRelations User_findUnique_ Post_findUnique_ records query).
Proof. unfold Comment_applyRelations. repeat reads_step. Qed.

Local Hint Resolve readsOnly_User_applyRelations readsOnly_Profile_applyRelations
  readsOnly_Post_applyRelations readsOnly_Comment_applyRelations : reads.

Lemma readsOnly_findWith_bodies :
  (forall q, readsOnly (User_findUniqueWith_body Profile_findUnique_ Post_findMany_
                                                 Comment_findMany_ q))
  /\ (forall q, readsOnly (Profile_findUniqueWith_body User_findUnique_ q))
  /\ (forall q, readsOnly (Post_findUniqueWith_body User_findUnique_ Comment_findMany_ q))
  /\ (forall q, readsOnly (Comment_findUniqueWith_body User_findUnique_ Post_findUnique_ q))
  /\ (forall q, readsOnly (User_findManyWith_body Profile_findUnique_ Post_findMany_
                                                  Comment_findMany_ q))
  /\ (forall q, readsOnly (Profile_findManyWith_body User_findUnique_ q))
  /\ (forall q, readsOnly (Post_findManyWith_body User_findUnique_ Comment_findMany_ q))
  /\ (forall q, readsOnly (Comment_findManyWith_body User_findUnique_ Post_findUnique_ q)).
Proof.
  repeat split; intros q;
    unfold User_findUniqueWith_body, Profile_findUniqueWith_body, Post_findUniqueWith_body,
      Comment_findUniqueWith_body, User_findManyWith_body, Profile_findManyWith_body,
      Post_findManyWith_body, Comment_findManyWith_body;
    repeat reads_step.
Qed.
End FindsRead.

Lemma findWith_readsOnly (fuel : nat) :
  (forall q, readsOnly (User_findUniqueWith fuel q))
  /\ (forall q, readsOnly (Profile_findUniqueWith fuel q))
  /\ (forall q, readsOnly (Post_findUniqueWith fuel q))
  /\ (forall q, readsOnly (Post_findManyWith fuel q))
  /\ (forall q, readsOnly (Comment_findManyWith fuel q)).
Proof.
  induction fuel as [|fuel (IHu & IHp & IHt & IHts & IHcs)].
  - repeat split; intros q; apply readsOnly_out_of_fuel.
  - destruct (@readsOnly_findWith_bodies _ _ _ _ _ IHu IHp IHt IHts IHcs)
      as (Bu & Bp & Bt & _ & _ & _ & Bts & Bcs).
    repeat split; intros q; [apply Bu|apply Bp|apply Bt|apply Bts|apply Bcs].
Qed.

(** X10.  A find, however deep its [select] and [include] go, leaves the
    world as it found it, whether it returns or throws: no store is written,
    the transaction is not aborted, no listener is called. *)
Theorem finds_change_nothing (fuel : nat) :
  (forall q, readsOnly (User_findManyWith fuel q))
  /\ (forall q, readsOnly (Profile_findManyWith fuel q))
  /\ (forall q, readsOnly (Post_findManyWith fuel q))
  /\ (forall q, readsOnly (Comment_findManyWith fuel q))
  /\ (forall q, readsOnly (User_findUniqueWith fuel q))
  /\ (forall q, readsOnly (Profile_findUniqueWith fuel q))
  /\ (forall q, readsOnly (Post_findUniqueWith fuel q))
  /\ (forall q, readsOnly (Comment_findUniqueWith fuel q)).
Proof.
  destruct (findWith_readsOnly fuel) as (Hu & Hp & Ht & Hts & Hcs).
  repeat split; try assumption; intros q; destruct fuel as [|fuel];
    try apply readsOnly_out_of_fuel;
    destruct (findWith_readsOnly fuel) as (Hu' & Hp' & Ht' & Hts' & Hcs');
    destruct (@readsOnly_findWith_bodies _ _ _ _ _ Hu' Hp' Ht' Hts' Hcs')
      as (_ & _ & _ & Bc & Bus & Bps & _ & _);
    [apply Bus|apply Bps|apply Bc].
Qed.

(** ** Relations attached by [include] *)

Lemma Post_applyWhere_authorId (st : Store) (table : list PostRecord) (k : Z) :
  Post_applyWhereClause st table (Some (where_Post_authorId k))
  = scopedTo Post_authorId k table.
Proof.
  unfold Post_applyWhereClause, where_Post_authorId, applyWhere, scopedTo. simpl.
  apply filter_ext. intros r. now rewrite !andb_true_r.
Qed.

Lemma Post_preprocess_result (record : PostRecord) :
  Post_preprocessResult (Post_result record)
  = Post_result (Post_preprocessListFields record).
Proof. reflexivity. Qed.

(** A nested find that carries no more than a where clause returns the rows
    that the clause selects, in the order of the table. *)
Lemma Post_findManyWith_where (fuel : nat) (nested : option PostArgs) (where_ : PostWhere)
    (w : World) :
  ta_orderBy nested = None -> ta_select nested = None -> ta_include nested = None ->
  Post_findManyWith (S fuel) (Some (Post_nestedArgs nested where_)) w
  = Ok (map (fun p => Post_result (Post_preprocessListFields p))
            (Post_applyWhereClause (db_now w) (PostStore (db_now w)) (Some where_))) w.
Proof.
  intros Ho Hs Hi. unfold Post_nestedArgs. rewrite Ho, Hs, Hi.
  cbn [Post_findManyWith]. unfold Post_findManyWith_body.
  cbn [ta_where ta_orderBy ta_select ta_include].
  unfold bind at 1. cbn [readStore]. 
  unfold bind at 1. unfold liftRead at 1.
  cbn [Post_applyOrderByClause applyOrderByClause].
  unfold Post_applyRelations. cbn [ts_author ti_author ts_comments ti_comments attachment attach].
  unfold bind at 1.
  erewrite mapM_reads; [|intros x; reflexivity].
  cbn [ret Post_applySelectClause]. rewrite map_map. reflexivity.
Qed.

Lemma findMany_Ok_inv (A : Type) (f : Store -> Error + A) (w w' : World) (a : A) :
  liftRead f w = Ok a w' -> f (db_now w) = inr a /\ w' = w.
Proof.
  unfold liftRead. destruct (f (db_now w)); [discriminate|]. now intros [= -> ->].
Qed.

(** X11.  [findMany] on users with [include: { posts }], where [posts] is
    [true] or carries a where clause and nothing else, and with a where
    clause and orderBy clauses of its own that consult no relation: the
    users come as
    [findMany] without the [include] returns them, each with every scalar
    and, under [posts], all the posts whose [authorId] is the user's key, in
    the order of the table.  A where clause given for the posts has no
    effect. *)
Theorem User_findMany_include_posts (fuel : nat) (where_ : option UserWhere)
    (orderBy : option (list UserOrderBy)) (nested : option (option PostWhere))
    (w : World) (records : list UserRecord)
    (scalar_where : User_scalarWhere where_ = true)
    (scalar_orderBy : User_scalarOrderBy orderBy = true)
    (found : User_findMany (Some (mkFindArgs where_ orderBy)) w = Ok records w) :
  User_findManyWith (S (S fuel))
    (Some (mkUserArgs where_ orderBy None (include_posts nested))) w
  = Ok (map (fun u =>
               mkUserResult (Some (User_id u)) (Some (User_name u)) None
                 (Some (map (fun p => Post_result (Post_preprocessListFields p))
                            (scopedTo Post_authorId (User_id u) (PostStore (db_now w)))))
                 None)
            records) w.
Proof.
  unfold User_findMany in found. unfold bind in found. cbn [readStore whereOf orderByOf
    q_where q_orderBy] in found.
  apply findMany_Ok_inv in found. destruct found as [found _].
  cbn [User_findManyWith]. unfold User_findManyWith_body.
  cbn [ua_where ua_orderBy ua_select ua_include].
  unfold bind at 1. cbn [readStore].
  unfold bind at 1. unfold liftRead at 1. rewrite found.
  unfold bind at 1. unfold User_applyRelations.
  erewrite mapM_reads; [reflexivity|].
  intros u. unfold include_posts.
  cbn [ua_select ua_include us_profile ui_profile us_posts ui_posts us_comments ui_comments].
  assert (Hposts :
    forall attach_posts : option PostArgs,
      ta_orderBy attach_posts = None -> ta_select attach_posts = None ->
      ta_include attach_posts = None ->
      Post_findManyWith (S fuel)
        (Some (Post_nestedArgs attach_posts (where_Post_authorId (User_id u)))) w
      = Ok (map (fun p => Post_result (Post_preprocessListFields p))
                (scopedTo Post_authorId (User_id u) (PostStore (db_now w)))) w).
  { intros a Ho Hs Hi. rewrite Post_findManyWith_where by assumption.
    now rewrite Post_applyWhere_authorId. }
  destruct nested as [nested_where|]; cbn [attachment attach];
    unfold bind, ret; rewrite Hposts by reflexivity; reflexivity.
Qed.

Lemma User_findMany_include_posts_witness :
  User_findManyWith 2
    (Some (mkUserArgs None None None (include_posts (Some (Some (where_Post_id 7))))))
    (openOn sampleStore)
  = Ok (map (fun u =>
               mkUserResult (Some (User_id u)) (Some (User_name u)) None
                 (Some (map (fun p => Post_result (Post_preprocessListFields p))
                            (scopedTo Post_authorId (User_id u)
                                      (PostStore (db_now (openOn sampleStore))))))
                 None)
            (UserStore sampleStore)) (openOn sampleStore).
Proof.
  apply (@User_findMany_include_posts 0 None None (Some (Some (where_Post_id 7)))
           (openOn sampleStore) (UserStore sampleStore)); reflexivity.
Defined.

(** ** The keys of a result *)

Lemma mapM_Ok_Forall (A B : Type) (f : A -> M B) (P : B -> Prop) :
  (forall x w y w', f x w = Ok y w' -> P y) ->
  forall l w ys w', mapM f l w = Ok ys w' -> Forall P ys.
Proof.
  intros Hf. induction l as [|x l IH]; cbn [mapM]; intros w ys w' H.
  - injection H as <- _. constructor.
  - apply bind_Ok_inv in H. destruct H as (y & w1 & Hy & H).
    apply bind_Ok_inv in H. destruct H as (ys' & w2 & Hys & H).
    injection H as <- _. constructor; [exact (Hf _ _ _ _ Hy)|exact (IH _ _ _ Hys)].
Qed.

Lemma attach_Ok (Q R : Type) (a : option (option Q)) (find_ : option Q -> M R)
    (w w' : World) (r : option R) :
  attach a find_ w = Ok r w' -> isSome r = isSome a.
Proof.
  destruct a as [nested|]; cbn [attach].
  - intros H. apply bind_Ok_inv in H. destruct H as (x & w1 & _ & H).
    now injection H as <- _.
  - now intros [= <- _].
Qed.

Lemma selects_attachment (Q : Type) (s i : option (RelationArg Q)) :
  selects s = true -> isSome (attachment s i) = true.
Proof. destruct s as [[[|]|q]|]; try discriminate; reflexivity. Qed.

Lemma isSome_keep (A : Type) (selected : bool) (v : option A) :
  (selected = true -> isSome v = true) -> isSome (keep selected v) = selected.
Proof. destruct selected; cbn [keep]; [now intros ->|reflexivity]. Qed.

(** X12.  With a select clause, every user that [findMany] returns has
    exactly the keys that the clause asks for: the scalars it names, and the
    relations it names.  A relation that only [include] names is fetched and
    then dropped. *)
Theorem User_findMany_select_keys (fuel : nat) (where_ : option UserWhere)
    (orderBy : option (list UserOrderBy)) (select : UserSelect)
    (include : option UserInclude) (w w' : World) (results : list UserResult)
    (returned : User_findManyWith fuel
                  (Some (mkUserArgs where_ orderBy (Some select) include)) w
                = Ok results w') :
  Forall (fun record => User_keys record = UserSelect_keys select) results.
Proof.
  destruct fuel as [|fuel]; [discriminate|].
  cbn [User_findManyWith] in returned. unfold User_findManyWith_body in returned.
  cbn [ua_where ua_orderBy ua_select ua_include] in returned.
  apply bind_Ok_inv in returned. destruct returned as (st & w1 & _ & returned).
  cbv zeta in returned.
  apply bind_Ok_inv in returned. destruct returned as (records & w2 & _ & returned).
  apply bind_Ok_inv in returned. destruct returned as (related & w3 & Hrel & returned).
  injection returned as <- _.
  destruct select as [s_id s_name s_profile s_posts s_comments].
  cbn [User_applySelectClause UserSelect_keys]. apply Forall_map.
  unfold User_applyRelations in Hrel.
  refine (@mapM_Ok_Forall _ _ _ _ _ _ _ _ _ Hrel).
  intros u v r v' H. cbn [ua_select ua_include us_profile us_posts us_comments] in H.
  apply bind_Ok_inv in H. destruct H as (profile & v1 & Hprofile & H).
  apply bind_Ok_inv in H. destruct H as (posts & v2 & Hposts & H).
  apply bind_Ok_inv in H. destruct H as (comments & v3 & Hcomments & H).
  injection H as <- _. cbn [User_keys keep isSome isNone negb].
  apply attach_Ok in Hprofile, Hposts, Hcomments.
  rewrite !isSome_keep; [reflexivity|..]; intros E; try reflexivity;
    first [rewrite Hcomments|rewrite Hposts|rewrite Hprofile];
    now apply selects_attachment.
Qed.

Lemma User_findMany_select_keys_witness :
  User_findManyWith 2
    (Some (mkUserArgs None None (Some select_User_id) (include_posts None)))
    (openOn sampleStore)
  = Ok [mkUserResult (Some 1) None None None None; mkUserResult (Some 2) None None None None]
       (openOn sampleStore)
  /\ Forall (fun record => User_keys record = UserSelect_keys select_User_id)
            [mkUserResult (Some 1) None None None None;
             mkUserResult (Some 2) None None None None].
Proof.
  split; [reflexivity|].
  exact (@User_findMany_select_keys 2 None None select_User_id (include_posts None)
           (openOn sampleStore) (openOn sampleStore) _ eq_refl).
Defined.

(** ** The list fields of a post *)

Lemma Post_preprocessResult_lists (record : PostResult) :
  isSome (tr_tags (Post_preprocessResult record)) = true
  /\ isSome (tr_numberArr (Post_preprocessResult record)) = true.
Proof. destruct record. split; reflexivity. Qed.

(** X13.  Every post that [findMany] returns has [tags] and [numberArr],
    whatever the select clause: [_preprocessListFields] runs after
    [_applySelectClause], so a list field that the select clause leaves out
    comes back as the empty list, not as the stored list and not as a
    missing key. *)
Theorem Post_findMany_list_fields (fuel : nat) (query : option PostArgs) (w w' : World)
    (results : list PostResult)
    (returned : Post_findManyWith fuel query w = Ok results w') :
  Forall (fun record =>
            isSome (tr_tags record) = true /\ isSome (tr_numberArr record) = true
            /\ (ta_select query <> None -> ts_tags (ta_select query) = false ->
                tr_tags record = Some [])
            /\ (ta_select query <> None -> ts_numberArr (ta_select query) = false ->
                tr_numberArr record = Some []))
         results.
Proof.
  destruct fuel as [|fuel]; [discriminate|].
  cbn [Post_findManyWith] in returned. unfold Post_findManyWith_body in returned.
  apply bind_Ok_inv in returned. destruct returned as (st & w1 & _ & returned).
  cbv zeta in returned.
  apply bind_Ok_inv in returned. destruct returned as (records & w2 & _ & returned).
  apply bind_Ok_inv in returned. destruct returned as (related & w3 & _ & returned).
  injection returned as <- _.
  apply Forall_map. apply Forall_forall. intros record Hin.
  destruct (Post_preprocessResult_lists record) as [Htags Hnums].
  repeat split; try assumption; intros Hsel Hoff;
    destruct (ta_select query) as [[s_id s_title s_authorId s_tags s_numberArr s_author s_comments]|];
    try contradiction; cbn [ts_tags ts_numberArr] in Hoff; subst;
    cbn [Post_applySelectClause] in Hin; apply in_map_iff in Hin;
    destruct Hin as ([] & <- & _); reflexivity.
Qed.

Lemma Post_findMany_list_fields_witness :
  Post_findManyWith 1 (Some (mkPostArgs None None (Some select_Post_title) None))
    (openOn taggedPosts)
  = Ok [mkPostResult None (Some "p"%string) None (Some []) (Some []) None None;
        mkPostResult None (Some "q"%string) None (Some []) (Some []) None None;
        mkPostResult None (Some "r"%string) None (Some []) (Some []) None None]
       (openOn taggedPosts)
  /\ Forall (fun record =>
               isSome (tr_tags record) = true /\ isSome (tr_numberArr record) = true
               /\ (Some select_Post_title <> None -> false = false ->
                   tr_tags record = Some [])
               /\ (Some select_Post_title <> None -> false = false ->
                   tr_numberArr record = Some []))
            [mkPostResult None (Some "p"%string) None (Some []) (Some []) None None;
             mkPostResult None (Some "q"%string) None (Some []) (Some []) None None;
             mkPostResult None (Some "r"%string) None (Some []) (Some []) None None].
Proof.
  split; [reflexivity|].
  exact (@Post_findMany_list_fields 1
           (Some (mkPostArgs None None (Some select_Post_title) None))
           (openOn taggedPosts)
           _ _ eq_refl).
Defined.

(** ** A to-one relation attached by [include] *)

Lemma User_findUniqueWith_id (fuel : nat) (nested : option UserArgs) (k : Z) (w : World) :
  ua_select nested = None -> ua_include nested = None ->
  User_findUniqueWith (S fuel) (User_nestedArgs nested (where_User_id k)) w
  = Ok (authorOf (db_now w) (Some k)) w.
Proof.
  intros Hs Hi. unfold User_nestedArgs. rewrite Hs, Hi.
  cbn [User_findUniqueWith]. unfold User_findUniqueWith_body.
  cbn [ua_where ua_select ua_include authorOf].
  unfold bind at 1. cbn [readStore].
  cbn [uw_id where_User_id whereFields numberKey].
  destruct (k =? 0); [reflexivity|].
  destruct (store_get User_id Z.eqb k (UserStore (db_now w))) as [u|] eqn:E; [|reflexivity].
  destruct (store_get_In User_id Z.eqb Z.eqb_eq _ _ E) as [_ <-].
  rewrite User_applyWhere_id. reflexivity.
Qed.

Lemma Post_findMany_Ok_inv (query : option PostFindArgs) (w w' : World)
    (records : list PostRecord) :
  Post_findMany query w = Ok records w' ->
  exists stored,
    Post_applyOrderByClause (db_now w)
      (Post_applyWhereClause (db_now w) (PostStore (db_now w)) (whereOf query))
      (orderByOf query) = inr stored
    /\ records = map Post_preprocessListFields stored /\ w' = w.
Proof.
  unfold Post_findMany. intros H.
  apply bind_Ok_inv in H. destruct H as (st & w1 & Hst & H).
  injection Hst as <- <-. cbv zeta in H.
  apply bind_Ok_inv in H. destruct H as (stored & w2 & Hstored & H).
  apply findMany_Ok_inv in Hstored. destruct Hstored as [Hstored ->].
  injection H as <- <-. now exists stored.
Qed.

(** X14.  [findMany] on posts with [include: { author: true }] and with a
    where clause and orderBy clauses that consult no relation: the posts
    come as [findMany] without the [include] returns them, each with every
    scalar and, under [author], the user whose key is the post's [authorId];
    [author] is [null] for a post without author, for an [authorId] that is
    the key of no user, and for the [authorId] 0, which [findUnique] does not
    look up. *)
Theorem Post_findMany_include_author (fuel : nat) (where_ : option PostWhere)
    (orderBy : option (list PostOrderBy)) (w : World) (records : list PostRecord)
    (scalar_where : Post_scalarWhere where_ = true)
    (scalar_orderBy : Post_scalarOrderBy orderBy = true)
    (found : Post_findMany (Some (mkFindArgs where_ orderBy)) w = Ok records w) :
  Post_findManyWith (S (S fuel)) (Some (mkPostArgs where_ orderBy None include_author)) w
  = Ok (map (fun p =>
               mkPostResult (Some (Post_id p)) (Some (Post_title p))
                 (Some (toNullable (Post_authorId p))) (Post_tags p) (Post_numberArr p)
                 (Some (authorOf (db_now w) (Post_authorId p))) None)
            records) w.
Proof.
  apply Post_findMany_Ok_inv in found. destruct found as (stored & found & -> & _).
  cbn [whereOf orderByOf q_where q_orderBy] in found.
  cbn [Post_findManyWith]. unfold Post_findManyWith_body.
  cbn [ta_where ta_orderBy ta_select ta_include].
  unfold bind at 1. cbn [readStore].
  unfold bind at 1. unfold liftRead at 1. rewrite found.
  unfold bind at 1. unfold Post_applyRelations.
  rewrite (@mapM_reads _ _ _
             (fun p => mkPostResult (Some (Post_id p)) (Some (Post_title p))
                         (Some (toNullable (Post_authorId p)))
                         (Post_tags p) (Post_numberArr p)
                         (Some (authorOf (db_now w) (Post_authorId p))) None)).
  - cbn [ret Post_applySelectClause]. rewrite !map_map.
    apply (f_equal (fun l => Ok l w)). apply map_ext. intros []. reflexivity.
  - intros p. unfold include_author.
    cbn [ta_select ta_include ts_author ti_author ts_comments ti_comments attachment attach].
    destruct (Post_authorId p) as [k|] eqn:E.
    + unfold bind, ret. rewrite User_findUniqueWith_id by reflexivity.
      cbn [Post_preprocessResult]. reflexivity.
    + reflexivity.
Qed.

Lemma Post_findMany_include_author_witness :
  Post_findManyWith 2 (Some (mkPostArgs None None None include_author)) (openOn taggedPosts)
  = Ok [mkPostResult (Some 4) (Some "p"%string) (Some JNull) (Some ["t"%string]) (Some [7])
                     (Some IsNull) None;
        mkPostResult (Some 5) (Some "q"%string) (Some (JVal 1)) (Some []) (Some [])
                     (Some (Found (User_result ann))) None;
        mkPostResult (Some 6) (Some "r"%string) (Some (JVal 9)) (Some []) (Some [])
                     (Some IsNull) None]
       (openOn taggedPosts).
Proof.
  exact (@Post_findMany_include_author 0 None None (openOn taggedPosts) _
           eq_refl eq_refl eq_refl).
Defined.

(** ** createManyAndReturn *)

Section StoreInsert.
Variables (K R : Type).
Variable key : R -> K.
Variable keyLtb : K -> K -> bool.

Lemma In_store_insert (r x : R) (t : list R) :
  In x (store_insert key keyLtb r t) <-> x = r \/ In x t.
Proof.
  induction t as [|y t IH]; cbn [store_insert].
  - cbn. intuition congruence.
  - destruct (keyLtb (key r) (key y)); cbn [In]; [|rewrite IH]; intuition congruence.
Qed.

Lemma store_insert_Permutation (r : R) (t : list R) :
  Permutation (store_insert key keyLtb r t) (r :: t).
Proof.
  induction t as [|y t IH]; cbn [store_insert]; [reflexivity|].
  destruct (keyLtb (key r) (key y)); [reflexivity|].
  rewrite IH. apply perm_swap.
Qed.
End StoreInsert.

Lemma User_applySelectClause_app (l1 l2 : list UserResult) (select : option UserSelect) :
  User_applySelectClause (l1 ++ l2) select
  = User_applySelectClause l1 select ++ User_applySelectClause l2 select.
Proof. destruct select as [[]|]; cbn [User_applySelectClause]; [apply map_app|reflexivity]. Qed.

(** One turn of the two loops: the same write, the same failure. *)
Lemma User_createMany_turn (select : option UserSelect) (createData : UserCreate) (w : World) :
  match (filled <- User_fillDefaults createData ;;
         User_add (User_removeNestedCreateData filled) ;;; ret tt) w with
  | Ok _ w' =>
      exists r,
        (filled <- User_fillDefaults createData ;;
         let record := User_removeNestedCreateData filled in
         User_add record ;;;
         ret (User_applySelectClause
                (map User_result (match User_asRecord record with
                                  | Some r => [r] | None => [] end))
                select)) w
        = Ok (User_applySelectClause [User_result r] select) w'
        /\ User_name r = uc_name_of createData
        /\ (forall k, uc_id_of createData = Some k -> User_id r = k)
        /\ UserStore (db_now w') = store_insert User_id Z.ltb r (UserStore (db_now w))
  | Throw e w' =>
      (filled <- User_fillDefaults createData ;;
       let record := User_removeNestedCreateData filled in
       User_add record ;;;
       ret (User_applySelectClause
              (map User_result (match User_asRecord record with
                                | Some r => [r] | None => [] end))
              select)) w
      = Throw e w'
  | OutOfFuel => False
  end.
Proof.
  destruct createData as [[k|] name profile posts comments];
    unfold bind at 1 3 5; cbn [User_fillDefaults bind ret readStore];
    cbn [User_removeNestedCreateData User_asRecord User_add];
    unfold User_store_add, addTo, bind, readStore, store_add;
    cbn [User_id];
    match goal with
    | |- context [store_get User_id Z.eqb ?k ?t] =>
        destruct (store_get User_id Z.eqb k t); cbn; [reflexivity|]
    end;
    (eexists; split; [reflexivity|]; cbn [uc_name_of uc_id_of User_name User_id];
     split; [reflexivity|]; split; [|reflexivity]; intros k' E; congruence).
Qed.

Lemma User_createMany_loops (select : option UserSelect) (data : list UserCreate) (w : World) :
  match forEach data (fun createData =>
          filled <- User_fillDefaults createData ;;
          User_add (User_removeNestedCreateData filled) ;;; ret tt) w with
  | Ok _ w' =>
      exists rows,
        mapM (fun createData =>
                filled <- User_fillDefaults createData ;;
                let record := User_removeNestedCreateData filled in
                User_add record ;;;
                ret (User_applySelectClause
                       (map User_result (match User_asRecord record with
                                         | Some r => [r] | None => [] end))
                       select)) data w
        = Ok (map (fun r => User_applySelectClause [User_result r] select) rows) w'
        /\ Forall2 (fun createData r =>
                      User_name r = uc_name_of createData
                      /\ forall k, uc_id_of createData = Some k -> User_id r = k)
                   data rows
        /\ Permutation (UserStore (db_now w')) (rows ++ UserStore (db_now w))
  | Throw e w' =>
      mapM (fun createData =>
              filled <- User_fillDefaults createData ;;
              let record := User_removeNestedCreateData filled in
              User_add record ;;;
              ret (User_applySelectClause
                     (map User_result (match User_asRecord record with
                                       | Some r => [r] | None => [] end))
                     select)) data w
      = Throw e w'
  | OutOfFuel => False
  end.
Proof.
  revert w. induction data as [|d data IH]; intros w; cbn [forEach mapM].
  - exists []. split; [reflexivity|]. split; [constructor|reflexivity].
  - pose proof (User_createMany_turn select d w) as T. cbv beta in T.
    match type of T with
    | match ?m with _ => _ end => destruct m as [[] w1|e w1|] eqn:EF
    end; [|rewrite (bind_Throw _ _ _ EF), (bind_Throw _ _ _ T); reflexivity|contradiction].
    destruct T as (r & EH & Hname & Hkey & Hstore).
    rewrite (bind_Ok _ _ _ EF). specialize (IH w1).
    match type of IH with
    | match ?m with _ => _ end => destruct m as [[] w2|e w2|]
    end; [|rewrite (bind_Ok _ _ _ EH), (bind_Throw _ _ _ IH); reflexivity|contradiction].
    destruct IH as (rows & EM & Hrows & Hperm).
    exists (r :: rows). rewrite (bind_Ok _ _ _ EH), (bind_Ok _ _ _ EM).
    cbn [ret map]. split; [reflexivity|]. split.
    + constructor; [now split|exact Hrows].
    + rewrite Hperm, Hstore, store_insert_Permutation.
      symmetry. apply Permutation_middle.
Qed.

Lemma User_applySelectClause_concat (rows : list UserRecord) (select : option UserSelect) :
  List.concat (map (fun r => User_applySelectClause [User_result r] select) rows)
  = User_applySelectClause (map User_result rows) select.
Proof.
  induction rows as [|r rows IH]; cbn [map List.concat].
  - now destruct select as [[]|].
  - rewrite IH. change (User_result r :: map User_result rows)
      with ([User_result r] ++ map User_result rows).
    now rewrite User_applySelectClause_app.
Qed.

(** X15.  [createManyAndReturn] writes what [createMany] writes and fails as
    it fails.  When [createMany] returns the count [n],
    [createManyAndReturn] returns [n] results, one per payload and in their
    order, each a row with the name of its payload and, where the payload
    carries one, its key: the rows it has added, so that the table holds
    after the call these rows and the rows it held before, and no other,
    cut down in the result to the keys of the select clause. *)
Theorem User_createManyAndReturn_as_createMany (data : list UserCreate)
    (select : option UserSelect) (w : World) :
  match User_createMany data w with
  | Ok n w' =>
      exists rows,
        User_createManyAndReturn data select w
        = Ok (User_applySelectClause (map User_result rows) select) w'
        /\ n = List.length data
        /\ Forall2 (fun createData r =>
                      User_name r = uc_name_of createData
                      /\ forall k, uc_id_of createData = Some k -> User_id r = k)
                   data rows
        /\ Permutation (UserStore (db_now w')) (rows ++ UserStore (db_now w))
  | Throw e w' => User_createManyAndReturn data select w = Throw e w'
  | OutOfFuel => False
  end.
Proof.
  unfold User_createMany, User_createManyAndReturn.
  pose proof (User_createMany_loops select data w) as L.
  match type of L with
  | match ?m with _ => _ end => destruct m as [[] w1|e w1|] eqn:EF
  end; [|rewrite (bind_Throw _ _ _ EF), (bind_Throw _ _ _ L); reflexivity|contradiction].
  destruct L as (rows & EM & Hrows & Hperm).
  rewrite (bind_Ok _ _ _ EF), (bind_Ok _ _ _ EM).
  exists rows. cbn [ret]. rewrite User_applySelectClause_concat. now repeat split.
Qed.

(** ** Created with [connect], read back with [include] *)

Lemma Post_applyWhere_id (st : Store) (record : PostRecord) :
  Post_applyWhereClause st [record] (Some (where_Post_id (Post_id record))) = [record].
Proof.
  unfold Post_applyWhereClause, applyWhere, where_Post_id. simpl.
  now rewrite Z.eqb_refl.
Qed.

(** X16.  A post created with [author: { connect: { id: k } }] and read back
    by its key with [include: { author: true }] comes with the user under
    key [k] as its [author], and with [k] as its [authorId].  (The payload
    carries no key and no nested comments; the post table has room for one
    more key, its greatest key and the next being below 2^53; the assigned
    key is not 0, which [findUnique] would not look up.) *)
Theorem Post_create_then_include_author (fuel fuel' : nat) (data : PostCreate) (k : Z)
    (author : UserRecord) (w : World)
    (no_key : tc_id_of data = None) (no_comments : tc_comments_of data = None)
    (k_truthy : k <> 0)
    (connected : store_get User_id Z.eqb k (UserStore (db_now w)) = Some author)
    (key_truthy : nextId Post_id (PostStore (db_now w)) <> 0)
    (room : roomFor 1 Post_id (PostStore (db_now w))) :
  exists p w',
    Post_create (S fuel) (PostCreate_withAuthor data k) w = Ok p w'
    /\ Post_findUniqueWith (S (S fuel'))
         (mkPostArgs (Some (where_Post_id (Post_id p))) None None include_author) w'
       = Ok (Found (mkPostResult (Some (Post_id p)) (Some (Post_title p)) (Some (JVal k))
                                 (Post_tags p) (Post_numberArr p)
                                 (Some (Found (User_result author))) None)) w'.
Proof.
  eexists. eexists. split.
  - exact (@Post_create_with_author fuel data k author w no_key no_comments k_truthy connected
             room).
  - set (id := nextId Post_id (PostStore (db_now w))) in *.
    set (row := postRow id k data).
    assert (Hbelow : forall x, In x (PostStore (db_now w)) -> Post_id x < Post_id row)
      by (intros x Hx; cbn [row postRow Post_id]; now apply below_nextId).
    cbn [Post_findUniqueWith]. unfold Post_findUniqueWith_body.
    cbn [ta_where ta_select ta_include Post_preprocessListFields Post_id].
    unfold bind at 1. cbn [readStore db_now withStore setPostStore PostStore].
    cbn [tw_id where_Post_id whereFields numberKey].
    assert (Ekey : (Post_id row =? 0) = false) by now apply Z.eqb_neq.
    rewrite Ekey, (store_get_appended Post_id row _ Hbelow), Post_applyWhere_id.
    unfold Post_applyRelations, include_author. subst row.
    cbn [mapM ta_select ta_include ts_author ti_author ts_comments ti_comments
         attachment attach postRow Post_authorId].
    unfold bind, ret. rewrite User_findUniqueWith_id by reflexivity.
    cbn [authorOf db_now withStore setPostStore UserStore].
    apply Z.eqb_neq in k_truthy. rewrite k_truthy, connected.
    reflexivity.
Qed.

Lemma Post_create_then_include_author_witness :
  exists p w',
    Post_create 1 (PostCreate_withAuthor (mkPostCreate None "p3" None None None None None) 1)
                (openOn sampleStore) = Ok p w'
    /\ Post_findUniqueWith 2
         (mkPostArgs (Some (where_Post_id (Post_id p))) None None include_author) w'
       = Ok (Found (mkPostResult (Some (Post_id p)) (Some (Post_title p)) (Some (JVal 1))
                                 (Post_tags p) (Post_numberArr p)
                                 (Some (Found (User_result ann))) None)) w'.
Proof.
  apply (@Post_create_then_include_author 0 0 (mkPostCreate None "p3" None None None None None)
           1 ann (openOn sampleStore)).
  - reflexivity.
  - reflexivity.
  - lia.
  - reflexivity.
  - vm_compute. discriminate.
  - repeat split; vm_compute; first [reflexivity|discriminate].
Defined.

(** * The helpers of the generator *)

(** ** toCamelCase *)

Lemma toUpperCase_no_separator (c : ascii) :
  isSeparator c = false -> isSeparator (toUpperCase c) = false.
Proof. destruct c as [[] [] [] [] [] [] [] []]; vm_compute; auto. Qed.

Lemma toLowerCase_no_separator (c : ascii) :
  isSeparator c = false -> isSeparator (toLowerCase c) = false.
Proof. destruct c as [[] [] [] [] [] [] [] []]; vm_compute; auto. Qed.

Lemma toLowerCase_twice (c : ascii) : toLowerCase (toLowerCase c) = toLowerCase c.
Proof. destruct c as [[] [] [] [] [] [] [] []]; reflexivity. Qed.

Lemma isLineTerminator_separator (c : ascii) :
  isSeparator c = false -> isLineTerminator c = false.
Proof. destruct c as [[] [] [] [] [] [] [] []]; vm_compute; auto. Qed.

Lemma dropSeparators_noSeparator (afterSeparator : bool) (str : string) :
  noSeparator (dropSeparators afterSeparator str) = true.
Proof.
  revert afterSeparator. induction str as [|c rest IH]; intros b; [reflexivity|].
  cbn [dropSeparators]. destruct (isSeparator c) eqn:E; [apply IH|].
  unfold noSeparator in *. cbn [list_ascii_of_string forallb]. rewrite IH, andb_true_r.
  destruct b; [rewrite toUpperCase_no_separator by exact E|rewrite E]; reflexivity.
Qed.

Lemma dropSeparators_none (str : string) :
  noSeparator str = true -> dropSeparators false str = str.
Proof.
  unfold noSeparator. induction str as [|c rest IH]; [reflexivity|].
  cbn [list_ascii_of_string forallb dropSeparators]. intros H.
  apply andb_prop in H as [Hc Hrest]. apply negb_true_iff in Hc.
  now rewrite Hc, IH.
Qed.

Lemma lowerFirst_noSeparator (str : string) :
  noSeparator str = true -> noSeparator (lowerFirst str) = true.
Proof.
  unfold noSeparator. destruct str as [|c rest]; [reflexivity|].
  cbn [lowerFirst]. destruct (isLineTerminator c); [auto|].
  cbn [list_ascii_of_string forallb]. intros H.
  apply andb_prop in H as [Hc Hrest]. apply negb_true_iff in Hc.
  now rewrite toLowerCase_no_separator, Hrest.
Qed.

Lemma lowerFirst_twice (str : string) :
  noSeparator str = true -> lowerFirst (lowerFirst str) = lowerFirst str.
Proof.
  unfold noSeparator. destruct str as [|c rest]; [reflexivity|].
  cbn [list_ascii_of_string forallb]. intros H.
  apply andb_prop in H as [Hc _]. apply negb_true_iff in Hc.
  cbn [lowerFirst]. rewrite (isLineTerminator_separator _ Hc). cbn [lowerFirst].
  rewrite (isLineTerminator_separator _ (toLowerCase_no_separator _ Hc)).
  now rewrite toLowerCase_twice.
Qed.

(** X17.  [toCamelCase] on a name of code units below 128: the result has no
    [_], no [-] and no white space; converting it again changes nothing; and
    a name that has none of these to begin with only has its first character
    put in lower case. *)
Theorem toCamelCase_drops_separators (str : string) (ascii_name : isAsciiName str = true) :
  noSeparator (toCamelCase str) = true
  /\ toCamelCase (toCamelCase str) = toCamelCase str
  /\ (noSeparator str = true -> toCamelCase str = lowerFirst str).
Proof.
  unfold toCamelCase. repeat split.
  - apply lowerFirst_noSeparator, dropSeparators_noSeparator.
  - rewrite dropSeparators_none
      by apply lowerFirst_noSeparator, dropSeparators_noSeparator.
    apply lowerFirst_twice, dropSeparators_noSeparator.
  - intros H. now rewrite dropSeparators_none.
Qed.

Lemma toCamelCase_drops_separators_witness :
  toCamelCase "All_field scalar-Types" = "allFieldScalarTypes"%string
  /\ noSeparator (toCamelCase "All_field scalar-Types") = true
  /\ toCamelCase (toCamelCase "All_field scalar-Types")
     = toCamelCase "All_field scalar-Types"
  /\ (noSeparator "All_field scalar-Types" = true ->
      toCamelCase "All_field scalar-Types" = lowerFirst "All_field scalar-Types").
Proof.
  split; [reflexivity|].
  apply (@toCamelCase_drops_separators "All_field scalar-Types"). reflexivity.
Defined.

(** ** getModelFieldData *)

(** The fields of a list that are required and have no default, and those
    that are optional and have one. *)
Lemma defaults_and_required (l : list Field) :
  (List.length (filter hasDefaultValue l)
   + List.length (filter (fun f => isRequired f && negb (hasDefaultValue f)) l)
   = List.length l - List.length (filter (fun f => negb (isRequired f)) l)
     + List.length (filter (fun f => negb (isRequired f) && hasDefaultValue f) l))%nat
  /\ (List.length (filter (fun f => negb (isRequired f)) l) <= List.length l)%nat.
Proof.
  induction l as [|f l [IH Hle]]; [split; reflexivity|].
  cbn [filter]. destruct (isRequired f), (hasDefaultValue f); cbn [negb andb List.length];
    split; lia.
Qed.

Lemma length_filter_zero (A : Type) (p : A -> bool) (l : list A) :
  List.length (filter p l) = 0%nat <-> forall x, In x l -> p x = false.
Proof.
  induction l as [|y l IH]; cbn [filter].
  - split; [intros _ x []|reflexivity].
  - destruct (p y) eqn:E; cbn [List.length].
    + split; [discriminate|]. intros H. rewrite (H y (or_introl eq_refl)) in E. discriminate.
    + rewrite IH. split.
      * intros H x [<-|Hx]; [exact E|now apply H].
      * intros H x Hx. apply H. now right.
Qed.

(** X18.  [allRequiredFieldsHaveDefaults] compares two counts, so it is true
    exactly when the model has as many required fields without a default as
    optional fields with one.  When no optional field has a default it says
    what its name says; otherwise it can be true although a required field
    has no default. *)
Theorem allRequiredFieldsHaveDefaults_counts (JSON : Type)
    (JSON_stringify : list string -> JSON) (JSON_parse : JSON -> list string)
    (model : Model) (data : ModelFieldData)
    (returned : getModelFieldData JSON_stringify JSON_parse model = inr data) :
  (allRequiredFieldsHaveDefaults data = true
   <-> List.length (filter (fun f => isRequired f && negb (hasDefaultValue f))
                           (model_fields model))
       = List.length (filter (fun f => negb (isRequired f) && hasDefaultValue f)
                             (model_fields model)))
  /\ ((forall f, In f (model_fields model) -> isRequired f = false ->
                 hasDefaultValue f = false) ->
      (allRequiredFieldsHaveDefaults data = true
       <-> forall f, In f (model_fields model) -> isRequired f = true ->
                     hasDefaultValue f = true)).
Proof.
  unfold getModelFieldData in returned.
  destruct (generateIDBKey JSON_stringify model) as [e|key]; [discriminate|].
  injection returned as <-. cbn [allRequiredFieldsHaveDefaults].
  destruct (defaults_and_required (model_fields model)) as [Hcount Hle].
  assert (Hflag :
    Nat.eqb (List.length (filter hasDefaultValue (model_fields model)))
            (List.length (model_fields model)
             - List.length (filter (fun f => negb (isRequired f)) (model_fields model)))
    = true
    <-> List.length (filter (fun f => isRequired f && negb (hasDefaultValue f))
                            (model_fields model))
        = List.length (filter (fun f => negb (isRequired f) && hasDefaultValue f)
                              (model_fields model))).
  { rewrite Nat.eqb_eq. lia. }
  split; [exact Hflag|].
  intros Hoptional. rewrite Hflag.
  assert (Hnone : List.length (filter (fun f => negb (isRequired f) && hasDefaultValue f)
                                      (model_fields model)) = 0%nat).
  { apply length_filter_zero. intros f Hf.
    destruct (isRequired f) eqn:E; [reflexivity|]. cbn. now apply Hoptional. }
  rewrite Hnone, length_filter_zero. split.
  - intros H f Hf Hreq. specialize (H f Hf). rewrite Hreq in H. cbn in H.
    now apply negb_false_iff in H.
  - intros H f Hf. destruct (isRequired f) eqn:E; [|reflexivity].
    cbn. now rewrite (H f Hf E).
Qed.

Lemma allRequiredFieldsHaveDefaults_counts_witness :
  exists data,
    getModelFieldData (fun names => names) (fun names => names) unevenModel = inr data
    /\ allRequiredFieldsHaveDefaults data = true
    /\ hasDefaultValue (mkField "title" false false true false) = false.
Proof.
  eexists. split; [reflexivity|]. split; [|reflexivity].
  destruct (@allRequiredFieldsHaveDefaults_counts (list string) (fun names => names)
              (fun names => names) unevenModel _ eq_refl) as [[_ counted] _].
  apply counted. reflexivity.
Defined.
